(* ===== verification/_CoqProject ===== *)
-Q . S2P
Prelude.v
Exceptions.v
UriTypes.v
Uuid.v
X3.v
StableSort.v
Double.v
UriGrammar.v
UriPathFacts.v
UriQuery.v
UriQueryFacts.v
Libyang.v
YangUtils.v
UriRequest.v
UriRequestFacts.v
HttpUtils.v
HttpUtilsFacts.v
DataFormat.v
Nacm.v
Pam.v
PamFacts.v
HttpAuth.v
EventStream.v
DynamicSubscriptions.v
DynamicSubscriptionsFacts.v
Effects.v
Responses.v
Edits.v
Handlers.v
YangSchemaLocations.v
NotificationStream.v
SubscriptionStream.v
SubscriptionRpc.v
SrEvents.v
NotificationFacts.v
Links.v
Server.v
RequestTypes.v
Telemetry.v
ServerLife.v
EditsFacts.v
PutTarget.v
ServerFacts.v
StatusFacts.v
HandlersFacts.v
SubscriptionRpcFacts.v
ServerResponses.v
ServerAccess.v
ServerEdits.v
WriteEdits.v
ServerSample.v
PatchResponses.v
WriteSample.v
GetFacts.v
SubscriptionSample.v
SubscriptionWire.v
NotificationWire.v
System.v
Isolation.v
Delivery.v
StreamSample.v
Startup.v
