(* ===== verification/Prelude.v ===== *)
(** * rousette, a RESTCONF server: formal development

    rousette (sources under [src/src]) is an HTTP/2 server that gives access to a YANG
    datastore, kept by sysrepo, by the RESTCONF protocol (RFC 8040).  A request passes through
    these parts, which are the files of this library:

    - authorization: [auth/Http.cpp] takes the credentials of the request to PAM
      ([auth/PAM.cpp]) or maps the request to the anonymous user, which [auth/Nacm.cpp] lets in
      only under strict access rules;
    - content negotiation: [restconf/utils/dataformat.cpp] on top of the header parsers of
      [http/utils.cpp];
    - URI processing: [restconf/uri.cpp] parses the path and the query, checks them against the
      method and the YANG schema and translates them to a libyang path, with the key
      predicates of [restconf/utils/yang.cpp]; errors are [restconf/Exceptions.cpp];
    - the handlers of [restconf/Server.cpp]: reading data, edits from request bodies, YANG patch,
      RPCs and actions, with the links of [restconf/YangSchemaLocations.cpp];
    - event streams: [http/EventStream.cpp] is the queue behind a text/event-stream response;
      [restconf/NotificationStream.cpp] fills it with notifications, [restconf/DynamicSubscriptions.cpp]
      manages the subscriptions such streams consume, [sr/] follows changes of data.

    ** Files, definitions and sources

    - [Prelude] (this file): exceptions as values ([result], the monad of code that may throw),
      strings as the code uses them, character classes, tactics.
    - [Exceptions]: [ErrorResponse], the URI syntax errors, the sum [exn] of all exceptions.  The
      constructor [EUndefined] stands for undefined behaviour.
    - [X3]: the operators of Boost.Spirit X3 the grammars use, as a class with the documented laws
      ([X3Laws]), generic lemmas (parsers move forward, [ensures]) and an engine [x3_ref] that
      satisfies the laws.
    - [UriTypes], [Uuid], [UriGrammar], [UriQuery]: the types of [uri.h], UUIDs, and every
      grammar rule of [uri.cpp] under its own name.  [UriPathFacts] and [UriQueryFacts] prove
      that the parsers invert the renderers, that what they accept is well-formed, and
      that what they reject is reported with the right position.
    - [Libyang]: the schema operations the server calls, as a class with laws and a sample schema.
      [YangUtils], [UriRequest]: [utils/yang.cpp], and the rest of [uri.cpp] function by
      function.  [UriRequestFacts]: no path injection, totality, the request type fits the
      method and node, allowed methods, fields.
    - [StableSort], [Double]: [std::stable_sort], and [std::stod] on decimals by the
      IEEE 754 arithmetic of the Standard Library.  [HttpUtils], [HttpUtilsFacts]:
      [http/utils.cpp].  [DataFormat]: [utils/dataformat.cpp].
    - [Nacm], [Pam], [PamFacts], [HttpAuth]: the files of [auth/].
    - [EventStream]: the stream of server-sent events as a step relation over the signals, the
      tasks of the event loop, the reads of nghttp2 and the closing of the stream.
    - [DynamicSubscriptions], [DynamicSubscriptionsFacts]: the registry and a heap of
      subscription objects shared with streams, the RPCs and timers as a step relation.
    - [Effects]: programs over the calls of libyang, sysrepo and the HTTP library ([Cmd], [prog]),
      their traces ([runs]), weakest preconditions for monitors ([wp]), and exact outcomes ([ends]).
    - [Responses], [Edits], [Handlers], [Server]: [Server.cpp], function by function; the lambdas of
      the constructor have the names of what they handle ([restconfHandler], [onBody],
      [yangSchemaHandler], [streamsHandler]).  [serveRestconf] is a whole request with its body.
      [YangSchemaLocations], [NotificationStream]: the files of that name, with the
      envelope of a notification of [utils/yang.cpp].
    - [SubscriptionStream], [SubscriptionRpc]: the classes of [DynamicSubscriptions.cpp] as programs: taking
      notifications from the pipe ([utils/io.cpp]), and the RPCs on input trees, which
      implement the interface [DynSubs] of the handlers by the registry.
    - [SrEvents]: [sr/OpticalEvents.cpp] and [sr/AllEvents.cpp].  [Telemetry]: its clients.
      [ServerLife]: stop, join and the destructor of the server, and the guard of [utils/sysrepo.cpp].
      [Startup]: [main.cpp] and the constructor of the server over what they ask of the system ([Host]), and the
      process that waits for a signal as a step relation.
    - [System]: the handlers, the access rules and the registry of subscriptions as one system whose steps
      are the activities of its threads.
    - [SubscriptionWire], [NotificationWire]: the stream of one client of a subscription from the pipe to the bytes
      of the response, and of a notification stream from the callbacks to the bytes.  [Isolation], [Delivery]: the
      whole system with what the clients of subscriptions get, and who can end a subscription.
    - [RequestTypes], [EditsFacts], [ServerFacts], [StatusFacts], [HandlersFacts], [ServerResponses],
      [ServerAccess], [ServerEdits], [PutTarget], [WriteEdits], [GetFacts], [SubscriptionRpcFacts],
      [NotificationFacts], [Links], [PatchResponses]: the theorems about these programs.  [ServerSample], [WriteSample],
      [SubscriptionSample], [StreamSample]: runs on concrete requests.

    ** What the theorems show

    Parsing is exact: round trips, soundness and error positions of paths, queries, headers,
    credentials and predicates.  Requests are safe: only [ErrorResponse] leaves the request
    parser, key values cannot change the structure of a path, the parameters of an accepted request
    have the types the handlers assume, content negotiation has no undefined behaviour.

    Every request is answered once ([ServerResponses]), with a success status only after
    sysrepo applied what was asked; YANG patch is the exception, and [PatchResponses] shows what its client is
    told: every rejected edit, and a patch that is not applied, is answered at once, and then success is reported.  Data are
    accessed only by the user PAM verified or by the anonymous user under validated rules, read-only
    datastores are not written ([ServerAccess]), and what reaches sysrepo has been
    searched for attributes that steer it ([ServerEdits]).  Sysrepo is asked what the client asked for: a GET is one
    query ([GetFacts]), and an edit has the operations of the request on the nodes its URI or its targets
    name, with the keys of the URI up to canonical form ([PutTarget], [WriteEdits]); the reply to a GET is
    the text of the tree sysrepo returned, with only its links changed ([GetFacts]).  [System] puts this
    together: for any interleaving of access rules, requests, late bodies, streams and timers, subscriptions stay
    consistent and no access is made without the authorization of its request.  [Delivery] follows the clients of
    subscriptions from their credentials to the bytes they decode: they are authorized owners, they get the
    notifications sysrepo writes in order and each once, no wake-up is lost, and everything in the pipe can get to
    them; [Isolation] shows who can end a subscription, and in which step: an RPC, a new subscription with its UUID, or its
    inactivity timer, whose queued completion ends it even if a client has connected since it expired.

    Subscriptions are consistent in every reachable state, visible to their owner only, and every
    request served keeps them so; the RPCs on data trees refine the functions on the
    registry ([SubscriptionRpcFacts]).  Streams deliver every event once and in order for any
    interleaving and any buffer sizes, telemetry has no gaps, the links in published data lead back to
    the server ([Links]), the server listens only when all it relies on is there, and a signal ends the
    process and every response ([Startup], [ServerLife]).  Loops
    that are bounded by data end, or the theorem says when they do not ([removeEmpty_terminates]).
    Some theorems record behaviour that is not what the code means to do, e.g.
    [unused_subscription_not_cleaned_up], [queued_completion_ends_connected], [timeout_overflows], [narrowed_deny_rule_accepted], [auth_reply_after_close],
    [refused_format_chosen], [allEvents_listens_to_one], [telemetry_misses_change].

    ** Parameters and bounds

    Boost.Spirit, libyang, the UUID generator, sysrepo, libpam and Boost's base64 iterators are
    not part of the repository: they are classes or section variables with named laws, and each
    class has an instance that satisfies its laws and serves the witnesses.  The repetition of
    [x3_ref] is bounded by the length of the input plus one ([Ref.kleene_go_enough]); the
    recursive [fields] grammar runs with the length of the input as fuel, which is enough
    ([run_fieldsSemi_enough]).  [unsigned] values are kept modulo [2^32].

    The calls of the handlers may be answered in any way, exceptions included.  A theorem that
    needs more says what: [lawful] ([ServerFacts]: the HTTP library and printing do not fail, libyang and
    sysrepo do not throw the exceptions of the server), or that the answers are those of a
    given input tree ([tree_answers]), forest ([forest_answers]), list entry ([entry_answers]),
    list of streams ([list_answers]), that libyang makes the nodes of an edit anew ([new_nodes]), or a forest with canonical values ([data_answers]).  The climb to
    the root of a tree and the loop over attributes have fuel: the depth of the node is enough for the
    first, the number of attributes for the second if it ends at all.

    ** Not modelled

    Logging, apart from the choice of its sink.  Of the constructor of the server, the dispatch of paths to the
    handlers, which is the HTTP library's.  The mutexes: handlers that hold one for their whole
    effect are atomic steps, and where the order of threads is visible (event streams, the delayed
    error response, subscriptions, telemetry, the whole system) there are step relations.  What remains of the source are
    declarations, trivial constructors and the adaptation of structures for Boost.  Telemetry and
    notification streams are modelled from their callbacks to the bytes, but are not parts of [Delivery]; the contents
    of operational data are sysrepo's, and the theorems are about the calls that give them to it. *)

From Stdlib Require Export Ascii.
From stdpp Require Export base tactics list strings gmap pretty.

#[export] Set Warnings "-clear-no-such-hyp".

Declare Scope rousette_scope.
Delimit Scope rousette_scope with rousette.
Open Scope rousette_scope.

(** ** Exceptions as values: the result of a C++ function that may throw *)

Inductive result (E A : Type) : Type :=
| Ok (a : A)
| Throw (e : E).
Arguments Ok {E A} a.
Arguments Throw {E A} e.

#[export] Instance result_ret E : MRet (result E) := λ A a, Ok a.
#[export] Instance result_bind E : MBind (result E) := λ A B f m,
  match m with Ok a => f a | Throw e => Throw e end.
#[export] Instance result_fmap E : FMap (result E) := λ A B f m,
  match m with Ok a => Ok (f a) | Throw e => Throw e end.

(** A [try { m } catch (e) { h(e) }] block. *)
Definition try_catch {E A} (m : result E A) (h : E → result E A) : result E A :=
  match m with Ok a => Ok a | Throw e => h e end.

(** A [throw] guarded by an [if]: the statement [if (b) throw e;]. *)
Definition throw_if {E} (b : bool) (e : E) : result E unit :=
  if b then Throw e else Ok tt.

(** A range-[for] whose body may throw. *)
Fixpoint for_each {E A} (f : A → result E unit) (l : list A) : result E unit :=
  match l with
  | [] => Ok tt
  | x :: l => _ ← f x; for_each f l
  end.

Definition is_ok {E A} (m : result E A) : bool :=
  match m with Ok _ => true | Throw _ => false end.

Section result.
Context {E : Type}.

Lemma bind_Ok {A B} (a : A) (f : A → result E B) : Ok a ≫= f = f a.
Proof. done. Qed.

Lemma bind_Ok_inv {A B} (m : result E A) (f : A → result E B) b :
  m ≫= f = Ok b → ∃ a, m = Ok a ∧ f a = Ok b.
Proof. destruct m; simpl; intros; simplify_eq; eauto. Qed.

Lemma bind_Throw_inv {A B} (m : result E A) (f : A → result E B) e :
  m ≫= f = Throw e → m = Throw e ∨ ∃ a, m = Ok a ∧ f a = Throw e.
Proof. destruct m; simpl; intros; simplify_eq; eauto. Qed.

Lemma throw_if_Ok_inv b (e : E) u : throw_if b e = Ok u → b = false.
Proof. by destruct b. Qed.

Lemma throw_if_Throw_inv b (e e' : E) : throw_if b e = Throw e' → b = true ∧ e' = e.
Proof. destruct b; simpl; intros; simplify_eq; done. Qed.

Lemma try_catch_Ok_inv {A} (m : result E A) h a :
  try_catch m h = Ok a → m = Ok a ∨ ∃ e, m = Throw e ∧ h e = Ok a.
Proof. destruct m; simpl; intros; simplify_eq; eauto. Qed.

Lemma try_catch_Throw_inv {A} (m : result E A) h e :
  try_catch m h = Throw e → ∃ e', m = Throw e' ∧ h e' = Throw e.
Proof. destruct m; simpl; intros; simplify_eq; eauto. Qed.

Lemma for_each_Ok {A} (f : A → result E unit) l :
  for_each f l = Ok tt ↔ Forall (λ x, f x = Ok tt) l.
Proof.
  induction l as [|x l IH]; simpl; [by split|].
  rewrite Forall_cons, <- IH. destruct (f x) as [[]|e]; simpl; naive_solver.
Qed.

Lemma for_each_Throw {A} (f : A → result E unit) l e :
  for_each f l = Throw e → ∃ x, x ∈ l ∧ f x = Throw e.
Proof.
  induction l as [|x l IH]; simpl; [done|].
  destruct (f x) as [[]|e'] eqn:Hx; simpl; intros; simplify_eq.
  - destruct IH as (y & ? & ?); [done|]. exists y. split; [by right|done].
  - exists x. split; [by left|done].
Qed.

Lemma is_ok_true {A} (m : result E A) : is_ok m = true ↔ ∃ a, m = Ok a.
Proof. destruct m; naive_solver. Qed.
End result.

Lemma take_app_min {A} k (l l' : list A) : take (k `min` length l) (l ++ l') = take k l.
Proof. rewrite take_app_le by lia. destruct (Nat.le_ge_cases k (length l)); [by rewrite Nat.min_l|]. rewrite Nat.min_r by done. by rewrite !take_ge by lia. Qed.
Lemma forallb_Forall {A} (f : A → bool) l : forallb f l = true ↔ Forall (λ x, f x = true) l.
Proof.
  induction l as [|x l IH]; simpl; [by split|]. by rewrite andb_true_iff, Forall_cons, IH.
Qed.

(** [inv_result] turns the hypotheses that say how a chain of binds ended into
    what each step returned. *)
Ltac inv_result_step :=
  match goal with
  | H : (_ ≫= _) = Ok _ |- _ => apply bind_Ok_inv in H as (? & ? & H)
  | H : throw_if _ _ = Ok _ |- _ => apply throw_if_Ok_inv in H
  | H : throw_if _ _ = Throw _ |- _ => apply throw_if_Throw_inv in H as [? ?]
  | H : Ok _ = Ok _ |- _ => injection H as H; try subst
  | H : Throw _ = Throw _ |- _ => injection H as H; try subst
  | H : Ok _ = Throw _ |- _ => discriminate H
  | H : Throw _ = Ok _ |- _ => discriminate H
  | H : mret _ = _ |- _ => unfold mret, result_ret in H
  | H : (_ <$> ?m) = Ok _ |- _ => destruct m eqn:?; simpl in H
  end.
Ltac inv_result := repeat inv_result_step.

(** ** Strings *)

Create Rewrite HintDb str.

Section strings.
Implicit Types s t u : string.
Implicit Types c : ascii.

Lemma str_app_nil_l s : "" +:+ s = s.
Proof. done. Qed.
Lemma str_app_cons c s t : String c s +:+ t = String c (s +:+ t).
Proof. done. Qed.
Lemma str_app_nil_r s : s +:+ "" = s.
Proof. induction s as [|c s IH]; [done|]. by rewrite str_app_cons, IH. Qed.
Lemma str_app_assoc s t u : (s +:+ t) +:+ u = s +:+ t +:+ u.
Proof. induction s as [|c s IH]; [done|]. by rewrite !str_app_cons, IH. Qed.
Lemma str_length_app s t : String.length (s +:+ t) = String.length s + String.length t.
Proof. induction s as [|c s IH]; [done|]. rewrite str_app_cons; simpl; lia. Qed.

(** [str.find(c) != npos] *)
Fixpoint str_contains (c : ascii) s : bool :=
  match s with
  | "" => false
  | String c' s => Ascii.eqb c c' || str_contains c s
  end.

(** [str.starts_with(p)], and what is left after the prefix. *)
Fixpoint strip_prefix (p s : string) : option string :=
  match p, s with
  | "", _ => Some s
  | String c p, String c' s => if decide (c = c') then strip_prefix p s else None
  | String _ _, "" => None
  end.
Definition starts_with (p s : string) : bool := bool_decide (is_Some (strip_prefix p s)).

Fixpoint last_char s : option ascii :=
  match s with
  | "" => None
  | String c "" => Some c
  | String _ s => last_char s
  end.
Definition ends_with_char (c : ascii) s : bool := bool_decide (last_char s = Some c).

(** The longest prefix whose characters satisfy [P], and the rest. *)
Fixpoint span (P : ascii → bool) s : string * string :=
  match s with
  | "" => ("", "")
  | String c s' => if P c then let '(a, r) := span P s' in (String c a, r) else ("", s)
  end.

Fixpoint str_forall (P : ascii → bool) s : bool :=
  match s with "" => true | String c s => P c && str_forall P s end.

(** The next character, if any, satisfies [P]. *)
Definition head_is (P : ascii → bool) s : bool :=
  match s with "" => false | String c _ => P c end.

Fixpoint str_map (f : ascii → ascii) s : string :=
  match s with "" => "" | String c s => String (f c) (str_map f s) end.

Lemma strip_prefix_Some p s r : strip_prefix p s = Some r ↔ s = p +:+ r.
Proof.
  revert s. induction p as [|c p IH]; intros [|c' s]; simpl.
  - rewrite str_app_nil_l. naive_solver.
  - rewrite str_app_nil_l. naive_solver.
  - rewrite str_app_cons. naive_solver.
  - rewrite str_app_cons. case_decide; subst; [rewrite IH; naive_solver|naive_solver].
Qed.
Lemma strip_prefix_app p r : strip_prefix p (p +:+ r) = Some r.
Proof. by apply strip_prefix_Some. Qed.

Lemma span_app P a r :
  str_forall P a = true → head_is P r = false → span P (a +:+ r) = (a, r).
Proof.
  intros Ha Hr. induction a as [|c a IH].
  - rewrite str_app_nil_l. destruct r as [|c r]; simpl in *; [done|]. by rewrite Hr.
  - rewrite str_app_cons. simpl in *. apply andb_true_iff in Ha as [-> Ha].
    by rewrite IH.
Qed.
Lemma span_spec P s a r :
  span P s = (a, r) → s = a +:+ r ∧ str_forall P a = true ∧ head_is P r = false.
Proof.
  revert a r. induction s as [|c s IH]; simpl; intros a r H; simplify_eq; [done|].
  destruct (P c) eqn:HP; [|by simplify_eq; simpl; rewrite HP].
  destruct (span P s) as [a' r'] eqn:Hs. simplify_eq.
  destruct (IH a' r eq_refl) as (-> & Ha & Hr). simpl. by rewrite HP, Ha.
Qed.
Lemma span_length P s a r :
  span P s = (a, r) → String.length r ≤ String.length s.
Proof. intros [-> _]%span_spec. rewrite str_length_app. lia. Qed.

Lemma str_forall_app P s t : str_forall P (s +:+ t) = str_forall P s && str_forall P t.
Proof.
  induction s as [|c s IH]; [done|]. rewrite str_app_cons. simpl. rewrite IH. by rewrite andb_assoc.
Qed.
Lemma str_forall_impl (P Q : ascii → bool) s :
  (∀ c, P c = true → Q c = true) → str_forall P s = true → str_forall Q s = true.
Proof.
  intros HPQ. induction s as [|c s IH]; simpl; [done|].
  intros [? ?]%andb_true_iff. rewrite HPQ, IH; done.
Qed.
Lemma str_contains_app c s t : str_contains c (s +:+ t) = str_contains c s || str_contains c t.
Proof.
  induction s as [|c' s IH]; [done|]. rewrite str_app_cons. simpl. rewrite IH. by rewrite orb_assoc.
Qed.
Lemma str_contains_false c s :
  str_contains c s = false ↔ str_forall (λ c', negb (Ascii.eqb c c')) s = true.
Proof.
  induction s as [|c' s IH]; simpl; [done|].
  rewrite orb_false_iff, andb_true_iff, IH, negb_true_iff. done.
Qed.

Lemma str_app_eq_nil s t : s +:+ t = "" ↔ s = "" ∧ t = "".
Proof. destruct s; [rewrite str_app_nil_l|rewrite str_app_cons]; naive_solver. Qed.
Lemma string_of_list_app (l k : list ascii) :
  String.string_of_list_ascii (l ++ k) =
  String.string_of_list_ascii l +:+ String.string_of_list_ascii k.
Proof. induction l as [|c l IH]; simpl; [done|]. by rewrite IH. Qed.
End strings.

#[export] Hint Rewrite str_app_nil_l str_app_cons str_app_nil_r str_app_assoc : str.

(** The string literal made of one double quote character (34). *)
Definition dquote_char : ascii := "034".
Definition dquote : string := String dquote_char "".
Definition squote_char : ascii := "'".
Definition squote : string := String squote_char "".

(** [boost::algorithm::join] *)
Definition join (sep : string) (l : list string) : string := String.concat sep l.

(** ** Character classes, in the "C.UTF-8" locale [main] selects *)

Definition in_range (lo hi : N) (c : ascii) : bool :=
  let n := Ascii.N_of_ascii c in N.leb lo n && N.leb n hi.
Definition is_upper : ascii → bool := in_range 65 90.
Definition is_lower : ascii → bool := in_range 97 122.
Definition is_alpha (c : ascii) : bool := is_upper c || is_lower c.
Definition is_digit : ascii → bool := in_range 48 57.
Definition is_alnum (c : ascii) : bool := is_alpha c || is_digit c.
Definition is_xdigit (c : ascii) : bool := is_digit c || in_range 65 70 c || in_range 97 102 c.
Definition is_space (c : ascii) : bool := in_range 9 13 c || in_range 32 32 c.
Definition is_char (c d : ascii) : bool := Ascii.eqb c d.
Definition any_char (c : ascii) : bool := true.

Lemma is_char_true c d : is_char c d = true ↔ c = d.
Proof. apply Ascii.eqb_eq. Qed.
Lemma is_char_refl c : is_char c c = true.
Proof. by apply is_char_true. Qed.

#[global] Arguments in_range : simpl never.
#[global] Arguments is_upper : simpl never.
#[global] Arguments is_lower : simpl never.
#[global] Arguments is_alpha : simpl never.
#[global] Arguments is_digit : simpl never.
#[global] Arguments is_alnum : simpl never.
#[global] Arguments is_xdigit : simpl never.
#[global] Arguments is_space : simpl never.
#[global] Arguments is_char : simpl never.
#[global] Arguments Ascii.eqb : simpl never.

Definition to_lower (c : ascii) : ascii :=
  if is_upper c then Ascii.ascii_of_N (Ascii.N_of_ascii c + 32) else c.

#[global] Arguments to_lower : simpl never.

(** Facts about one character are settled by looking at all 256 of them. *)
Ltac by_all_chars :=
  match goal with
  | |- ∀ c : ascii, _ =>
      let c := fresh "c" in
      intros c; destruct c as [[] [] [] [] [] [] [] []]; vm_compute; try done
  end.
