(* ===== verification/Exceptions.v ===== *)
(** * Exceptions: the errors the server throws

    [restconf/Exceptions.h] and [.cpp] ([ErrorResponse] and the URI syntax errors), and
    the other exception types the modelled code throws or catches as one sum type. *)

From S2P Require Import Prelude.

(** [unsigned int] arithmetic: values are kept modulo [2^32]. *)
Definition u32 (n : N) : N := N.modulo n (2 ^ 32).

Record ErrorInfo := mkErrorInfo {
  containerName : string;
  leafs : list (string * string)
}.

Record ErrorResponse := mkErrorResponse {
  code : Z;
  errorTag : string;
  errorType : string;
  errorMessage : string;
  errorPath : option string;
  errorInfo : option ErrorInfo
}.

#[export] Instance ErrorInfo_eq_dec : EqDecision ErrorInfo.
Proof. solve_decision. Defined.
#[export] Instance ErrorResponse_eq_dec : EqDecision ErrorResponse.
Proof. solve_decision. Defined.

(** The constructor: no error info, the error path is optional. *)
Definition newErrorResponse (code : Z) (errorType errorTag errorMessage : string)
    (errorPath : option string) : ErrorResponse :=
  mkErrorResponse code errorTag errorType errorMessage errorPath None.

Definition constructErrorMessage (uriSegment : string) : string :=
  "Syntax error in URI (" +:+ uriSegment +:+ ")".

Definition constructErrorMessageAt (uriSegment : string) (position : N) (expectedToken : string) : string :=
  constructErrorMessage uriSegment +:+ " at position " +:+ pretty position +:+
  ": expected " +:+ expectedToken.

Definition UriSyntaxError (uriSegment : string) : ErrorResponse :=
  newErrorResponse 400 "protocol" "invalid-value" (constructErrorMessage uriSegment) None.

Definition UriSyntaxErrorAt (uriSegment : string) (position : N) (expectedToken : string) : ErrorResponse :=
  let e := newErrorResponse 400 "protocol" "invalid-value"
             (constructErrorMessageAt uriSegment position expectedToken) None in
  mkErrorResponse (code e) (errorTag e) (errorType e) (errorMessage e) (errorPath e)
    (Some (mkErrorInfo "uri-error"
             [("offset", pretty position); ("expected-token", expectedToken)])).

Definition UriPathSyntaxError : ErrorResponse := UriSyntaxError "path".
Definition UriPathSyntaxErrorAt : N → string → ErrorResponse := UriSyntaxErrorAt "path".
Definition UriQuerySyntaxError : ErrorResponse := UriSyntaxError "query".
Definition UriQuerySyntaxErrorAt : N → string → ErrorResponse := UriSyntaxErrorAt "query".

(** The error codes of sysrepo and libyang the server tells apart. *)
Inductive SrErrorCode :=
| SrUnauthorized | SrNotFound | SrItemAlreadyExists | SrValidationFailed | SrInvalidArgument
| SrOther (n : Z).
Inductive LyErrorCode := LyValidationFailure | LyOther (n : Z).

Inductive exn :=
| EResponse (e : ErrorResponse)
| EAuth (what : string) (delay : option N)
| ELibyang (c : LyErrorCode) (what : string)
| ESysrepo (c : SrErrorCode) (what : string)
| EInvalidArgument (what : string)
| ERuntime (what : string)
| ELogic (what : string)
| EOutOfRange (what : string)
| EUndefined (what : string).  (** not an exception: the behaviour is undefined *)

#[export] Instance SrErrorCode_eq_dec : EqDecision SrErrorCode.
Proof. solve_decision. Defined.
#[export] Instance LyErrorCode_eq_dec : EqDecision LyErrorCode.
Proof. solve_decision. Defined.
#[export] Instance exn_eq_dec : EqDecision exn.
Proof. solve_decision. Defined.

Abbreviation M := (result exn).

(** [throw ErrorResponse(...)] *)
Definition throwResponse {A} (code : Z) (errorType errorTag errorMessage : string) : M A :=
  Throw (EResponse (newErrorResponse code errorType errorTag errorMessage None)).
Definition throwResponseAt {A} (code : Z) (errorType errorTag errorMessage path : string) : M A :=
  Throw (EResponse (newErrorResponse code errorType errorTag errorMessage (Some path))).

(** The computation ends normally or with an [ErrorResponse]: no other exception leaves it. *)
Definition only_responses {A} (m : M A) : Prop :=
  match m with Ok _ => True | Throw (EResponse _) => True | Throw _ => False end.

(** Every [ErrorResponse] it throws has the HTTP status 400. *)
Definition bad_request {A} (m : M A) : Prop :=
  match m with Throw (EResponse e) => code e = 400%Z | _ => True end.
