(* ===== verification/UriTypes.v ===== *)
(** * UriTypes: the data of [restconf/uri.h] and [restconf/uri_impl.h] *)

From S2P Require Import Prelude.

Record ApiIdentifier := mkApi { prefix : option string; identifier : string }.
Definition api2 (p i : string) : ApiIdentifier := mkApi (Some p) i.
Definition api1 (i : string) : ApiIdentifier := mkApi None i.

(** [ApiIdentifier::name()] *)
Definition api_name (a : ApiIdentifier) : string :=
  match prefix a with
  | None => identifier a
  | Some p => p +:+ ":" +:+ identifier a
  end.

Record PathSegment := mkSeg { apiIdent : ApiIdentifier; keys : list string }.

#[export] Instance ApiIdentifier_eq_dec : EqDecision ApiIdentifier.
Proof. solve_decision. Defined.
#[export] Instance PathSegment_eq_dec : EqDecision PathSegment.
Proof. solve_decision. Defined.

Scheme All for option.

(** [queryParams::fields]: the AST of a fields expression. *)
Inductive Expr :=
| SlashExpr (lhs : ApiIdentifier) (rhs : option Expr)
| ParenExpr (lhs : Expr) (rhs : option Expr)
| SemiExpr (lhs : Expr) (rhs : option Expr).

(** [queryParams::QueryParamValue] *)
Inductive QueryParamValue :=
| UnboundedDepth
| UnsignedInt (n : N)
| StdString (s : string)
| Trim | Explicit | ReportAll | ReportAllTagged
| AllNodes | OnlyNonConfigNodes | OnlyConfigNodes
| First | Last | Before | After
| PointParsed (point : list PathSegment)
| Fields (e : Expr).

(** [std::multimap]: entries in key order, equal keys in insertion order. *)
Abbreviation QueryParams := (list (string * QueryParamValue)).

Section multimap.
Context {V : Type}.
Implicit Types m : list (string * V).

Fixpoint mm_insert (k : string) (v : V) m : list (string * V) :=
  match m with
  | [] => [(k, v)]
  | (k', v') :: m => if String.ltb k k' then (k, v) :: (k', v') :: m else (k', v') :: mm_insert k v m
  end.
Fixpoint mm_find (k : string) m : option V :=
  match m with
  | [] => None
  | (k', v) :: m => if decide (k = k') then Some v else mm_find k m
  end.
Definition mm_of_list (l : list (string * V)) : list (string * V) :=
  fold_left (λ m '(k, v), mm_insert k v m) l [].

Lemma elem_of_mm_insert k v m x : x ∈ mm_insert k v m ↔ x = (k, v) ∨ x ∈ m.
Proof.
  induction m as [|[k' v'] m IH]; simpl; [set_solver|].
  destruct (String.ltb k k'); set_solver.
Qed.
Lemma elem_of_mm_of_list l x : x ∈ mm_of_list l ↔ x ∈ l.
Proof.
  assert (∀ m, x ∈ fold_left (λ m '(k, v), mm_insert k v m) l m ↔ x ∈ m ∨ x ∈ l) as H.
  { induction l as [|[k v] l IH]; intros m; simpl; [set_solver|].
    rewrite IH, elem_of_mm_insert. set_solver. }
  unfold mm_of_list. rewrite H. set_solver.
Qed.
Lemma mm_find_elem_of k m v : mm_find k m = Some v → (k, v) ∈ m.
Proof.
  induction m as [|[k' v'] m IH]; simpl; [done|]. case_decide; intros; simplify_eq; [left|right; auto].
Qed.
Lemma mm_find_None k m : mm_find k m = None ↔ k ∉ m.*1.
Proof.
  induction m as [|[k' v'] m IH]; csimpl; [set_solver|]. case_decide; set_solver.
Qed.
End multimap.

(** [RestconfRequest::Type] *)
Inductive RequestType :=
| GetData | CreateOrReplaceThisNode | DeleteNode | Execute | ExecuteInternal | CreateChildren
| YangLibraryVersionReq | OptionsQuery | MergeData | RestconfRootReq | ListRPC.

(** [sysrepo::Datastore] *)
Inductive Datastore := Running | Operational | Candidate | Startup | FactoryDefault.

(** [libyang::DataFormat], the two formats the server uses *)
Inductive DataFormat := JSON | XML.

#[export] Instance RequestType_eq_dec : EqDecision RequestType.
Proof. solve_decision. Defined.
#[export] Instance Datastore_eq_dec : EqDecision Datastore.
Proof. solve_decision. Defined.
#[export] Instance DataFormat_eq_dec : EqDecision DataFormat.
Proof. solve_decision. Defined.

Record RestconfRequest := mkRequest {
  type : RequestType;
  datastore : option Datastore;
  path : string;
  queryParams : QueryParams
}.

(** [impl::URIPrefix::Type] *)
Inductive PrefixType :=
| RestconfRoot | BasicRestconfData | BasicRestconfOperations | NMDADatastore | YangLibraryVersion.
#[export] Instance PrefixType_eq_dec : EqDecision PrefixType.
Proof. solve_decision. Defined.

Record URIPrefix := mkPrefix { resourceType : PrefixType; uri_datastore : option ApiIdentifier }.
Record URIPath := mkPath { uri_prefix : URIPrefix; segments : list PathSegment }.
Record YangModule := mkModule { mod_name : string; mod_revision : option string }.

#[export] Instance URIPrefix_eq_dec : EqDecision URIPrefix.
Proof. solve_decision. Defined.
#[export] Instance URIPath_eq_dec : EqDecision URIPath.
Proof. solve_decision. Defined.
#[export] Instance YangModule_eq_dec : EqDecision YangModule.
Proof. solve_decision. Defined.

(** [URIPrefix]'s default constructor *)
Definition default_prefix : URIPrefix := mkPrefix BasicRestconfData None.

Record NotificationStreamRequest := mkNotif {
  stream : string;
  encoding : DataFormat;
  notif_queryParams : QueryParams
}.
