(* ===== verification/Uuid.v ===== *)
(** * Uuid: what the server relies on from Boost.Uuid

    Subscriptions are named by a [boost::uuids::uuid].  [UuidLib] lists the operations the
    server uses and [UuidLaws] what their documentation promises: [to_string] prints the
    canonical 8-4-4-4-12 form and [string_generator] reads it back. *)

From S2P Require Import Prelude.

Class UuidLib : Type := {
  uuid : Type;
  uuid_eq_dec :: EqDecision uuid;
  uuid_countable :: Countable uuid;
  nil_uuid : uuid;
  string_generator : string → option uuid;  (** [None]: throws [std::runtime_error] *)
  uuid_to_string : uuid → string
}.

(** [n] hexadecimal digits, then [k] on the rest. *)
Fixpoint hex_then (n : nat) (k : string → bool) (s : string) : bool :=
  match n, s with
  | O, _ => k s
  | S n, String c s => is_xdigit c && hex_then n k s
  | S _, "" => false
  end.
Definition dash_then (k : string → bool) (s : string) : bool :=
  match s with String c s => is_char "-" c && k s | "" => false end.
Definition str_nil (s : string) : bool := match s with "" => true | _ => false end.

Definition uuid_shape : string → bool :=
  hex_then 8 (dash_then (hex_then 4 (dash_then (hex_then 4 (dash_then (hex_then 4
    (dash_then (hex_then 12 str_nil)))))))).

Class UuidLaws (U : UuidLib) : Prop := {
  string_generator_to_string u : string_generator (uuid_to_string u) = Some u;
  uuid_to_string_shape u : uuid_shape (uuid_to_string u) = true;
  string_generator_shape s : uuid_shape s = true → is_Some (string_generator s)
}.

(** ** A concrete instance: the canonical strings themselves, in lower case *)

Definition canonical_uuid (s : string) : bool :=
  uuid_shape s && bool_decide (str_map to_lower s = s).

Definition uuid_ref_nil : { s : string | canonical_uuid s = true } :=
  exist _ "00000000-0000-0000-0000-000000000000" eq_refl.

Definition uuid_ref : UuidLib := {|
  uuid := { s : string | canonical_uuid s = true };
  nil_uuid := uuid_ref_nil;
  string_generator s :=
    match decide (canonical_uuid (str_map to_lower s) = true) with
    | left H => Some (exist _ (str_map to_lower s) H)
    | right _ => None
    end;
  uuid_to_string := proj1_sig
|}.

Lemma to_lower_idem : ∀ c, to_lower (to_lower c) = to_lower c.
Proof. by_all_chars. Qed.
Lemma str_map_lower_idem s : str_map to_lower (str_map to_lower s) = str_map to_lower s.
Proof. induction s as [|c s IH]; simpl; [done|]. by rewrite IH, to_lower_idem. Qed.

Lemma hex_then_lower n (k : string → bool) s :
  (∀ t, k t = true → k (str_map to_lower t) = true) →
  hex_then n k s = true → hex_then n k (str_map to_lower s) = true.
Proof.
  intros Hk. revert s. induction n as [|n IH]; intros [|c s]; simpl; auto; [apply (Hk (String c s))|].
  intros [Hc ?]%andb_true_iff. rewrite IH by done. rewrite andb_true_r.
  revert c Hc. by_all_chars.
Qed.
Lemma dash_then_lower (k : string → bool) s :
  (∀ t, k t = true → k (str_map to_lower t) = true) →
  dash_then k s = true → dash_then k (str_map to_lower s) = true.
Proof.
  intros Hk. destruct s as [|c s]; simpl; [done|].
  intros [Hc ?]%andb_true_iff. rewrite Hk by done. rewrite andb_true_r.
  revert c Hc. by_all_chars.
Qed.
Lemma uuid_shape_lower s : uuid_shape s = true → uuid_shape (str_map to_lower s) = true.
Proof.
  unfold uuid_shape. repeat (apply hex_then_lower; intros ?; try (apply dash_then_lower; intros ?)).
  match goal with |- str_nil ?t = true → _ => by destruct t end.
Qed.

Lemma canonical_uuid_true s :
  canonical_uuid s = true ↔ uuid_shape s = true ∧ str_map to_lower s = s.
Proof. unfold canonical_uuid. by rewrite andb_true_iff, bool_decide_eq_true. Qed.

Lemma uuid_ref_laws : UuidLaws uuid_ref.
Proof.
  split; simpl.
  - intros [s Hs]. simpl. pose proof Hs as [_ Hl]%canonical_uuid_true.
    destruct (decide _) as [H|H]; rewrite ?Hl in *; [|done].
    f_equal. apply (sig_eq_pi _). simpl. done.
  - intros [s Hs]. simpl. by apply canonical_uuid_true in Hs as [Hs _].
  - intros s Hs. destruct (decide _) as [H|H]; [by eexists|]. destruct H.
    apply canonical_uuid_true. by rewrite uuid_shape_lower, str_map_lower_idem.
Qed.
