(* ===== verification/X3.v ===== *)
(** * X3: what the grammars rely on from Boost.Spirit X3

    The URI and header grammars of the server are written in the combinator
    language of Boost.Spirit X3, which is not part of the repository.  The class
    [X3] lists the operators the grammars use, and [X3Laws] states the documented
    behaviour of each one: recursive descent with ordered choice, where [a > b] is an
    expectation point that throws [expectation_failure] when [b] fails.  The grammars of
    [UriGrammar], [UriQuery] and [HttpUtils] are definitions over the class and their
    theorems are proved from the laws alone.  [x3_ref] is an executable engine that
    satisfies the laws ([x3_ref_laws]). *)

From S2P Require Import Prelude.

(** The outcome of a parse attempt at an iterator, which is the input that is left. *)
Inductive presult (A : Type) : Type :=
| PMatch (a : A) (rest : string)
| PFail
| PExpect (rest which : string).  (** [expectation_failure]: [where()] and [which()] *)
Arguments PMatch {A} a rest.
Arguments PFail {A}.
Arguments PExpect {A} rest which.

Record parser (A : Type) : Type := Parser {
  what : string;                  (** [x3::what(p)], the name used in expectation failures *)
  run : string → presult A
}.
Arguments Parser {A}.
Arguments what {A} _ : simpl never.
Arguments run {A} _ _ : simpl never.

Definition pbind {A B} (r : presult A) (k : A → string → presult B) : presult B :=
  match r with
  | PMatch a s => k a s
  | PFail => PFail
  | PExpect w n => PExpect w n
  end.
Definition pmap {A B} (f : A → B) (r : presult A) : presult B :=
  pbind r (λ a s, PMatch (f a) s).

(** A failure becomes an expectation failure at [s]. *)
Definition or_expect {A} (s n : string) (r : presult A) : presult A :=
  match r with PFail => PExpect s n | _ => r end.

(** [x3::symbols]: the longest key that is a prefix of the input wins. *)
Fixpoint longest_match {A} (tbl : list (string * A)) (s : string) : option (A * string) :=
  match tbl with
  | [] => None
  | (k, a) :: tbl =>
      match strip_prefix k s, longest_match tbl s with
      | Some r, Some (a', r') =>
          if bool_decide (String.length r ≤ String.length r') then Some (a, r) else Some (a', r')
      | Some r, None => Some (a, r)
      | None, o => o
      end
  end.

(** The value of a run of decimal digits. *)
Fixpoint digits_value_go (acc : N) (s : string) : N :=
  match s with
  | "" => acc
  | String c s => digits_value_go (acc * 10 + (Ascii.N_of_ascii c - 48)) s
  end.
Definition digits_value : string → N := digits_value_go 0.

(** A prefix, whatever the case of its letters. *)
Fixpoint strip_prefix_no_case (p s : string) : option string :=
  match p, s with
  | "", _ => Some s
  | String c p, String d s =>
      if is_char (to_lower c) (to_lower d) then strip_prefix_no_case p s else None
  | String _ _, "" => None
  end.

Definition consuming {A} (p : parser A) : Prop :=
  ∀ s a r, run p s = PMatch a r → String.length r < String.length s.

Class X3 : Type := {
  char_ : (ascii → bool) → parser ascii;      (** [char_], [alpha], [digit], ... *)
  lit_char : ascii → parser unit;             (** [lit('c')], ['c'], ["c"] *)
  lit_str : string → parser unit;             (** [lit("...")] *)
  str_ : string → parser string;              (** [x3::string("...")] *)
  eps : parser unit;
  eoi : parser unit;
  attr {A} : A → parser A;
  seq {A B} : parser A → parser B → parser (A * B);      (** [a >> b] *)
  expect {A B} : parser A → parser B → parser (A * B);   (** [a > b] *)
  alt {A} : parser A → parser A → parser A;              (** [a | b] *)
  kleene {A} : parser A → parser (list A);               (** [*a] *)
  plus_ {A} : parser A → parser (list A);                (** [+a] *)
  opt {A} : parser A → parser (option A);                (** [-a] *)
  list_ {A B} : parser A → parser B → parser (list A);   (** [a % b] *)
  diff {A B} : parser A → parser B → parser A;           (** [a - b] *)
  not_ {A} : parser A → parser unit;                     (** [!a] *)
  and_ {A} : parser A → parser unit;                     (** [&a] *)
  repeat_ {A} : nat → parser A → parser (list A);        (** [repeat(n)[a]] *)
  repeat_inf {A} : nat → parser A → parser (list A);     (** [repeat(n, inf)[a]] *)
  repeat_upto {A} : nat → parser A → parser (list A);    (** [repeat(0, n)[a]] *)
  no_case_lit : string → parser unit;                    (** [no_case[lit("...")]] *)
  rule {A} : string → parser A → parser A;               (** [rule<...>{name} = a] *)
  action {A B} : parser A → (A → option B) → parser B;   (** [a[f]] with [_val] and [_pass] *)
  symbols {A} : list (string * A) → parser A;
  uint_ : parser N                                       (** a 32-bit [unsigned int] *)
}.

Class X3Laws (X : X3) : Prop := {
  what_char c : what (char_ (is_char c)) = squote +:+ String c squote;
  what_lit_char c : what (lit_char c) = squote +:+ String c squote;
  what_lit_str t : what (lit_str t) = dquote +:+ t +:+ dquote;
  what_eoi : what eoi = "eoi";
  what_rule A n (p : parser A) : what (rule n p) = n;
  run_char P s :
    run (char_ P) s =
    match s with
    | "" => PFail
    | String c r => if P c then PMatch c r else PFail
    end;
  run_lit_char c s :
    run (lit_char c) s = pmap (λ _, tt) (run (char_ (is_char c)) s);
  run_str t s :
    run (str_ t) s = match strip_prefix t s with Some r => PMatch t r | None => PFail end;
  run_lit_str t s : run (lit_str t) s = pmap (λ _, tt) (run (str_ t) s);
  run_eps s : run eps s = PMatch tt s;
  run_eoi s : run eoi s = match s with "" => PMatch tt "" | _ => PFail end;
  run_attr A (a : A) s : run (attr a) s = PMatch a s;
  run_seq A B (p : parser A) (q : parser B) s :
    run (seq p q) s = pbind (run p s) (λ a r, pmap (pair a) (run q r));
  run_expect A B (p : parser A) (q : parser B) s :
    run (expect p q) s =
    pbind (run p s) (λ a r, pmap (pair a) (or_expect r (what q) (run q r)));
  run_alt A (p q : parser A) s :
    run (alt p q) s = match run p s with PFail => run q s | r => r end;
  run_kleene A (p : parser A) s :
    consuming p →
    run (kleene p) s =
    match run p s with
    | PMatch a r => pmap (cons a) (run (kleene p) r)
    | PFail => PMatch [] s
    | PExpect w n => PExpect w n
    end;
  run_plus A (p : parser A) s :
    run (plus_ p) s = pmap (λ '(a, l), a :: l) (run (seq p (kleene p)) s);
  run_opt A (p : parser A) s :
    run (opt p) s =
    match run p s with PFail => PMatch None s | r => pmap Some r end;
  run_list A B (p : parser A) (q : parser B) s :
    run (list_ p q) s =
    pmap (λ '(a, l), a :: (snd <$> l)) (run (seq p (kleene (seq q p))) s);
  run_diff A B (p : parser A) (q : parser B) s :
    run (diff p q) s =
    match run q s with
    | PMatch _ _ => PFail
    | PFail => run p s
    | PExpect w n => PExpect w n
    end;
  run_not A (p : parser A) s :
    run (not_ p) s =
    match run p s with
    | PMatch _ _ => PFail
    | PFail => PMatch tt s
    | PExpect w n => PExpect w n
    end;
  run_and A (p : parser A) s :
    run (and_ p) s = pbind (run p s) (λ _ _, PMatch tt s);
  run_repeat_O A (p : parser A) s : run (repeat_ 0 p) s = PMatch [] s;
  run_repeat_S A n (p : parser A) s :
    run (repeat_ (S n) p) s = pmap (λ '(a, l), a :: l) (run (seq p (repeat_ n p)) s);
  run_repeat_inf A n (p : parser A) s :
    run (repeat_inf n p) s = pmap (λ '(l, k), l ++ k) (run (seq (repeat_ n p) (kleene p)) s);
  run_repeat_upto_O A (p : parser A) s : run (repeat_upto 0 p) s = PMatch [] s;
  run_repeat_upto_S A n (p : parser A) s :
    run (repeat_upto (S n) p) s =
    match run p s with
    | PMatch a r => pmap (cons a) (run (repeat_upto n p) r)
    | PFail => PMatch [] s
    | PExpect w n => PExpect w n
    end;
  run_no_case_lit t s :
    run (no_case_lit t) s =
    match strip_prefix_no_case t s with Some r => PMatch tt r | None => PFail end;
  run_rule A n (p : parser A) s : run (rule n p) s = run p s;
  run_action A B (p : parser A) (f : A → option B) s :
    run (action p f) s =
    pbind (run p s) (λ a r, match f a with Some b => PMatch b r | None => PFail end);
  run_symbols A (tbl : list (string * A)) s :
    run (symbols tbl) s =
    match longest_match tbl s with Some (a, r) => PMatch a r | None => PFail end;
  run_uint s :
    run uint_ s =
    let '(d, r) := span is_digit s in
    if bool_decide (d = "") then PFail
    else if N.ltb (digits_value d) (2 ^ 32) then PMatch (digits_value d) r else PFail
}.

(** ** Attribute propagation: the operators as the grammars compose them *)

Section derived.
Context {X : X3}.

(** X3 stores the attribute of [p] into the attribute of the enclosing rule; the parser
    itself stays the same. *)
Definition cast {A B} (f : A → B) (p : parser A) : parser B :=
  Parser (what p) (λ s, pmap f (run p s)).
(** Literals have no attribute: only one side of the sequence contributes. *)
Definition seq_r {A B} (p : parser A) (q : parser B) : parser B := cast snd (seq p q).
Definition seq_l {A B} (p : parser A) (q : parser B) : parser A := cast fst (seq p q).
Definition expect_r {A B} (p : parser A) (q : parser B) : parser B := cast snd (expect p q).
Definition expect_l {A B} (p : parser A) (q : parser B) : parser A := cast fst (expect p q).
(** Two attributes that are appended into one [std::string]. *)
Definition expect_str (p q : parser string) : parser string :=
  cast (λ '(a, b), a +:+ b) (expect p q).
Definition seq_str (p q : parser string) : parser string :=
  cast (λ '(a, b), a +:+ b) (seq p q).
(** A container of characters is a [std::string]. *)
Definition as_string (p : parser (list ascii)) : parser string :=
  cast String.string_of_list_ascii p.
Definition char_str (p : parser ascii) : parser string := cast (λ c, String c "") p.
Definition opt_str (p : parser string) : parser string := cast (default "") (opt p).
Definition alpha : parser ascii := char_ is_alpha.
Definition alnum : parser ascii := char_ is_alnum.
Definition digit : parser ascii := char_ is_digit.
Definition xdigit : parser ascii := char_ is_xdigit.
Definition char_lit (c : ascii) : parser ascii := char_ (is_char c).
End derived.

Declare Scope x3_scope.
Delimit Scope x3_scope with x3.
Notation "p >>* q" := (seq p q) (at level 61, left associativity) : x3_scope.
Notation "p >* q" := (expect p q) (at level 62, left associativity) : x3_scope.
Notation "p >> q" := (seq_r p q) (at level 61, left associativity) : x3_scope.
Notation "p <<< q" := (seq_l p q) (at level 61, left associativity) : x3_scope.
Notation "p >:> q" := (expect_r p q) (at level 62, left associativity) : x3_scope.
Notation "p <:< q" := (expect_l p q) (at level 62, left associativity) : x3_scope.
Notation "p <|> q" := (alt p q) (at level 65, right associativity) : x3_scope.

(** ** How the derived operators run *)

Create Rewrite HintDb x3.
#[export] Hint Rewrite @what_char @what_lit_char @what_lit_str @what_eoi @what_rule
  @run_char @run_lit_char @run_str @run_lit_str @run_eps @run_eoi @run_attr @run_seq
  @run_expect @run_alt @run_opt @run_diff @run_not @run_and @run_rule @run_action
  @run_symbols @run_repeat_O @run_repeat_S using typeclasses eauto : x3.

Section derived_laws.
Context {X : X3} {HX : X3Laws X}.

Lemma run_cast {A B} (f : A → B) (p : parser A) s : run (cast f p) s = pmap f (run p s).
Proof. done. Qed.
Lemma what_cast {A B} (f : A → B) (p : parser A) : what (cast f p) = what p.
Proof. done. Qed.
Lemma run_seq_r {A B} (p : parser A) (q : parser B) s :
  run (seq_r p q) s = pbind (run p s) (λ _ r, run q r).
Proof.
  unfold seq_r. rewrite run_cast, run_seq. destruct (run p s); simpl; [|done..].
  by destruct (run q rest).
Qed.
Lemma run_seq_l {A B} (p : parser A) (q : parser B) s :
  run (seq_l p q) s = pbind (run p s) (λ a r, pmap (λ _, a) (run q r)).
Proof.
  unfold seq_l. rewrite run_cast, run_seq. destruct (run p s); simpl; [|done..].
  by destruct (run q rest).
Qed.
Lemma run_expect_r {A B} (p : parser A) (q : parser B) s :
  run (expect_r p q) s = pbind (run p s) (λ _ r, or_expect r (what q) (run q r)).
Proof.
  unfold expect_r. rewrite run_cast, run_expect. destruct (run p s); simpl; [|done..].
  by destruct (run q rest).
Qed.
Lemma run_expect_l {A B} (p : parser A) (q : parser B) s :
  run (expect_l p q) s =
  pbind (run p s) (λ a r, pmap (λ _, a) (or_expect r (what q) (run q r))).
Proof.
  unfold expect_l. rewrite run_cast, run_expect. destruct (run p s); simpl; [|done..].
  by destruct (run q rest).
Qed.
Lemma run_expect_str p q s :
  run (expect_str p q) s =
  pbind (run p s) (λ a r, pmap (λ b, a +:+ b) (or_expect r (what q) (run q r))).
Proof.
  unfold expect_str. rewrite run_cast, run_expect. destruct (run p s); simpl; [|done..].
  by destruct (run q rest).
Qed.
Lemma run_seq_str p q s :
  run (seq_str p q) s = pbind (run p s) (λ a r, pmap (λ b, a +:+ b) (run q r)).
Proof.
  unfold seq_str. rewrite run_cast, run_seq. destruct (run p s); simpl; [|done..].
  by destruct (run q rest).
Qed.

Lemma consuming_char P : consuming (char_ P).
Proof.
  intros [|c s] a r; rewrite run_char; [done|]. destruct (P c); intros; simplify_eq/=; lia.
Qed.

(** [*char_class] takes the longest run of such characters. *)
Lemma run_chars P s :
  run (as_string (kleene (char_ P))) s = let '(a, r) := span P s in PMatch a r.
Proof.
  unfold as_string. rewrite run_cast. induction s as [|c s IH].
  - by rewrite run_kleene, run_char by apply consuming_char.
  - rewrite run_kleene, run_char by apply consuming_char. simpl.
    destruct (P c); [|done]. destruct (run (kleene (char_ P)) s); simpl in *;
    destruct (span P s) as [a' r']; by simplify_eq.
Qed.
End derived_laws.

#[export] Hint Rewrite @run_cast @what_cast @run_seq_r @run_seq_l @run_expect_r @run_expect_l
  @run_expect_str @run_seq_str @run_chars using typeclasses eauto : x3.

(** ** Parsers only move forward

    Whatever is left after a match, and the place an expectation failure points to,
    is a suffix of the input. *)

Definition suffix_of (r s : string) : Prop := ∃ p, s = p +:+ r.

#[export] Instance suffix_of_preorder : PreOrder suffix_of.
Proof.
  split.
  - intros s. by exists "".
  - intros r s t [p ->] [q ->]. exists (q +:+ p). by rewrite str_app_assoc.
Qed.
Lemma suffix_of_length r s : suffix_of r s → String.length r ≤ String.length s.
Proof. intros [p ->]. rewrite str_length_app. lia. Qed.

Definition good {A} (s : string) (r : presult A) : Prop :=
  match r with
  | PMatch _ r => suffix_of r s
  | PFail => True
  | PExpect w _ => suffix_of w s
  end.
Definition forward {A} (p : parser A) : Prop := ∀ s, good s (run p s).

Lemma good_mono {A} s s' (r : presult A) : suffix_of s s' → good s r → good s' r.
Proof. intros ?. destruct r; simpl; [|done|]; intros; by etrans. Qed.
Lemma good_pbind {A B} s (r : presult A) (k : A → string → presult B) :
  good s r → (∀ a r', good r' (k a r')) → good s (pbind r k).
Proof. destruct r; simpl; intros; [by eapply good_mono|done..]. Qed.
Lemma good_pmap {A B} s (f : A → B) r : good s r → good s (pmap f r).
Proof. by destruct r. Qed.
Lemma good_or_expect {A} s n (r : presult A) : good s r → good s (or_expect s n r).
Proof. destruct r; simpl; intros; [done|reflexivity|done]. Qed.

Create HintDb x3fwd.

Section forward.
Context {X : X3} {HX : X3Laws X}.

Lemma fwd_char P : forward (char_ P).
Proof.
  intros [|c s]; rewrite run_char; [done|]. destruct (P c); [|done]. by exists (String c "").
Qed.
Lemma fwd_lit_char c : forward (lit_char c).
Proof. intros s. rewrite run_lit_char. apply good_pmap, fwd_char. Qed.
Lemma fwd_str t : forward (str_ t).
Proof.
  intros s. rewrite run_str. destruct (strip_prefix t s) eqn:H; [|done].
  apply strip_prefix_Some in H as ->. by exists t.
Qed.
Lemma fwd_lit_str t : forward (lit_str t).
Proof. intros s. rewrite run_lit_str. apply good_pmap, fwd_str. Qed.
Lemma fwd_eps : forward eps.
Proof. intros s. rewrite run_eps. simpl. reflexivity. Qed.
Lemma fwd_eoi : forward eoi.
Proof. intros [|c s]; rewrite run_eoi; simpl; [reflexivity|done]. Qed.
Lemma fwd_attr {A} (a : A) : forward (attr a).
Proof. intros s. rewrite run_attr. simpl. reflexivity. Qed.
Lemma fwd_seq {A B} (p : parser A) (q : parser B) : forward p → forward q → forward (seq p q).
Proof. intros Hp Hq s. rewrite run_seq. apply good_pbind; [done|]. intros. apply good_pmap, Hq. Qed.
Lemma fwd_expect {A B} (p : parser A) (q : parser B) :
  forward p → forward q → forward (expect p q).
Proof.
  intros Hp Hq s. rewrite run_expect. apply good_pbind; [done|].
  intros. apply good_pmap, good_or_expect, Hq.
Qed.
Lemma fwd_alt {A} (p q : parser A) : forward p → forward q → forward (alt p q).
Proof.
  intros Hp Hq s. rewrite run_alt. specialize (Hp s). destruct (run p s); [done|apply Hq|done].
Qed.
Lemma fwd_opt {A} (p : parser A) : forward p → forward (opt p).
Proof.
  intros Hp s. rewrite run_opt. specialize (Hp s). destruct (run p s); simpl in *; [done|reflexivity|done].
Qed.
Lemma fwd_kleene {A} (p : parser A) : consuming p → forward p → forward (kleene p).
Proof.
  intros Hc Hp s. induction (well_founded_ltof _ String.length s) as [s _ IH].
  rewrite run_kleene by done. specialize (Hp s). destruct (run p s) as [a r| |w n] eqn:Hr; simpl.
  - apply good_pmap. apply good_mono with r; [done|]. apply IH. by eapply Hc.
  - reflexivity.
  - done.
Qed.
Lemma fwd_plus {A} (p : parser A) : consuming p → forward p → forward (plus_ p).
Proof.
  intros ?? s. rewrite run_plus. apply good_pmap, fwd_seq; [done|]. by apply fwd_kleene.
Qed.
Lemma consuming_seq_l {A B} (p : parser A) (q : parser B) :
  consuming p → forward q → consuming (seq p q).
Proof.
  intros Hp Hq s [a b] r. rewrite run_seq. destruct (run p s) as [a' r'| |] eqn:Hr; simpl; [|done..].
  specialize (Hq r'). destruct (run q r'); simpl in *; intros; simplify_eq.
  apply Hp in Hr. apply suffix_of_length in Hq. lia.
Qed.
Lemma consuming_lit_char c : consuming (lit_char c).
Proof.
  intros s a r. rewrite run_lit_char. destruct (run (char_ (is_char c)) s) eqn:H; simpl; intros; simplify_eq.
  by eapply consuming_char.
Qed.
Lemma fwd_list {A B} (p : parser A) (q : parser B) :
  consuming q → forward p → forward q → forward (list_ p q).
Proof.
  intros ??? s. rewrite run_list. apply good_pmap, fwd_seq; [done|].
  apply fwd_kleene; [|by apply fwd_seq]. by apply consuming_seq_l.
Qed.
Lemma fwd_diff {A B} (p : parser A) (q : parser B) : forward p → forward q → forward (diff p q).
Proof.
  intros Hp Hq s. rewrite run_diff. specialize (Hq s). destruct (run q s); [done|apply Hp|done].
Qed.
Lemma fwd_not {A} (p : parser A) : forward p → forward (not_ p).
Proof.
  intros Hp s. rewrite run_not. specialize (Hp s). destruct (run p s); simpl in *; [done|reflexivity|done].
Qed.
Lemma fwd_and {A} (p : parser A) : forward p → forward (and_ p).
Proof.
  intros Hp s. rewrite run_and. specialize (Hp s). destruct (run p s); simpl in *; [reflexivity|done..].
Qed.
Lemma fwd_repeat {A} n (p : parser A) : forward p → forward (repeat_ n p).
Proof.
  intros Hp. induction n as [|n IH]; intros s.
  - rewrite run_repeat_O. simpl. reflexivity.
  - rewrite run_repeat_S. by apply good_pmap, fwd_seq.
Qed.
Lemma fwd_repeat_inf {A} n (p : parser A) : consuming p → forward p → forward (repeat_inf n p).
Proof.
  intros ?? s. rewrite run_repeat_inf. apply good_pmap, fwd_seq; [by apply fwd_repeat|by apply fwd_kleene].
Qed.
Lemma fwd_rule {A} n (p : parser A) : forward p → forward (rule n p).
Proof. intros Hp s. rewrite run_rule. apply Hp. Qed.
Lemma fwd_action {A B} (p : parser A) (f : A → option B) : forward p → forward (action p f).
Proof.
  intros Hp s. rewrite run_action. apply good_pbind; [done|]. intros a r.
  destruct (f a); simpl; [reflexivity|done].
Qed.
Lemma longest_match_suffix {A} (tbl : list (string * A)) s a r :
  longest_match tbl s = Some (a, r) → suffix_of r s.
Proof.
  revert a r. induction tbl as [|[k b] tbl IH]; simpl; intros a r H; [done|].
  destruct (strip_prefix k s) as [r'|] eqn:Hk; [|eauto].
  apply strip_prefix_Some in Hk as ->.
  destruct (longest_match tbl (k +:+ r')) as [[a' r'']|]; [case_bool_decide|];
    simplify_eq; eauto; by exists k.
Qed.
Lemma fwd_symbols {A} (tbl : list (string * A)) : forward (symbols tbl).
Proof.
  intros s. rewrite run_symbols. destruct (longest_match tbl s) as [[a r]|] eqn:H; [|done].
  by eapply longest_match_suffix.
Qed.
Lemma fwd_uint : forward uint_.
Proof.
  intros s. rewrite run_uint. destruct (span is_digit s) as [d r] eqn:Hs.
  apply span_spec in Hs as [-> _]. case_bool_decide; [done|].
  destruct (N.ltb _ _); [|done]. by exists d.
Qed.
Lemma fwd_cast {A B} (f : A → B) (p : parser A) : forward p → forward (cast f p).
Proof. intros Hp s. apply good_pmap, Hp. Qed.
End forward.

#[export] Hint Resolve fwd_char fwd_lit_char fwd_str fwd_lit_str fwd_eps fwd_eoi fwd_attr
  fwd_seq fwd_expect fwd_alt fwd_opt fwd_kleene fwd_plus fwd_list fwd_diff fwd_not fwd_and
  fwd_repeat fwd_repeat_inf fwd_rule fwd_action fwd_symbols fwd_uint fwd_cast
  consuming_char consuming_lit_char : x3fwd.
#[export] Hint Unfold seq_r seq_l expect_r expect_l expect_str seq_str as_string char_str
  opt_str alpha alnum digit xdigit char_lit : x3fwd.

(** ** What a parser guarantees about the attribute it produces *)

Definition ensures {A} (p : parser A) (Q : A → Prop) : Prop :=
  ∀ s a r, run p s = PMatch a r → Q a.

Lemma pmap_PMatch_inv {A B} (f : A → B) r b s :
  pmap f r = PMatch b s → ∃ a, r = PMatch a s ∧ b = f a.
Proof. destruct r; simpl; intros; simplify_eq; eauto. Qed.
Lemma pbind_PMatch_inv {A B} (r : presult A) (k : A → string → presult B) b s :
  pbind r k = PMatch b s → ∃ a r', r = PMatch a r' ∧ k a r' = PMatch b s.
Proof. destruct r; simpl; intros; simplify_eq; eauto. Qed.
Lemma or_expect_PMatch_inv {A} s n (r : presult A) a r' :
  or_expect s n r = PMatch a r' → r = PMatch a r'.
Proof. by destruct r. Qed.

Section ensures.
Context {X : X3} {HX : X3Laws X}.

Lemma ens_weaken {A} (p : parser A) (Q Q' : A → Prop) :
  ensures p Q → (∀ a, Q a → Q' a) → ensures p Q'.
Proof. intros Hp HQ s a r ?. by eapply HQ, Hp. Qed.
Lemma ens_cast {A B} (f : A → B) (p : parser A) Q : ensures p (λ a, Q (f a)) → ensures (cast f p) Q.
Proof. intros Hp s b r. rewrite run_cast. intros (a & ? & ->)%pmap_PMatch_inv. by eapply Hp. Qed.
Lemma ens_rule {A} n (p : parser A) Q : ensures p Q → ensures (rule n p) Q.
Proof. intros Hp s a r. rewrite run_rule. apply Hp. Qed.
Lemma ens_alt {A} (p q : parser A) Q : ensures p Q → ensures q Q → ensures (alt p q) Q.
Proof.
  intros Hp Hq s a r. rewrite run_alt. destruct (run p s) eqn:E; intros; simplify_eq; eauto.
Qed.
Lemma ens_seq {A B} (p : parser A) (q : parser B) P Q :
  ensures p P → ensures q Q → ensures (seq p q) (λ x, P x.1 ∧ Q x.2).
Proof.
  intros Hp Hq s [a b] r. rewrite run_seq. intros (a' & r' & ? & ?)%pbind_PMatch_inv.
  simplify_eq. destruct (run q r') eqn:E; simplify_eq/=. split; [by eapply Hp|by eapply Hq].
Qed.
Lemma ens_expect {A B} (p : parser A) (q : parser B) P Q :
  ensures p P → ensures q Q → ensures (expect p q) (λ x, P x.1 ∧ Q x.2).
Proof.
  intros Hp Hq s [a b] r. rewrite run_expect. intros (a' & r' & ? & ?)%pbind_PMatch_inv.
  destruct (run q r') eqn:E; simplify_eq/=. split; [by eapply Hp|by eapply Hq].
Qed.
Lemma ens_expect_r {A B} (p : parser A) (q : parser B) Q : ensures q Q → ensures (expect_r p q) Q.
Proof.
  intros Hq s b r. rewrite run_expect_r. intros (a' & r' & ? & ?%or_expect_PMatch_inv)%pbind_PMatch_inv.
  by eapply Hq.
Qed.
Lemma ens_expect_l {A B} (p : parser A) (q : parser B) Q : ensures p Q → ensures (expect_l p q) Q.
Proof.
  intros Hp s a r. rewrite run_expect_l.
  intros (a' & r' & ? & (? & ? & ->)%pmap_PMatch_inv)%pbind_PMatch_inv. by eapply Hp.
Qed.
Lemma ens_seq_r {A B} (p : parser A) (q : parser B) Q : ensures q Q → ensures (seq_r p q) Q.
Proof. intros Hq s b r. rewrite run_seq_r. intros (a' & r' & ? & ?)%pbind_PMatch_inv. by eapply Hq. Qed.
Lemma ens_seq_l {A B} (p : parser A) (q : parser B) Q : ensures p Q → ensures (seq_l p q) Q.
Proof.
  intros Hp s a r. rewrite run_seq_l.
  intros (a' & r' & ? & (? & ? & ->)%pmap_PMatch_inv)%pbind_PMatch_inv. by eapply Hp.
Qed.
Lemma ens_opt {A} (p : parser A) (Q : option A → Prop) :
  Q None → ensures p (λ a, Q (Some a)) → ensures (opt p) Q.
Proof.
  intros HN Hp s a r. rewrite run_opt. destruct (run p s) eqn:E; simpl; intros; simplify_eq; [|done].
  by eapply Hp.
Qed.
Lemma ens_attr {A} (a : A) (Q : A → Prop) : Q a → ensures (attr a) Q.
Proof. intros HQ s a' r. rewrite run_attr. by intros [= <- _]. Qed.
Lemma ens_true {A} (p : parser A) : ensures p (λ _, True).
Proof. done. Qed.
Lemma ens_action {A B} (p : parser A) (f : A → option B) (P : A → Prop) (Q : B → Prop) :
  ensures p P → (∀ a b, P a → f a = Some b → Q b) → ensures (action p f) Q.
Proof.
  intros Hp HQ s b r. rewrite run_action. intros (a & r' & Ha & Hf)%pbind_PMatch_inv.
  destruct (f a) eqn:E; simplify_eq. eapply HQ; [|done]. by eapply Hp.
Qed.
Lemma ens_kleene {A} (p : parser A) Q : consuming p → ensures p Q → ensures (kleene p) (Forall Q).
Proof.
  intros Hc Hp s. induction (well_founded_ltof _ String.length s) as [s _ IH]. intros l r.
  rewrite run_kleene by done. destruct (run p s) as [a r'| |] eqn:E; intros H; simplify_eq; [|done].
  apply pmap_PMatch_inv in H as (l' & H & ->). constructor; [by eapply Hp|].
  eapply IH; [|done]. by eapply Hc.
Qed.
Lemma ens_plus {A} (p : parser A) Q : consuming p → ensures p Q → ensures (plus_ p) (Forall Q).
Proof.
  intros Hc Hp s l r. rewrite run_plus. intros ([a l'] & H & ->)%pmap_PMatch_inv.
  apply (ens_seq _ _ Q (Forall Q)) in H as [??]; [by constructor|done|by apply ens_kleene].
Qed.
Lemma ens_list {A B} (p : parser A) (q : parser B) Q :
  consuming q → forward p → ensures p Q → ensures (list_ p q) (λ l, l ≠ [] ∧ Forall Q l).
Proof.
  intros Hc Hf Hp s l r. rewrite run_list. intros ([a l'] & H & ->)%pmap_PMatch_inv.
  apply (ens_seq _ _ Q (Forall (λ x : B * A, Q x.2))) in H as [??]; [|done|].
  - split; [done|]. constructor; [done|]. by apply Forall_fmap.
  - apply ens_kleene; [by apply consuming_seq_l|].
    eapply ens_weaken; [by apply (ens_seq _ _ (λ _, True) Q)|]. naive_solver.
Qed.
Lemma ens_symbols {A} (tbl : list (string * A)) (Q : A → Prop) :
  Forall (λ x, Q x.2) tbl → ensures (symbols tbl) Q.
Proof.
  intros HQ s a r. rewrite run_symbols. destruct (longest_match tbl s) as [[a' r']|] eqn:E;
    intros; simplify_eq. revert a r E. induction HQ as [|[k b] tbl ? ? IH]; simpl; intros a r E; [done|].
  destruct (strip_prefix k s), (longest_match tbl s) as [[??]|]; try case_bool_decide;
    simplify_eq; eauto.
Qed.
Lemma ens_char P : ensures (char_ P) (λ c, P c = true).
Proof.
  intros [|c s] a r; rewrite run_char; [done|]. destruct (P c) eqn:E; intros; by simplify_eq.
Qed.
Lemma run_kleene_ext {A} (p q : parser A) s :
  consuming p → (∀ s, run p s = run q s) → run (kleene p) s = run (kleene q) s.
Proof.
  intros Hc He. assert (consuming q) by (intros ???; rewrite <- He; apply Hc).
  induction (well_founded_ltof _ String.length s) as [s _ IH].
  rewrite !run_kleene, <- He by done. destruct (run p s) eqn:E; [|done..].
  f_equal. apply IH. by eapply Hc.
Qed.
Lemma run_alt_char (P Q : ascii → bool) s :
  run (alt (char_ P) (char_ Q)) s = run (char_ (λ c, P c || Q c)) s.
Proof.
  rewrite run_alt, !run_char. destruct s as [|c s]; [done|]. by destruct (P c), (Q c).
Qed.
Lemma consuming_ext {A} (p q : parser A) : consuming q → (∀ s, run p s = run q s) → consuming p.
Proof. intros Hq He s a r. rewrite He. apply Hq. Qed.
Lemma run_alt_lit c (p : parser unit) d r :
  run (alt (lit_char c) p) (String d r) =
  if is_char c d then PMatch tt r else run p (String d r).
Proof. rewrite run_alt, run_lit_char, run_char. by destruct (is_char c d). Qed.
Lemma run_lit c d r :
  run (lit_char c) (String d r) = if is_char c d then PMatch tt r else PFail.
Proof. rewrite run_lit_char, run_char. by destruct (is_char c d). Qed.
Lemma run_lit_nil c : run (lit_char c) "" = PFail.
Proof. by rewrite run_lit_char, run_char. Qed.
Lemma run_lit_same c r : run (lit_char c) (String c r) = PMatch tt r.
Proof. by rewrite run_lit, is_char_refl. Qed.
Lemma run_lit_str1 c d r :
  run (lit_str (String c "")) (String d r) = if is_char c d then PMatch tt r else PFail.
Proof.
  rewrite run_lit_str, run_str. simpl. case_decide; subst; [by rewrite is_char_refl|].
  destruct (is_char c d) eqn:E; [by apply is_char_true in E|done].
Qed.
Lemma run_lit_str1_nil c : run (lit_str (String c "")) "" = PFail.
Proof. by rewrite run_lit_str, run_str. Qed.
Lemma consuming_lit_str1 c : consuming (lit_str (String c "")).
Proof.
  intros [|d s] a r; [by rewrite run_lit_str1_nil|]. rewrite run_lit_str1.
  destruct (is_char c d); intros; simplify_eq/=; lia.
Qed.
Lemma consuming_seq_r {A B} (p : parser A) (q : parser B) :
  forward p → consuming q → consuming (seq_r p q).
Proof.
  intros Hp Hq s b r. rewrite run_seq_r. intros (a & r' & H & Hr)%pbind_PMatch_inv.
  specialize (Hp s). rewrite H in Hp. apply suffix_of_length in Hp. apply Hq in Hr. lia.
Qed.
Lemma consuming_seq_r_l {A B} (p : parser A) (q : parser B) :
  consuming p → forward q → consuming (seq_r p q).
Proof.
  intros Hp Hq s b r. rewrite run_seq_r. intros (a & r' & H & Hr)%pbind_PMatch_inv.
  specialize (Hq r'). rewrite Hr in Hq. apply suffix_of_length in Hq. apply Hp in H. lia.
Qed.
End ensures.

(** ** An executable engine that satisfies the laws *)

Module Ref.
Definition q (c : ascii) : string := squote +:+ String c squote.
(** The only character a class accepts, if there is exactly one: its name in [what]. *)
Definition only_char (P : ascii → bool) : option ascii :=
  match filter (λ c, P c = true) (Ascii.ascii_of_nat <$> List.seq 0 256) with
  | [c] => Some c
  | _ => None
  end.
Definition char_ (P : ascii → bool) : parser ascii :=
  Parser (from_option q "undefined" (only_char P))
    (λ s, match s with
          | "" => PFail
          | String c r => if P c then PMatch c r else PFail
          end).
Definition str_ (t : string) : parser string :=
  Parser (dquote +:+ t +:+ dquote)
    (λ s, match strip_prefix t s with Some r => PMatch t r | None => PFail end).
Definition mk {A} (f : string → presult A) : parser A := Parser "undefined" f.
Definition seq {A B} (p : parser A) (q : parser B) : parser (A * B) :=
  mk (λ s, pbind (run p s) (λ a r, pmap (pair a) (run q r))).

(** [n] bounds the iterations of the loop; the length of the input is enough for a
    parser that consumes something each time ([kleene_go_enough]). *)
Fixpoint kleene_go {A} (p : parser A) (n : nat) (s : string) : presult (list A) :=
  match n with
  | O => PMatch [] s
  | S n =>
      match run p s with
      | PMatch a r => pmap (cons a) (kleene_go p n r)
      | PFail => PMatch [] s
      | PExpect w m => PExpect w m
      end
  end.
Definition kleene {A} (p : parser A) : parser (list A) :=
  mk (λ s, kleene_go p (S (String.length s)) s).
Fixpoint repeat_ {A} (n : nat) (p : parser A) : parser (list A) :=
  match n with
  | O => mk (λ s, PMatch [] s)
  | S n => mk (λ s, pmap (λ '(a, l), a :: l) (run (seq p (repeat_ n p)) s))
  end.
Fixpoint repeat_upto {A} (n : nat) (p : parser A) : parser (list A) :=
  match n with
  | O => mk (λ s, PMatch [] s)
  | S n => mk (λ s,
      match run p s with
      | PMatch a r => pmap (cons a) (run (repeat_upto n p) r)
      | PFail => PMatch [] s
      | PExpect w m => PExpect w m
      end)
  end.

Lemma kleene_go_enough {A} (p : parser A) n m s :
  consuming p → String.length s < n → String.length s < m → kleene_go p n s = kleene_go p m s.
Proof.
  intros Hc. revert m s. induction n as [|n IH]; intros [|m] s ??; simpl; [lia..|].
  destruct (run p s) eqn:Hr; [|done..]. apply Hc in Hr. rewrite (IH m); [done|lia..].
Qed.
End Ref.

Definition x3_ref : X3 := {|
  char_ := Ref.char_;
  lit_char c := Parser (Ref.q c) (λ s, pmap (λ _, tt) (run (Ref.char_ (is_char c)) s));
  lit_str t := Parser (what (Ref.str_ t)) (λ s, pmap (λ _, tt) (run (Ref.str_ t) s));
  str_ := Ref.str_;
  eps := Ref.mk (λ s, PMatch tt s);
  eoi := Parser "eoi" (λ s, match s with "" => PMatch tt "" | _ => PFail end);
  attr A a := Ref.mk (λ s, PMatch a s);
  seq A B := Ref.seq;
  expect A B p q := Ref.mk (λ s,
    pbind (run p s) (λ a r, pmap (pair a) (or_expect r (what q) (run q r))));
  alt A p q := Ref.mk (λ s, match run p s with PFail => run q s | r => r end);
  kleene A := Ref.kleene;
  plus_ A p := Ref.mk (λ s, pmap (λ '(a, l), a :: l) (run (Ref.seq p (Ref.kleene p)) s));
  opt A p := Ref.mk (λ s, match run p s with PFail => PMatch None s | r => pmap Some r end);
  list_ A B p q := Ref.mk (λ s,
    pmap (λ '(a, l), a :: (snd <$> l)) (run (Ref.seq p (Ref.kleene (Ref.seq q p))) s));
  diff A B p q := Ref.mk (λ s,
    match run q s with PMatch _ _ => PFail | PFail => run p s | PExpect w n => PExpect w n end);
  not_ A p := Ref.mk (λ s,
    match run p s with PMatch _ _ => PFail | PFail => PMatch tt s | PExpect w n => PExpect w n end);
  and_ A p := Ref.mk (λ s, pbind (run p s) (λ _ _, PMatch tt s));
  repeat_ A := Ref.repeat_;
  repeat_inf A n p := Ref.mk (λ s,
    pmap (λ '(l, k), l ++ k) (run (Ref.seq (Ref.repeat_ n p) (Ref.kleene p)) s));
  repeat_upto A := Ref.repeat_upto;
  no_case_lit t := Ref.mk (λ s,
    match strip_prefix_no_case t s with Some r => PMatch tt r | None => PFail end);
  rule A n p := Parser n (run p);
  action A B p f := Ref.mk (λ s,
    pbind (run p s) (λ a r, match f a with Some b => PMatch b r | None => PFail end));
  symbols A tbl := Ref.mk (λ s,
    match longest_match tbl s with Some (a, r) => PMatch a r | None => PFail end);
  uint_ := Ref.mk (λ s,
    let '(d, r) := span is_digit s in
    if bool_decide (d = "") then PFail
    else if N.ltb (digits_value d) (2 ^ 32) then PMatch (digits_value d) r else PFail)
|}.

Lemma only_char_is_char c : Ref.only_char (is_char c) = Some c.
Proof. by destruct c as [[] [] [] [] [] [] [] []]; vm_compute. Qed.

(** The laws are consistent: the engine [x3_ref] satisfies every one of them. *)
Lemma x3_ref_laws : X3Laws x3_ref.
Proof.
  split; try done.
  - intros c. change (from_option Ref.q "undefined" (Ref.only_char (is_char c)) = Ref.q c).
    by rewrite only_char_is_char.
  - intros A p s Hc. unfold run at 1. cbn [kleene x3_ref Ref.kleene Ref.mk Ref.kleene_go].
    destruct (run p s) eqn:Hr; [|done..]. apply Hc in Hr.
    by rewrite (Ref.kleene_go_enough p _ (S (String.length rest))) by (done || lia).
Qed.
