(* ===== verification/StableSort.v ===== *)
(** * StableSort: [std::stable_sort]

    [std::stable_sort] leaves the elements ordered by the comparator and keeps the order of
    the elements the comparator does not tell apart.  For a strict weak ordering this
    determines the result, whatever algorithm computes it; [stable_sort] computes it by
    insertion.  The lemmas ask for a strict weak ordering on the elements that satisfy
    [P] only: the comparator of [HttpUtils] is one where no quality is a NaN. *)

From S2P Require Import Prelude.
From Stdlib Require Export Sorting.Sorted.

Section sort.
Context {A : Type} (comp : A → A → bool).

Fixpoint insert_sorted (x : A) (l : list A) : list A :=
  match l with
  | [] => [x]
  | y :: l => if comp y x then y :: insert_sorted x l else x :: y :: l
  end.
Definition stable_sort (l : list A) : list A := foldr insert_sorted [] l.

(** Neither element has to come first. *)
Definition same_rank (a b : A) : bool := negb (comp a b) && negb (comp b a).
(** [b] does not have to come before [a]. *)
Definition in_order (a b : A) : Prop := comp b a = false.

Lemma insert_sorted_perm x l : insert_sorted x l ≡ₚ x :: l.
Proof.
  induction l as [|y l IH]; simpl; [done|]. destruct (comp y x); [|done].
  rewrite IH. apply Permutation_swap.
Qed.
Lemma stable_sort_perm l : stable_sort l ≡ₚ l.
Proof. induction l as [|x l IH]; simpl; [done|]. by rewrite insert_sorted_perm, IH. Qed.

Context (P : A → Prop).
Hypothesis comp_asym : ∀ a b, comp a b = true → comp b a = false.
Hypothesis comp_neg_trans : ∀ a b c, P b → in_order a b → in_order b c → in_order a c.

Lemma insert_sorted_sorted x l :
  P x → Forall P l → StronglySorted in_order l → StronglySorted in_order (insert_sorted x l).
Proof.
  intros Hx HP Hl. induction Hl as [|y l Hl IH Hy]; simpl; [constructor; [constructor|done]|].
  inversion HP as [|?? Hyp Hlp]; subst. destruct (comp y x) eqn:Hc.
  - constructor; [by apply IH|]. rewrite insert_sorted_perm. constructor; [|done].
    by apply comp_asym.
  - constructor; [by constructor|]. constructor; [done|].
    apply (Forall_impl _ _ _ Hy). intros z Hz. by apply (comp_neg_trans x y z).
Qed.
Lemma stable_sort_sorted l : Forall P l → StronglySorted in_order (stable_sort l).
Proof.
  induction 1 as [|x l Hx HP IH]; simpl; [constructor|].
  apply insert_sorted_sorted; [done| |done]. by rewrite stable_sort_perm.
Qed.

(** An element goes before the ones of its rank, so their order is the one of the input. *)
Lemma insert_sorted_filter x z l :
  P x → P z → Forall P l → StronglySorted in_order l →
  filter (λ a, same_rank z a = true) (insert_sorted x l) =
  filter (λ a, same_rank z a = true) (x :: l).
Proof.
  intros Hx Hz HP Hl. induction Hl as [|y l Hl IH Hy]; simpl; [done|].
  inversion HP as [|?? Hyp Hlp]; subst. destruct (comp y x) eqn:Hc; [|done].
  rewrite filter_cons, IH, !filter_cons by done.
  destruct (decide (same_rank z y = true)) as [Hzy|Hzy],
    (decide (same_rank z x = true)) as [Hzx|Hzx]; try done.
  exfalso. unfold same_rank in *. apply andb_true_iff in Hzy as [Hzy Hyz], Hzx as [Hzx Hxz].
  apply negb_true_iff in Hzy, Hyz, Hzx, Hxz.
  pose proof (comp_neg_trans x z y Hz Hzx Hyz) as H. unfold in_order in H. congruence.
Qed.
Lemma stable_sort_stable z l :
  P z → Forall P l →
  filter (λ a, same_rank z a = true) (stable_sort l) = filter (λ a, same_rank z a = true) l.
Proof.
  intros Hz. induction 1 as [|x l Hx HP IH]; simpl; [done|].
  rewrite insert_sorted_filter; [by rewrite !filter_cons, IH|done|done| |].
  - by rewrite stable_sort_perm.
  - by apply stable_sort_sorted.
Qed.
End sort.
