(* ===== verification/Double.v ===== *)
(** * Double: [std::stod] on plain decimal numbers

    The quality of a media type is read by [std::stod], which rounds the decimal number to
    the nearest IEEE 754 binary64 value (ties to even) and throws [std::out_of_range] when
    the number overflows, or underflows to an inexact subnormal or zero.  The arithmetic is
    the one of the Standard Library's [SpecFloat]. *)

From S2P Require Import Prelude X3.
From Stdlib Require Export Floats.SpecFloat.

Definition prec : Z := 53.
Definition emax : Z := 1024.

Inductive stod_result :=
| StodOk (d : spec_float)
| StodOutOfRange
| StodInvalid.  (** [std::invalid_argument]: there are no digits *)

(** The quotient of two positive integers, rounded once. *)
Definition round_ratio (s : bool) (n d : positive) : spec_float :=
  SFdiv prec emax (S754_finite s n 0) (S754_finite false d 0).

(** [n / d] is exactly the value of the float. *)
Definition exact_ratio (n d : positive) (f : spec_float) : bool :=
  match f with
  | S754_finite _ m e =>
      if (0 <=? e)%Z then (Zpos n =? Zpos m * 2 ^ e * Zpos d)%Z
      else (Zpos n * 2 ^ (- e) =? Zpos m * Zpos d)%Z
  | _ => false
  end.
(** The result is below the smallest normal number. *)
Definition tiny (f : spec_float) : bool :=
  match f with
  | S754_zero _ => true
  | S754_finite _ m _ => (Zpos (digits2_pos m) <? prec)%Z
  | _ => false
  end.

Definition stod_ratio (s : bool) (n : N) (d : positive) : stod_result :=
  match n with
  | N0 => StodOk (S754_zero s)
  | Npos n =>
      let f := round_ratio s n d in
      match f with
      | S754_infinity _ => StodOutOfRange
      | _ => if tiny f && negb (exact_ratio n d f) then StodOutOfRange else StodOk f
      end
  end.

(** [-123.45]: the sign, the digits, and how many of them are decimals. *)
Definition stod (str : string) : stod_result :=
  let '(neg, s) := match strip_prefix "-" str with Some s => (true, s) | None => (false, str) end in
  let '(int, r) := span is_digit s in
  let frac := match strip_prefix "." r with Some r => (span is_digit r).1 | None => "" end in
  if bool_decide (int +:+ frac = "") then StodInvalid
  else stod_ratio neg (digits_value (int +:+ frac)) 
         (Z.to_pos (10 ^ Z.of_nat (String.length frac))).

Definition is_nan (f : spec_float) : bool := match f with S754_nan => true | _ => false end.

(** ** Rounding never makes a NaN *)

Lemma shr_1_nonneg mrs : (0 ≤ shr_m mrs)%Z → (0 ≤ shr_m (shr_1 mrs))%Z.
Proof. destruct mrs as [m r s]. simpl. destruct m as [|[p|p|]|p]; simpl; lia. Qed.
Lemma iter_shr_1_nonneg p mrs : (0 ≤ shr_m mrs)%Z → (0 ≤ shr_m (iter_pos shr_1 p mrs))%Z.
Proof.
  revert mrs. induction p as [p IH|p IH|]; simpl; intros mrs H; auto using shr_1_nonneg.
Qed.
Lemma shr_fexp_nonneg m e l : (0 ≤ m)%Z → (0 ≤ shr_m (shr_fexp prec emax m e l).1)%Z.
Proof.
  intros H. unfold shr_fexp. assert (0 ≤ shr_m (shr_record_of_loc m l))%Z by (by destruct l as [|[]]).
  unfold shr. destruct (Z.sub _ _); simpl; auto using iter_shr_1_nonneg.
Qed.
Lemma binary_round_aux_not_nan s m e l :
  (0 ≤ m)%Z → is_nan (binary_round_aux prec emax s m e l) = false.
Proof.
  intros H. unfold binary_round_aux.
  pose proof (shr_fexp_nonneg m e l H) as H1.
  destruct (shr_fexp prec emax m e l) as [mrs e']. simpl in H1.
  assert (0 ≤ round_nearest_even (shr_m mrs) (loc_of_shr_record mrs))%Z as H2.
  { unfold round_nearest_even. destruct (loc_of_shr_record mrs) as [|[]]; [done| |done|lia].
    destruct (Z.even _); lia. }
  pose proof (shr_fexp_nonneg _ e' loc_Exact H2) as H3.
  destruct (shr_fexp prec emax (round_nearest_even _ _) e' loc_Exact) as [mrs' e'']. simpl in H3.
  destruct (shr_m mrs'); [done|by case_match|lia].
Qed.
Lemma round_ratio_not_nan s n d : is_nan (round_ratio s n d) = false.
Proof.
  unfold round_ratio. cbn [SFdiv].
  destruct (SFdiv_core_binary prec emax (Zpos n) 0 (Zpos d) 0) as [[q e] l] eqn:E.
  apply binary_round_aux_not_nan. unfold SFdiv_core_binary in E.
  destruct (Z.div_eucl _ _) as [q' r'] eqn:Ediv. injection E as <- _ _.
  match type of Ediv with Z.div_eucl ?a ?b = _ =>
    assert (0 ≤ a / b)%Z as H; [|unfold Z.div in H; by rewrite Ediv in H];
    apply Z.div_pos; [|done]; destruct (Z.sub _ _) eqn:?; [done| |done];
    apply Z.shiftl_nonneg; done
  end.
Qed.
Lemma stod_not_nan str d : stod str = StodOk d → is_nan d = false.
Proof.
  unfold stod. destruct (match strip_prefix "-" str with Some _ => _ | None => _ end) as [neg s].
  destruct (span is_digit s) as [int r]. case_bool_decide; [done|].
  unfold stod_ratio. destruct (digits_value _) as [|n]; [by intros [= <-]|].
  pose proof (round_ratio_not_nan neg n
    (Z.to_pos (10 ^ Z.of_nat (String.length
       match strip_prefix "." r with Some r => (span is_digit r).1 | None => "" end)))) as Hn.
  destruct (round_ratio _ _ _); simpl in *; repeat case_match; by intros; simplify_eq.
Qed.

(** ** Comparison: a total preorder away from NaN *)

(** Two floats compare like their keys, lexicographically. *)
Definition key (f : spec_float) : Z * Z * Z :=
  match f with
  | S754_infinity s => (if s then -2 else 2, 0, 0)%Z
  | S754_zero _ | S754_nan => (0, 0, 0)%Z
  | S754_finite true m e => (-1, - e, Zneg m)%Z
  | S754_finite false m e => (1, e, Zpos m)%Z
  end.
Definition key_lt (k l : Z * Z * Z) : Prop :=
  let '(a, b, c) := k in let '(a', b', c') := l in
  (a < a' ∨ a = a' ∧ (b < b' ∨ b = b' ∧ c < c'))%Z.

Lemma SFcompare_key f g :
  is_nan f = false → is_nan g = false →
  match SFcompare f g with
  | Some Lt => key_lt (key f) (key g)
  | Some Eq => key f = key g
  | Some Gt => key_lt (key g) (key f)
  | None => False
  end.
Proof.
  destruct f as [s|s| |s m e], g as [s'|s'| |s' m' e']; try done; intros _ _; simpl;
    repeat match goal with b : bool |- _ => destruct b end; simpl; try lia; try done.
  - destruct (Z.compare_spec e e'); simpl; [|lia..].
    change (Pos.compare_cont Eq m m') with (m ?= m')%positive.
    destruct (Pos.compare_spec m m'); simpl; subst; try done; lia.
  - destruct (Z.compare_spec e e'); simpl; [|lia..].
    change (Pos.compare_cont Eq m m') with (m ?= m')%positive.
    destruct (Pos.compare_spec m m'); simpl; subst; try done; lia.
Qed.
Lemma SFltb_key f g :
  is_nan f = false → is_nan g = false → SFltb f g = true ↔ key_lt (key f) (key g).
Proof.
  intros Hf Hg. pose proof (SFcompare_key f g Hf Hg) as H. unfold SFltb.
  destruct (SFcompare f g) as [[]|]; [|done| |done].
  - rewrite H. destruct (key g) as [[??]?]. simpl. split; [done|lia].
  - destruct (key f) as [[??]?], (key g) as [[??]?]. simpl in *. split; [done|lia].
Qed.
Lemma SFeqb_key f g :
  is_nan f = false → is_nan g = false → SFeqb f g = true ↔ key f = key g.
Proof.
  intros Hf Hg. pose proof (SFcompare_key f g Hf Hg) as H. unfold SFeqb.
  destruct (SFcompare f g) as [[]|]; [done| | |done].
  - destruct (key f) as [[??]?], (key g) as [[??]?]. simpl in *. split; [done|]. intros [=]; lia.
  - destruct (key f) as [[??]?], (key g) as [[??]?]. simpl in *. split; [done|]. intros [=]; lia.
Qed.

Example stod_half : stod "0.5" = StodOk (S754_finite false 4503599627370496 (-53)).
Proof. vm_compute. reflexivity. Qed.
Example stod_tenth : stod "-0.1" = StodOk (S754_finite true 7205759403792794 (-56)).
Proof. vm_compute. reflexivity. Qed.
Example stod_one : stod "1" = StodOk (S754_finite false 4503599627370496 (-52)).
Proof. vm_compute. reflexivity. Qed.
