(* ===== verification/UriGrammar.v ===== *)
(** * UriGrammar: the URI path, YANG schema and stream grammars of [restconf/uri.cpp]

    Each X3 rule of the source is the definition of the same name; [a > b] with two
    attributes is [>*], with only one of them [>:>] or [<:<] (see [X3]).  [parse] is the
    function template that runs a grammar and turns a failed expectation into a URI syntax
    error. *)

From S2P Require Import Prelude Exceptions UriTypes Uuid X3.

Open Scope x3_scope.

Section grammar.
Context {X : X3}.

(** [add]: one more hexadecimal digit. *)
Definition add (val : N) (attr : ascii) : N :=
  let c := Ascii.N_of_ascii (to_lower attr) in
  u32 (val * 16 + (if N.leb 97 c then c - 97 + 10 else c - 48)).

Definition hexbyte : parser N :=
  rule "two hex digits" (cast (λ '(a, b), add (add 0 a) b) (eps >> xdigit >>* xdigit)).
Definition percentEncodedChar : parser N :=
  rule "percent-encoded character" (lit_char "%" >:> hexbyte).

Definition reservedChars : parser unit :=
  lit_char ":" <|> lit_char "/" <|> lit_char "?" <|> lit_char "#" <|> lit_char "[" <|>
  lit_char "]" <|> lit_char "@" <|> lit_char "!" <|> lit_char "$" <|> lit_char "&" <|>
  lit_char "'" <|> lit_char "(" <|> lit_char ")" <|> lit_char "*" <|> lit_char "+" <|>
  lit_char "," <|> lit_char "," <|> lit_char ";" <|> lit_char "=" <|> lit_char "%".

(** The octet is stored into a [std::string], as a [char]. *)
Definition percentEncodedString : parser string :=
  rule "percent-encoded string"
    (as_string (plus_ (cast Ascii.ascii_of_N percentEncodedChar <|>
                       diff (char_ any_char) reservedChars))).

Definition keyList : parser (list string) :=
  rule "list key values"
    (list_ (percentEncodedString <|> (eps >:> attr "")) (lit_char ",")).
Definition noStrayEquals : parser unit := rule "valid key value" (not_ (lit_char "=")).

Definition identChar : parser ascii :=
  alnum <|> char_lit "_" <|> char_lit "-" <|> char_lit ".".
Definition identifier : parser string :=
  rule "identifier"
    (expect_str (char_str (alpha <|> char_lit "_")) (as_string (kleene identChar))).

Definition apiIdentifier : parser ApiIdentifier :=
  rule "api identifier"
    (cast (λ '(p, i), mkApi p i) (opt (identifier <<< lit_char ":") >* identifier)).

(** [-('=' > keyList > noStrayEquals)], an empty vector when absent *)
Definition optKeys : parser (list string) :=
  cast (default []) (opt (lit_char "=" >:> keyList <:< noStrayEquals)).
Definition listInstance : parser PathSegment :=
  rule "path segment" (cast (λ '(i, k), mkSeg i k) (apiIdentifier >* optKeys)).

Definition fullyQualifiedApiIdentifier : parser ApiIdentifier :=
  rule "module-qualified identifier (module:name)"
    (cast (λ '(p, i), api2 p i) (identifier <:< lit_char ":" >* identifier)).
Definition fullyQualifiedListInstance : parser PathSegment :=
  rule "module-qualified path segment (module:name)"
    (cast (λ '(i, k), mkSeg i k) (fullyQualifiedApiIdentifier >* optKeys)).

Definition uriPathContent : parser (list PathSegment) :=
  rule "uriPathContent"
    (cast (λ '(s, l), s :: default [] l)
       (fullyQualifiedListInstance >* opt (lit_char "/" >:> list_ listInstance (lit_char "/")))).
Definition uriEmpty : parser (list PathSegment) := rule "uriEmpty" (and_ eoi >:> attr []).
Definition uriPathMaybeEmpty : parser (list PathSegment) :=
  rule "resource path" (uriEmpty <|> uriPathContent).
Definition uriPath : parser (list PathSegment) :=
  rule "uriPath" (uriEmpty <|> (lit_str "/" >:> uriPathMaybeEmpty)).

Definition nmdaDatastore : parser URIPrefix :=
  rule "NMDA datastore identifier"
    (cast (λ '(t, d), mkPrefix t (Some d))
       (attr NMDADatastore <:< lit_char "/" >* fullyQualifiedApiIdentifier)).

Definition mk_path (x : URIPrefix * list PathSegment) : URIPath := mkPath x.1 x.2.
Definition resource : parser URIPath :=
  rule "RESTCONF resource"
    (cast mk_path (eoi >:> attr (mkPrefix RestconfRoot None) >* attr []) <|>
     cast mk_path (lit_str "data" >:> attr (mkPrefix BasicRestconfData None) >* uriPath) <|>
     cast mk_path (lit_str "ds" >:> nmdaDatastore >* uriPath) <|>
     cast mk_path (lit_str "operations" >:> attr (mkPrefix BasicRestconfOperations None) >* uriPath) <|>
     cast mk_path (lit_str "yang-library-version" >:> attr (mkPrefix YangLibraryVersion None) >*
                   attr [] <:< opt (lit_str "/"))).
Definition resources : parser URIPath :=
  rule "RESTCONF resource"
    ((lit_str "/" >:> resource) <|>
     cast mk_path (eoi >:> attr (mkPrefix RestconfRoot None) >* attr [])).
Definition restconfGrammar : parser URIPath :=
  rule "RESTCONF URI" (lit_str "/" >:> lit_str "restconf" >:> resources).

(** ** Stream URIs *)

Context {U : UuidLib}.

Inductive RestconfStreamRequest :=
| NotificationStream (r : NotificationStreamRequest)
| SubscribedStream (u : uuid).

Definition xdigits (n : nat) : parser string := as_string (repeat_ n xdigit).
Definition dash : parser string := char_str (char_lit "-").
Definition uuid_impl : parser string :=
  rule "UUID (xxxxxxxx-xxxx-xxxx-xxxx-xxxxxxxxxxxx)"
    (expect_str (expect_str (expect_str (expect_str
      (expect_str (expect_str (expect_str (expect_str
        (xdigits 8) dash) (xdigits 4)) dash) (xdigits 4)) dash) (xdigits 4)) dash) (xdigits 12)).
(** The semantic action [string_to_uuid]: the rule fails when the generator throws. *)
Definition uuid_rule : parser uuid := rule "UUID" (action uuid_impl string_generator).
Definition subscribedStream : parser uuid :=
  rule "subscribed stream" (lit_str "subscribed" >:> lit_str "/" >:> uuid_rule).

Definition xmlStream : parser DataFormat := rule "'XML'" (lit_str "XML" >:> attr XML).
Definition jsonStream : parser DataFormat := rule "'JSON'" (lit_str "JSON" >:> attr JSON).
Definition streamFormat : parser DataFormat :=
  rule "stream format ('XML' or 'JSON')" (xmlStream <|> jsonStream).
Definition notificationStream : parser NotificationStreamRequest :=
  rule "notification stream"
    (cast (λ '(n, f), mkNotif n f []) (identifier <:< lit_str "/" >* streamFormat)).
Definition streamGrammar : parser RestconfStreamRequest :=
  rule "stream URI"
    (lit_str "/" >:> lit_str "streams" >:> lit_str "/" >:>
     (cast SubscribedStream subscribedStream <|> cast NotificationStream notificationStream)).

(** ** YANG schema URIs *)

Definition moduleName : parser string :=
  rule "moduleName"
    (expect_str (char_str (alpha <|> char_lit "_")) (as_string (kleene identChar))).
Definition digits (n : nat) : parser string := as_string (repeat_ n digit).
Definition revision : parser string :=
  rule "revision"
    (expect_str (expect_str (expect_str (expect_str
      (as_string (repeat_inf 4 digit)) dash) (digits 2)) dash) (digits 2)).
Definition yangSchemaGrammar : parser YangModule :=
  rule "yangSchemaGrammar"
    (cast (λ '(n, r), mkModule n r)
       (eps >:> lit_str "/" >:> lit_str "yang" >:> lit_char "/" >:> moduleName >*
        opt (lit_str "@" >:> revision <:< opt (lit_str ".yang")))).

(** ** [parse] and its instances *)

(** The [SyntaxErrorException] template parameter: its two constructors. *)
Record SyntaxErrorException := mkSyntaxError {
  syntaxError : ErrorResponse;
  syntaxErrorAt : N → string → ErrorResponse
}.
Definition PathSyntax : SyntaxErrorException := mkSyntaxError UriPathSyntaxError UriPathSyntaxErrorAt.
Definition QuerySyntax : SyntaxErrorException := mkSyntaxError UriQuerySyntaxError UriQuerySyntaxErrorAt.

(** [std::distance(begin, it)] for the iterator with [rest] left *)
Definition distance (input rest : string) : N :=
  N.of_nat (String.length input - String.length rest).

Definition parse {A} (E : SyntaxErrorException) (input : string) (g : parser A)
    (positionOffset : N) : M A :=
  match run (g <:< eoi) input with
  | PMatch out _ => Ok out
  | PFail => Throw (EResponse (syntaxError E))
  | PExpect w which =>
      Throw (EResponse (syntaxErrorAt E (u32 (distance input w + positionOffset)) which))
  end.

Definition parseUriPath (input : string) : M URIPath := parse PathSyntax input restconfGrammar 0.
Definition parseModuleWithRevision (input : string) : M YangModule :=
  parse PathSyntax input yangSchemaGrammar 0.
Definition parseStreamUri (input : string) : M RestconfStreamRequest :=
  parse PathSyntax input streamGrammar 0.
End grammar.
