(* ===== verification/UriPathFacts.v ===== *)
(** * UriPathFacts: the URI path grammar accepts exactly the well-formed resource paths *)

From S2P Require Import Prelude Exceptions UriTypes Uuid X3 UriGrammar.

(** ** The lexical elements *)

Definition ident_start (c : ascii) : bool := is_alpha c || is_char "_" c.
Definition ident_char (c : ascii) : bool :=
  is_alnum c || is_char "_" c || is_char "-" c || is_char "." c.
(** A YANG identifier (RFC 7950, section 6.2). *)
Definition is_identifier (s : string) : bool :=
  match s with "" => false | String c s => ident_start c && str_forall ident_char s end.

Definition reserved (c : ascii) : bool :=
  is_char ":" c || is_char "/" c || is_char "?" c || is_char "#" c || is_char "[" c ||
  is_char "]" c || is_char "@" c || is_char "!" c || is_char "$" c || is_char "&" c ||
  is_char "'" c || is_char "(" c || is_char ")" c || is_char "*" c || is_char "+" c ||
  is_char "," c || is_char ";" c || is_char "=" c || is_char "%" c.

#[global] Arguments ident_start : simpl never.
#[global] Arguments ident_char : simpl never.
#[global] Arguments reserved : simpl never.

(** The two hexadecimal digits of an octet, and the percent-encoding of a key value. *)
Definition hex_digit (n : N) : ascii := Ascii.ascii_of_N (if N.ltb n 10 then 48 + n else 55 + n).
Definition encode_char (c : ascii) : string :=
  let n := Ascii.N_of_ascii c in
  if reserved c then String "%" (String (hex_digit (n / 16)) (String (hex_digit (n mod 16)) ""))
  else String c "".
Fixpoint percentEncode (s : string) : string :=
  match s with "" => "" | String c s => encode_char c +:+ percentEncode s end.

(** The remaining input does not continue a key value. *)
Definition key_end (r : string) : bool :=
  match r with "" => true | String c _ => reserved c && negb (is_char "%" c) end.

Section lexical.
Context {X : X3} {HX : X3Laws X}.

Lemma run_identStart s :
  run (alt alpha (char_lit "_")) s = run (char_ ident_start) s.
Proof. apply run_alt_char. Qed.
Lemma run_identChar s : run identChar s = run (char_ ident_char) s.
Proof.
  unfold identChar, alnum, char_lit. rewrite !run_alt, !run_char. destruct s as [|c s]; [done|].
  unfold ident_char. by destruct (is_alnum c), (is_char "_" c), (is_char "-" c), (is_char "." c).
Qed.
Lemma run_identChars s :
  run (as_string (kleene identChar)) s = let '(a, r) := span ident_char s in PMatch a r.
Proof.
  rewrite <- run_chars. unfold as_string. rewrite !run_cast. f_equal.
  apply run_kleene_ext; [|apply run_identChar].
  eapply consuming_ext; [apply consuming_char|apply run_identChar].
Qed.

Lemma run_identifier s :
  run identifier s =
  match s with
  | "" => PFail
  | String c s =>
      if ident_start c then let '(a, r) := span ident_char s in PMatch (String c a) r else PFail
  end.
Proof.
  unfold identifier. rewrite run_rule, run_expect_str. unfold char_str.
  rewrite run_cast, run_identStart, run_char. destruct s as [|c s]; simpl; [done|].
  destruct (ident_start c); simpl; [|done]. rewrite run_identChars.
  by destruct (span ident_char s).
Qed.
Lemma run_identifier_app i r :
  is_identifier i = true → head_is ident_char r = false → run identifier (i +:+ r) = PMatch i r.
Proof.
  destruct i as [|c i]; simpl; [done|]. intros [Hc Hi]%andb_true_iff Hr.
  rewrite str_app_cons, run_identifier, Hc, span_app; done.
Qed.
Lemma ens_identifier : ensures identifier (λ i, is_identifier i = true).
Proof.
  intros [|c s] a r; rewrite run_identifier; [done|]. destruct (ident_start c) eqn:Hc; [|done].
  destruct (span ident_char s) as [a' r'] eqn:Hs. intros; simplify_eq/=.
  apply span_spec in Hs as (_ & -> & _). by rewrite Hc.
Qed.
Lemma run_identifier_fail r : head_is ident_start r = false → run identifier r = PFail.
Proof. rewrite run_identifier. destruct r; simpl; [done|]. by intros ->. Qed.

Lemma run_reservedChars d r :
  run reservedChars (String d r) = if reserved d then PMatch tt r else PFail.
Proof.
  unfold reservedChars. rewrite !run_alt_lit, run_lit.
  by destruct d as [[] [] [] [] [] [] [] []].
Qed.

Lemma run_unreserved s :
  run (diff (char_ any_char) reservedChars) s =
  match s with
  | "" => PFail
  | String c r => if reserved c then PFail else PMatch c r
  end.
Proof.
  rewrite run_diff. destruct s as [|c s].
  - rewrite run_char. unfold reservedChars. by rewrite !run_alt, !run_lit_nil.
  - rewrite run_reservedChars. destruct (reserved c); [done|]. by rewrite run_char.
Qed.
Lemma run_hexbyte a b r :
  is_xdigit a = true → is_xdigit b = true →
  run hexbyte (String a (String b r)) = PMatch (add (add 0 a) b) r.
Proof.
  intros Ha Hb. unfold hexbyte, xdigit.
  rewrite run_rule, run_cast, run_seq, run_seq_r, run_eps. simpl.
  rewrite run_char, Ha. simpl. by rewrite run_char, Hb.
Qed.
Lemma consuming_hexbyte : consuming hexbyte.
Proof.
  intros s n r. unfold hexbyte, xdigit. rewrite run_rule, run_cast, run_seq, run_seq_r, run_eps.
  simpl. rewrite run_char. destruct s as [|c [|d s]]; simpl; try done.
  - destruct (is_xdigit c); simpl; [by rewrite run_char|done].
  - destruct (is_xdigit c); simpl; [|done]. rewrite run_char.
    destruct (is_xdigit d); simpl; [|done]. intros; simplify_eq. lia.
Qed.

(** One octet of a key value. *)
Definition keyOctet : parser ascii :=
  alt (cast Ascii.ascii_of_N percentEncodedChar) (diff (char_ any_char) reservedChars).

Lemma run_keyOctet_encoded c r : run keyOctet (encode_char c +:+ r) = PMatch c r.
Proof.
  unfold keyOctet, percentEncodedChar. rewrite run_alt, run_cast, run_rule, run_expect_r.
  unfold encode_char. destruct (reserved c) eqn:Hc.
  - rewrite !str_app_cons, run_lit_same. simpl.
    assert (is_xdigit (hex_digit (Ascii.N_of_ascii c / 16)) = true ∧
            is_xdigit (hex_digit (Ascii.N_of_ascii c mod 16)) = true ∧
            Ascii.ascii_of_N (add (add 0 (hex_digit (Ascii.N_of_ascii c / 16)))
                                (hex_digit (Ascii.N_of_ascii c mod 16))) = c) as (Ha & Hb & He).
    { clear Hc. revert c. by_all_chars. }
    rewrite run_hexbyte by done. simpl. by rewrite He.
  - rewrite !str_app_cons, str_app_nil_l, run_lit.
    assert (is_char "%" c = false) as ->.
    { revert Hc. unfold reserved. by rewrite orb_false_iff; intros [_ ?]. }
    simpl. rewrite run_unreserved. by rewrite Hc.
Qed.
Lemma run_keyOctet_end r : key_end r = true → run keyOctet r = PFail.
Proof.
  unfold keyOctet, percentEncodedChar. rewrite run_alt, run_cast, run_rule, run_expect_r.
  rewrite run_unreserved. destruct r as [|c r]; simpl; [by rewrite run_lit_nil|].
  intros [-> Hc%negb_true_iff]%andb_true_iff. by rewrite run_lit, Hc.
Qed.
Lemma consuming_keyOctet : consuming keyOctet.
Proof.
  intros s c r. unfold keyOctet, percentEncodedChar.
  rewrite run_alt, run_cast, run_rule, run_expect_r, run_unreserved.
  destruct s as [|d s]; [by rewrite run_lit_nil|]. rewrite run_lit.
  destruct (is_char "%" d); simpl.
  - destruct (run hexbyte s) eqn:E; simpl; intros; simplify_eq. apply consuming_hexbyte in E. lia.
  - destruct (reserved d); intros; simplify_eq. lia.
Qed.
Lemma fwd_keyOctet : forward keyOctet.
Proof.
  unfold keyOctet, percentEncodedChar, hexbyte, reservedChars, seq_r, expect_r, xdigit.
  auto 40 with x3fwd.
Qed.

Lemma run_keyOctets_encoded k r :
  key_end r = true →
  run (as_string (kleene keyOctet)) (percentEncode k +:+ r) = PMatch k r.
Proof.
  intros Hr. unfold as_string. rewrite run_cast. induction k as [|c k IH]; simpl.
  - rewrite str_app_nil_l, run_kleene, run_keyOctet_end by (done || apply consuming_keyOctet). done.
  - rewrite str_app_assoc, run_kleene, run_keyOctet_encoded by apply consuming_keyOctet.
    destruct (run (kleene keyOctet) _); simpl in *; by simplify_eq.
Qed.
Lemma run_percentEncodedString_app k r :
  k ≠ "" → key_end r = true → run percentEncodedString (percentEncode k +:+ r) = PMatch k r.
Proof.
  intros Hk Hr. unfold percentEncodedString. rewrite run_rule. unfold as_string.
  rewrite run_cast, run_plus, run_seq. destruct k as [|c k]; simpl; [done|].
  rewrite str_app_assoc. fold keyOctet. rewrite run_keyOctet_encoded. simpl.
  pose proof (run_keyOctets_encoded k r Hr) as H. unfold as_string in H. rewrite run_cast in H.
  destruct (run (kleene keyOctet) _); simpl in *; by simplify_eq.
Qed.
Lemma run_percentEncodedString_end r : key_end r = true → run percentEncodedString r = PFail.
Proof.
  intros Hr. unfold percentEncodedString. rewrite run_rule. unfold as_string.
  rewrite run_cast, run_plus, run_seq. fold keyOctet. by rewrite run_keyOctet_end.
Qed.
End lexical.

(** ** Rendering resource paths, and which ones are well-formed *)

Definition wf_api (a : ApiIdentifier) : bool :=
  is_identifier (UriTypes.identifier a) &&
  match prefix a with Some p => is_identifier p | None => true end.
Definition wf_seg (s : PathSegment) : bool := wf_api (apiIdent s).
(** The first segment names its module (RFC 8040, section 3.5.3). *)
Definition wf_segs (l : list PathSegment) : bool :=
  forallb wf_seg l &&
  match l with [] => true | s :: _ => bool_decide (is_Some (prefix (apiIdent s))) end.
Definition wf_path (u : URIPath) : bool :=
  wf_segs (segments u) &&
  match resourceType (uri_prefix u), uri_datastore (uri_prefix u) with
  | NMDADatastore, Some d => wf_api d && bool_decide (is_Some (prefix d))
  | NMDADatastore, None => false
  | (BasicRestconfData | BasicRestconfOperations), None => true
  | (RestconfRoot | YangLibraryVersion), None => bool_decide (segments u = [])
  | _, Some _ => false
  end.

Fixpoint renderMoreKeys (ks : list string) : string :=
  match ks with [] => "" | k :: ks => "," +:+ percentEncode k +:+ renderMoreKeys ks end.
Definition renderKeys (ks : list string) : string :=
  match ks with [] => "" | k :: ks => "=" +:+ percentEncode k +:+ renderMoreKeys ks end.
Definition renderSegment (s : PathSegment) : string :=
  api_name (apiIdent s) +:+ renderKeys (keys s).
Fixpoint renderSegments (l : list PathSegment) : string :=
  match l with [] => "" | s :: l => "/" +:+ renderSegment s +:+ renderSegments l end.
Definition renderPrefix (p : URIPrefix) : string :=
  match resourceType p with
  | RestconfRoot => ""
  | BasicRestconfData => "/data"
  | BasicRestconfOperations => "/operations"
  | NMDADatastore => "/ds/" +:+ from_option api_name "" (uri_datastore p)
  | YangLibraryVersion => "/yang-library-version"
  end.
Definition renderUriPath (u : URIPath) : string :=
  "/restconf" +:+ renderPrefix (uri_prefix u) +:+ renderSegments (segments u).

(** What may follow a segment: the end, the next segment, or the next query parameter. *)
Definition seg_end (r : string) : bool :=
  match r with "" => true | String c _ => is_char "/" c || is_char "&" c end.

Section segments.
Context {X : X3} {HX : X3Laws X}.

Lemma seg_end_inv r :
  seg_end r = true → r = "" ∨ (∃ r', r = String "/" r') ∨ (∃ r', r = String "&" r').
Proof.
  destruct r as [|c r]; simpl; [auto|]. rewrite orb_true_iff, !is_char_true. naive_solver.
Qed.
Lemma seg_end_lit c r :
  seg_end r = true → c ≠ "/"%char → c ≠ "&"%char → run (lit_char c) r = PFail.
Proof.
  intros [->|[[r' ->]|[r' ->]]]%seg_end_inv Hs Ha; [apply run_lit_nil|..];
    rewrite run_lit; destruct (is_char _ _) eqn:E; try done; by apply is_char_true in E.
Qed.
Lemma seg_end_key_end r : seg_end r = true → key_end r = true.
Proof. by intros [->|[[r' ->]|[r' ->]]]%seg_end_inv. Qed.
Lemma seg_end_ident r : seg_end r = true → head_is ident_char r = false.
Proof. by intros [->|[[r' ->]|[r' ->]]]%seg_end_inv. Qed.

Definition keyItem : parser string := alt percentEncodedString (expect_r eps (attr "")).
Lemma run_keyItem k r : key_end r = true → run keyItem (percentEncode k +:+ r) = PMatch k r.
Proof.
  intros Hr. unfold keyItem. rewrite run_alt. destruct k as [|c k].
  - simpl. rewrite str_app_nil_l, run_percentEncodedString_end by done.
    by rewrite run_expect_r, run_eps; simpl; rewrite run_attr.
  - by rewrite run_percentEncodedString_app.
Qed.
Lemma fwd_percentEncodedString : forward percentEncodedString.
Proof.
  apply fwd_rule, fwd_cast, fwd_plus; [apply consuming_keyOctet|apply fwd_keyOctet].
Qed.
Lemma fwd_keyItem : forward keyItem.
Proof. apply fwd_alt; [apply fwd_percentEncodedString|]. unfold expect_r. auto with x3fwd. Qed.
Lemma consuming_moreKey : consuming (seq (lit_char ",") keyItem).
Proof. apply consuming_seq_l; [apply consuming_lit_char|apply fwd_keyItem]. Qed.

Lemma key_end_more ks r : seg_end r = true → key_end (renderMoreKeys ks +:+ r) = true.
Proof. destruct ks; [apply seg_end_key_end|done]. Qed.

Lemma run_moreKeys ks r :
  seg_end r = true →
  run (kleene (seq (lit_char ",") keyItem)) (renderMoreKeys ks +:+ r) =
  PMatch (pair tt <$> ks) r.
Proof.
  intros Hr. induction ks as [|k ks IH]; rewrite run_kleene, run_seq by apply consuming_moreKey; simpl.
  - by rewrite str_app_nil_l, seg_end_lit.
  - rewrite !str_app_assoc, str_app_cons, str_app_nil_l, run_lit_same. simpl.
    rewrite run_keyItem by by apply key_end_more. simpl. by rewrite IH.
Qed.
Lemma run_keyList_app k ks r :
  seg_end r = true →
  run keyList (percentEncode k +:+ renderMoreKeys ks +:+ r) = PMatch (k :: ks) r.
Proof.
  intros Hr. unfold keyList. rewrite run_rule, run_list, run_seq. fold keyItem.
  rewrite run_keyItem by by apply key_end_more. simpl.
  rewrite run_moreKeys by done. simpl. f_equal. f_equal. rewrite <- list_fmap_compose.
  by rewrite list_fmap_id.
Qed.

Lemma run_optKeys_app ks r : seg_end r = true → run optKeys (renderKeys ks +:+ r) = PMatch ks r.
Proof.
  intros Hr. unfold optKeys. rewrite run_cast, run_opt, run_expect_l, run_expect_r.
  destruct ks as [|k ks]; simpl.
  - by rewrite str_app_nil_l, seg_end_lit.
  - rewrite !str_app_assoc, str_app_cons, str_app_nil_l, run_lit_same. simpl.
    rewrite run_keyList_app by done. simpl. unfold noStrayEquals.
    by rewrite run_rule, run_not, seg_end_lit.
Qed.

Lemma renderKeys_end ks r :
  seg_end r = true →
  head_is ident_char (renderKeys ks +:+ r) = false ∧
  run (lit_char ":") (renderKeys ks +:+ r) = PFail.
Proof.
  intros Hr. destruct ks as [|k ks]; simpl.
  - rewrite str_app_nil_l. split; [by apply seg_end_ident|by apply seg_end_lit].
  - rewrite !str_app_assoc, str_app_cons. split; [done|]. by rewrite run_lit.
Qed.

Lemma run_identifier_colon i r : is_identifier i = true → run identifier (i +:+ ":" +:+ r) = PMatch i (":" +:+ r).
Proof. intros. by apply run_identifier_app. Qed.

Lemma run_apiIdentifier_app a r :
  wf_api a = true → head_is ident_char r = false → run (lit_char ":") r = PFail →
  run apiIdentifier (api_name a +:+ r) = PMatch a r.
Proof.
  destruct a as [p i]. unfold wf_api, api_name, apiIdentifier. simpl.
  intros [Hi Hp]%andb_true_iff Hr Hc. rewrite run_rule, run_cast, run_expect, run_opt, run_seq_l.
  destruct p as [p|].
  - rewrite !str_app_assoc, run_identifier_colon by done. simpl.
    rewrite str_app_cons, str_app_nil_l, run_lit_same. simpl. by rewrite run_identifier_app.
  - rewrite run_identifier_app by done. simpl. rewrite Hc. simpl. by rewrite run_identifier_app.
Qed.
Lemma run_fullyQualified_app a r :
  wf_api a = true → is_Some (prefix a) → head_is ident_char r = false →
  run fullyQualifiedApiIdentifier (api_name a +:+ r) = PMatch a r.
Proof.
  destruct a as [p i]. unfold wf_api, api_name, fullyQualifiedApiIdentifier. simpl.
  intros [Hi Hp]%andb_true_iff [p' ->] Hr. rewrite run_rule, run_cast, run_expect, run_expect_l.
  rewrite !str_app_assoc, run_identifier_colon by done. simpl.
  rewrite str_app_cons, str_app_nil_l, run_lit_same. simpl. by rewrite run_identifier_app.
Qed.

Lemma run_listInstance_app s r :
  wf_seg s = true → seg_end r = true → run listInstance (renderSegment s +:+ r) = PMatch s r.
Proof.
  destruct s as [a ks]. unfold wf_seg, renderSegment, listInstance. simpl. intros Ha Hr.
  destruct (renderKeys_end ks r Hr) as [He Hc].
  rewrite run_rule, run_cast, run_expect, str_app_assoc, run_apiIdentifier_app by done. simpl.
  by rewrite run_optKeys_app.
Qed.
Lemma run_fullyQualifiedListInstance_app s r :
  wf_seg s = true → is_Some (prefix (apiIdent s)) → seg_end r = true →
  run fullyQualifiedListInstance (renderSegment s +:+ r) = PMatch s r.
Proof.
  destruct s as [a ks]. unfold wf_seg, renderSegment, fullyQualifiedListInstance. simpl. intros Ha Hp Hr.
  destruct (renderKeys_end ks r Hr) as [He Hc].
  rewrite run_rule, run_cast, run_expect, str_app_assoc, run_fullyQualified_app by done. simpl.
  by rewrite run_optKeys_app.
Qed.
End segments.

(** ** Whole paths *)

Definition path_end (r : string) : bool := match r with "" => true | String c _ => is_char "&" c end.

Create HintDb ens.

Section paths.
Context {X : X3} {HX : X3Laws X}.

Lemma path_end_seg_end r : path_end r = true → seg_end r = true.
Proof. destruct r; simpl; [done|]. intros ->. by rewrite orb_true_r. Qed.
Lemma path_end_slash r : path_end r = true → run (lit_char "/") r = PFail.
Proof.
  destruct r as [|c r]; simpl; [by rewrite run_lit_nil|]. by intros <-%is_char_true; rewrite run_lit.
Qed.
Lemma seg_end_segments l r : path_end r = true → seg_end (renderSegments l +:+ r) = true.
Proof. destruct l; [apply path_end_seg_end|done]. Qed.

Lemma fwd_identifier : forward identifier.
Proof.
  intros s. rewrite run_identifier. destruct s as [|c s]; [done|].
  destruct (ident_start c); [|done]. destruct (span ident_char s) as [a r] eqn:E; simpl.
  apply span_spec in E as [-> _]. by exists (String c a).
Qed.
Lemma fwd_keyList : forward keyList.
Proof. apply fwd_rule, fwd_list; [apply consuming_lit_char|apply fwd_keyItem|apply fwd_lit_char]. Qed.
#[local] Hint Resolve fwd_identifier fwd_keyList : x3fwd.
Lemma fwd_optKeys : forward optKeys.
Proof. unfold optKeys, expect_l, expect_r, noStrayEquals. auto 20 with x3fwd. Qed.
#[local] Hint Resolve fwd_optKeys : x3fwd.
Lemma fwd_listInstance : forward listInstance.
Proof. unfold listInstance, apiIdentifier, seq_l. auto 20 with x3fwd. Qed.
#[local] Hint Resolve fwd_listInstance : x3fwd.
Lemma fwd_fullyQualifiedApiIdentifier : forward fullyQualifiedApiIdentifier.
Proof. unfold fullyQualifiedApiIdentifier, expect_l. auto 20 with x3fwd. Qed.
#[local] Hint Resolve fwd_fullyQualifiedApiIdentifier : x3fwd.
Lemma fwd_uriPath : forward uriPath.
Proof.
  unfold uriPath, uriPathMaybeEmpty, uriEmpty, uriPathContent, fullyQualifiedListInstance, expect_r.
  auto 20 with x3fwd.
Qed.
#[local] Hint Resolve fwd_uriPath : x3fwd.
Lemma fwd_restconfGrammar : forward restconfGrammar.
Proof.
  unfold restconfGrammar, resources, resource, nmdaDatastore, expect_r, expect_l.
  auto 60 with x3fwd.
Qed.

Lemma consuming_moreSegment : consuming (seq (lit_char "/") listInstance).
Proof. apply consuming_seq_l; [apply consuming_lit_char|apply fwd_listInstance]. Qed.
Lemma run_moreSegments l r :
  forallb wf_seg l = true → path_end r = true →
  run (kleene (seq (lit_char "/") listInstance)) (renderSegments l +:+ r) =
  PMatch (pair tt <$> l) r.
Proof.
  intros Hl Hr. induction l as [|s l IH]; rewrite run_kleene, run_seq by apply consuming_moreSegment; simpl.
  - by rewrite str_app_nil_l, path_end_slash.
  - simpl in Hl. apply andb_true_iff in Hl as [Hs Hl].
    rewrite !str_app_assoc, str_app_cons, str_app_nil_l, run_lit_same. simpl.
    rewrite run_listInstance_app by (done || by apply seg_end_segments). simpl. by rewrite IH.
Qed.

Lemma run_uriPathContent_app s l r :
  wf_segs (s :: l) = true → path_end r = true →
  run uriPathContent (renderSegment s +:+ renderSegments l +:+ r) = PMatch (s :: l) r.
Proof.
  unfold wf_segs. simpl. intros [[Hs Hl]%andb_true_iff Hp%bool_decide_eq_true]%andb_true_iff Hr.
  unfold uriPathContent. rewrite run_rule, run_cast, run_expect.
  rewrite run_fullyQualifiedListInstance_app by (done || by apply seg_end_segments). simpl.
  rewrite run_opt, run_expect_r. destruct l as [|s' l]; simpl.
  - by rewrite str_app_nil_l, path_end_slash.
  - simpl in Hl. apply andb_true_iff in Hl as [Hs' Hl].
    rewrite !str_app_assoc, str_app_cons, str_app_nil_l, run_lit_same. simpl.
    rewrite run_list, run_seq, run_listInstance_app by (done || by apply seg_end_segments). simpl.
    rewrite run_moreSegments by done. simpl. do 3 f_equal.
    rewrite <- list_fmap_compose. by rewrite list_fmap_id.
Qed.

Lemma run_uriEmpty s : run uriEmpty s = match s with "" => PMatch [] "" | _ => PFail end.
Proof.
  unfold uriEmpty. rewrite run_rule, run_expect_r, run_and, run_eoi.
  destruct s; simpl; [by rewrite run_attr|done].
Qed.
Lemma run_slash r : run (lit_str "/") (String "/" r) = PMatch tt r.
Proof. by rewrite run_lit_str, run_str. Qed.
Lemma renderSegment_nonempty s r :
  wf_seg s = true → ∃ c t, renderSegment s +:+ r = String c t.
Proof.
  destruct s as [[p i] ks]. unfold wf_seg, wf_api, renderSegment, api_name. simpl.
  intros [Hi Hp]%andb_true_iff. destruct p as [[|c p]|]; [done| |]; [by do 2 eexists|].
  destruct i; [done|by do 2 eexists].
Qed.

Lemma run_uriPath_app l : wf_segs l = true → run uriPath (renderSegments l) = PMatch l "".
Proof.
  intros Hl. unfold uriPath. rewrite run_rule, run_alt, run_uriEmpty.
  destruct l as [|s l]; simpl; [done|]. rewrite str_app_cons, str_app_nil_l, run_expect_r, run_slash.
  simpl. unfold uriPathMaybeEmpty. rewrite run_rule, run_alt, run_uriEmpty.
  destruct (renderSegment_nonempty s (renderSegments l)) as (c & t & Hs).
  { unfold wf_segs in Hl. simpl in Hl. rewrite !andb_true_iff in Hl. naive_solver. }
  rewrite Hs. rewrite <- Hs. rewrite <- (str_app_nil_r (renderSegments l)).
  by rewrite run_uriPathContent_app.
Qed.

(** A path as the value of the [point] query parameter, up to the next parameter. *)
Lemma run_uriPath_point s l r :
  wf_segs (s :: l) = true → path_end r = true →
  run uriPath (renderSegments (s :: l) +:+ r) = PMatch (s :: l) r.
Proof.
  intros Hl Hr. unfold uriPath. rewrite run_rule, run_alt, run_uriEmpty. simpl.
  rewrite !str_app_assoc, str_app_cons, str_app_nil_l, run_expect_r, run_slash.
  simpl. unfold uriPathMaybeEmpty. rewrite run_rule, run_alt, run_uriEmpty.
  destruct (renderSegment_nonempty s (renderSegments l +:+ r)) as (c & t & Hs).
  { unfold wf_segs in Hl. simpl in Hl. rewrite !andb_true_iff in Hl. naive_solver. }
  rewrite Hs. rewrite <- Hs. by rewrite run_uriPathContent_app.
Qed.
End paths.

(** ** What every accepted path satisfies *)

Section sound.
Context {X : X3} {HX : X3Laws X}.

Lemma ens_apiIdentifier : ensures apiIdentifier (λ a, wf_api a = true).
Proof.
  apply ens_rule, ens_cast. eapply ens_weaken.
  - apply ens_expect; [|apply ens_identifier].
    apply (ens_opt _ (λ p, from_option is_identifier true p = true)); [done|].
    apply ens_seq_l, ens_identifier.
  - intros [p i] [Hp Hi]. simpl in *. unfold wf_api. simpl. rewrite Hi. by destruct p.
Qed.
Lemma ens_fullyQualified :
  ensures fullyQualifiedApiIdentifier (λ a, wf_api a = true ∧ is_Some (prefix a)).
Proof.
  apply ens_rule, ens_cast. eapply ens_weaken.
  - apply ens_expect; [apply ens_expect_l, ens_identifier|apply ens_identifier].
  - intros [p i] [Hp Hi]. simpl in *. unfold wf_api, api2. simpl. rewrite Hi, Hp. naive_solver.
Qed.
Lemma ens_listInstance : ensures listInstance (λ s, wf_seg s = true).
Proof.
  apply ens_rule, ens_cast. eapply ens_weaken.
  - apply ens_expect; [apply ens_apiIdentifier|apply ens_true].
  - intros [a ks] [Ha _]. done.
Qed.
Lemma ens_fullyQualifiedListInstance :
  ensures fullyQualifiedListInstance (λ s, wf_seg s = true ∧ is_Some (prefix (apiIdent s))).
Proof.
  apply ens_rule, ens_cast. eapply ens_weaken.
  - apply ens_expect; [apply ens_fullyQualified|apply ens_true].
  - intros [a ks] [Ha _]. done.
Qed.
Lemma forallb_Forall_seg l : forallb wf_seg l = true ↔ Forall (λ s, wf_seg s = true) l.
Proof.
  induction l as [|s l IH]; simpl; [done|]. by rewrite andb_true_iff, Forall_cons, IH.
Qed.
Lemma ens_uriPathContent : ensures uriPathContent (λ l, wf_segs l = true).
Proof.
  apply ens_rule, ens_cast. eapply ens_weaken.
  - apply ens_expect; [apply ens_fullyQualifiedListInstance|].
    apply (ens_opt _ (λ l, Forall (λ s, wf_seg s = true) (default [] l))); [done|].
    apply ens_expect_r. eapply ens_weaken.
    + apply ens_list; [apply consuming_lit_char|apply fwd_listInstance|apply ens_listInstance].
    + naive_solver.
  - intros [s l] [[Hs Hp] Hl]. unfold wf_segs. simpl in *.
    rewrite Hs. by rewrite (proj2 (forallb_Forall_seg _) Hl), bool_decide_eq_true_2.
Qed.
Lemma ens_uriEmpty : ensures uriEmpty (λ l, l = []).
Proof. intros [|c s] a r; rewrite run_uriEmpty; [by intros [= <- _]|done]. Qed.
Lemma ens_uriPath : ensures uriPath (λ l, wf_segs l = true).
Proof.
  assert (ensures uriEmpty (λ l, wf_segs l = true)) as He.
  { eapply ens_weaken; [apply ens_uriEmpty|]. by intros ? ->. }
  apply ens_rule, ens_alt; [done|].
  apply ens_expect_r, ens_rule, ens_alt; [done|apply ens_uriPathContent].
Qed.

(** A resource: its prefix satisfies [P], its segments satisfy [Q]. *)
Lemma ens_mk_path (p : parser URIPrefix) (q : parser (list PathSegment)) P Q (R : URIPath → Prop) :
  ensures p P → ensures q Q → (∀ x l, P x → Q l → R (mkPath x l)) →
  ensures (cast mk_path (expect p q)) R.
Proof.
  intros Hp Hq HR. apply ens_cast. eapply ens_weaken; [by apply ens_expect|].
  intros [x l] [??]. by apply HR.
Qed.
Lemma ens_root : ensures (cast mk_path (expect (expect_r eoi (attr (mkPrefix RestconfRoot None))) (attr [])))
                         (λ u, wf_path u = true).
Proof.
  eapply ens_mk_path; [by apply ens_expect_r, (ens_attr _ (eq (mkPrefix RestconfRoot None)))
                      |by apply (ens_attr _ (eq []))|].
  by intros ?? <- <-.
Qed.
Lemma ens_plain_resource lit t :
  match t with BasicRestconfData | BasicRestconfOperations => True | _ => False end →
  ensures (cast mk_path (expect (expect_r (lit_str lit) (attr (mkPrefix t None))) uriPath))
          (λ u, wf_path u = true).
Proof.
  intros Ht. eapply ens_mk_path;
    [by apply ens_expect_r, (ens_attr _ (eq (mkPrefix t None)))|apply ens_uriPath|].
  intros ? l <- Hl. unfold wf_path. simpl. rewrite Hl. by destruct t.
Qed.
Lemma ens_nmdaDatastore :
  ensures nmdaDatastore (λ p, resourceType p = NMDADatastore ∧
    ∃ d, uri_datastore p = Some d ∧ wf_api d = true ∧ is_Some (prefix d)).
Proof.
  apply ens_rule, ens_cast. eapply ens_weaken.
  - apply ens_expect; [by apply ens_expect_l, (ens_attr _ (eq NMDADatastore))|apply ens_fullyQualified].
  - intros [t d]. simpl. intros [<- ?]. eauto.
Qed.
Lemma ens_resource : ensures resource (λ u, wf_path u = true).
Proof.
  apply ens_rule. repeat apply ens_alt.
  - apply ens_root.
  - by apply ens_plain_resource.
  - eapply ens_mk_path; [apply ens_expect_r, ens_nmdaDatastore|apply ens_uriPath|].
    intros [t ds] l [Ht (d & Hd & Ha & Hp)] Hl. simpl in *. subst. unfold wf_path. simpl.
    by rewrite Hl, Ha, bool_decide_eq_true_2.
  - by apply ens_plain_resource.
  - apply ens_cast. eapply ens_weaken.
    + apply ens_expect_l, ens_expect;
        [by apply ens_expect_r, (ens_attr _ (eq (mkPrefix YangLibraryVersion None)))
        |by apply (ens_attr _ (eq []))].
    + intros [x l]. simpl. by intros [<- <-].
Qed.
Lemma ens_restconfGrammar : ensures restconfGrammar (λ u, wf_path u = true).
Proof.
  apply ens_rule, ens_expect_r, ens_rule, ens_alt; [apply ens_expect_r, ens_resource|apply ens_root].
Qed.
End sound.

(** ** [parse] *)

Section parse.
Context {X : X3} {HX : X3Laws X}.

Lemma parse_match {A} E (g : parser A) s a off : run g s = PMatch a "" → parse E s g off = Ok a.
Proof. intros H. unfold parse. rewrite run_expect_l, H. simpl. by rewrite run_eoi. Qed.
Lemma parse_Ok_inv {A} E (g : parser A) s a off : parse E s g off = Ok a → run g s = PMatch a "".
Proof.
  unfold parse. rewrite run_expect_l. destruct (run g s) as [a' r| |]; simpl; [|done..].
  rewrite run_eoi. destruct r; simpl; intros; by simplify_eq.
Qed.
Lemma parse_ensures {A} E (g : parser A) s a off Q : ensures g Q → parse E s g off = Ok a → Q a.
Proof. intros Hg ?%parse_Ok_inv. by eapply Hg. Qed.

(** A parse error is a syntax error; when it has a position, the position is the offset
    of the place in the input where the expected token is missing. *)
Lemma parse_Throw_inv {A} E (g : parser A) s off e :
  forward g → parse E s g off = Throw e →
  (run g s = PFail ∧ e = EResponse (syntaxError E)) ∨
  ∃ before rest which, s = before +:+ rest ∧
    e = EResponse (syntaxErrorAt E (u32 (N.of_nat (String.length before) + off)) which).
Proof.
  intros Hg. unfold parse.
  assert (forward (expect_l g eoi)) as Hf by (apply fwd_cast, fwd_expect; [done|apply fwd_eoi]).
  specialize (Hf s). destruct (run (expect_l g eoi) s) as [| |w n] eqn:E'; intros H; simplify_eq.
  - left. rewrite run_expect_l in E'. destruct (run g s) as [a r| |]; simpl in E'; [|done..].
    by destruct (run eoi r).
  - right. destruct Hf as [before ->]. exists before, w, n. split; [done|].
    unfold distance. rewrite str_length_app. do 4 f_equal. lia.
Qed.
End parse.

(** ** The main theorems *)

Section restconf_path.
Context {X : X3} {HX : X3Laws X}.

Lemma run_lit_str_app t r : run (lit_str t) (t +:+ r) = PMatch tt r.
Proof. by rewrite run_lit_str, run_str, strip_prefix_app. Qed.
Lemma run_lit_str_fail t s : strip_prefix t s = None → run (lit_str t) s = PFail.
Proof. intros H. by rewrite run_lit_str, run_str, H. Qed.
Lemma run_alt_fail {A} (p q : parser A) s : run p s = PFail → run (alt p q) s = run q s.
Proof. intros H. by rewrite run_alt, H. Qed.
Lemma run_alt_match {A} (p q : parser A) s a r : run p s = PMatch a r → run (alt p q) s = PMatch a r.
Proof. intros H. by rewrite run_alt, H. Qed.
Lemma run_resource_fail (p : parser URIPrefix) (q : parser (list PathSegment)) s :
  run p s = PFail → run (cast mk_path (expect p q)) s = PFail.
Proof. intros H. by rewrite run_cast, run_expect, H. Qed.
Lemma run_resource_match (p : parser URIPrefix) (q : parser (list PathSegment)) s x r l :
  run p s = PMatch x r → run q r = PMatch l "" →
  run (cast mk_path (expect p q)) s = PMatch (mkPath x l) "".
Proof. intros H H'. rewrite run_cast, run_expect, H. simpl. by rewrite H'. Qed.
Lemma run_lit_attr {A} t s (a : A) :
  run (expect_r (lit_str t) (attr a)) (t +:+ s) = PMatch a s.
Proof. rewrite run_expect_r, run_lit_str_app. simpl. by rewrite run_attr. Qed.
Lemma run_lit_fail {A} t (p : parser A) s :
  strip_prefix t s = None → run (expect_r (lit_str t) p) s = PFail.
Proof. intros H. by rewrite run_expect_r, run_lit_str_fail. Qed.
Lemma run_eoi_fail {A} (p : parser A) c s : run (expect_r eoi p) (String c s) = PFail.
Proof. by rewrite run_expect_r, run_eoi. Qed.

(** The alternatives of [resource] that do not start with the literal at hand fail. *)
Ltac skip_alternative :=
  rewrite run_alt_fail by
    (apply run_resource_fail;
     first [rewrite str_app_cons; apply run_eoi_fail | by apply run_lit_fail]).

Lemma run_resource_plain name t l :
  (name, t) ∈ [("data", BasicRestconfData); ("operations", BasicRestconfOperations)] →
  wf_segs l = true →
  run resource (name +:+ renderSegments l) = PMatch (mkPath (mkPrefix t None) l) "".
Proof.
  intros Hn Hl. unfold resource. rewrite run_rule.
  repeat (apply elem_of_cons in Hn as [[= -> ->]|Hn]); [..|by apply elem_of_nil in Hn];
    repeat skip_alternative; apply run_alt_match;
    (eapply run_resource_match; [apply run_lit_attr|by apply run_uriPath_app]).
Qed.
Lemma seg_end_renderSegments l : seg_end (renderSegments l) = true.
Proof. by destruct l. Qed.
Lemma run_resource_nmda d l :
  wf_api d = true → is_Some (prefix d) → wf_segs l = true →
  run resource ("ds/" +:+ api_name d +:+ renderSegments l) =
  PMatch (mkPath (mkPrefix NMDADatastore (Some d)) l) "".
Proof.
  intros Hd Hp Hl. unfold resource. rewrite run_rule. repeat skip_alternative.
  apply run_alt_match. eapply run_resource_match; [|by apply run_uriPath_app].
  rewrite run_expect_r. change ("ds/" +:+ ?x) with ("ds" +:+ "/" +:+ x).
  rewrite run_lit_str_app. simpl. unfold nmdaDatastore.
  rewrite run_rule, run_cast, run_expect, run_expect_l, run_attr. simpl.
  rewrite str_app_cons, str_app_nil_l, run_lit_same. simpl.
  by rewrite run_fullyQualified_app by (done || by apply seg_end_ident, seg_end_renderSegments).
Qed.
Lemma run_resource_version :
  run resource "yang-library-version" = PMatch (mkPath (mkPrefix YangLibraryVersion None) []) "".
Proof.
  unfold resource. rewrite run_rule. change "yang-library-version" with ("yang-library-version" +:+ "") at 2.
  repeat skip_alternative. rewrite run_cast, run_expect_l, run_expect, run_lit_attr. simpl.
  rewrite run_attr. simpl. by rewrite run_opt, run_lit_str_fail.
Qed.

Lemma run_restconf r : run restconfGrammar ("/restconf" +:+ r) = or_expect r "RESTCONF resource" (run resources r).
Proof.
  unfold restconfGrammar. rewrite run_rule, run_expect_r, run_expect_r.
  change ("/restconf" +:+ r) with (String "/" ("restconf" +:+ r)). rewrite run_slash. simpl.
  rewrite run_lit_str_app. simpl.
  by assert (what resources = "RESTCONF resource") as -> by apply what_rule.
Qed.
Lemma run_resources_slash r u :
  run resource r = PMatch u "" → run resources (String "/" r) = PMatch u "".
Proof.
  intros H. unfold resources. rewrite run_rule. apply run_alt_match.
  by rewrite run_expect_r, run_slash; simpl; rewrite H.
Qed.

Lemma run_restconfGrammar_render u :
  wf_path u = true → run restconfGrammar (renderUriPath u) = PMatch u "".
Proof.
  destruct u as [[t d] l]. unfold wf_path, renderUriPath. simpl.
  intros [Hl Ht]%andb_true_iff. rewrite run_restconf. unfold renderPrefix. simpl.
  destruct t, d as [d|]; try done.
  - apply bool_decide_eq_true in Ht as ->. simpl. unfold resources.
    rewrite run_rule, run_alt_fail by (by apply run_lit_fail).
    by rewrite run_cast, run_expect, run_expect_r, run_eoi; simpl; rewrite run_attr; simpl; rewrite run_attr.
  - change ("/data" +:+ ?x) with (String "/" ("data" +:+ x)).
    by erewrite run_resources_slash by (apply (run_resource_plain _ BasicRestconfData); [set_solver|done]).
  - change ("/operations" +:+ ?x) with (String "/" ("operations" +:+ x)).
    by erewrite run_resources_slash by (apply (run_resource_plain _ BasicRestconfOperations); [set_solver|done]).
  - apply andb_true_iff in Ht as [Hd Hp%bool_decide_eq_true].
    rewrite str_app_assoc. change ("/ds/" +:+ ?x) with (String "/" ("ds/" +:+ x)).
    by erewrite run_resources_slash by by apply run_resource_nmda.
  - apply bool_decide_eq_true in Ht as ->. simpl. rewrite str_app_nil_r.
    change "/yang-library-version" with (String "/" "yang-library-version").
    by erewrite run_resources_slash by apply run_resource_version.
Qed.
End restconf_path.

(** C36: parsing is a left inverse of rendering: for every well-formed resource path (YANG
    identifiers, a module-qualified first segment, a datastore exactly for the NMDA
    prefix, any key values at all), percent-encoding the key values and printing the path
    gives a URI that [parseUriPath] parses back to the same path. *)
Theorem parseUriPath_roundtrip {X : X3} {HX : X3Laws X} (u : URIPath) :
  wf_path u = true → parseUriPath (renderUriPath u) = Ok u.
Proof. intros Hu. by apply parse_match, run_restconfGrammar_render. Qed.

(** The path with a datastore, two segments and awkward key values. *)
Definition sample_path : URIPath :=
  mkPath (mkPrefix NMDADatastore (Some (api2 "ietf-datastores" "running")))
    [mkSeg (api2 "example" "tlc") []; mkSeg (api1 "list") ["a,b/=%"; ""; "'x'"]].

Lemma parseUriPath_roundtrip_witness :
  wf_path sample_path = true ∧
  renderUriPath sample_path = "/restconf/ds/ietf-datastores:running/example:tlc/list=a%2Cb%2F%3D%25,,%27x%27" ∧
  parseUriPath (X := x3_ref) (renderUriPath sample_path) = Ok sample_path.
Proof.
  split; [reflexivity|]. split; [reflexivity|].
  apply (parseUriPath_roundtrip (X := x3_ref) (HX := x3_ref_laws)). reflexivity.
Defined.

(** Whatever URI the parser accepts, the resulting path is well-formed: module names and
    node names are YANG identifiers, the first segment is module-qualified, an NMDA path
    has a module-qualified datastore and no other path has one, and the API root and
    the yang-library-version resource have no segments. *)
Theorem parseUriPath_sound {X : X3} {HX : X3Laws X} (s : string) (u : URIPath) :
  parseUriPath s = Ok u → wf_path u = true.
Proof. intros H. by eapply parse_ensures in H; [|apply ens_restconfGrammar]. Qed.

Lemma parseUriPath_sound_witness :
  wf_path (mkPath (mkPrefix BasicRestconfData None) [mkSeg (api2 "foo" "bar") []; mkSeg (api1 "lst") ["key1"; ""]]) = true.
Proof.
  apply (parseUriPath_sound (X := x3_ref) (HX := x3_ref_laws) "/restconf/data/foo:bar/lst=key1,").
  vm_compute. reflexivity.
Defined.

(** A URI path that is rejected is rejected with a 400 [protocol]/[invalid-value] error;
    unless the path does not even start with a slash, the error carries the offset of the
    offending position, which lies inside the URI, and what was expected there. *)
Theorem parseUriPath_error {X : X3} {HX : X3Laws X} (s : string) (e : exn) :
  (N.of_nat (String.length s) < 2 ^ 32)%N →
  parseUriPath s = Throw e →
  (starts_with "/" s = false ∧ e = EResponse UriPathSyntaxError) ∨
  ∃ before rest token,
    s = before +:+ rest ∧
    e = EResponse (UriPathSyntaxErrorAt (N.of_nat (String.length before)) token).
Proof.
  intros Hlen [[Hf ->]|(before & rest & which & -> & ->)]%parse_Throw_inv; [| |apply fwd_restconfGrammar].
  - left. split; [|done]. unfold restconfGrammar in Hf.
    rewrite run_rule, run_expect_r, run_expect_r, run_lit_str, run_str in Hf.
    unfold starts_with. destruct (strip_prefix "/" s) as [r|]; [exfalso|done].
    simpl in Hf. destruct (run (lit_str "restconf") r) as [? r'| |]; simpl in Hf; try done.
    by destruct (run resources r').
  - right. exists before, rest, which. split; [done|]. simpl. do 3 f_equal.
    rewrite str_length_app in Hlen. unfold u32. rewrite N.add_0_r. apply N.mod_small. lia.
Qed.

Lemma parseUriPath_error_witness :
  ∃ before rest token,
    "/restconf/data/foo:bar/lst==" = before +:+ rest ∧
    EResponse (UriPathSyntaxErrorAt 27 "valid key value") =
    EResponse (UriPathSyntaxErrorAt (N.of_nat (String.length before)) token).
Proof.
  destruct (parseUriPath_error (X := x3_ref) (HX := x3_ref_laws) "/restconf/data/foo:bar/lst=="
              (EResponse (UriPathSyntaxErrorAt 27 "valid key value"))) as [[H _]|H].
  - vm_compute. reflexivity.
  - vm_compute. reflexivity.
  - discriminate H.
  - exact H.
Defined.
