(* ===== verification/UriQuery.v ===== *)
(** * UriQuery: the query string grammar of [restconf/uri.cpp]

    The rules of the second anonymous namespace, with the source's names.  The recursive
    rules of the fields expression take a bound on the nesting depth; each level consumes a
    character, so the length of the input is enough ([UriQueryFacts.fieldsSemi_enough]). *)

From S2P Require Import Prelude Exceptions UriTypes Uuid X3 UriGrammar.

Open Scope x3_scope.

Section query.
Context {X : X3}.

(** The semantic action of [depthParam]: sets the value and [_pass]. *)
Definition validDepthValues (n : N) : option QueryParamValue :=
  if N.ltb 0 n && N.ltb n 65536 then Some (UnsignedInt n) else None.

Definition withDefaultsTable : list (string * QueryParamValue) :=
  [("trim", Trim); ("explicit", Explicit); ("report-all", ReportAll);
   ("report-all-tagged", ReportAllTagged)].
Definition contentTable : list (string * QueryParamValue) :=
  [("all", AllNodes); ("nonconfig", OnlyNonConfigNodes); ("config", OnlyConfigNodes)].
Definition insertTable : list (string * QueryParamValue) :=
  [("first", First); ("last", Last); ("after", After); ("before", Before)].

(** ** Fields expressions *)

(** A rule used before its definition is given ([BOOST_SPIRIT_DEFINE]): its name is known,
    its body is run when the parser gets there. *)
Definition deferred {A} (name : string) (body : string → presult A) : parser A := Parser name body.

(** [fieldsSlash_def = apiIdentifier > -(lit("/") > fieldsSlash)] *)
Fixpoint run_fieldsSlash (n : nat) (s : string) : presult Expr :=
  match n with
  | O => PFail
  | S n =>
      run (cast (λ '(a, r), SlashExpr a r)
             (apiIdentifier >* opt (lit_str "/" >:> deferred "fieldsSlash" (run_fieldsSlash n)))) s
  end.
Definition fieldsSlash (n : nat) : parser Expr := deferred "fieldsSlash" (run_fieldsSlash n).

(** [fieldsParen_def = fieldsSlash > -(lit("(") > fieldsExpr > lit(")"))] *)
Definition fieldsParen (slash expr : parser Expr) : parser Expr :=
  rule "fieldsParen"
    (cast (λ '(a, r), ParenExpr a r) (slash >* opt (lit_str "(" >:> expr <:< lit_str ")"))).

(** [fieldsSemi_def = fieldsParen > -(lit(";") > fieldsSemi)], [fieldsExpr_def = fieldsSemi] *)
Fixpoint run_fieldsSemi (n : nat) (s : string) : presult Expr :=
  match n with
  | O => PFail
  | S n =>
      run (cast (λ '(a, r), SemiExpr a r)
             (fieldsParen (fieldsSlash (S n)) (deferred "fieldsExpr" (run_fieldsSemi n)) >*
              opt (lit_str ";" >:> deferred "fieldsSemi" (run_fieldsSemi n)))) s
  end.
Definition fieldsExpr : parser Expr :=
  rule "fieldsExpr" (deferred "fieldsSemi" (λ s, run_fieldsSemi (S (String.length s)) s)).

(** ** Timestamps *)

Definition digit_str : parser string := char_str digit.
Definition twoDigits : parser string := rule "twoDigits" (expect_str digit_str digit_str).
Definition minute : parser string := rule "minute" twoDigits.
Definition hour : parser string := rule "hour" twoDigits.
Definition second : parser string := rule "second" twoDigits.
Definition day : parser string := rule "day" twoDigits.
Definition month : parser string := rule "month" twoDigits.
Definition year : parser string :=
  rule "year" (expect_str (expect_str (expect_str digit_str digit_str) digit_str) digit_str).
Definition date : parser string :=
  rule "YYYY-MM-DD" (expect_str (expect_str (expect_str (expect_str year dash) month) dash) day).
Definition colon : parser string := char_str (char_lit ":").
Definition timeHHMM : parser string := rule "HH:mm" (expect_str (expect_str hour colon) minute).
Definition time : parser string := rule "HH:mm:SS" (expect_str (expect_str timeHHMM colon) second).
Definition timeMs : parser string :=
  rule "timeMs" (expect_str (char_str (char_lit ".")) (as_string (plus_ digit))).
Definition tzZulu : parser string := rule "tzZulu" (str_ "Z").
Definition tzOffset : parser string :=
  rule "tzOffset" (expect_str (char_str (char_lit "+" <|> char_lit "-")) timeHHMM).
Definition timezone : parser string := rule "timezone" (tzZulu <|> tzOffset).
Definition dateAndTime : parser string :=
  rule "dateAndTime"
    (expect_str (expect_str (expect_str date (char_str (char_lit "T")))
                   (seq_str time (opt_str timeMs))) timezone).

(** ** Parameters *)

Definition filterOctet : parser ascii :=
  cast Ascii.ascii_of_N percentEncodedChar <|> diff (char_ any_char) (lit_char "&").
Definition filter : parser string := rule "filter" (as_string (plus_ filterOctet)).

Definition depthParam : parser QueryParamValue :=
  rule "1-65535 or 'unbounded'"
    (action uint_ validDepthValues <|> (str_ "unbounded" >:> attr UnboundedDepth)).
Definition insertParam : parser QueryParamValue :=
  rule "'first', 'last', 'after' or 'before'" (symbols insertTable).
Definition contentParam : parser QueryParamValue :=
  rule "'all', 'nonconfig' or 'config'" (symbols contentTable).
Definition withDefaultsParam : parser QueryParamValue :=
  rule "'trim', 'explicit', 'report-all' or 'report-all-tagged'" (symbols withDefaultsTable).

(** [x3::string(name) > "=" > value] *)
Definition param (name : string) (value : parser QueryParamValue) : parser (string * QueryParamValue) :=
  str_ name <:< lit_char "=" >* value.
Definition queryParamPair : parser (string * QueryParamValue) :=
  rule "query parameter"
    (param "depth" depthParam <|>
     param "with-defaults" withDefaultsParam <|>
     param "content" contentParam <|>
     param "insert" insertParam <|>
     param "point" (cast PointParsed uriPath) <|>
     param "filter" (cast StdString filter) <|>
     param "start-time" (cast StdString dateAndTime) <|>
     param "stop-time" (cast StdString dateAndTime) <|>
     param "fields" (cast Fields fieldsExpr)).

Definition queryParamEmpty : parser QueryParams := rule "empty" (and_ eoi >:> attr []).
Definition queryParamList : parser QueryParams :=
  rule "query parameter list"
    (cast (λ '(p, l), mm_of_list (p :: l))
       (queryParamPair >>* kleene (lit_char "&" >:> queryParamPair))).
Definition queryParamMaybeEmpty : parser QueryParams :=
  rule "query parameter" (queryParamEmpty <|> queryParamList).
Definition queryParamGrammar : parser QueryParams :=
  rule "query parameters" (eps >:> queryParamMaybeEmpty).

Definition parseQueryParams (querystring : string) (pathLength : N) : M QueryParams :=
  parse QuerySyntax querystring queryParamGrammar pathLength.
End query.
