(* ===== verification/UriQueryFacts.v ===== *)
(** * UriQueryFacts: what the query string grammar accepts and reports *)

From S2P Require Import Prelude Exceptions UriTypes Uuid X3 UriGrammar UriPathFacts UriQuery.

(** ** Fields expressions: shape and rendering *)

(** [path]: identifiers separated by slashes. *)
Fixpoint wf_slash (e : Expr) : bool :=
  match e with
  | SlashExpr a None => wf_api a
  | SlashExpr a (Some r) => wf_api a && wf_slash r
  | _ => false
  end.
(** The shape of every expression the grammar builds: alternatives separated by semicolons,
    each of them a path with an optional parenthesised expression. *)
Fixpoint wf_fields (e : Expr) : bool :=
  match e with
  | SemiExpr (ParenExpr l p) r =>
      wf_slash l && match p with Some p => wf_fields p | None => true end &&
      match r with Some r => wf_fields r | None => true end
  | _ => false
  end.

Fixpoint renderFields (e : Expr) : string :=
  match e with
  | SlashExpr a r => api_name a +:+ match r with Some r => "/" +:+ renderFields r | None => "" end
  | ParenExpr l r => renderFields l +:+ match r with Some r => "(" +:+ renderFields r +:+ ")" | None => "" end
  | SemiExpr l r => renderFields l +:+ match r with Some r => ";" +:+ renderFields r | None => "" end
  end.

(** What may follow a path, and a whole expression. *)
Definition slash_end (r : string) : bool :=
  match r with "" => true | String c _ => is_char "&" c || is_char ")" c || is_char ";" c || is_char "(" c end.
Definition fields_end (r : string) : bool :=
  match r with "" => true | String c _ => is_char "&" c || is_char ")" c end.

Section fields.
Context {X : X3} {HX : X3Laws X}.

Lemma run_deferred {A} n (f : string → presult A) s : run (deferred n f) s = f s.
Proof. done. Qed.
Lemma fwd_apiIdentifier : forward apiIdentifier.
Proof.
  pose proof fwd_identifier as H. unfold apiIdentifier, seq_l. auto 20 with x3fwd.
Qed.

Lemma run_fieldsSlash_S n s :
  run_fieldsSlash (S n) s =
  pbind (run apiIdentifier s) (λ a r,
    pmap (SlashExpr a)
      match run (lit_str "/") r with
      | PMatch _ r' => pmap Some (or_expect r' "fieldsSlash" (run_fieldsSlash n r'))
      | _ => PMatch None r
      end).
Proof.
  simpl. rewrite run_cast, run_expect.
  destruct (run apiIdentifier s) as [a r| |]; simpl; [|done..].
  rewrite run_opt, run_expect_r. pose proof (run_lit_str "/" r) as Hl. rewrite run_str in Hl.
  destruct (strip_prefix "/" r); simpl in Hl; rewrite Hl; simpl; [|done].
  unfold deferred, run, what. by destruct (run_fieldsSlash n s0).
Qed.
Lemma lit_str_char c r r' :
  run (lit_str (String c "")) r = PMatch tt r' ↔ r = String c r'.
Proof.
  rewrite run_lit_str, run_str. destruct (strip_prefix (String c "") r) eqn:E; simpl.
  - apply strip_prefix_Some in E as ->. rewrite str_app_cons, str_app_nil_l. naive_solver.
  - split; [done|]. intros ->. by simpl in E; rewrite decide_True in E.
Qed.
Lemma lit_str_cases c r :
  (∃ r', r = String c r' ∧ run (lit_str (String c "")) r = PMatch tt r') ∨
  (head_is (is_char c) r = false ∧ run (lit_str (String c "")) r = PFail).
Proof.
  rewrite run_lit_str, run_str. destruct r as [|d r]; simpl; [by right|].
  case_decide as Hd; simpl; [subst; eauto|]. right. split; [|done].
  by apply not_true_iff_false; rewrite is_char_true.
Qed.

(** One alternative of [fieldsSemi]. *)
Lemma run_fieldsSemi_S n s :
  run_fieldsSemi (S n) s =
  pbind (run_fieldsSlash (S n) s) (λ l r,
  pbind match run (lit_str "(") r with
        | PMatch _ r' =>
            pbind (or_expect r' "fieldsExpr" (run_fieldsSemi n r')) (λ p r'',
              pmap (λ _, Some p) (or_expect r'' (what (lit_str ")")) (run (lit_str ")") r'')))
        | _ => PMatch None r
        end (λ p r,
    pmap (SemiExpr (ParenExpr l p))
      match run (lit_str ";") r with
      | PMatch _ r' => pmap Some (or_expect r' "fieldsSemi" (run_fieldsSemi n r'))
      | _ => PMatch None r
      end)).
Proof.
  cbn [run_fieldsSemi]. unfold fieldsParen. rewrite run_cast, run_expect, run_rule, run_cast, run_expect.
  change (run (fieldsSlash (S n)) s) with (run_fieldsSlash (S n) s).
  destruct (run_fieldsSlash (S n) s) as [l r| |]; simpl; [|done..].
  rewrite run_opt, run_expect_l, run_expect_r.
  assert (∀ l p r0,
    pmap (λ '(a, r1), SemiExpr a r1)
      (pmap (pair (ParenExpr l p))
        (or_expect r0 (what (opt (expect_r (lit_str ";") (deferred "fieldsSemi" (run_fieldsSemi n)))))
          (run (opt (expect_r (lit_str ";") (deferred "fieldsSemi" (run_fieldsSemi n)))) r0))) =
    pmap (SemiExpr (ParenExpr l p))
      match run (lit_str ";") r0 with
      | PMatch _ r' => pmap Some (or_expect r' "fieldsSemi" (run_fieldsSemi n r'))
      | _ => PMatch None r0
      end) as Hsemi.
  { intros. rewrite run_opt, run_expect_r.
    destruct (lit_str_cases ";" r0) as [(r' & -> & ->)|[_ ->]]; simpl; [|done].
    unfold deferred, run, what. by destruct (run_fieldsSemi n r'). }
  destruct (lit_str_cases "(" r) as [(r' & -> & ->)|[_ ->]]; simpl; [|by rewrite <- Hsemi].
  change (run (deferred ?a ?f) r') with (f r'). change (what (deferred ?a ?f)) with a.
  destruct (run_fieldsSemi n r') as [p r''| |]; simpl; [|done..].
  destruct (lit_str_cases ")" r'') as [(r3 & -> & ->)|[_ ->]]; simpl; [|done].
  by rewrite <- Hsemi.
Qed.

Lemma fwd_fieldsSlash n s : good s (run_fieldsSlash n s).
Proof.
  revert s. induction n as [|n IH]; intros s; [done|]. rewrite run_fieldsSlash_S.
  apply good_pbind; [apply fwd_apiIdentifier|]. intros a r. apply good_pmap.
  destruct (lit_str_cases "/" r) as [(r' & -> & ->)|[_ ->]]; simpl; [|reflexivity].
  apply good_pmap, (good_mono r'); [by exists "/"|]. apply good_or_expect, IH.
Qed.
Lemma fwd_fieldsSemi n s : good s (run_fieldsSemi n s).
Proof.
  revert s. induction n as [|n IH]; intros s; [done|]. rewrite run_fieldsSemi_S.
  apply good_pbind; [apply fwd_fieldsSlash|]. intros l r. apply good_pbind.
  - destruct (lit_str_cases "(" r) as [(r' & -> & ->)|[_ ->]]; [|simpl; reflexivity].
    apply (good_mono r'); [by exists "("|]. apply good_pbind; [apply good_or_expect, IH|].
    intros p r''. apply good_pmap, good_or_expect, fwd_lit_str.
  - intros p r1. apply good_pmap.
    destruct (lit_str_cases ";" r1) as [(r' & -> & ->)|[_ ->]]; [|simpl; reflexivity].
    apply good_pmap, (good_mono r'); [by exists ";"|]. apply good_or_expect, IH.
Qed.
Lemma fwd_fieldsExpr : forward fieldsExpr.
Proof. apply fwd_rule. intros s. apply fwd_fieldsSemi. Qed.

(** More fuel than there are characters left makes no difference. *)
Lemma run_fieldsSlash_enough n m s :
  String.length s < n → String.length s < m → run_fieldsSlash n s = run_fieldsSlash m s.
Proof.
  revert m s. induction n as [|n IH]; intros m s Hn Hm; [lia|]. destruct m as [|m]; [lia|].
  rewrite !run_fieldsSlash_S. pose proof (fwd_apiIdentifier s) as Hf.
  destruct (run apiIdentifier s) as [a r| |]; simpl in *; [|done..].
  apply suffix_of_length in Hf.
  destruct (lit_str_cases "/" r) as [(r' & -> & ->)|[_ ->]]; [|done].
  simpl in *. by rewrite (IH m) by lia.
Qed.
Lemma run_fieldsSemi_enough n m s :
  String.length s < n → String.length s < m → run_fieldsSemi n s = run_fieldsSemi m s.
Proof.
  revert m s. induction n as [|n IH]; intros m s Hn Hm; [lia|]. destruct m as [|m]; [lia|].
  rewrite !run_fieldsSemi_S, (run_fieldsSlash_enough (S n) (S m)) by done.
  pose proof (fwd_fieldsSlash (S m) s) as Hf.
  destruct (run_fieldsSlash (S m) s) as [l r| |]; simpl in Hf; [|done..].
  apply suffix_of_length in Hf. cbn [pbind].
  assert (∀ p r', String.length r' ≤ String.length r →
    pmap (SemiExpr (ParenExpr l p))
      match run (lit_str ";") r' with
      | PMatch _ r' => pmap Some (or_expect r' "fieldsSemi" (run_fieldsSemi n r'))
      | _ => PMatch None r'
      end =
    pmap (SemiExpr (ParenExpr l p))
      match run (lit_str ";") r' with
      | PMatch _ r' => pmap Some (or_expect r' "fieldsSemi" (run_fieldsSemi m r'))
      | _ => PMatch None r'
      end) as Hsemi.
  { intros p r' Hr. destruct (lit_str_cases ";" r') as [(r1 & -> & ->)|[_ ->]]; [|done].
    simpl in Hr. by rewrite (IH m) by lia. }
  destruct (lit_str_cases "(" r) as [(r' & -> & ->)|[_ ->]]; [|by apply Hsemi].
  simpl in Hf. rewrite (IH m) by lia. pose proof (fwd_fieldsSemi m r') as Hg.
  destruct (run_fieldsSemi m r') as [p r1| |]; simpl in Hg |- *; [|done..].
  apply suffix_of_length in Hg.
  destruct (lit_str_cases ")" r1) as [(r2 & -> & ->)|[_ ->]]; simpl in Hg |- *; [|done].
  apply Hsemi. simpl. lia.
Qed.

Lemma ens_fieldsSlash n s e r : run_fieldsSlash n s = PMatch e r → wf_slash e = true.
Proof.
  revert s e r. induction n as [|n IH]; intros s e r; [done|]. rewrite run_fieldsSlash_S.
  intros (a & r' & Ha%ens_apiIdentifier & (o & Ho & ->)%pmap_PMatch_inv)%pbind_PMatch_inv.
  destruct (lit_str_cases "/" r') as [(r1 & -> & Hl)|[_ Hl]]; rewrite Hl in Ho; simplify_eq; [|done].
  apply pmap_PMatch_inv in Ho as (e' & He%or_expect_PMatch_inv & ->).
  simpl. by rewrite Ha, (IH _ _ _ He).
Qed.
Lemma ens_fieldsSemi n s e r : run_fieldsSemi n s = PMatch e r → wf_fields e = true.
Proof.
  revert s e r. induction n as [|n IH]; intros s e r; [done|]. rewrite run_fieldsSemi_S.
  intros (l & r' & Hl%ens_fieldsSlash & (p & r1 & Hp & (o & Ho & ->)%pmap_PMatch_inv)%pbind_PMatch_inv)%pbind_PMatch_inv.
  assert (match p with Some p => wf_fields p | None => true end = true) as Hp'.
  { destruct (lit_str_cases "(" r') as [(r2 & -> & E)|[_ E]]; rewrite E in Hp; [|by simplify_eq].
    apply pbind_PMatch_inv in Hp as (p' & r3 & H3%or_expect_PMatch_inv & (? & ? & ->)%pmap_PMatch_inv).
    by eapply IH. }
  assert (match o with Some o => wf_fields o | None => true end = true) as Ho'.
  { destruct (lit_str_cases ";" r1) as [(r2 & -> & E)|[_ E]]; rewrite E in Ho; [|by simplify_eq].
    apply pmap_PMatch_inv in Ho as (o' & ?%or_expect_PMatch_inv & ->). by eapply IH. }
  simpl. by rewrite Hl, Hp', Ho'.
Qed.
Lemma ens_fieldsExpr : ensures fieldsExpr (λ e, wf_fields e = true).
Proof. apply ens_rule. intros s e r. apply ens_fieldsSemi. Qed.

Lemma slash_end_inv r :
  slash_end r = true →
  r = "" ∨ ∃ c r', r = String c r' ∧ (c = "&" ∨ c = ")" ∨ c = ";" ∨ c = "(")%char.
Proof.
  destruct r as [|c r]; [by left|]. simpl. rewrite !orb_true_iff, !is_char_true. naive_solver.
Qed.
Lemma fields_end_slash_end r : fields_end r = true → slash_end r = true.
Proof. destruct r as [|c r]; [done|]. simpl. by intros ->. Qed.
Lemma slash_end_ident r : slash_end r = true → head_is ident_char r = false.
Proof. intros [->|(c & r' & -> & [->|[->|[->| ->]]])]%slash_end_inv; reflexivity. Qed.
Lemma slash_end_colon r : slash_end r = true → run (lit_char ":") r = PFail.
Proof.
  intros [->|(c & r' & -> & [->|[->|[->| ->]]])]%slash_end_inv; [apply run_lit_nil|..]; by rewrite run_lit.
Qed.
Lemma run_lit_str_head_fail c r : head_is (is_char c) r = false → run (lit_str (String c "")) r = PFail.
Proof.
  intros H. destruct (lit_str_cases c r) as [(r' & -> & _)|[_ ?]]; [|done].
  simpl in H. by rewrite is_char_refl in H.
Qed.
Lemma run_lit_str_head c r : run (lit_str (String c "")) (String c r) = PMatch tt r.
Proof. by apply lit_str_char. Qed.

Lemma run_fieldsSlash_app n e r :
  wf_slash e = true → slash_end r = true → String.length (renderFields e +:+ r) < n →
  run_fieldsSlash n (renderFields e +:+ r) = PMatch e r.
Proof.
  revert e r. induction n as [|n IH]; intros e r He Hr Hn; [lia|]. rewrite run_fieldsSlash_S.
  destruct e as [a o| |]; try done. cbn [renderFields] in *. rewrite str_app_assoc in *.
  destruct o as [e|]; simpl in He.
  - apply andb_true_iff in He as [Ha He]. rewrite str_app_assoc, str_app_cons, str_app_nil_l in *.
    rewrite run_apiIdentifier_app by (done || by rewrite run_lit). simpl.
    rewrite run_lit_str_head, IH by (done || rewrite str_length_app in Hn; simpl in Hn; lia). done.
  - rewrite str_app_nil_l.
    rewrite run_apiIdentifier_app by auto using slash_end_ident, slash_end_colon. simpl.
    rewrite run_lit_str_head_fail; [done|].
    by destruct (slash_end_inv r Hr) as [->|(c & r' & -> & [->|[->|[->| ->]]])].
Qed.

Definition renderParen (p : option Expr) : string :=
  match p with Some p => "(" +:+ renderFields p +:+ ")" | None => "" end.
Definition renderSemi (p : option Expr) : string :=
  match p with Some p => ";" +:+ renderFields p | None => "" end.
Lemma renderFields_Semi l p o :
  renderFields (SemiExpr (ParenExpr l p) o) = renderFields l +:+ renderParen p +:+ renderSemi o.
Proof. simpl. by rewrite str_app_assoc. Qed.
Lemma semi_end o r : fields_end r = true → slash_end (renderSemi o +:+ r) = true.
Proof. destruct o; [done|]. apply fields_end_slash_end. Qed.
Lemma semi_end_paren o r : fields_end r = true → head_is (is_char "(") (renderSemi o +:+ r) = false.
Proof.
  destruct o; [done|]. destruct r as [|c r]; [done|]. simpl. rewrite orb_true_iff, !is_char_true. by intros [<-|<-].
Qed.
Lemma fields_end_semi r : fields_end r = true → head_is (is_char ";") r = false.
Proof. destruct r as [|c r]; [done|]. simpl. rewrite orb_true_iff, !is_char_true. by intros [<-|<-]. Qed.
Lemma paren_end p o r : fields_end r = true → slash_end (renderParen p +:+ renderSemi o +:+ r) = true.
Proof. destruct p; [done|]. apply semi_end. Qed.

Lemma run_fieldsSemi_app n e r :
  wf_fields e = true → fields_end r = true → String.length (renderFields e +:+ r) < n →
  run_fieldsSemi n (renderFields e +:+ r) = PMatch e r.
Proof.
  revert e r. induction n as [|n IH]; intros e r He Hr Hn; [lia|].
  destruct e as [| |[| l p|] o]; try done. cbn [wf_fields] in He. rewrite !andb_true_iff in He.
  destruct He as [[Hl Hp] Ho]. rewrite renderFields_Semi, !str_app_assoc in *.
  rewrite run_fieldsSemi_S, run_fieldsSlash_app by auto using paren_end. cbn [pbind].
  rewrite !str_length_app in Hn.
  assert (pmap (SemiExpr (ParenExpr l p))
      match run (lit_str ";") (renderSemi o +:+ r) with
      | PMatch _ r' => pmap Some (or_expect r' "fieldsSemi" (run_fieldsSemi n r'))
      | _ => PMatch None (renderSemi o +:+ r)
      end = PMatch (SemiExpr (ParenExpr l p) o) r) as Hsemi.
  { destruct o as [o|]; cbn [renderSemi] in *.
    - rewrite str_app_assoc, str_app_cons, str_app_nil_l, run_lit_str_head.
      rewrite IH; [done..|]. rewrite str_length_app in *. simpl in Hn. lia.
    - rewrite str_app_nil_l, run_lit_str_head_fail; [done|]. by apply fields_end_semi. }
  destruct p as [p|]; cbn [renderParen] in *.
  - rewrite !str_app_assoc, str_app_cons, str_app_nil_l, run_lit_str_head.
    rewrite str_app_cons, str_app_nil_l, IH; [|done..|].
    2: { rewrite !str_length_app in *. simpl in *. rewrite str_length_app. lia. }
    cbn [pbind or_expect]. rewrite run_lit_str_head. simpl. apply Hsemi.
  - rewrite str_app_nil_l, run_lit_str_head_fail by by apply semi_end_paren. apply Hsemi.
Qed.
Lemma run_fieldsExpr_app e r :
  wf_fields e = true → fields_end r = true → run fieldsExpr (renderFields e +:+ r) = PMatch e r.
Proof.
  intros. unfold fieldsExpr. rewrite run_rule, run_deferred. apply run_fieldsSemi_app; [done..|lia].
Qed.
End fields.

(** ** Timestamps *)

Definition digits_n (n : nat) (s : string) : Prop := String.length s = n ∧ str_forall is_digit s = true.

(** [HH:mm], [.fraction], and the time zone of an RFC 3339 timestamp. *)
Inductive hhmm : string → Prop :=
| hhmm_intro h m : digits_n 2 h → digits_n 2 m → hhmm (h +:+ ":" +:+ m).
Inductive fraction : string → Prop :=
| fraction_none : fraction ""
| fraction_some c d : is_digit c = true → str_forall is_digit d = true → fraction ("." +:+ String c d).
Inductive zone : string → Prop :=
| zone_zulu : zone "Z"
| zone_plus t : hhmm t → zone ("+" +:+ t)
| zone_minus t : hhmm t → zone ("-" +:+ t).
Inductive date_time : string → Prop :=
| date_time_intro y mo d t s f z :
    digits_n 4 y → digits_n 2 mo → digits_n 2 d → hhmm t → digits_n 2 s → fraction f → zone z →
    date_time (y +:+ "-" +:+ mo +:+ "-" +:+ d +:+ "T" +:+ t +:+ ":" +:+ s +:+ f +:+ z).

Section timestamps.
Context {X : X3} {HX : X3Laws X}.

Lemma run_char_str P c r : P c = true → run (char_str (char_ P)) (String c r) = PMatch (String c "") r.
Proof. intros H. unfold char_str. by rewrite run_cast, run_char, H. Qed.
Lemma run_char_lit c r : run (char_str (char_lit c)) (String c r) = PMatch (String c "") r.
Proof. apply run_char_str, is_char_refl. Qed.
Lemma run_char_lit_app c r : run (char_str (char_lit c)) (String c "" +:+ r) = PMatch (String c "") r.
Proof. apply run_char_lit. Qed.

Lemma digits_n_2 s : digits_n 2 s → ∃ a b, s = String a (String b "") ∧ is_digit a = true ∧ is_digit b = true.
Proof.
  intros [Hl Hd]. destruct s as [|a [|b [|]]]; try done. simpl in Hd. rewrite !andb_true_iff in Hd. naive_solver.
Qed.
Lemma digits_n_4 s : digits_n 4 s → ∃ a b c d, s = String a (String b (String c (String d ""))) ∧
  is_digit a = true ∧ is_digit b = true ∧ is_digit c = true ∧ is_digit d = true.
Proof.
  intros [Hl Hd]. destruct s as [|a [|b [|c [|d [|]]]]]; try done. simpl in Hd. rewrite !andb_true_iff in Hd.
  naive_solver.
Qed.
Lemma run_twoDigits s r : digits_n 2 s → run twoDigits (s +:+ r) = PMatch s r.
Proof.
  intros (a & b & -> & Ha & Hb)%digits_n_2. unfold twoDigits, digit_str, digit.
  rewrite run_rule, run_expect_str, !str_app_cons, str_app_nil_l, run_char_str by done. simpl.
  by rewrite run_char_str.
Qed.
Lemma ens_digit_str : ensures digit_str (digits_n 1).
Proof.
  apply ens_cast. eapply ens_weaken; [apply ens_char|]. intros c Hc. split; [done|]. simpl. by rewrite Hc.
Qed.
Lemma digits_n_app n m s t : digits_n n s → digits_n m t → digits_n (n + m) (s +:+ t).
Proof.
  intros [<- Hs] [<- Ht]. split; [by rewrite str_length_app|]. by rewrite str_forall_app, Hs, Ht.
Qed.
Lemma ens_expect_str (p q : parser string) P Q (R : string → Prop) :
  ensures p P → ensures q Q → (∀ a b, P a → Q b → R (a +:+ b)) → ensures (expect_str p q) R.
Proof.
  intros Hp Hq HR. apply ens_cast. eapply ens_weaken; [by apply ens_expect|]. intros [a b] [??]. auto.
Qed.
Lemma ens_char_lit c : ensures (char_str (char_lit c)) (eq (String c "")).
Proof.
  apply ens_cast. eapply ens_weaken; [apply ens_char|]. intros d. by rewrite is_char_true; intros ->.
Qed.
Lemma ens_twoDigits : ensures twoDigits (digits_n 2).
Proof.
  apply ens_rule. eapply ens_expect_str; [apply ens_digit_str..|].
  intros a b Ha Hb. by apply (digits_n_app 1 1).
Qed.
Lemma ens_year : ensures year (digits_n 4).
Proof.
  apply ens_rule, (ens_expect_str _ _ (digits_n 3) (digits_n 1)); [|apply ens_digit_str|apply (digits_n_app 3 1)].
  apply (ens_expect_str _ _ (digits_n 2) (digits_n 1)); [|apply ens_digit_str|apply (digits_n_app 2 1)].
  apply (ens_expect_str _ _ (digits_n 1) (digits_n 1)); [apply ens_digit_str..|apply (digits_n_app 1 1)].
Qed.
Lemma run_year s r : digits_n 4 s → run year (s +:+ r) = PMatch s r.
Proof.
  intros (a & b & c & d & -> & Ha & Hb & Hc & Hd)%digits_n_4. unfold year, digit_str, digit.
  rewrite run_rule, !run_expect_str, !str_app_cons, str_app_nil_l, run_char_str by done. simpl.
  rewrite run_char_str by done. simpl. rewrite run_char_str by done. simpl. by rewrite run_char_str.
Qed.
Lemma run_then (p q : parser string) s a b r :
  run p s = PMatch a (b +:+ r) → run q (b +:+ r) = PMatch b r →
  run (expect_str p q) s = PMatch (a +:+ b) r.
Proof. intros Hp Hq. rewrite run_expect_str, Hp. simpl. by rewrite Hq. Qed.
Lemma run_hhmm t r : hhmm t → run timeHHMM (t +:+ r) = PMatch t r.
Proof.
  intros [h m Hh Hm]. unfold timeHHMM, hour, minute, colon. rewrite run_rule, !str_app_assoc.
  rewrite <- (str_app_assoc h ":" m).
  apply run_then; [|by rewrite run_rule, run_twoDigits].
  apply run_then; [by rewrite run_rule, run_twoDigits|apply run_char_lit].
Qed.
Lemma ens_hhmm : ensures timeHHMM hhmm.
Proof.
  apply ens_rule, (ens_expect_str _ _ (λ s, ∃ h, digits_n 2 h ∧ s = h +:+ ":") (digits_n 2));
    [|apply ens_rule, ens_twoDigits|intros a b (h & ? & ->) ?; rewrite str_app_assoc; by constructor].
  eapply ens_expect_str; [apply ens_rule, ens_twoDigits|apply ens_char_lit|]. naive_solver.
Qed.
Lemma run_date y mo d r :
  digits_n 4 y → digits_n 2 mo → digits_n 2 d →
  run date (y +:+ "-" +:+ mo +:+ "-" +:+ d +:+ r) = PMatch (y +:+ "-" +:+ mo +:+ "-" +:+ d) r.
Proof.
  intros Hy Hm Hd. unfold date, month, day, dash. rewrite run_rule.
  replace (y +:+ "-" +:+ mo +:+ "-" +:+ d) with ((((y +:+ "-") +:+ mo) +:+ "-") +:+ d)
    by (by rewrite !str_app_assoc).
  apply run_then; [|by rewrite run_rule, run_twoDigits]. apply run_then; [|apply run_char_lit].
  apply run_then; [|by rewrite run_rule, run_twoDigits]. apply run_then; [|apply run_char_lit].
  by rewrite run_year.
Qed.
Lemma run_time t s r :
  hhmm t → digits_n 2 s → run time (t +:+ ":" +:+ s +:+ r) = PMatch (t +:+ ":" +:+ s) r.
Proof.
  intros Ht Hs. unfold time, second, colon. rewrite run_rule.
  rewrite <- (str_app_assoc t ":" s).
  apply run_then; [|by rewrite run_rule, run_twoDigits]. apply run_then; [|apply run_char_lit].
  by rewrite run_hhmm.
Qed.
Lemma run_fraction f r :
  fraction f → head_is is_digit r = false → head_is (is_char ".") r = false →
  run (opt_str timeMs) (f +:+ r) = PMatch f r.
Proof.
  unfold opt_str, timeMs. intros [|c d Hc Hd] Hr Hdot; rewrite run_cast, run_opt, run_rule, run_expect_str.
  - rewrite str_app_nil_l. unfold char_str, char_lit. rewrite run_cast, run_char.
    destruct r as [|e r]; [done|]. simpl in Hdot. by rewrite Hdot.
  - rewrite !str_app_cons, str_app_nil_l, run_char_lit. simpl. unfold as_string, digit.
    rewrite str_app_cons, run_cast, run_plus, run_seq, run_char. cbn [pbind]. rewrite Hc. simpl.
    pose proof (run_chars is_digit (d +:+ r)) as H. rewrite (span_app _ _ _ Hd Hr) in H.
    unfold as_string in H. rewrite run_cast in H. destruct (run (kleene _) _); simpl in *; by simplify_eq.
Qed.
Lemma run_zone z r : zone z → run timezone (z +:+ r) = PMatch z r.
Proof.
  unfold timezone, tzZulu, tzOffset. intros [|t Ht|t Ht]; rewrite run_rule, run_alt, run_rule, run_str.
  - done.
  - simpl. rewrite run_rule, run_expect_str. unfold char_str, char_lit.
    rewrite run_cast, run_alt_char, run_char. simpl. by rewrite str_app_nil_l, run_hhmm.
  - simpl. rewrite run_rule, run_expect_str. unfold char_str, char_lit.
    rewrite run_cast, run_alt_char, run_char. simpl. by rewrite str_app_nil_l, run_hhmm.
Qed.

Lemma zone_head z r : zone z → head_is is_digit (z +:+ r) = false ∧ head_is (is_char ".") (z +:+ r) = false.
Proof. by intros []. Qed.
Lemma run_dateAndTime s r : date_time s → run dateAndTime (s +:+ r) = PMatch s r.
Proof.
  intros [y mo d t sec f z Hy Hm Hd Ht Hs Hf Hz]. destruct (zone_head z r Hz).
  unfold dateAndTime. rewrite run_rule, !str_app_assoc.
  replace (y +:+ "-" +:+ mo +:+ "-" +:+ d +:+ "T" +:+ t +:+ ":" +:+ sec +:+ f +:+ z)
    with ((((y +:+ "-" +:+ mo +:+ "-" +:+ d) +:+ "T") +:+ ((t +:+ ":" +:+ sec) +:+ f)) +:+ z)
    by (by rewrite !str_app_assoc).
  apply run_then; [|by apply run_zone]. apply run_then.
  - rewrite !str_app_assoc, run_expect_str, run_date by done. simpl.
    rewrite run_char_lit_app. simpl. by rewrite !str_app_assoc.
  - rewrite !str_app_assoc, run_seq_str, run_time by done. simpl. rewrite run_fraction by done.
    simpl. by rewrite !str_app_assoc.
Qed.

Lemma ens_date :
  ensures date (λ s, ∃ y mo d, digits_n 4 y ∧ digits_n 2 mo ∧ digits_n 2 d ∧ s = y +:+ "-" +:+ mo +:+ "-" +:+ d).
Proof.
  apply ens_rule, (ens_expect_str _ _ (λ s, ∃ y mo, digits_n 4 y ∧ digits_n 2 mo ∧ s = y +:+ "-" +:+ mo +:+ "-") (digits_n 2));
    [|apply ens_rule, ens_twoDigits|intros a b (y & mo & ? & ? & ->) ?; exists y, mo, b; by rewrite !str_app_assoc].
  apply (ens_expect_str _ _ (λ s, ∃ y mo, digits_n 4 y ∧ digits_n 2 mo ∧ s = y +:+ "-" +:+ mo) (eq "-"));
    [|apply ens_char_lit|intros a b (y & mo & ? & ? & ->) <-; exists y, mo; by rewrite !str_app_assoc].
  apply (ens_expect_str _ _ (λ s, ∃ y, digits_n 4 y ∧ s = y +:+ "-") (digits_n 2));
    [|apply ens_rule, ens_twoDigits|intros a b (y & ? & ->) ?; exists y, b; by rewrite !str_app_assoc].
  eapply ens_expect_str; [apply ens_year|apply ens_char_lit|]. naive_solver.
Qed.
Lemma ens_time : ensures time (λ s, ∃ t sec, hhmm t ∧ digits_n 2 sec ∧ s = t +:+ ":" +:+ sec).
Proof.
  apply ens_rule, (ens_expect_str _ _ (λ s, ∃ t, hhmm t ∧ s = t +:+ ":") (digits_n 2));
    [|apply ens_rule, ens_twoDigits|intros a b (t & ? & ->) ?; exists t, b; by rewrite !str_app_assoc].
  eapply ens_expect_str; [apply ens_hhmm|apply ens_char_lit|]. naive_solver.
Qed.
Lemma Forall_str_forall P l : Forall (λ c, P c = true) l → str_forall P (String.string_of_list_ascii l) = true.
Proof. induction 1 as [|c l Hc _ IH]; simpl; [done|]. by rewrite Hc. Qed.
Lemma ens_fraction : ensures (opt_str timeMs) fraction.
Proof.
  apply ens_cast, ens_opt; [constructor|]. simpl.
  apply ens_rule, (ens_expect_str _ _ (eq ".") (λ s, ∃ c d, is_digit c = true ∧ str_forall is_digit d = true ∧ s = String c d));
    [apply ens_char_lit| |intros a b <- (c & d & ? & ? & ->); by constructor].
  apply ens_cast. intros s l r. rewrite run_plus. intros ([c l'] & H & ->)%pmap_PMatch_inv.
  eapply ens_seq in H as [Hc Hl]; [|apply ens_char|apply ens_kleene; [apply consuming_char|apply ens_char]].
  eexists _, _. split; [exact Hc|]. split; [|reflexivity]. by apply Forall_str_forall.
Qed.
Lemma ens_zone : ensures timezone zone.
Proof.
  apply ens_rule, ens_alt.
  - apply ens_rule. intros s a r. rewrite run_str. destruct (strip_prefix _ _); intros; simplify_eq. constructor.
  - apply ens_rule, (ens_expect_str _ _ (λ s, s = "+" ∨ s = "-") hhmm);
      [|apply ens_hhmm|intros a b [->| ->] ?; by constructor].
    apply ens_cast. apply ens_alt; (eapply ens_weaken; [apply ens_char|]);
      intros c <-%is_char_true; auto.
Qed.
Lemma ens_dateAndTime : ensures dateAndTime date_time.
Proof.
  apply ens_rule, (ens_expect_str _ _ (λ s, ∀ z, zone z → date_time (s +:+ z)) zone); [|apply ens_zone|auto].
  apply (ens_expect_str _ _
    (λ s, ∃ y mo d, digits_n 4 y ∧ digits_n 2 mo ∧ digits_n 2 d ∧ s = y +:+ "-" +:+ mo +:+ "-" +:+ d +:+ "T")
    (λ s, ∃ t sec f, hhmm t ∧ digits_n 2 sec ∧ fraction f ∧ s = t +:+ ":" +:+ sec +:+ f)).
  - eapply ens_expect_str; [apply ens_date|apply ens_char_lit|].
    intros a b (y & mo & d & ? & ? & ? & ->) <-. exists y, mo, d. by rewrite !str_app_assoc.
  - apply ens_cast. eapply ens_weaken; [apply ens_seq; [apply ens_time|apply ens_fraction]|].
    intros [a f]. simpl. intros [(t & sec & ? & ? & ->) ?]. exists t, sec, f. by rewrite !str_app_assoc.
  - intros a b (y & mo & d & ? & ? & ? & ->) (t & sec & f & ? & ? & ? & ->) z Hz.
    rewrite !str_app_assoc. by constructor.
Qed.
End timestamps.

(** ** Parameters *)

(** The values a parameter of each name can have. *)
Inductive typed_param : string → QueryParamValue → Prop :=
| tp_depth n : (0 < n < 65536)%N → typed_param "depth" (UnsignedInt n)
| tp_unbounded : typed_param "depth" UnboundedDepth
| tp_with_defaults v : v ∈ withDefaultsTable.*2 → typed_param "with-defaults" v
| tp_content v : v ∈ contentTable.*2 → typed_param "content" v
| tp_insert v : v ∈ insertTable.*2 → typed_param "insert" v
| tp_point l : wf_segs l = true → typed_param "point" (PointParsed l)
| tp_filter s : s ≠ "" → typed_param "filter" (StdString s)
| tp_start_time s : date_time s → typed_param "start-time" (StdString s)
| tp_stop_time s : date_time s → typed_param "stop-time" (StdString s)
| tp_fields e : wf_fields e = true → typed_param "fields" (Fields e).

(** The names the symbol tables give to their values. *)
Definition symbol_name (v : QueryParamValue) : string :=
  match v with
  | Trim => "trim" | Explicit => "explicit" | ReportAll => "report-all" | ReportAllTagged => "report-all-tagged"
  | AllNodes => "all" | OnlyNonConfigNodes => "nonconfig" | OnlyConfigNodes => "config"
  | First => "first" | Last => "last" | After => "after" | Before => "before"
  | _ => ""
  end.

Definition renderValue (k : string) (v : QueryParamValue) : string :=
  match v with
  | UnboundedDepth => "unbounded"
  | UnsignedInt n => pretty n
  | StdString s => if decide (k = "filter") then percentEncode s else s
  | PointParsed l => renderSegments l
  | Fields e => renderFields e
  | v => symbol_name v
  end.
Definition renderParam (kv : string * QueryParamValue) : string :=
  kv.1 +:+ "=" +:+ renderValue kv.1 kv.2.
Fixpoint renderMoreParams (l : list (string * QueryParamValue)) : string :=
  match l with [] => "" | p :: l => "&" +:+ renderParam p +:+ renderMoreParams l end.
Definition renderQuery (l : list (string * QueryParamValue)) : string :=
  match l with [] => "" | p :: l => renderParam p +:+ renderMoreParams l end.

(** A parameter that has a rendering: an empty [point] has none that may be followed by
    another parameter. *)
Definition renderable (kv : string * QueryParamValue) : Prop :=
  typed_param kv.1 kv.2 ∧ kv.2 ≠ PointParsed [].

Lemma pretty_N_char_digit x : (x < 10)%N →
  is_digit (pretty_N_char x) = true ∧ Ascii.N_of_ascii (pretty_N_char x) = (48 + x)%N.
Proof.
  intros Hx. assert (x ∈ [0;1;2;3;4;5;6;7;8;9]%N) as H by (rewrite !elem_of_cons, elem_of_nil; lia).
  revert H. rewrite !elem_of_cons, elem_of_nil.
  intros [->|[->|[->|[->|[->|[->|[->|[->|[->|[->|[]]]]]]]]]]]; vm_compute; done.
Qed.
Lemma digits_value_pretty_go x s :
  digits_value_go 0 (pretty_N_go x s) = digits_value_go x s ∧
  (str_forall is_digit s = true → str_forall is_digit (pretty_N_go x s) = true).
Proof.
  revert s. induction (N.lt_wf_0 x) as [x _ IH]. intros s.
  destruct (decide (0 < x)%N) as [Hx|Hx].
  - rewrite pretty_N_go_step by done.
    destruct (pretty_N_char_digit (x mod 10)) as [Hd Hv]; [by apply N.mod_lt|].
    destruct (IH (x / 10)%N (N.div_lt x 10 Hx eq_refl) (String (pretty_N_char (x mod 10)) s)) as [IH1 IH2].
    split; [rewrite IH1|].
    + cbn [digits_value_go]. rewrite Hv. f_equal. set (q := (x `mod` 10)%N).
      rewrite (N.div_mod x 10) at 2 by done. fold q. lia.
    + intros Hs. apply IH2. simpl. by rewrite Hd, Hs.
  - assert (x = 0)%N as -> by lia. by rewrite pretty_N_go_0.
Qed.
Lemma pretty_N_digits n :
  (0 < n)%N → str_forall is_digit (pretty n) = true ∧ digits_value (pretty n) = n ∧ pretty n ≠ "".
Proof.
  intros Hn. unfold pretty, pretty_N. rewrite decide_False by lia.
  destruct (digits_value_pretty_go n "") as [Hv Hd]. split; [by apply Hd|].
  split; [exact Hv|]. intros He. rewrite He in Hv. simpl in Hv. lia.
Qed.

Section params.
Context {X : X3} {HX : X3Laws X}.

Lemma path_end_inv r : path_end r = true → r = "" ∨ ∃ r', r = String "&" r'.
Proof. destruct r as [|c r]; [by left|]. simpl. rewrite is_char_true. intros <-. eauto. Qed.
Lemma path_end_digit r : path_end r = true → head_is is_digit r = false.
Proof. by intros [->|(r' & ->)]%path_end_inv. Qed.

Lemma run_depth_int n r :
  (0 < n < 65536)%N → path_end r = true → run depthParam (pretty n +:+ r) = PMatch (UnsignedInt n) r.
Proof.
  intros Hn Hr. destruct (pretty_N_digits n) as (Hd & Hv & Hne); [lia|].
  unfold depthParam. rewrite run_rule, run_alt, run_action, run_uint, span_app by auto using path_end_digit.
  rewrite bool_decide_eq_false_2, Hv by done.
  assert (N.ltb n (2 ^ 32) = true) as -> by (apply N.ltb_lt; lia). cbn [pbind]. unfold validDepthValues.
  assert (N.ltb 0 n && N.ltb n 65536 = true) as -> by (rewrite andb_true_iff, !N.ltb_lt; lia). done.
Qed.
Lemma run_depth_unbounded r : run depthParam ("unbounded" +:+ r) = PMatch UnboundedDepth r.
Proof.
  unfold depthParam. rewrite run_rule, run_alt, run_action, run_uint. cbn [String.append span].
  cbn. rewrite run_expect_r, run_str. simpl. by rewrite run_attr.
Qed.
Lemma run_symbol name tbl v r :
  (name, tbl) ∈ [("a", withDefaultsTable); ("b", contentTable); ("c", insertTable)] →
  v ∈ tbl.*2 → path_end r = true → run (symbols tbl) (symbol_name v +:+ r) = PMatch v r.
Proof.
  intros Ht Hv [->|(r' & ->)]%path_end_inv; rewrite run_symbols;
    repeat (apply elem_of_cons in Ht as [[= -> ->]|Ht]); try (by apply elem_of_nil in Ht);
    repeat (apply elem_of_cons in Hv as [->|Hv]); try (by apply elem_of_nil in Hv);
    first [reflexivity | simpl; rewrite bool_decide_eq_false_2 by (simpl; lia); reflexivity].
Qed.

Lemma run_filterOctet_encoded c r : run filterOctet (encode_char c +:+ r) = PMatch c r.
Proof.
  pose proof (run_keyOctet_encoded c r) as H. unfold keyOctet in H. unfold filterOctet.
  rewrite run_alt in *. destruct (run (cast _ percentEncodedChar) _); [done| |done].
  rewrite run_unreserved in H. rewrite run_diff.
  destruct (encode_char c +:+ r) as [|d s]; [done|]. rewrite run_lit.
  destruct (reserved d) eqn:E; [done|]. simplify_eq.
  assert (is_char "&" c = false) as ->.
  { revert E. unfold reserved. rewrite !orb_false_iff. tauto. }
  by rewrite run_char.
Qed.
Lemma run_filterOctet_end r : path_end r = true → run filterOctet r = PFail.
Proof.
  unfold filterOctet, percentEncodedChar.
  intros [->|(r' & ->)]%path_end_inv; rewrite run_alt, run_cast, run_rule, run_expect_r, run_diff.
  - by rewrite !run_lit_nil, run_char.
  - by rewrite !run_lit.
Qed.
Lemma consuming_filterOctet : consuming filterOctet.
Proof.
  intros s c r. unfold filterOctet, percentEncodedChar.
  rewrite run_alt, run_cast, run_rule, run_expect_r, run_diff.
  destruct s as [|d s]; [by rewrite !run_lit_nil, run_char|]. rewrite !run_lit, run_char.
  destruct (is_char "%" d); simpl.
  - destruct (run hexbyte s) eqn:E; simpl; intros; simplify_eq. apply consuming_hexbyte in E. lia.
  - destruct (is_char "&" d); simpl; intros; simplify_eq. lia.
Qed.
Lemma run_filter f r :
  f ≠ "" → path_end r = true → run filter (percentEncode f +:+ r) = PMatch f r.
Proof.
  intros Hf Hr. assert (∀ g, pmap String.string_of_list_ascii (run (kleene filterOctet) (percentEncode g +:+ r)) = PMatch g r) as H.
  { intros g. induction g as [|c g IH]; simpl.
    - rewrite str_app_nil_l, run_kleene, run_filterOctet_end by (done || apply consuming_filterOctet). done.
    - rewrite str_app_assoc, run_kleene, run_filterOctet_encoded by apply consuming_filterOctet.
      destruct (run (kleene filterOctet) _); simpl in *; by simplify_eq. }
  unfold filter. rewrite run_rule. unfold as_string. rewrite run_cast, run_plus, run_seq.
  destruct f as [|c f]; [done|]. simpl. rewrite str_app_assoc, run_filterOctet_encoded. simpl.
  specialize (H f). destruct (run (kleene filterOctet) _); simpl in *; by simplify_eq.
Qed.
Lemma ens_filter : ensures filter (λ s, s ≠ "").
Proof.
  apply ens_rule, ens_cast. intros s l r. rewrite run_plus. by intros ([c l'] & H & ->)%pmap_PMatch_inv.
Qed.
End params.

(** ** Query strings *)

Section query_string.
Context {X : X3} {HX : X3Laws X}.

Lemma run_param_fail name v s : strip_prefix name s = None → run (param name v) s = PFail.
Proof. intros H. unfold param. by rewrite run_expect, run_expect_l, run_str, H. Qed.
Lemma run_param_match name v x r t :
  run v t = PMatch x r → run (param name v) (name +:+ "=" +:+ t) = PMatch (name, x) r.
Proof.
  intros H. unfold param. rewrite run_expect, run_expect_l, run_str, strip_prefix_app. simpl.
  rewrite str_app_cons, str_app_nil_l, run_lit_same. simpl. by rewrite H.
Qed.
Lemma run_rule_symbol n name tbl v r :
  (name, tbl) ∈ [("a", withDefaultsTable); ("b", contentTable); ("c", insertTable)] →
  v ∈ tbl.*2 → path_end r = true → run (rule n (symbols tbl)) (symbol_name v +:+ r) = PMatch v r.
Proof. intros. rewrite run_rule. by eapply run_symbol. Qed.
Lemma table_render tbl k v :
  tbl ∈ [withDefaultsTable; contentTable; insertTable] → v ∈ tbl.*2 → renderValue k v = symbol_name v.
Proof.
  intros Ht Hv. repeat (apply elem_of_cons in Ht as [->|Ht]); try (by apply elem_of_nil in Ht);
    repeat (apply elem_of_cons in Hv as [->|Hv]); try (by apply elem_of_nil in Hv); reflexivity.
Qed.

(** The alternatives with another name fail, the right one takes the value. *)
Ltac pick_param tac :=
  repeat (rewrite run_alt_fail by (apply run_param_fail; reflexivity));
  first [apply run_alt_match; apply run_param_match; tac | apply run_param_match; tac].

Lemma run_queryParamPair kv r :
  renderable kv → path_end r = true → run queryParamPair (renderParam kv +:+ r) = PMatch kv r.
Proof.
  intros [Ht Hp] Hr. destruct kv as [k v]. simpl in *. unfold renderParam, queryParamPair. simpl.
  rewrite run_rule, !str_app_assoc. destruct Ht as [n Hn| |v Hv|v Hv|v Hv|l Hl|f Hf|t Hd|t Hd|e He].
  - pick_param ltac:(by apply run_depth_int).
  - pick_param ltac:(apply run_depth_unbounded).
  - rewrite (table_render withDefaultsTable) by (done || set_solver).
    pick_param ltac:(apply (run_rule_symbol _ "a"); [set_solver|done..]).
  - rewrite (table_render contentTable) by (done || set_solver).
    pick_param ltac:(apply (run_rule_symbol _ "b"); [set_solver|done..]).
  - rewrite (table_render insertTable) by (done || set_solver).
    pick_param ltac:(apply (run_rule_symbol _ "c"); [set_solver|done..]).
  - destruct l as [|s l]; [done|].
    pick_param ltac:(by rewrite run_cast; cbn [renderValue]; rewrite run_uriPath_point).
  - pick_param ltac:(by rewrite run_cast; cbn [renderValue]; rewrite decide_True, run_filter by done).
  - pick_param ltac:(by rewrite run_cast; cbn [renderValue]; rewrite decide_False, run_dateAndTime by done).
  - pick_param ltac:(by rewrite run_cast; cbn [renderValue]; rewrite decide_False, run_dateAndTime by done).
  - pick_param ltac:(rewrite run_cast; cbn [renderValue]; rewrite run_fieldsExpr_app; [done..|]);
      by destruct (path_end_inv r Hr) as [->|(r' & ->)].
Qed.

Lemma fwd_percentEncodedChar : forward percentEncodedChar.
Proof. unfold percentEncodedChar, hexbyte, expect_r, seq_r, xdigit. auto 20 with x3fwd. Qed.
Lemma fwd_dateAndTime : forward dateAndTime.
Proof.
  unfold dateAndTime, timezone, tzZulu, tzOffset, date, year, month, day, time, timeHHMM, hour, minute,
    second, twoDigits, digit_str, timeMs, dash, colon, opt_str, seq_str, expect_str, char_str, as_string,
    digit, char_lit. auto 60 with x3fwd.
Qed.
Lemma fwd_filter : forward filter.
Proof.
  apply fwd_rule, fwd_cast, fwd_plus; [apply consuming_filterOctet|].
  apply fwd_alt; [apply fwd_cast, fwd_percentEncodedChar|auto with x3fwd].
Qed.
Lemma fwd_param name v : forward v → forward (param name v).
Proof. intros. unfold param, expect_l. auto 20 with x3fwd. Qed.
#[local] Hint Resolve fwd_param fwd_filter fwd_dateAndTime fwd_uriPath fwd_fieldsExpr : x3fwd.
Lemma fwd_queryParamPair : forward queryParamPair.
Proof.
  unfold queryParamPair, depthParam, withDefaultsParam, contentParam, insertParam, expect_r. auto 60 with x3fwd.
Qed.
#[local] Hint Resolve fwd_queryParamPair : x3fwd.

Definition moreParam : parser (string * QueryParamValue) := expect_r (lit_char "&") queryParamPair.
Lemma consuming_moreParam : consuming moreParam.
Proof.
  intros s kv r. unfold moreParam. rewrite run_expect_r.
  intros (? & r' & H%consuming_lit_char & H'%or_expect_PMatch_inv)%pbind_PMatch_inv.
  pose proof (fwd_queryParamPair r') as Hf. rewrite H' in Hf. apply suffix_of_length in Hf. lia.
Qed.
Lemma fwd_queryParamGrammar : forward queryParamGrammar.
Proof.
  apply fwd_rule, fwd_cast, fwd_expect; [apply fwd_eps|]. apply fwd_rule, fwd_alt.
  - unfold queryParamEmpty, expect_r. auto 20 with x3fwd.
  - apply fwd_rule, fwd_cast, fwd_seq; [apply fwd_queryParamPair|].
    apply fwd_kleene; [apply consuming_moreParam|]. unfold expect_r. auto 20 with x3fwd.
Qed.

Lemma path_end_more l r : path_end r = true → path_end (renderMoreParams l +:+ r) = true.
Proof. by destruct l. Qed.
Lemma run_moreParams l :
  Forall renderable l → run (kleene moreParam) (renderMoreParams l) = PMatch l "".
Proof.
  induction 1 as [|kv l Hkv _ IH]; rewrite run_kleene by apply consuming_moreParam;
    unfold moreParam at 1; rewrite run_expect_r; simpl.
  - by rewrite run_lit_nil.
  - rewrite str_app_cons, str_app_nil_l, run_lit_same. simpl.
    rewrite run_queryParamPair by (done || by destruct l). simpl. by rewrite IH.
Qed.
Lemma run_queryParamGrammar_render l :
  Forall renderable l → run queryParamGrammar (renderQuery l) = PMatch (mm_of_list l) "".
Proof.
  intros Hl. unfold queryParamGrammar, queryParamMaybeEmpty, queryParamEmpty.
  rewrite run_rule, run_expect_r, run_eps. simpl. rewrite !run_rule, run_alt, run_rule, run_expect_r, run_and, run_eoi.
  destruct Hl as [|kv l Hkv Hl]; simpl; [by rewrite run_attr|].
  assert (∃ c s, renderParam kv +:+ renderMoreParams l = String c s) as (c & s & Hs).
  { destruct kv as [k v], Hkv as [Ht _]. simpl in Ht. destruct Ht; eexists _, _; reflexivity. }
  rewrite Hs. simpl. unfold queryParamList. rewrite run_rule, run_cast, run_seq, <- Hs.
  rewrite run_queryParamPair by (done || by destruct l). simpl. fold moreParam.
  by rewrite run_moreParams.
Qed.

Lemma ens_param name v :
  ensures v (typed_param name) → ensures (param name v) (λ kv, typed_param kv.1 kv.2).
Proof.
  intros Hv. eapply ens_weaken; [apply (ens_expect _ _ (eq name) (typed_param name)); [|done]|].
  - apply ens_expect_l. intros s a r. rewrite run_str. destruct (strip_prefix name s); intros; by simplify_eq.
  - intros [k x]. simpl. by intros [<- ?].
Qed.
Lemma ens_table n (tbl : list (string * QueryParamValue)) : ensures (rule n (symbols tbl)) (λ v, v ∈ tbl.*2).
Proof. apply ens_rule, ens_symbols, Forall_forall. intros [k v] H. by apply (list_elem_of_fmap_2 snd) in H. Qed.
Lemma ens_depthParam : ensures depthParam (typed_param "depth").
Proof.
  apply ens_rule, ens_alt.
  - eapply ens_action; [apply ens_true|]. intros n v _. unfold validDepthValues.
    destruct (_ && _) eqn:E; intros; simplify_eq. rewrite andb_true_iff, !N.ltb_lt in E. by constructor.
  - apply ens_expect_r, ens_attr. constructor.
Qed.
Lemma ens_queryParamPair : ensures queryParamPair (λ kv, typed_param kv.1 kv.2).
Proof.
  apply ens_rule. repeat apply ens_alt; apply ens_param.
  - apply ens_depthParam.
  - eapply ens_weaken; [apply ens_table|]. apply tp_with_defaults.
  - eapply ens_weaken; [apply ens_table|]. apply tp_content.
  - eapply ens_weaken; [apply ens_table|]. apply tp_insert.
  - apply ens_cast. eapply ens_weaken; [apply ens_uriPath|]. apply tp_point.
  - apply ens_cast. eapply ens_weaken; [apply ens_filter|]. apply tp_filter.
  - apply ens_cast. eapply ens_weaken; [apply ens_dateAndTime|]. apply tp_start_time.
  - apply ens_cast. eapply ens_weaken; [apply ens_dateAndTime|]. apply tp_stop_time.
  - apply ens_cast. eapply ens_weaken; [apply ens_fieldsExpr|]. apply tp_fields.
Qed.
Lemma ens_queryParamGrammar : ensures queryParamGrammar (Forall (λ kv, typed_param kv.1 kv.2)).
Proof.
  apply ens_rule, ens_expect_r, ens_rule, ens_alt.
  - apply ens_rule, ens_expect_r, ens_attr. constructor.
  - apply ens_rule, ens_cast. eapply ens_weaken; [apply ens_seq; [apply ens_queryParamPair|]|].
    + apply ens_kleene; [apply consuming_moreParam|]. apply ens_expect_r, ens_queryParamPair.
    + intros [kv l]. cbn beta. simpl. intros [Hkv Hl]. apply Forall_forall. intros x. rewrite elem_of_mm_of_list.
      revert x. apply Forall_forall. by constructor.
Qed.
End query_string.

(** C37: every list of well-typed query parameters (depth in 1..65535 or unbounded, the
    enumerations, a [point] path with arbitrary key values, an arbitrary filter, RFC 3339
    timestamps, any fields expression however nested) survives printing and parsing: the
    parser gives back the same parameters as a multimap. *)
Theorem parseQueryParams_roundtrip {X : X3} {HX : X3Laws X} (l : list (string * QueryParamValue)) (n : N) :
  Forall renderable l → parseQueryParams (renderQuery l) n = Ok (mm_of_list l).
Proof. intros Hl. by apply parse_match, run_queryParamGrammar_render. Qed.

(** [a/m:b(c;d(e));f] *)
Definition sample_fields : Expr :=
  SemiExpr (ParenExpr (SlashExpr (api1 "a") (Some (SlashExpr (api2 "m" "b") None)))
    (Some (SemiExpr (ParenExpr (SlashExpr (api1 "c") None) None)
      (Some (SemiExpr (ParenExpr (SlashExpr (api1 "d") None)
        (Some (SemiExpr (ParenExpr (SlashExpr (api1 "e") None) None) None))) None)))))
    (Some (SemiExpr (ParenExpr (SlashExpr (api1 "f") None) None) None)).
Definition sample_params : list (string * QueryParamValue) :=
  [("fields", Fields sample_fields); ("depth", UnsignedInt 65535); ("filter", StdString "a='&'");
   ("insert", After); ("point", PointParsed [mkSeg (api2 "ex" "l") ["a,b"]])].

Lemma parseQueryParams_roundtrip_witness :
  renderQuery sample_params =
    "fields=a/m:b(c;d(e));f&depth=65535&filter=a%3D%27%26%27&insert=after&point=/ex:l=a%2Cb" ∧
  parseQueryParams (X := x3_ref) (renderQuery sample_params) 0 = Ok (mm_of_list sample_params).
Proof.
  split; [reflexivity|]. apply (parseQueryParams_roundtrip (X := x3_ref) (HX := x3_ref_laws)).
  repeat apply Forall_cons_2; [..|constructor]; (split; [simpl|discriminate]).
  - apply tp_fields. reflexivity.
  - apply tp_depth. lia.
  - apply tp_filter. discriminate.
  - apply tp_insert. right; right; left.
  - apply tp_point. reflexivity.
Defined.

(** Whatever query string the parser accepts, every parameter has one of the known
    names and a value of the type that belongs to the name: a depth between 1 and 65535,
    an RFC 3339 timestamp, a fields expression of the grammar's shape, ... *)
Theorem parseQueryParams_sound {X : X3} {HX : X3Laws X} (s : string) (n : N) (params : QueryParams) :
  parseQueryParams s n = Ok params → Forall (λ kv, typed_param kv.1 kv.2) params.
Proof. intros H. by eapply parse_ensures in H; [|apply ens_queryParamGrammar]. Qed.

Lemma parseQueryParams_sound_witness :
  Forall (λ kv : string * QueryParamValue, typed_param kv.1 kv.2)
    [("depth", UnsignedInt 3); ("start-time", StdString "2023-01-01T23:59:59.123-05:00")].
Proof.
  apply (parseQueryParams_sound (X := x3_ref) (HX := x3_ref_laws)
           "start-time=2023-01-01T23:59:59.123-05:00&depth=3" 0).
  vm_compute. reflexivity.
Defined.

(** A query string that is rejected is always rejected with a 400 error that names the
    position: the length of the path that precedes the query plus the offset in the query
    of the place where the expected token is missing. *)
Theorem parseQueryParams_error {X : X3} {HX : X3Laws X} (s : string) (pathLength : N) (e : exn) :
  (N.of_nat (String.length s) + pathLength < 2 ^ 32)%N →
  parseQueryParams s pathLength = Throw e →
  ∃ before rest token,
    s = before +:+ rest ∧
    e = EResponse (UriQuerySyntaxErrorAt (N.of_nat (String.length before) + pathLength) token).
Proof.
  intros Hlen [[Hf ->]|(before & rest & which & -> & ->)]%parse_Throw_inv; [| |apply fwd_queryParamGrammar].
  - exfalso. revert Hf. unfold queryParamGrammar. rewrite run_rule, run_expect_r, run_eps. simpl.
    by destruct (run queryParamMaybeEmpty s).
  - exists before, rest, which. split; [done|]. simpl. do 3 f_equal.
    rewrite str_length_app in Hlen. apply N.mod_small. lia.
Qed.

Lemma parseQueryParams_error_witness :
  ∃ before rest token,
    "depth=1&depth=65536" = before +:+ rest ∧
    EResponse (UriQuerySyntaxErrorAt 114 "1-65535 or 'unbounded'") =
    EResponse (UriQuerySyntaxErrorAt (N.of_nat (String.length before) + 100) token).
Proof.
  apply (parseQueryParams_error (X := x3_ref) (HX := x3_ref_laws) "depth=1&depth=65536" 100).
  - vm_compute. reflexivity.
  - vm_compute. reflexivity.
Defined.
