(* ===== verification/Libyang.v ===== *)
(** * Libyang: what the server relies on from libyang's schema tree

    libyang and its C++ wrapper are not part of the repository.  The class [Libyang] has the
    operations on schema nodes and on the context the server calls; [LibyangLaws] states the
    documented behaviour the theorems use.  [Example.ly_ref] is a small concrete schema
    that satisfies the laws and serves as the witness. *)

From S2P Require Import Prelude Exceptions UriTypes UriPathFacts.

(** [libyang::NodeType]: the values the server tells apart *)
Inductive NodeType :=
| Container | Leaf | AnyXML | AnyData | Leaflist | List | RPC | Action | OtherNodeType.
#[export] Instance NodeType_eq_dec : EqDecision NodeType.
Proof. solve_decision. Defined.

Class Libyang : Type := {
  SchemaNode : Type;
  SchemaNode_eq_dec :: EqDecision SchemaNode;
  node_name : SchemaNode → string;                  (** [name()] *)
  module_name : SchemaNode → string;                (** [module().name()] *)
  parent : SchemaNode → option SchemaNode;
  node_path : SchemaNode → string;                  (** [path()] *)
  nodeType : SchemaNode → NodeType;
  list_keys : SchemaNode → list SchemaNode;         (** [asList().keys()] *)
  isUserOrdered : SchemaNode → bool;                (** of [asList()] or [asLeafList()] *)
  childInstantiables : SchemaNode → list SchemaNode;
  DataNode : Type;
  schema : DataNode → SchemaNode;
  Context : Type;
  findPath : Context → string → M SchemaNode;
  Module : Type;
  Submodule : Type;
  getModule : Context → string → option string → option Module;
  getSubmodule : Context → string → option string → option Submodule
}.

(** The names in a schema are YANG identifiers; [findPath] reports an unknown path with
    [libyang::Error] only; looking up [/module:name] gives the node of that name and module. *)
Class LibyangLaws (L : Libyang) : Prop := {
  node_name_identifier n : is_identifier (node_name n) = true;
  module_name_identifier n : is_identifier (module_name n) = true;
  findPath_throws ctx p e : findPath ctx p = Throw e → ∃ c w, e = ELibyang c w;
  findPath_root ctx m i n :
    is_identifier m = true → is_identifier i = true →
    findPath ctx ("/" +:+ m +:+ ":" +:+ i) = Ok n → module_name n = m ∧ node_name n = i
}.

(** An identifier ends before the first character that cannot be part of one. *)
Lemma identifier_chars i : is_identifier i = true → str_forall ident_char i = true.
Proof.
  destruct i as [|c i]; [done|]. simpl. intros [Hc Hi]%andb_true_iff. rewrite Hi, andb_true_r.
  revert Hc. unfold ident_start, ident_char, is_alnum. rewrite !orb_true_iff. tauto.
Qed.
Lemma span_identifier c i r :
  ident_char c = false → is_identifier i = true →
  span (λ d, negb (is_char c d)) (i +:+ String c r) = (i, String c r).
Proof.
  intros Hc Hi. apply span_app; [|by simpl; rewrite is_char_refl].
  apply (str_forall_impl ident_char); [|by apply identifier_chars].
  intros d Hd. apply negb_true_iff, not_true_iff_false. rewrite is_char_true. congruence.
Qed.

Lemma substring_all s : String.substring 0 (String.length s) s = s.
Proof. induction s as [|c s IH]; [done|]. simpl. by rewrite IH. Qed.

(** ** A concrete schema

    Module [example]: a container [top] with a keyed list [lst] (keys [name] and [id]), a
    keyless list [nokeys], a leaf-list [tags] and an action [act] with an input leaf; module [aug]
    augments [top] with a leaf [name]; an RPC [example:reset] and the internally handled
    [ietf-subscribed-notifications:establish-subscription]. *)
Module Example.
Inductive snode :=
| Top | Lst | LstName | LstId | NoKeys | Tags | Act | ActInput | AugName | Reset | Establish.
#[export] Instance snode_eq_dec : EqDecision snode.
Proof. solve_decision. Defined.

Definition name (n : snode) : string :=
  match n with
  | Top => "top" | Lst => "lst" | LstName => "name" | LstId => "id" | NoKeys => "nokeys"
  | Tags => "tags" | Act => "act" | ActInput => "x" | AugName => "name" | Reset => "reset"
  | Establish => "establish-subscription"
  end.
Definition module (n : snode) : string :=
  match n with AugName => "aug" | Establish => "ietf-subscribed-notifications" | _ => "example" end.
Definition up (n : snode) : option snode :=
  match n with
  | Lst | NoKeys | Tags | Act | AugName => Some Top
  | LstName | LstId => Some Lst
  | ActInput => Some Act
  | Top | Reset | Establish => None
  end.
Definition children (n : snode) : list snode :=
  match n with
  | Top => [AugName; Lst; NoKeys; Tags; Act]
  | Lst => [LstName; LstId]
  | Act => [ActInput]
  | _ => []
  end.
Definition kind (n : snode) : NodeType :=
  match n with
  | Top => Container | Lst | NoKeys => List | Tags => Leaflist | Act => Action
  | Reset | Establish => RPC | _ => Leaf
  end.
Definition step (n : snode) : string :=
  "/" +:+ (if decide (module <$> up n = Some (module n)) then "" else module n +:+ ":") +:+ name n.
Definition full (n : snode) : string :=
  match up n with
  | None => step n
  | Some p => match up p with None => "" | Some q => step q end +:+ step p +:+ step n
  end.
Definition find (p : string) : M snode :=
  match list_find (λ n, p = full n)
          [Top; Lst; LstName; LstId; NoKeys; Tags; Act; ActInput; AugName; Reset; Establish] with
  | Some (_, n) => Ok n
  | None => Throw (ELibyang (LyOther 1) "not found")
  end.

Definition ly_ref : Libyang := {|
  SchemaNode := snode;
  node_name := name;
  module_name := module;
  parent := up;
  node_path := full;
  nodeType := kind;
  list_keys := λ n, match n with Lst => [LstName; LstId] | _ => [] end;
  isUserOrdered := λ n, bool_decide (n = Tags);
  childInstantiables := children;
  DataNode := snode;
  schema := id;
  Context := unit;
  findPath := λ _, find;
  Module := string;
  Submodule := string;
  getModule := λ _ n r, if decide (n = "example" ∧ r = None) then Some n else None;
  getSubmodule := λ _ n r, None
|}.

Lemma ly_ref_laws : LibyangLaws ly_ref.
Proof.
  split.
  - by intros [].
  - by intros [].
  - intros ctx p e. simpl. unfold find. destruct (list_find _ _) as [[??]|]; naive_solver.
  - intros ctx m i n Hm Hi. simpl. unfold find.
    destruct (list_find _ _) as [[k n']|] eqn:E; [|done]. intros [= ->].
    apply list_find_Some in E as (_ & Hp & _).
    pose proof (span_identifier ":" m i eq_refl Hm) as H.
    change ("/" +:+ m +:+ ":" +:+ i) with (String "/" (m +:+ String ":" i)) in Hp.
    assert (String "/" (m +:+ String ":" i) = full n) as Hp' by done.
    assert (m +:+ String ":" i = String.substring 1 (String.length (full n) - 1) (full n)) as Hr
      by (rewrite <- Hp'; simpl; rewrite Nat.sub_0_r, substring_all; done).
    rewrite Hr in H. destruct n; vm_compute in H; simplify_eq; try done; by vm_compute in Hi.
Qed.
End Example.
