(* ===== verification/YangUtils.v ===== *)
(** * YangUtils: [restconf/utils/yang.cpp] and [restconf/utils/sysrepo.cpp]

    Quoting of key values in libyang paths, list predicates, and datastore names.  The
    reference reader [readPredicates] says what a predicate means to an XPath parser; the
    theorem is that it reads back exactly the given key values, so that no key value can
    change the structure of the path it is put into. *)

From S2P Require Import Prelude Exceptions UriTypes UriPathFacts Libyang.

Definition escapeListKey (str : string) : M string :=
  let singleQuotes := str_contains squote_char str in
  let doubleQuotes := str_contains dquote_char str in
  if singleQuotes && doubleQuotes then
    Throw (EInvalidArgument "Encountered mixed single and double quotes in XPath. Can't properly escape.")
  else if singleQuotes then Ok (dquote +:+ str +:+ dquote)
  else Ok (squote +:+ str +:+ squote).

(** Reading past the end of a vector: undefined in C++, an error value here. *)
Definition undefined {A} (what : string) : M A := Throw (EUndefined what).

(** [*o] for an optional *)
Definition deref {A} (o : option A) : M A :=
  match o with Some a => Ok a | None => undefined "empty optional" end.

Section yang.
Context {L : Libyang}.

(** The loop advances the two iterators together. *)
Fixpoint listKeyPredicate (listKeyLeafs : list SchemaNode) (keyValues : list string) : M string :=
  match listKeyLeafs, keyValues with
  | [], _ => Ok ""
  | _ :: _, [] => undefined "key values"
  | leaf :: leafs, v :: vs =>
      k ← escapeListKey v;
      rest ← listKeyPredicate leafs vs;
      Ok ("[" +:+ node_name leaf +:+ "=" +:+ k +:+ "]" +:+ rest)
  end.

Definition leaflistKeyPredicate (keyValue : string) : M string :=
  k ← escapeListKey keyValue; Ok ("[.=" +:+ k +:+ "]").

Definition isUserOrderedList (node : DataNode) : bool :=
  if decide (nodeType (schema node) = List) then isUserOrdered (schema node)
  else if decide (nodeType (schema node) = Leaflist) then isUserOrdered (schema node)
  else false.

Definition isKeyNode (maybeList node : DataNode) : bool :=
  if decide (nodeType (schema maybeList) = List) then
    existsb (λ key, bool_decide (schema node = key)) (list_keys (schema maybeList))
  else false.
End yang.

Definition datastoreFromString (datastore : string) : M Datastore :=
  if decide (datastore = "ietf-datastores:running") then Ok Running
  else if decide (datastore = "ietf-datastores:operational") then Ok Operational
  else if decide (datastore = "ietf-datastores:candidate") then Ok Candidate
  else if decide (datastore = "ietf-datastores:startup") then Ok Startup
  else if decide (datastore = "ietf-datastores:factory-default") then Ok FactoryDefault
  else Throw (ERuntime ("Unknown datastore '" +:+ datastore +:+ "'")).

(** ** Reading predicates back *)

(** An XPath string literal: everything up to the next quote of the same kind. *)
Definition readLiteral (s : string) : option (string * string) :=
  match s with
  | String q s =>
      if is_char squote_char q || is_char dquote_char q then
        match span (λ c, negb (is_char q c)) s with
        | (v, String _ r) => Some (v, r)
        | (_, "") => None
        end
      else None
  | "" => None
  end.
(** [[name=literal]], and any number of them. *)
Definition readPredicate (s : string) : option ((string * string) * string) :=
  match s with
  | String c s =>
      if is_char "[" c then
        match span (λ c, negb (is_char "=" c)) s with
        | (name, String _ r) =>
            match readLiteral r with
            | Some (v, String c r) => if is_char "]" c then Some ((name, v), r) else None
            | _ => None
            end
        | (_, "") => None
        end
      else None
  | "" => None
  end.
Fixpoint readPredicates (fuel : nat) (s : string) : list (string * string) * string :=
  match fuel with
  | O => ([], s)
  | S fuel =>
      match readPredicate s with
      | Some (p, r) => let '(ps, r) := readPredicates fuel r in (p :: ps, r)
      | None => ([], s)
      end
  end.

(** A key value can be put into a path unless it has both kinds of quotes. *)
Definition escapable (s : string) : bool := negb (str_contains squote_char s && str_contains dquote_char s).

Lemma escapeListKey_Ok s : escapable s = true ↔ ∃ k, escapeListKey s = Ok k.
Proof.
  unfold escapable, escapeListKey. destruct (str_contains squote_char s), (str_contains dquote_char s); naive_solver.
Qed.
Lemma escapeListKey_Throw s e : escapeListKey s = Throw e → ∃ w, e = EInvalidArgument w.
Proof. unfold escapeListKey. destruct (_ && _), (str_contains squote_char s); naive_solver. Qed.

Lemma span_no_quote q v r :
  str_contains q v = false → span (λ c, negb (is_char q c)) (v +:+ String q r) = (v, String q r).
Proof.
  intros H. apply span_app; [by apply str_contains_false|]. simpl. by rewrite is_char_refl.
Qed.
Lemma readLiteral_quoted q v r :
  is_char squote_char q || is_char dquote_char q = true → str_contains q v = false →
  readLiteral ((String q "" +:+ v +:+ String q "") +:+ r) = Some (v, r).
Proof.
  intros Hq Hv. rewrite !str_app_assoc, !str_app_cons, !str_app_nil_l.
  unfold readLiteral. by rewrite Hq, span_no_quote.
Qed.
Lemma readLiteral_escape v k r : escapeListKey v = Ok k → readLiteral (k +:+ r) = Some (v, r).
Proof.
  unfold escapeListKey. destruct (str_contains squote_char v) eqn:Hs, (str_contains dquote_char v) eqn:Hd;
    intros H; try discriminate H; injection H as <-; by apply readLiteral_quoted.
Qed.

Section predicates.
Context {L : Libyang} {HL : LibyangLaws L}.

Lemma readPredicate_app name v k r :
  str_contains "=" name = false → escapeListKey v = Ok k →
  readPredicate ("[" +:+ name +:+ "=" +:+ k +:+ "]" +:+ r) = Some ((name, v), r).
Proof.
  intros Hn Hk. simpl. rewrite str_app_nil_l.
  change ("=" +:+ ?x) with (String "=" x). rewrite span_no_quote by done.
  by rewrite (readLiteral_escape v) by done.
Qed.
Lemma identifier_no_char c i : ident_char c = false → is_identifier i = true → str_contains c i = false.
Proof.
  intros Hc Hi. apply str_contains_false. apply (str_forall_impl ident_char); [|by apply identifier_chars].
  intros d Hd. apply negb_true_iff, not_true_iff_false. intros ->%is_char_true. congruence.
Qed.
Definition pred_end (r : string) : bool := negb (head_is (is_char "[") r).
Lemma readPredicate_end r : pred_end r = true → readPredicate r = None.
Proof. destruct r as [|c r]; [done|]. unfold pred_end. simpl. by intros ->%negb_true_iff. Qed.

Lemma readPredicates_list leafs vs p r fuel :
  listKeyPredicate leafs vs = Ok p → length leafs < fuel → pred_end r = true →
  readPredicates fuel (p +:+ r) = (zip (node_name <$> leafs) vs, r).
Proof.
  revert vs p fuel. induction leafs as [|leaf leafs IH]; intros vs p fuel Hp Hf Hr; destruct fuel as [|fuel]; try (simpl in Hf; lia).
  - simpl in Hp. simplify_eq. simpl. by rewrite str_app_nil_l, readPredicate_end.
  - destruct vs as [|v vs]; [done|]. simpl in Hp. inv_result. cbn [readPredicates].
    rewrite !str_app_assoc, (readPredicate_app _ v)
      by (done || by apply identifier_no_char; [|apply node_name_identifier]).
    rewrite (IH vs) by (done || simpl in *; lia). done.
Qed.
Lemma listKeyPredicate_Throw leafs vs e :
  length leafs = length vs → listKeyPredicate leafs vs = Throw e → ∃ w, e = EInvalidArgument w.
Proof.
  revert vs. induction leafs as [|leaf leafs IH]; intros [|v vs]; try done. simpl. intros Hl.
  intros [H|(k & _ & [H|(? & ? & ?)]%bind_Throw_inv)]%bind_Throw_inv; [|eauto|done].
  by apply escapeListKey_Throw in H.
Qed.
Lemma listKeyPredicate_Ok leafs vs :
  length leafs = length vs → forallb escapable vs = true ↔ ∃ p, listKeyPredicate leafs vs = Ok p.
Proof.
  revert vs. induction leafs as [|leaf leafs IH]; intros [|v vs]; simpl; try done; [naive_solver|]. intros [= Hl].
  rewrite andb_true_iff, IH, escapeListKey_Ok by done. split.
  - intros [(k & ->) (p & Hp)]. simpl. rewrite Hp. simpl. eauto.
  - intros (p & H). inv_result. eauto.
Qed.
End predicates.

(** No key value can break out of the predicate it is put into: whenever the predicate of
    a list with matching numbers of keys and values is built, reading it as XPath (a quoted
    literal ends at the next quote of its kind) gives back exactly the names of the keys
    with the given values, and leaves the text after the predicate alone; and it is built
    unless some value has both kinds of quotes, which is reported as an invalid argument. *)
Theorem listKeyPredicate_reads_back {L : Libyang} {HL : LibyangLaws L} (leafs : list SchemaNode)
    (vs : list string) (r : string) :
  length leafs = length vs → pred_end r = true →
  match listKeyPredicate leafs vs with
  | Ok p => forallb escapable vs = true ∧
            readPredicates (S (length vs)) (p +:+ r) = (zip (node_name <$> leafs) vs, r)
  | Throw e => forallb escapable vs = false ∧ ∃ w, e = EInvalidArgument w
  end.
Proof.
  intros Hl Hr. pose proof (listKeyPredicate_Ok leafs vs Hl) as Hok.
  destruct (listKeyPredicate leafs vs) as [p|e] eqn:E.
  - split; [by apply Hok; eauto|]. apply readPredicates_list; [done|lia|done].
  - split; [|by eapply listKeyPredicate_Throw].
    apply not_true_iff_false. intros [p ?]%Hok. done.
Qed.

Lemma listKeyPredicate_reads_back_witness :
  listKeyPredicate (L := Example.ly_ref) [Example.LstName; Example.LstId] ["x'][id="; "]"] =
    Ok ("[name=" +:+ dquote +:+ "x'][id=" +:+ dquote +:+ "][id=']']") ∧
  readPredicates 3 (("[name=" +:+ dquote +:+ "x'][id=" +:+ dquote +:+ "][id=']']") +:+ "/next") =
    ([("name", "x'][id="); ("id", "]")], "/next").
Proof.
  split; [reflexivity|].
  pose proof (listKeyPredicate_reads_back (L := Example.ly_ref) (HL := Example.ly_ref_laws)
    [Example.LstName; Example.LstId] ["x'][id="; "]"] "/next" eq_refl eq_refl) as H.
  exact (proj2 H).
Defined.
