(* ===== verification/UriRequest.v ===== *)
(** * UriRequest: from a URI to a RESTCONF request ([restconf/uri.cpp])

    The functions of [restconf/uri.cpp] after the grammar, in the source's order: datastore names,
    the walk through the schema tree, the checks of query parameters and of the HTTP
    method, and the request functions the server calls. *)

From S2P Require Import Prelude Exceptions UriTypes Uuid X3 UriGrammar UriQuery Libyang YangUtils.

(** [try { m } catch (const std::runtime_error&) { throw ErrorResponse }] and the like: [h] says
    which exceptions are caught. *)
Definition catch_as {A} (m : M A) (h : exn → option ErrorResponse) : M A :=
  try_catch m (λ e, match h e with Some r => Throw (EResponse r) | None => Throw e end).

Definition operationFailed (msg : string) : ErrorResponse :=
  newErrorResponse 400 "application" "operation-failed" msg None.

Definition datastoreFromApiIdentifier (datastore : option ApiIdentifier) : M (option Datastore) :=
  match datastore with
  | None => Ok None
  | Some d =>
      p ← deref (prefix d);
      catch_as (Some <$> datastoreFromString (p +:+ ":" +:+ UriTypes.identifier d))
        (λ e, match e with
              | ERuntime _ => Some (operationFailed ("Unsupported datastore " +:+ p +:+ ":" +:+ UriTypes.identifier d))
              | _ => None
              end)
  end.

(** The constructor of [RestconfRequest] *)
Definition newRestconfRequest (type : RequestType) (datastore : option ApiIdentifier) (path : string)
    (queryParams : QueryParams) : M RestconfRequest :=
  ds ← datastoreFromApiIdentifier datastore; Ok (mkRequest type ds path queryParams).

(** ** Query parameters *)

(** The loop that copies the multimap into a map. *)
Fixpoint uniqueParams (check : string → M unit) (params_ : QueryParams) (params : gmap string QueryParamValue)
    : M (gmap string QueryParamValue) :=
  match params_ with
  | [] => Ok params
  | (k, v) :: rest =>
      _ ← throw_if (bool_decide (is_Some (params !! k)))
            (EResponse (newErrorResponse 400 "protocol" "invalid-value"
                          ("Query parameter '" +:+ k +:+ "' already specified") None));
      _ ← check k;
      uniqueParams check rest (<[k := v]> params)
  end.

Definition invalidParam (param msg : string) : exn :=
  EResponse (newErrorResponse 400 "protocol" "invalid-value" ("Query parameter '" +:+ param +:+ msg) None).

Definition validateQueryParameters (params_ : QueryParams) (httpMethod : string) : M unit :=
  params ← uniqueParams (λ _, Ok tt) params_ ∅;
  _ ← for_each (λ param,
        throw_if (bool_decide (is_Some (params !! param)) &&
                  negb (bool_decide (httpMethod = "GET")) && negb (bool_decide (httpMethod = "HEAD")))
          (invalidParam param "' can be used only with GET and HEAD methods"))
        ["depth"; "with-defaults"; "content"; "fields"];
  _ ← for_each (λ param,
        throw_if (bool_decide (is_Some (params !! param)) &&
                  negb (bool_decide (httpMethod = "POST")) && negb (bool_decide (httpMethod = "PUT")))
          (invalidParam param "' can be used only with POST and PUT methods"))
        ["insert"; "point"];
  _ ← for_each (λ param,
        throw_if (bool_decide (is_Some (params !! param)))
          (invalidParam param "' can be used only with streams"))
        ["filter"; "start-time"; "stop-time"];
  let hasInsertParamBeforeOrAfter :=
    match params !! "insert" with Some After | Some Before => true | _ => false end in
  let hasPointParam := bool_decide (is_Some (params !! "point")) in
  throw_if (negb (Bool.eqb hasPointParam hasInsertParamBeforeOrAfter))
    (EResponse (newErrorResponse 400 "protocol" "invalid-value"
       "Query parameter 'point' must always come with parameter 'insert' set to 'before' or 'after'" None)).

Definition validateQueryParametersForStream (params_ : QueryParams) : M unit :=
  _ ← uniqueParams (λ k,
        throw_if (negb (bool_decide (k = "filter")) && negb (bool_decide (k = "start-time")) &&
                  negb (bool_decide (k = "stop-time")))
          (invalidParam k "' can't be used with streams")) params_ ∅;
  Ok tt.

(** ** The schema walk *)

Section request.
Context {X : X3} {L : Libyang}.

(** The first child that matches. *)
Fixpoint findChild (node : SchemaNode) (childIdentifier : ApiIdentifier) (l : list SchemaNode)
    : option SchemaNode :=
  match l with
  | [] => None
  | child :: l =>
      if bool_decide (node_name child = UriTypes.identifier childIdentifier) &&
         match prefix childIdentifier with
         | None => bool_decide (module_name node = module_name child)
         | Some p => bool_decide (module_name child = p)
         end
      then Some child else findChild node childIdentifier l
  end.
Definition findChildSchemaNode (node : SchemaNode) (childIdentifier : ApiIdentifier) : option SchemaNode :=
  findChild node childIdentifier (childInstantiables node).

Definition maybeQualified (currentNode : SchemaNode) : string :=
  match parent currentNode with
  | Some p =>
      if decide (module_name p = module_name currentNode) then node_name currentNode
      else module_name currentNode +:+ ":" +:+ node_name currentNode
  | None => module_name currentNode +:+ ":" +:+ node_name currentNode
  end.

Definition checkValidDataResource (node : SchemaNode) (prefix : URIPrefix) : M unit :=
  _ ← throw_if (negb (bool_decide (resourceType prefix = BasicRestconfData)) &&
                negb (bool_decide (resourceType prefix = NMDADatastore)))
        (EResponse (operationFailed "GET method must be used with a data resource or a complete datastore resource"));
  match nodeType node with
  | Container | Leaf | AnyXML | AnyData | Leaflist | List => Ok tt
  | RPC | Action =>
      throwResponse 405 "protocol" "operation-not-supported"
        ("'" +:+ node_path node +:+ "' is an RPC/Action node")
  | OtherNodeType =>
      throwResponse 400 "protocol" "operation-failed" ("'" +:+ node_path node +:+ "' is not a data resource")
  end.

Definition validateMethodForNode (httpMethod : string) (prefix : URIPrefix) (node : option SchemaNode) : M unit :=
  if decide (httpMethod = "OPTIONS") then Ok tt
  else match node with
  | None =>
      match resourceType prefix with
      | BasicRestconfData | NMDADatastore =>
          throw_if (bool_decide (httpMethod = "DELETE")) (EResponse (operationFailed "'/' is not a data resource"))
      | RestconfRoot | BasicRestconfOperations | YangLibraryVersion =>
          throw_if (negb (bool_decide (httpMethod = "GET")) && negb (bool_decide (httpMethod = "HEAD")))
            (EResponse (newErrorResponse 405 "application" "operation-not-supported" "Method not allowed." None))
      end
  | Some node =>
      if decide (httpMethod = "POST") then
        match nodeType node with
        | RPC =>
            throw_if (negb (bool_decide (resourceType prefix = BasicRestconfOperations)))
              (EResponse (newErrorResponse 400 "protocol" "operation-failed"
                 ("RPC '" +:+ node_path node +:+ "' must be requested using operation prefix") None))
        | Action =>
            throw_if (negb (bool_decide (resourceType prefix = BasicRestconfData)) &&
                      negb (bool_decide (resourceType prefix = NMDADatastore) &&
                            bool_decide (uri_datastore prefix = Some (api2 "ietf-datastores" "operational"))))
              (EResponse (newErrorResponse 400 "protocol" "operation-failed"
                 ("Action '" +:+ node_path node +:+
                  "' must be requested using data prefix or via operational NMDA") None))
        | _ => checkValidDataResource node prefix
        end
      else checkValidDataResource node prefix
  end.

(** [std::invalid_argument] from the escaping becomes an [ErrorResponse]. *)
Definition escapeError (e : exn) : option ErrorResponse :=
  match e with EInvalidArgument w => Some (operationFailed w) | _ => None end.

(** The part of the path that selects the entry of a list or leaf-list. *)
Definition segmentPredicate (currentNode : SchemaNode) (keys : list string) : M string :=
  if decide (nodeType currentNode = List) then
    let listKeys := list_keys currentNode in
    _ ← throw_if (bool_decide (length listKeys = 0))
          (EResponse (operationFailed ("List '" +:+ node_path currentNode +:+ "' has no keys. It can not be accessed directly")));
    _ ← throw_if (negb (bool_decide (length keys = length listKeys)))
          (EResponse (operationFailed ("List '" +:+ node_path currentNode +:+ "' requires " +:+
                                       pretty (N.of_nat (length listKeys)) +:+ " keys")));
    catch_as (listKeyPredicate listKeys keys) escapeError
  else if decide (nodeType currentNode = Leaflist) then
    match keys with
    | [key] => catch_as (k ← escapeListKey key; Ok ("[.=" +:+ k +:+ "]")) escapeError
    | _ => Throw (EResponse (operationFailed ("Leaf-list '" +:+ node_path currentNode +:+ "' requires exactly one key")))
    end
  else
    _ ← throw_if (negb (bool_decide (length keys = 0)))
          (EResponse (operationFailed ("No keys allowed for node '" +:+ node_path currentNode +:+ "'")));
    Ok "".

Definition nextNode (ctx : Context) (currentNode : option SchemaNode) (apiIdent : ApiIdentifier) : M SchemaNode :=
  match currentNode with
  | Some prevNode =>
      match findChildSchemaNode prevNode apiIdent with
      | Some node => Ok node
      | None =>
          Throw (EResponse (operationFailed
            ("Node '" +:+ api_name apiIdent +:+ "' is not a child of '" +:+ node_path prevNode +:+ "'")))
      end
  | None =>
      catch_as (findPath ctx ("/" +:+ api_name apiIdent))
        (λ e, match e with ELibyang _ w => Some (operationFailed w) | _ => None end)
  end.

(** The loop of [asLibyangPath], from the node and the path reached so far. *)
Fixpoint asLibyangPath_go (ctx : Context) (currentNode : option SchemaNode) (res : string)
    (segs : list PathSegment) : M (string * option SchemaNode) :=
  match segs with
  | [] => Ok (res, currentNode)
  | seg :: rest =>
      node ← nextNode ctx currentNode (apiIdent seg);
      p ← segmentPredicate node (keys seg);
      _ ← throw_if (negb (bool_decide (rest = [])) &&
                    (bool_decide (nodeType node = RPC) || bool_decide (nodeType node = Action)))
            (EResponse (operationFailed ("'" +:+ node_path node +:+
               "' is an RPC/Action node, any child of it can't be requested")));
      asLibyangPath_go ctx (Some node) (res +:+ "/" +:+ maybeQualified node +:+ p) rest
  end.
Definition asLibyangPath (ctx : Context) (segs : list PathSegment) : M (string * option SchemaNode) :=
  asLibyangPath_go ctx None "" segs.

Definition asLibyangSchemaNode (ctx : Context) (pathSegments : list PathSegment) : M (option SchemaNode) :=
  snd <$> asLibyangPath ctx pathSegments.
Definition asPathSegments (uriPath : string) : M (list PathSegment) := segments <$> parseUriPath uriPath.

Definition isInternalRPCPath (schemaPath : string) : bool :=
  bool_decide (schemaPath ∈
    ["/ietf-subscribed-notifications:establish-subscription";
     "/ietf-subscribed-notifications:modify-subscription";
     "/ietf-subscribed-notifications:delete-subscription";
     "/ietf-subscribed-notifications:kill-subscription"]).

(** ** Requests *)

Definition methodNotAllowed : exn :=
  EResponse (newErrorResponse 405 "application" "operation-not-supported" "Method not allowed." None).

Definition isRpcOrAction (node : SchemaNode) : bool :=
  bool_decide (nodeType node = Action) || bool_decide (nodeType node = RPC).

(** The second half of [asRestconfRequest]: the chain of conditions that picks the type of
    the request, once the path and the query have been checked. *)
Definition dispatchRequest (httpMethod uriPath : string) (uri : URIPath) (queryParameters : QueryParams)
    (lyPath : string) (schemaNode : option SchemaNode) : M RestconfRequest :=
  let meth m := bool_decide (httpMethod = m) in
  let segmentsEmpty := bool_decide (segments uri = []) in
  let path := if segmentsEmpty then "/" else lyPath in
  let resType := resourceType (uri_prefix uri) in
  let hasNode := bool_decide (is_Some schemaNode) in
  let return_ type path := newRestconfRequest type (uri_datastore (uri_prefix uri)) path queryParameters in
  if meth "OPTIONS" then newRestconfRequest OptionsQuery None "" []
  else if bool_decide (resType = RestconfRoot) then newRestconfRequest RestconfRootReq None "" queryParameters
  else if bool_decide (resType = YangLibraryVersion) then
    newRestconfRequest YangLibraryVersionReq None "" queryParameters
  else if bool_decide (resType = BasicRestconfOperations) && negb hasNode then
    newRestconfRequest ListRPC None "" queryParameters
  else if meth "GET" || meth "HEAD" then return_ GetData (if segmentsEmpty then "/*" else path)
  else if meth "PUT" then return_ CreateOrReplaceThisNode path
  else if meth "DELETE" && hasNode then return_ DeleteNode path
  else if meth "POST" && from_option isRpcOrAction false schemaNode then
    return_ (if isInternalRPCPath (from_option node_path "" schemaNode) then ExecuteInternal else Execute) path
  else if meth "POST" && (bool_decide (resType = BasicRestconfData) || bool_decide (resType = NMDADatastore)) then
    return_ CreateChildren path
  else if meth "PATCH" then return_ MergeData path
  else Throw (ELogic ("Unhandled request " +:+ httpMethod +:+ " " +:+ uriPath)).

Definition asRestconfRequest (ctx : Context) (httpMethod uriPath uriQueryString : string) : M RestconfRequest :=
  let meth m := bool_decide (httpMethod = m) in
  _ ← throw_if (negb (meth "GET") && negb (meth "PUT") && negb (meth "POST") && negb (meth "DELETE") &&
                negb (meth "HEAD") && negb (meth "OPTIONS") && negb (meth "PATCH")) methodNotAllowed;
  uri ← parseUriPath uriPath;
  queryParameters ← parseQueryParams uriQueryString (u32 (N.of_nat (String.length uriPath) + 1));
  _ ← validateQueryParameters queryParameters httpMethod;
  '(lyPath, schemaNode) ← asLibyangPath ctx (segments uri);
  _ ← validateMethodForNode httpMethod (uri_prefix uri) schemaNode;
  dispatchRequest httpMethod uriPath uri queryParameters lyPath schemaNode.

Definition asLibyangPathSplit (ctx : Context) (uriPath : string) : M (string * PathSegment) :=
  uri ← parseUriPath uriPath;
  match last (segments uri) with
  | None => Throw (EResponse (operationFailed "Cannot split the datastore resource URI"))
  | Some lastSegment =>
      '(parentLyPath, _) ← asLibyangPath ctx (removelast (segments uri));
      match prefix (apiIdent lastSegment) with
      | Some _ => Ok (parentLyPath, lastSegment)
      | None =>
          '(_, schemaNode) ← asLibyangPath ctx (segments uri);
          node ← deref schemaNode;
          Ok (parentLyPath,
              mkSeg (mkApi (Some (module_name node)) (UriTypes.identifier (apiIdent lastSegment))) (keys lastSegment))
      end
  end.

Definition getModuleOrSubmodule (ctx : Context) (name : string) (revision : option string)
    : option (Module + Submodule) :=
  match getModule ctx name revision with
  | Some m => Some (inl m)
  | None => match getSubmodule ctx name revision with Some m => Some (inr m) | None => None end
  end.
Definition asYangModule (ctx : Context) (uriPath : string) : M (option (Module + Submodule)) :=
  parsedModule ← parseModuleWithRevision uriPath;
  Ok (getModuleOrSubmodule ctx (mod_name parsedModule) (mod_revision parsedModule)).

Context {U : UuidLib}.

Definition asRestconfStreamRequest (httpMethod uriPath uriQueryString : string) : M RestconfStreamRequest :=
  _ ← throw_if (negb (bool_decide (httpMethod = "GET")) && negb (bool_decide (httpMethod = "HEAD"))) methodNotAllowed;
  type ← parseStreamUri uriPath;
  match type with
  | NotificationStream request =>
      queryParameters ← parseQueryParams uriQueryString (u32 (N.of_nat (String.length uriPath) + 1));
      _ ← validateQueryParametersForStream queryParameters;
      Ok (NotificationStream (mkNotif (stream request) (encoding request) queryParameters))
  | SubscribedStream u => Ok (SubscribedStream u)
  end.

Fixpoint allowedMethods_go (ctx : Context) (uriPath : string) (methods : list string) (acc : gset string)
    : M (gset string) :=
  match methods with
  | [] => Ok acc
  | httpMethod :: methods =>
      acc' ← match asRestconfRequest ctx httpMethod uriPath "" with
             | Ok _ => Ok ({[httpMethod]} ∪ acc)
             | Throw (EResponse _) => Ok acc
             | Throw e => Throw e
             end;
      allowedMethods_go ctx uriPath methods acc'
  end.
Definition allowedHttpMethodsForUri (ctx : Context) (uriPath : string) : M (gset string) :=
  allowed ← allowedMethods_go ctx uriPath ["GET"; "PUT"; "POST"; "DELETE"; "HEAD"; "PATCH"] ∅;
  Ok (if decide (allowed = ∅) then allowed else {["OPTIONS"]} ∪ allowed).

(** ** Fields expressions *)

(** The visitor, with the mutable vectors [currentPath] and [output] as state. *)
Fixpoint collectPaths (expr : Expr) (currentPath output : list string) (end_ : bool)
    : list string * list string :=
  match expr with
  | ParenExpr lhs rhs =>
      let '(currentPath, output) :=
        collectPaths lhs currentPath output (match rhs with None => true | Some _ => false end) in
      match rhs with
      | Some rhs => collectPaths rhs currentPath output end_
      | None => (currentPath, output)
      end
  | SemiExpr lhs rhs =>
      let pathCopy := currentPath in
      let '(currentPath, output) :=
        collectPaths lhs currentPath output (match rhs with None => true | Some _ => false end) in
      match rhs with
      | Some rhs => let '(_, output) := collectPaths rhs pathCopy output false in (currentPath, output)
      | None => (currentPath, output)
      end
  | SlashExpr lhs rhs =>
      let currentPath := currentPath ++ [api_name lhs] in
      match rhs with
      | Some rhs => collectPaths rhs currentPath output end_
      | None => (currentPath, if end_ then output ++ [join "/" currentPath] else output)
      end
  end.

Definition fieldsToXPath (ctx : Context) (prefix : string) (expr : Expr) : M string :=
  let '(_, paths) := collectPaths expr [prefix] [] false in
  _ ← for_each (λ xpath,
        catch_as (node ← findPath ctx xpath;
                  validateMethodForNode "GET" (mkPrefix BasicRestconfData None) (Some node))
          (λ e, match e with
                | ELibyang _ _ => Some (operationFailed ("Can't find schema node for '" +:+ xpath +:+ "'"))
                | _ => None
                end)) paths;
  Ok (join " | " paths).
End request.

Definition uriJoin (a b : string) : string :=
  if ends_with_char "/" a && starts_with "/" b then a +:+ String.substring 1 (String.length b - 1) b
  else if negb (bool_decide (a = "")) && negb (bool_decide (b = "")) &&
          negb (ends_with_char "/" a) && negb (starts_with "/" b) then a +:+ "/" +:+ b
  else a +:+ b.
