(* ===== verification/UriRequestFacts.v ===== *)
(** * UriRequestFacts: requests are checked, paths cannot be injected, nothing is left unhandled *)

From S2P Require Import Prelude Exceptions UriTypes Uuid X3 UriGrammar UriPathFacts UriQuery UriQueryFacts Libyang YangUtils UriRequest.

(** ** Only [ErrorResponse] leaves a computation *)

Lemma only_responses_bind {A B} (m : M A) (f : A → M B) :
  only_responses m → (∀ a, m = Ok a → only_responses (f a)) → only_responses (m ≫= f).
Proof. destruct m as [a|e]; simpl; auto. Qed.
Lemma only_responses_fmap {A B} (m : M A) (f : A → B) : only_responses m → only_responses (f <$> m).
Proof. by destruct m. Qed.
Lemma only_responses_throw_if b e : only_responses (throw_if b (EResponse e)).
Proof. by destruct b. Qed.
Lemma only_responses_for_each {A} (f : A → M unit) l :
  (∀ x, only_responses (f x)) → only_responses (for_each f l).
Proof. intros Hf. induction l as [|x l IH]; simpl; [done|]. by apply only_responses_bind. Qed.
Lemma only_responses_catch {A} (m : M A) h :
  (∀ e, m = Throw e → is_Some (h e) ∨ ∃ r, e = EResponse r) → only_responses (catch_as m h).
Proof.
  unfold catch_as. destruct m as [a|e]; simpl; [done|]. intros H.
  destruct (H e eq_refl) as [[r ->]|[r ->]]; [done|]. by destruct (h _).
Qed.
Lemma only_responses_throw {A} e : only_responses (A := A) (Throw (EResponse e)).
Proof. done. Qed.

Create HintDb responses.
#[export] Hint Resolve only_responses_throw_if only_responses_for_each only_responses_throw
  only_responses_fmap : responses.

(** ** Query parameters *)

Section query_validation.
Lemma uniqueParams_Ok check l m m' :
  uniqueParams check l m = Ok m' ↔
  NoDup l.*1 ∧ (∀ k, k ∈ l.*1 → m !! k = None ∧ check k = Ok tt) ∧
  m' = list_to_map l ∪ m.
Proof.
  revert m m'. induction l as [|[k v] l IH]; intros m m'; csimpl.
  - rewrite (left_id_L ∅ (∪)). split; [intros; simplify_eq|naive_solver].
    split; [constructor|]. split; [set_solver|done].
  - rewrite NoDup_cons. split.
    + intros H. inv_result. match goal with H : bool_decide _ = false |- _ => apply bool_decide_eq_false in H end.
      apply IH in H as (Hnd & Hl & ->). destruct (check k) as [[]|] eqn:Hc; simplify_eq.
      assert (m !! k = None) by (by apply eq_None_not_Some).
      assert (k ∉ l.*1) as Hk.
      { intros [Hk _]%Hl. by rewrite lookup_insert_eq in Hk. }
      split; [done|]. split.
      * intros k' [->|Hk']%elem_of_cons; [done|]. destruct (Hl k' Hk') as [Hn ?].
        split; [|done]. apply lookup_insert_None in Hn. tauto.
      * rewrite <- insert_union_l, <- insert_union_r; [done|]. by apply not_elem_of_list_to_map.
    + intros ((Hk & Hnd) & Hl & ->). destruct (Hl k) as [Hn Hc]; [set_solver|].
      rewrite bool_decide_eq_false_2 by (rewrite Hn; by intros []). simpl. rewrite Hc. simpl.
      apply IH. split; [done|]. split.
      * intros k' Hk'. destruct (Hl k') as [? ?]; [set_solver|]. split; [|done].
        rewrite lookup_insert_ne by set_solver. done.
      * rewrite <- insert_union_l, <- insert_union_r; [done|]. by apply not_elem_of_list_to_map.
Qed.
Lemma uniqueParams_Throw check l m e :
  (∀ k e, check k = Throw e → ∃ p w, e = invalidParam p w) →
  uniqueParams check l m = Throw e → ∃ p w, e = invalidParam p w.
Proof.
  intros Hc. revert m. induction l as [|[k v] l IH]; intros m; simpl; [done|].
  intros [H|(? & _ & [H|(? & _ & H)]%bind_Throw_inv)]%bind_Throw_inv; [|eauto..].
  apply throw_if_Throw_inv in H as [_ ->]. by exists k, "' already specified".
Qed.

Lemma is_Some_list_to_map {V} (l : list (string * V)) k :
  is_Some ((list_to_map l : gmap string V) !! k) ↔ k ∈ l.*1.
Proof.
  destruct ((list_to_map l : gmap string V) !! k) eqn:E.
  - split; [|eauto]. intros _. apply elem_of_list_to_map_2 in E. by apply (list_elem_of_fmap_2 fst) in E.
  - apply not_elem_of_list_to_map in E. split; [by intros []|done].
Qed.

(** What a restriction to two methods says. *)
Lemma method_guard (P : Prop) `{!Decision P} (m a b : string) :
  bool_decide P && negb (bool_decide (m = a)) && negb (bool_decide (m = b)) = false ↔ (P → m = a ∨ m = b).
Proof. repeat case_bool_decide; naive_solver. Qed.

(** The rules of RFC 8040, section 4.8, for the parameters of one request. *)
Definition valid_params (params : QueryParams) (m : string) : Prop :=
  NoDup params.*1 ∧
  (∀ k, k ∈ ["depth"; "with-defaults"; "content"; "fields"] → k ∈ params.*1 → m = "GET" ∨ m = "HEAD") ∧
  (∀ k, k ∈ ["insert"; "point"] → k ∈ params.*1 → m = "POST" ∨ m = "PUT") ∧
  (∀ k, k ∈ ["filter"; "start-time"; "stop-time"] → k ∉ params.*1) ∧
  ("point" ∈ params.*1 ↔ ("insert", After) ∈ params ∨ ("insert", Before) ∈ params).

Lemma for_each_guards (P : string → bool) (E : string → exn) l :
  for_each (λ x, throw_if (P x) (E x)) l = Ok tt ↔ ∀ x, x ∈ l → P x = false.
Proof.
  rewrite for_each_Ok, Forall_forall. split; intros H x Hx; specialize (H x Hx).
  - by apply throw_if_Ok_inv in H.
  - by rewrite H.
Qed.
Lemma bind_unit_Ok {A} (m : M unit) (k : M A) a : (_ ← m; k) = Ok a ↔ m = Ok tt ∧ k = Ok a.
Proof. destruct m as [[]|]; simpl; naive_solver. Qed.

Lemma insert_around l :
  NoDup l.*1 →
  (match (list_to_map l : gmap string QueryParamValue) !! "insert" with
   | Some After | Some Before => true | _ => false end = true) ↔
  ("insert", After) ∈ l ∨ ("insert", Before) ∈ l.
Proof.
  intros Hnd. rewrite !(elem_of_list_to_map (M := gmap string)) by done.
  destruct (list_to_map l !! "insert") as [[]|]; naive_solver.
Qed.

Lemma validateQueryParameters_Ok params m :
  validateQueryParameters params m = Ok tt ↔ valid_params params m.
Proof.
  unfold validateQueryParameters, valid_params. split.
  - intros H. apply bind_Ok_inv in H as (ps & Hps & H).
    apply uniqueParams_Ok in Hps as (Hnd & _ & ->). rewrite (right_id_L ∅ (∪)) in H.
    rewrite !bind_unit_Ok, !for_each_guards in H. destruct H as (H1 & H2 & H3 & H4).
    apply throw_if_Ok_inv in H4. apply negb_false_iff, eqb_prop in H4.
    split_and!; [done|..].
    + intros k Hk Hin. specialize (H1 k Hk). rewrite method_guard in H1. by apply H1, is_Some_list_to_map.
    + intros k Hk Hin. specialize (H2 k Hk). rewrite method_guard in H2. by apply H2, is_Some_list_to_map.
    + intros k Hk Hin. specialize (H3 k Hk). apply bool_decide_eq_false in H3. by rewrite is_Some_list_to_map in H3.
    + rewrite <- insert_around, <- H4, bool_decide_eq_true, is_Some_list_to_map by done. done.
  - intros (Hnd & H1 & H2 & H3 & H4).
    assert (uniqueParams (λ _, Ok tt) params ∅ = Ok (list_to_map params)) as ->.
    { apply uniqueParams_Ok. rewrite (right_id_L ∅ (∪)). split_and!; [done|set_solver|done]. }
    rewrite bind_Ok, !bind_unit_Ok, !for_each_guards. split_and!.
    + intros k Hk. rewrite method_guard, is_Some_list_to_map. by apply H1.
    + intros k Hk. rewrite method_guard, is_Some_list_to_map. by apply H2.
    + intros k Hk. apply bool_decide_eq_false. rewrite is_Some_list_to_map. by apply H3.
    + rewrite <- insert_around in H4 by done. rewrite <- is_Some_list_to_map in H4.
      case_bool_decide as Hp; destruct (list_to_map params !! "insert") as [[]|]; naive_solver.
Qed.
Lemma only_responses_unique check l m :
  (∀ k, only_responses (check k)) → only_responses (uniqueParams check l m).
Proof.
  intros Hc. revert m. induction l as [|[k v] l IH]; intros m; simpl; [done|].
  apply only_responses_bind; [apply only_responses_throw_if|]. intros _ _. by apply only_responses_bind.
Qed.
Lemma only_responses_validateQuery params m : only_responses (validateQueryParameters params m).
Proof.
  unfold validateQueryParameters. apply only_responses_bind; [by apply only_responses_unique|]. intros ps _.
  repeat (apply only_responses_bind; [apply only_responses_for_each; intros; apply only_responses_throw_if|intros _ _]).
  apply only_responses_throw_if.
Qed.
End query_validation.

(** ** The schema walk *)

(** A reader for libyang data paths: [/name[k=literal].../name...]. *)
Definition path_name_char (c : ascii) : bool := ident_char c || is_char ":" c.
#[global] Arguments path_name_char : simpl never.
Definition readStep (s : string) : option ((string * list (string * string)) * string) :=
  match s with
  | String c s =>
      if is_char "/" c then
        let '(name, r) := span path_name_char s in
        let '(ps, r) := readPredicates (S (String.length r)) r in Some ((name, ps), r)
      else None
  | "" => None
  end.
Fixpoint readPath (fuel : nat) (s : string) : option (list (string * list (string * string))) :=
  match s, fuel with
  | "", _ => Some []
  | _, O => None
  | _, S fuel =>
      match readStep s with
      | Some (step, r) => match readPath fuel r with Some l => Some (step :: l) | None => None end
      | None => None
      end
  end.

Section walk.
Context {L : Libyang}.

(** The key values a segment must have at a node. *)
Definition keys_fit (n : SchemaNode) (ks : list string) : Prop :=
  match nodeType n with
  | List => list_keys n ≠ [] ∧ length ks = length (list_keys n)
  | Leaflist => length ks = 1
  | _ => ks = []
  end.
(** The predicates that select the entry with these key values. *)
Definition predicates (n : SchemaNode) (ks : list string) : list (string * string) :=
  match nodeType n with
  | List => zip (node_name <$> list_keys n) ks
  | Leaflist => (λ k, (".", k)) <$> ks
  | _ => []
  end.

Definition child_matches (p c : SchemaNode) (a : ApiIdentifier) : Prop :=
  c ∈ childInstantiables p ∧ node_name c = UriTypes.identifier a ∧
  module_name c = default (module_name p) (prefix a).

(** The nodes a sequence of path segments goes through. *)
Inductive schema_walk (ctx : Context) : option SchemaNode → list PathSegment → list SchemaNode → Prop :=
| walk_nil o : schema_walk ctx o [] []
| walk_root s l n ns :
    findPath ctx ("/" +:+ api_name (apiIdent s)) = Ok n → keys_fit n (keys s) →
    (l ≠ [] → nodeType n ≠ RPC ∧ nodeType n ≠ Action) →
    schema_walk ctx (Some n) l ns → schema_walk ctx None (s :: l) (n :: ns)
| walk_child p s l n ns :
    child_matches p n (apiIdent s) → keys_fit n (keys s) →
    (l ≠ [] → nodeType n ≠ RPC ∧ nodeType n ≠ Action) →
    schema_walk ctx (Some n) l ns → schema_walk ctx (Some p) (s :: l) (n :: ns).

Lemma schema_walk_length ctx o l ns : schema_walk ctx o l ns → length ns = length l.
Proof. induction 1; simpl; congruence. Qed.

Lemma findChild_Some n a l c :
  findChild n a l = Some c →
  c ∈ l ∧ node_name c = UriTypes.identifier a ∧ module_name c = default (module_name n) (prefix a).
Proof.
  induction l as [|d l IH]; simpl; [done|]. destruct (_ && _) eqn:E.
  - intros; simplify_eq. apply andb_true_iff in E as [E1%bool_decide_eq_true E2]. split; [left|].
    split; [done|]. destruct (prefix a); simpl; apply bool_decide_eq_true in E2; congruence.
  - intros (? & ? & ?)%IH. split; [by right|done].
Qed.

Lemma segmentPredicate_keys n ks p : segmentPredicate n ks = Ok p → keys_fit n ks.
Proof.
  unfold segmentPredicate, keys_fit. case_decide as HL; [|case_decide as HLL].
  - rewrite HL. intros H. inv_result. repeat match goal with
      | H : negb _ = false |- _ => apply negb_false_iff, bool_decide_eq_true in H
      | H : bool_decide _ = false |- _ => apply bool_decide_eq_false in H end.
    split; [|done]. by intros Hk; rewrite Hk in *.
  - rewrite HLL. by destruct ks as [|k [|]].
  - intros H. inv_result.
    match goal with H : negb _ = false |- _ => apply negb_false_iff, bool_decide_eq_true in H end.
    apply length_zero_iff_nil in H0 as ->. by destruct (nodeType n).
Qed.

Context {HL : LibyangLaws L}.

Lemma listKeyPredicate_length leafs vs p :
  listKeyPredicate leafs vs = Ok p → length leafs ≤ String.length p.
Proof.
  revert vs p. induction leafs as [|leaf leafs IH]; intros [|v vs] p; simpl; intros H; try done; [lia..|].
  inv_result. match goal with H : listKeyPredicate _ _ = Ok _ |- _ => apply IH in H end.
  rewrite !str_length_app. simpl. lia.
Qed.

(** The predicate of a segment reads back as the keys of the node with the values of the URI. *)
Lemma segmentPredicate_reads_back n ks p r :
  segmentPredicate n ks = Ok p → pred_end r = true →
  readPredicates (S (String.length (p +:+ r))) (p +:+ r) = (predicates n ks, r) ∧
  (p = "" ∨ head_is (is_char "[") p = true).
Proof.
  intros Hp Hr. pose proof (segmentPredicate_keys _ _ _ Hp) as Hk. revert Hp Hk.
  unfold segmentPredicate, keys_fit, predicates, catch_as. case_decide as HL'; [|case_decide as HLL].
  - rewrite HL'. intros H [Hne Hlen]. inv_result.
    apply try_catch_Ok_inv in H as [H|(e & _ & H)]; [|by destruct (escapeError e)]. split.
    + apply readPredicates_list; [done| |done]. apply listKeyPredicate_length in H.
      rewrite str_length_app. lia.
    + right. destruct (list_keys n), ks; try done. simpl in H. by inv_result.
  - rewrite HLL. destruct ks as [|k [|]]; try done. intros H _.
    apply try_catch_Ok_inv in H as [H|(e & _ & H)]; [|by destruct (escapeError e)]. inv_result.
    split; [|by right].
    replace (("[.=" +:+ x +:+ "]") +:+ r) with ("[" +:+ "." +:+ "=" +:+ x +:+ "]" +:+ r)
      by (by rewrite !str_app_assoc).
    cbn [readPredicates]. rewrite (readPredicate_app _ k) by done.
    rewrite (str_length_app "["). cbn [String.length Nat.add readPredicates].
    by rewrite readPredicate_end.
  - intros H _. inv_result. rewrite str_app_nil_l. cbn [readPredicates].
    rewrite readPredicate_end by done. split; [|by left]. by destruct (nodeType n).
Qed.

(** The steps of the path the walk denotes. *)
Definition step (n : SchemaNode) (s : PathSegment) : string * list (string * string) :=
  (maybeQualified n, predicates n (keys s)).

Lemma maybeQualified_chars n : str_forall path_name_char (maybeQualified n) = true.
Proof.
  assert (∀ i, is_identifier i = true → str_forall path_name_char i = true) as Hi.
  { intros i Hi%identifier_chars. eapply str_forall_impl; [|done]. intros c Hc. unfold path_name_char. by rewrite Hc. }
  pose proof (Hi _ (node_name_identifier n)). pose proof (Hi _ (module_name_identifier n)).
  assert (str_forall path_name_char (module_name n +:+ ":" +:+ node_name n) = true).
  { rewrite !str_forall_app. by rewrite H, H0. }
  unfold maybeQualified. destruct (parent n); [case_decide|]; done.
Qed.

Definition step_end (r : string) : bool := match r with "" => true | String c _ => is_char "/" c end.

Lemma readStep_app n ks p r :
  segmentPredicate n ks = Ok p → step_end r = true →
  readStep ("/" +:+ maybeQualified n +:+ p +:+ r) = Some ((maybeQualified n, predicates n ks), r).
Proof.
  intros Hp Hr. unfold readStep. rewrite str_app_cons, str_app_nil_l.
  change (is_char "/" "/") with true. cbv iota.
  assert (pred_end r = true) as Hpe.
  { destruct r as [|c r]; [done|]. simpl in Hr. apply is_char_true in Hr as <-. done. }
  destruct (segmentPredicate_reads_back n ks p r Hp Hpe) as [Hread Hhead].
  rewrite span_app; [by rewrite Hread|apply maybeQualified_chars|].
  destruct p as [|c p].
  - rewrite str_app_nil_l. destruct r as [|c r]; [done|]. simpl in Hr. by apply is_char_true in Hr as <-.
  - destruct Hhead as [?|Hc]; [done|]. simpl in Hc. by apply is_char_true in Hc as <-.
Qed.

Lemma nextNode_root ctx a n : nextNode ctx None a = Ok n → findPath ctx ("/" +:+ api_name a) = Ok n.
Proof. unfold nextNode, catch_as. intros [H|(e & _ & H)]%try_catch_Ok_inv; [done|]. by destruct e. Qed.
Lemma nextNode_child ctx p a n : nextNode ctx (Some p) a = Ok n → child_matches p n a.
Proof.
  unfold nextNode. destruct (findChildSchemaNode p a) eqn:E; intros; simplify_eq. by apply findChild_Some in E.
Qed.

Lemma asLibyangPath_go_Ok ctx o res segs out n :
  asLibyangPath_go ctx o res segs = Ok (out, n) →
  ∃ sfx ns, out = res +:+ sfx ∧ schema_walk ctx o segs ns ∧
    n = match last ns with Some m => Some m | None => o end ∧
    step_end sfx = true ∧ readPath (length segs) sfx = Some (zip_with step ns segs).
Proof.
  revert o res. induction segs as [|s segs IH]; intros o res; cbn [asLibyangPath_go]; intros H.
  - simplify_eq. exists "", []. rewrite str_app_nil_r. split_and!; [done|constructor|done..].
  - apply bind_Ok_inv in H as (m & Hm & H). apply bind_Ok_inv in H as (p & Hp & H).
    apply bind_Ok_inv in H as (u & Hu%throw_if_Ok_inv & H).
    apply IH in H as (sfx & ns & -> & Hw & -> & Hend & Hread).
    exists ("/" +:+ maybeQualified m +:+ p +:+ sfx), (m :: ns). split_and!.
    + by rewrite !str_app_assoc.
    + apply segmentPredicate_keys in Hp.
      assert (segs ≠ [] → nodeType m ≠ RPC ∧ nodeType m ≠ Action) as Hrpc.
      { intros Hne. rewrite bool_decide_eq_false_2 in Hu by done. simpl in Hu.
        apply orb_false_iff in Hu as [?%bool_decide_eq_false ?%bool_decide_eq_false]. done. }
      destruct o as [q|]; [apply nextNode_child in Hm|apply nextNode_root in Hm]; by constructor.
    + destruct ns as [|m' ns]; [done|]. rewrite last_cons_cons. by destruct (last (m' :: ns)) eqn:E; [|apply last_None in E].
    + done.
    + pose proof (readStep_app m (keys s) p sfx Hp Hend) as Hs. cbn [length].
      change ("/" +:+ maybeQualified m +:+ p +:+ sfx) with (String "/" ("" +:+ maybeQualified m +:+ p +:+ sfx)) in *.
      cbn [readPath]. rewrite Hs, Hread. done.
Qed.

(** *** Errors *)

Lemma only_responses_predicate n ks : only_responses (segmentPredicate n ks).
Proof.
  unfold segmentPredicate. case_decide; [|case_decide].
  - apply only_responses_bind; [auto with responses|]. intros _ _.
    apply only_responses_bind; [auto with responses|]. intros u Hl.
    apply throw_if_Ok_inv, negb_false_iff, bool_decide_eq_true in Hl.
    apply only_responses_catch. intros e He. apply listKeyPredicate_Throw in He as [w ->]; [|done].
    left. simpl. eauto.
  - destruct ks as [|k [|]]; [done| |done]. apply only_responses_catch. intros e He.
    apply bind_Throw_inv in He as [He|(? & _ & ?)]; [|done]. apply escapeListKey_Throw in He as [w ->].
    left. simpl. eauto.
  - apply only_responses_bind; [auto with responses|done].
Qed.
Lemma only_responses_nextNode ctx o a : only_responses (nextNode ctx o a).
Proof.
  unfold nextNode. destruct o as [p|]; [by destruct (findChildSchemaNode p a)|].
  apply only_responses_catch. intros e (c & w & ->)%findPath_throws. left. eauto.
Qed.
Lemma only_responses_asLibyangPath ctx o res segs : only_responses (asLibyangPath_go ctx o res segs).
Proof.
  revert o res. induction segs as [|s segs IH]; intros o res; cbn [asLibyangPath_go]; [done|].
  apply only_responses_bind; [apply only_responses_nextNode|]. intros m _.
  apply only_responses_bind; [apply only_responses_predicate|]. intros p _.
  apply only_responses_bind; [auto with responses|]. intros _ _. apply IH.
Qed.
Lemma only_responses_checkData n pfx : only_responses (checkValidDataResource n pfx).
Proof.
  unfold checkValidDataResource. apply only_responses_bind; [auto with responses|]. intros _ _.
  by destruct (nodeType n).
Qed.
Lemma only_responses_validateMethod m pfx o : only_responses (validateMethodForNode m pfx o).
Proof.
  unfold validateMethodForNode. case_decide; [done|]. destruct o as [n|].
  - case_decide; [|apply only_responses_checkData].
    destruct (nodeType n); auto using only_responses_checkData with responses.
  - destruct (resourceType pfx); auto with responses.
Qed.
End walk.

(** C38: the query parameters of a request pass the check exactly when they obey the rules of RFC
    8040: no parameter twice, [depth], [with-defaults], [content] and [fields] only to read,
    [insert] and [point] only with POST and PUT, none of the stream parameters, and [point]
    exactly together with [insert=before] or [insert=after]; otherwise an [ErrorResponse]. *)
Theorem validateQueryParameters_spec (params : QueryParams) (m : string) :
  (validateQueryParameters params m = Ok tt ↔ valid_params params m) ∧
  only_responses (validateQueryParameters params m).
Proof. split; [apply validateQueryParameters_Ok|apply only_responses_validateQuery]. Qed.

(** C1: no path injection.  When a URI is translated into a libyang path, the segments of the
    URI name a chain of schema nodes (each a child of the one before, in the module the
    segment names or inherits, with as many keys as the list has, nothing below an RPC or
    action), the returned schema node is the last of them, and reading the path gives
    back exactly these nodes with exactly the key values of the URI, whatever characters
    the values are made of. *)
Theorem asLibyangPath_reads_back {L : Libyang} {HL : LibyangLaws L} (ctx : Context)
    (segs : list PathSegment) (path : string) (node : option SchemaNode) :
  asLibyangPath ctx segs = Ok (path, node) →
  ∃ ns, schema_walk ctx None segs ns ∧ node = last ns ∧
    readPath (length segs) path = Some (zip_with step ns segs).
Proof.
  intros (sfx & ns & -> & Hw & -> & _ & Hr)%asLibyangPath_go_Ok.
  exists ns. rewrite str_app_nil_l. split_and!; [done|by destruct (last ns)|done].
Qed.

(** A key that tries to close the predicate and to select another node. *)
Definition hostile_segments : list PathSegment :=
  [mkSeg (api2 "example" "top") []; mkSeg (api1 "lst") ["x']/id['"; "7"]; mkSeg (api1 "id") []].

Lemma asLibyangPath_reads_back_witness :
  ∃ ns, schema_walk (L := Example.ly_ref) tt None hostile_segments ns ∧
    Some Example.LstId = last ns ∧
    readPath 3 ("/example:top/lst[name=" +:+ dquote +:+ "x']/id['" +:+ dquote +:+ "][id='7']/id") =
    Some (zip_with (step (L := Example.ly_ref)) ns hostile_segments).
Proof.
  apply (asLibyangPath_reads_back (L := Example.ly_ref) (HL := Example.ly_ref_laws) tt hostile_segments).
  reflexivity.
Defined.

(** ** The type of a request *)

Section dispatch.
Context {X : X3} {HX : X3Laws X} {L : Libyang} {HL : LibyangLaws L}.

Definition known_methods : list string := ["GET"; "PUT"; "POST"; "DELETE"; "HEAD"; "OPTIONS"; "PATCH"].
Lemma method_known m :
  negb (bool_decide (m = "GET")) && negb (bool_decide (m = "PUT")) && negb (bool_decide (m = "POST")) &&
  negb (bool_decide (m = "DELETE")) && negb (bool_decide (m = "HEAD")) && negb (bool_decide (m = "OPTIONS")) &&
  negb (bool_decide (m = "PATCH")) = false ↔ m ∈ known_methods.
Proof.
  unfold known_methods. rewrite !andb_false_iff, !negb_false_iff, !bool_decide_eq_true.
  rewrite !elem_of_cons, elem_of_nil. tauto.
Qed.

Definition data_node (n : SchemaNode) : bool :=
  match nodeType n with RPC | Action | OtherNodeType => false | _ => true end.
Definition data_resource (p : URIPrefix) : bool :=
  match resourceType p with BasicRestconfData | NMDADatastore => true | _ => false end.
(** An RPC below [/operations], or an action below [/data] or the operational datastore. *)
Definition executable (p : URIPrefix) (n : SchemaNode) : Prop :=
  (nodeType n = RPC ∧ resourceType p = BasicRestconfOperations) ∨
  (nodeType n = Action ∧
   (resourceType p = BasicRestconfData ∨
    resourceType p = NMDADatastore ∧ uri_datastore p = Some (api2 "ietf-datastores" "operational"))).

Lemma checkValidDataResource_Ok n p :
  checkValidDataResource n p = Ok tt ↔ data_resource p = true ∧ data_node n = true.
Proof.
  unfold checkValidDataResource, data_resource, data_node.
  destruct (resourceType p), (nodeType n); simpl; split; try done; naive_solver.
Qed.
Lemma validateMethod_None m p :
  m ≠ "OPTIONS" →
  validateMethodForNode m p None = Ok tt ↔
  if data_resource p then m ≠ "DELETE" else m = "GET" ∨ m = "HEAD".
Proof.
  intros Hm. unfold validateMethodForNode, data_resource. rewrite decide_False by done.
  destruct (resourceType p); repeat case_bool_decide; simpl; naive_solver.
Qed.
Lemma validateMethod_Some m p n :
  m ≠ "OPTIONS" →
  validateMethodForNode m p (Some n) = Ok tt ↔
  (m = "POST" ∧ executable p n) ∨ (data_resource p = true ∧ data_node n = true).
Proof.
  intros Hm. unfold validateMethodForNode, executable. rewrite decide_False by done.
  case_decide as HP; [subst|].
  - destruct (nodeType n) eqn:Hn; rewrite ?checkValidDataResource_Ok.
    1-6,9: split; [by right|]; intros [[_ [[? _]|[? _]]]|?]; [done..|by split; try tauto].
    + unfold data_node. rewrite Hn. case_bool_decide; simpl; naive_solver.
    + unfold data_node. rewrite Hn. repeat case_bool_decide; simpl; naive_solver.
  - rewrite checkValidDataResource_Ok. naive_solver.
Qed.

(** What each type of request stands for: the method, the resource and the node it is about. *)
Definition request_fits (m : string) (p : URIPrefix) (node : option SchemaNode) (t : RequestType) : Prop :=
  let reading := m = "GET" ∨ m = "HEAD" in
  let on_data := data_resource p = true ∧ ∀ n, node = Some n → data_node n = true in
  match t with
  | OptionsQuery => m = "OPTIONS"
  | RestconfRootReq => reading ∧ resourceType p = RestconfRoot
  | YangLibraryVersionReq => reading ∧ resourceType p = YangLibraryVersion
  | ListRPC => reading ∧ resourceType p = BasicRestconfOperations ∧ node = None
  | GetData => reading ∧ on_data
  | CreateOrReplaceThisNode => m = "PUT" ∧ on_data
  | MergeData => m = "PATCH" ∧ on_data
  | CreateChildren => m = "POST" ∧ on_data
  | DeleteNode => m = "DELETE" ∧ on_data ∧ is_Some node
  | Execute => m = "POST" ∧ ∃ n, node = Some n ∧ executable p n ∧ isInternalRPCPath (node_path n) = false
  | ExecuteInternal => m = "POST" ∧ ∃ n, node = Some n ∧ executable p n ∧ isInternalRPCPath (node_path n) = true
  end.

Lemma newRestconfRequest_responses t d p q :
  match d with Some d => is_Some (prefix d) | None => True end → only_responses (newRestconfRequest t d p q).
Proof.
  intros Hd. unfold newRestconfRequest. apply only_responses_bind; [|done].
  destruct d as [d|]; [|done]. destruct Hd as [x Hx]. unfold datastoreFromApiIdentifier. rewrite Hx. simpl.
  apply only_responses_catch. intros e. unfold datastoreFromString.
  repeat case_decide; simpl; intros; simplify_eq. left. eauto.
Qed.
Lemma newRestconfRequest_type t d p q r : newRestconfRequest t d p q = Ok r → type r = t ∧ path r = p ∧ queryParams r = q.
Proof. unfold newRestconfRequest. intros H. by inv_result. Qed.
Lemma wf_path_datastore u :
  wf_path u = true → match uri_datastore (uri_prefix u) with Some d => is_Some (prefix d) | None => True end.
Proof.
  unfold wf_path. destruct (uri_datastore (uri_prefix u)); [|done].
  destruct (resourceType (uri_prefix u)); rewrite ?andb_true_iff, ?bool_decide_eq_true; try tauto;
    intros [_ ?]; try done.
Qed.

(** The chain of conditions ends in a request whose type fits. *)
Definition dispatches (m uriPath : string) (u : URIPath) (q : QueryParams) (lyPath : string)
    (node : option SchemaNode) : Prop :=
  ∃ t d p q', dispatchRequest m uriPath u q lyPath node = newRestconfRequest t d p q' ∧
    (d = None ∨ d = uri_datastore (uri_prefix u)) ∧ (q' = q ∨ q' = []) ∧ request_fits m (uri_prefix u) node t.

Ltac dispatch_eval := cbn -[newRestconfRequest isInternalRPCPath].
Ltac dispatch_to := eexists _, _, _, _; split; [reflexivity|]; split; [by auto|]; split; [by auto|].

Lemma dispatch_datastore m uriPath u q lyPath :
  m ∈ known_methods → m ≠ "OPTIONS" → data_resource (uri_prefix u) = true → m ≠ "DELETE" →
  dispatches m uriPath u q lyPath None.
Proof.
  intros Hm Ho Hd Hdel. assert (m = "GET" ∨ m = "PUT" ∨ m = "POST" ∨ m = "HEAD" ∨ m = "PATCH") as Hm' by set_solver.
  assert (∀ n, None = Some n → data_node n = true) as Hnone by done.
  unfold dispatches, dispatchRequest, request_fits. pose proof Hd as Hd'. revert Hd.
  unfold data_resource at 1. destruct (resourceType (uri_prefix u)) eqn:Hr; try done; intros _.
  all: destruct Hm' as [->|[->|[->|[->| ->]]]]; dispatch_eval; dispatch_to; cbn; auto.
Qed.
Lemma dispatch_special m uriPath u q lyPath :
  m = "GET" ∨ m = "HEAD" → data_resource (uri_prefix u) = false → dispatches m uriPath u q lyPath None.
Proof.
  intros Hm Hd. unfold dispatches, dispatchRequest, request_fits. unfold data_resource in Hd.
  destruct Hm as [->| ->], (resourceType (uri_prefix u)) eqn:Hr; try done;
    dispatch_eval; dispatch_to; cbn; auto.
Qed.
Lemma dispatch_execute uriPath u q lyPath n :
  executable (uri_prefix u) n → dispatches "POST" uriPath u q lyPath (Some n).
Proof.
  intros Hx. unfold dispatches, dispatchRequest, request_fits.
  assert (isRpcOrAction n = true) as Ha.
  { unfold isRpcOrAction. by destruct Hx as [[-> _]|[-> _]]. }
  assert (resourceType (uri_prefix u) ≠ RestconfRoot ∧ resourceType (uri_prefix u) ≠ YangLibraryVersion) as [Hr1 Hr2].
  { by destruct Hx as [[_ ->]|[_ [->|[-> _]]]]. }
  rewrite !(bool_decide_eq_false_2 (resourceType (uri_prefix u) = _)) by done.
  rewrite (bool_decide_eq_true_2 (is_Some (Some n))) by done.
  rewrite andb_false_r. dispatch_eval. rewrite Ha. dispatch_to.
  destruct (isInternalRPCPath (node_path n)) eqn:Hi; eauto.
Qed.
Lemma dispatch_data m uriPath u q lyPath n :
  m ∈ known_methods → m ≠ "OPTIONS" → data_resource (uri_prefix u) = true → data_node n = true →
  dispatches m uriPath u q lyPath (Some n).
Proof.
  intros Hm Ho Hd Hn.
  assert (m = "GET" ∨ m = "PUT" ∨ m = "POST" ∨ m = "DELETE" ∨ m = "HEAD" ∨ m = "PATCH") as Hm' by set_solver.
  assert (isRpcOrAction n = false) as Ha.
  { revert Hn. unfold data_node, isRpcOrAction. by destruct (nodeType n). }
  assert (∀ n', Some n = Some n' → data_node n' = true) as Hn' by (intros ? [= <-]; done).
  unfold dispatches, dispatchRequest, request_fits. pose proof Hd as Hd'. revert Hd.
  unfold data_resource at 1. destruct (resourceType (uri_prefix u)) eqn:Hr; try done; intros _.
  all: destruct Hm' as [->|[->|[->|[->|[->| ->]]]]]; dispatch_eval; rewrite ?Ha; dispatch_eval;
    dispatch_to; cbn; eauto.
Qed.

(** The chain is never exhausted. *)
Lemma dispatchRequest_spec m uriPath u q lyPath node :
  m ∈ known_methods → validateMethodForNode m (uri_prefix u) node = Ok tt →
  dispatches m uriPath u q lyPath node.
Proof.
  intros Hm Hv. destruct (decide (m = "OPTIONS")) as [->|Hopt].
  { unfold dispatches, dispatchRequest. dispatch_eval. dispatch_to. done. }
  destruct node as [n|].
  - apply validateMethod_Some in Hv as [[-> Hx]|[Hd Hn]]; [| |done].
    + by apply dispatch_execute.
    + by apply dispatch_data.
  - apply validateMethod_None in Hv; [|done]. destruct (data_resource (uri_prefix u)) eqn:Hd.
    + by apply dispatch_datastore.
    + by apply dispatch_special.
Qed.

Lemma asRestconfRequest_steps ctx m p q :
  m ∈ known_methods →
  asRestconfRequest ctx m p q =
  (uri ← parseUriPath p;
   queryParameters ← parseQueryParams q (u32 (N.of_nat (String.length p) + 1));
   _ ← validateQueryParameters queryParameters m;
   '(lyPath, schemaNode) ← asLibyangPath ctx (segments uri);
   _ ← validateMethodForNode m (uri_prefix uri) schemaNode;
   dispatchRequest m p uri queryParameters lyPath schemaNode).
Proof. intros Hm%method_known. unfold asRestconfRequest. by rewrite Hm. Qed.
Lemma asRestconfRequest_unknown ctx m p q :
  m ∉ known_methods → asRestconfRequest ctx m p q = Throw methodNotAllowed.
Proof.
  rewrite <- method_known, not_false_iff_true. intros Hm. unfold asRestconfRequest. by rewrite Hm.
Qed.

Lemma only_responses_parse {A} E (g : parser A) s off : forward g → only_responses (parse E s g off).
Proof.
  intros Hg. destruct (parse E s g off) as [|e] eqn:H; [done|].
  apply parse_Throw_inv in H as [[_ ->]|(? & ? & ? & _ & ->)]; done.
Qed.
Lemma asRestconfRequest_responses ctx m p q : only_responses (asRestconfRequest ctx m p q).
Proof.
  destruct (decide (m ∈ known_methods)) as [Hm|Hm]; [|by rewrite asRestconfRequest_unknown].
  rewrite asRestconfRequest_steps by done.
  apply only_responses_bind; [apply only_responses_parse, fwd_restconfGrammar|]. intros u Hu.
  apply only_responses_bind; [apply only_responses_parse, fwd_queryParamGrammar|]. intros ps _.
  apply only_responses_bind; [apply only_responses_validateQuery|]. intros _ _.
  apply only_responses_bind; [apply only_responses_asLibyangPath|]. intros [lyPath node] _.
  apply only_responses_bind; [apply only_responses_validateMethod|]. intros [] Hv.
  destruct (dispatchRequest_spec m p u ps lyPath node Hm Hv) as (t & d & x & q' & -> & Hd & _).
  apply newRestconfRequest_responses. destruct Hd as [->| ->]; [done|].
  apply wf_path_datastore. by eapply parse_ensures in Hu; [|apply ens_restconfGrammar].
Qed.
End dispatch.

(** C2: whatever the method, path and query string of an HTTP request, parsing it gives a
    request or an [ErrorResponse] and never any other exception: the [logic_error] for an unhandled
    combination is unreachable, and so are the dereferences of an empty optional and the
    reads past the end of the key values. *)
Theorem asRestconfRequest_total {X : X3} {HX : X3Laws X} {L : Libyang} {HL : LibyangLaws L} (ctx : Context)
    (httpMethod uriPath uriQueryString : string) :
  only_responses (asRestconfRequest ctx httpMethod uriPath uriQueryString).
Proof. apply asRestconfRequest_responses. Qed.

Lemma asRestconfRequest_total_witness :
  only_responses (asRestconfRequest (X := x3_ref) (L := Example.ly_ref) tt "PUT" "/restconf/data/example:top" "depth=x").
Proof.
  exact (asRestconfRequest_total (X := x3_ref) (HX := x3_ref_laws) (L := Example.ly_ref)
           (HL := Example.ly_ref_laws) tt "PUT" "/restconf/data/example:top" "depth=x").
Defined.

(** C3: the type of an accepted request fits its method, resource and node: only POST executes
    something, and then the node is an RPC below [operations] or an action below [data]
    or the operational datastore (handled internally exactly for the subscription RPCs);
    edits and reads apply only to data nodes of a data resource, DELETE only to an existing
    node path; and the query parameters obey the rules for the method. *)
Theorem asRestconfRequest_fits {X : X3} {HX : X3Laws X} {L : Libyang} {HL : LibyangLaws L} (ctx : Context)
    (m p q : string) (req : RestconfRequest) :
  asRestconfRequest ctx m p q = Ok req →
  ∃ u params lyPath node,
    parseUriPath p = Ok u ∧ asLibyangPath ctx (segments u) = Ok (lyPath, node) ∧
    parseQueryParams q (u32 (N.of_nat (String.length p) + 1)) = Ok params ∧
    valid_params params m ∧ request_fits m (uri_prefix u) node (type req).
Proof.
  destruct (decide (m ∈ known_methods)) as [Hm|Hm]; [|by rewrite asRestconfRequest_unknown].
  rewrite asRestconfRequest_steps by done. intros H.
  apply bind_Ok_inv in H as (u & Hu & H). apply bind_Ok_inv in H as (params & Hq & H).
  apply bind_Ok_inv in H as ([] & Hp & H). apply bind_Ok_inv in H as ([lyPath node] & Hl & H).
  apply bind_Ok_inv in H as ([] & Hv & H). exists u, params, lyPath, node.
  apply validateQueryParameters_Ok in Hp. split_and!; [done..|].
  destruct (dispatchRequest_spec m p u params lyPath node Hm Hv) as (t & d & x & q' & He & _ & _ & Hf).
  rewrite He in H. by apply newRestconfRequest_type in H as [-> _].
Qed.

Lemma asRestconfRequest_fits_witness :
  ∃ u params lyPath node,
    parseUriPath (X := x3_ref) "/restconf/data/example:top/act" = Ok u ∧
    asLibyangPath (L := Example.ly_ref) tt (segments u) = Ok (lyPath, node) ∧
    parseQueryParams (X := x3_ref) "" (u32 31) = Ok params ∧
    valid_params params "POST" ∧ request_fits (L := Example.ly_ref) "POST" (uri_prefix u) node Execute.
Proof.
  apply (asRestconfRequest_fits (X := x3_ref) (HX := x3_ref_laws) (L := Example.ly_ref) (HL := Example.ly_ref_laws)
           tt "POST" "/restconf/data/example:top/act" "" (mkRequest Execute None "/example:top/act" [])).
  vm_compute. reflexivity.
Defined.

(** ** Allowed methods *)

Section allowed.
Context {X : X3} {HX : X3Laws X} {L : Libyang} {HL : LibyangLaws L}.

Definition accepted (ctx : Context) (p m : string) : Prop := is_ok (asRestconfRequest ctx m p "") = true.
Definition tried_methods : list string := ["GET"; "PUT"; "POST"; "DELETE"; "HEAD"; "PATCH"].

Lemma validateQueryParameters_head ps :
  validateQueryParameters ps "HEAD" = validateQueryParameters ps "GET".
Proof.
  unfold validateQueryParameters. destruct (uniqueParams _ ps ∅) as [params|]; [|done].
  rewrite !bind_Ok. f_equal. simpl. by rewrite !andb_false_r.
Qed.
Lemma asRestconfRequest_head ctx p q : asRestconfRequest ctx "HEAD" p q = asRestconfRequest ctx "GET" p q.
Proof.
  rewrite !asRestconfRequest_steps by (unfold known_methods; set_solver).
  destruct (parseUriPath p) as [u|]; [|done]. simpl.
  destruct (parseQueryParams q _) as [ps|]; [|done]. simpl.
  rewrite validateQueryParameters_head.
  destruct (validateQueryParameters ps "GET") as [[]|]; [|done]. simpl.
  destruct (asLibyangPath ctx (segments u)) as [[lyPath node]|]; [|done]. simpl.
  assert (validateMethodForNode "HEAD" (uri_prefix u) node = validateMethodForNode "GET" (uri_prefix u) node) as ->
    by (by destruct node; [|destruct (resourceType (uri_prefix u)) eqn:E; unfold validateMethodForNode; simpl; rewrite ?E]).
  destruct (validateMethodForNode "GET" (uri_prefix u) node) as [[]|]; [|done]. simpl.
  reflexivity.
Qed.

Lemma allowedMethods_go_spec ctx p l acc :
  ∃ s, allowedMethods_go ctx p l acc = Ok s ∧ ∀ m, m ∈ s ↔ m ∈ acc ∨ (m ∈ l ∧ accepted ctx p m).
Proof.
  revert acc. induction l as [|x l IH]; intros acc; simpl; [exists acc; set_solver|].
  pose proof (asRestconfRequest_responses ctx x p "") as Hr. unfold accepted in *.
  destruct (asRestconfRequest ctx x p "") as [r|[]] eqn:E; try done; simpl.
  - destruct (IH ({[x]} ∪ acc)) as (s & -> & Hs). exists s. split; [done|]. intros m.
    rewrite Hs, elem_of_union, elem_of_singleton, elem_of_cons.
    destruct (decide (m = x)) as [->|]; [rewrite E|]; simpl; tauto.
  - destruct (IH acc) as (s & -> & Hs). exists s. split; [done|]. intros m.
    rewrite Hs, elem_of_cons.
    destruct (decide (m = x)) as [->|]; [rewrite E|]; simpl; intuition congruence.
Qed.
End allowed.

(** C39: computing the allowed methods of a URI always succeeds, and the result lists exactly the
    methods whose request would be accepted, HEAD exactly when GET, and OPTIONS exactly when there
    is any other. *)
Theorem allowedHttpMethodsForUri_spec {X : X3} {HX : X3Laws X} {L : Libyang} {HL : LibyangLaws L}
    (ctx : Context) (uriPath : string) :
  ∃ s, allowedHttpMethodsForUri ctx uriPath = Ok s ∧
    (∀ m, m ≠ "OPTIONS" → m ∈ s ↔ m ∈ tried_methods ∧ accepted ctx uriPath m) ∧
    ("GET" ∈ s ↔ "HEAD" ∈ s) ∧
    ("OPTIONS" ∈ s ↔ ∃ m, m ∈ tried_methods ∧ accepted ctx uriPath m).
Proof.
  unfold allowedHttpMethodsForUri. fold tried_methods.
  destruct (allowedMethods_go_spec ctx uriPath tried_methods ∅) as (s & -> & Hs). simpl.
  assert (∀ m, m ∈ s ↔ m ∈ tried_methods ∧ accepted ctx uriPath m) as Hs'.
  { intros m. rewrite Hs, elem_of_empty. tauto. }
  clear Hs. assert ("GET" ∈ s ↔ "HEAD" ∈ s) as Hget.
  { rewrite !Hs'. unfold accepted. rewrite asRestconfRequest_head. unfold tried_methods. set_solver. }
  assert ("OPTIONS" ∉ s) as Hopt by (rewrite Hs'; unfold tried_methods; set_solver).
  eexists; split; [done|]. case_decide as He.
  - subst. split_and!; [intros; apply Hs'|done|].
    split; [set_solver|]. intros (m & Hm & Ha). exfalso. apply (not_elem_of_empty (C := gset string) m), Hs'. done.
  - split_and!.
    + intros m Hm. rewrite <- Hs'. set_solver.
    + rewrite !elem_of_union, !elem_of_singleton. naive_solver.
    + split; [|set_solver]. intros _. apply set_choose_L in He as [m Hm]. exists m. by apply Hs'.
Qed.

Lemma allowedHttpMethodsForUri_spec_witness :
  ∃ s, allowedHttpMethodsForUri (X := x3_ref) (L := Example.ly_ref) tt "/restconf/data/example:top" = Ok s ∧
    (∀ m, m ≠ "OPTIONS" → m ∈ s ↔ m ∈ tried_methods ∧
       accepted (X := x3_ref) (L := Example.ly_ref) tt "/restconf/data/example:top" m) ∧
    ("GET" ∈ s ↔ "HEAD" ∈ s) ∧
    ("OPTIONS" ∈ s ↔ ∃ m, m ∈ tried_methods ∧
       accepted (X := x3_ref) (L := Example.ly_ref) tt "/restconf/data/example:top" m).
Proof.
  exact (allowedHttpMethodsForUri_spec (X := x3_ref) (HX := x3_ref_laws) (L := Example.ly_ref)
           (HL := Example.ly_ref_laws) tt "/restconf/data/example:top").
Defined.

(** ** Splitting a path at its last segment *)

Section split.
Context {X : X3} {HX : X3Laws X} {L : Libyang} {HL : LibyangLaws L}.

Lemma asLibyangPath_go_snoc ctx o res segs s out node :
  asLibyangPath_go ctx o res (segs ++ [s]) = Ok (out, node) →
  ∃ parent o' n p, asLibyangPath_go ctx o res segs = Ok (parent, o') ∧
    nextNode ctx o' (apiIdent s) = Ok n ∧ segmentPredicate n (keys s) = Ok p ∧
    out = parent +:+ "/" +:+ maybeQualified n +:+ p ∧ node = Some n.
Proof.
  revert o res. induction segs as [|x segs IH]; intros o res H.
  - cbn [app asLibyangPath_go] in H. inv_result. eexists _, _, _, _. split_and!; done.
  - cbn [app asLibyangPath_go] in *.
    apply bind_Ok_inv in H as (m & Hm & H). apply bind_Ok_inv in H as (p & Hp & H).
    apply bind_Ok_inv in H as (u & Hu%throw_if_Ok_inv & H).
    apply IH in H as (par & o' & n & p' & Hpar & ?). exists par, o', n, p'. split; [|done].
    rewrite Hm, bind_Ok, Hp, bind_Ok.
    assert (negb (bool_decide (segs = [])) && (bool_decide (nodeType m = RPC) || bool_decide (nodeType m = Action)) = false) as ->.
    { rewrite bool_decide_eq_false_2 in Hu by (by destruct segs). simpl in Hu. rewrite Hu. apply andb_false_r. }
    done.
Qed.

Lemma nextNode_module ctx o a n :
  wf_api a = true → is_Some (prefix a) → nextNode ctx o a = Ok n → prefix a = Some (module_name n).
Proof.
  intros Ha [m Hm] Hn. destruct o as [p|].
  - apply nextNode_child in Hn as (_ & _ & Hmod). rewrite Hm in Hmod |- *. by rewrite Hmod.
  - apply nextNode_root in Hn. unfold wf_api in Ha. rewrite Hm, andb_true_iff in Ha. unfold api_name in Hn.
    rewrite Hm in Hn |- *. destruct Ha as [Hi Hp]. apply findPath_root in Hn as [Hn _]; [by rewrite Hn|done..].
Qed.
Lemma wf_segs_last u l s : wf_path u = true → segments u = l ++ [s] → wf_api (apiIdent s) = true.
Proof.
  unfold wf_path, wf_segs. intros Hu Hs. rewrite !andb_true_iff, forallb_Forall_seg, Hs in Hu.
  destruct Hu as [[Hu _] _]. apply Forall_app in Hu as [_ Hu]. by apply Forall_cons in Hu as [? _].
Qed.
End split.

(** Splitting a URI for an edit: whenever the whole path is valid and ends at a schema node, the
    split succeeds, the parent path is the path of all segments but the last one, the path of
    the URI is the parent path extended by exactly one step, and the last segment comes back with the
    module of its schema node filled in and with its name and keys unchanged. *)
Theorem asLibyangPathSplit_spec {X : X3} {HX : X3Laws X} {L : Libyang} {HL : LibyangLaws L} (ctx : Context)
    (uriPath : string) (u : URIPath) (l : list PathSegment) (s : PathSegment) (path : string) (node : option SchemaNode) :
  parseUriPath uriPath = Ok u → segments u = l ++ [s] → asLibyangPath ctx (segments u) = Ok (path, node) →
  ∃ parent n p,
    node = Some n ∧
    asLibyangPathSplit ctx uriPath =
      Ok (parent, mkSeg (mkApi (Some (module_name n)) (UriTypes.identifier (apiIdent s))) (keys s)) ∧
    fst <$> asLibyangPath ctx l = Ok parent ∧
    path = parent +:+ "/" +:+ maybeQualified n +:+ p.
Proof.
  intros Hu Hs Hl. unfold asLibyangPathSplit. rewrite Hu, bind_Ok, Hl, Hs, last_snoc, removelast_last.
  rewrite Hs in Hl. unfold asLibyangPath in *.
  apply asLibyangPath_go_snoc in Hl as (par & o & n & p & Hpar & Hn & Hp & -> & ->).
  rewrite Hpar, bind_Ok. exists par, n, p. split_and!; [done| |done|done].
  assert (wf_api (apiIdent s) = true) as Hwf.
  { eapply wf_segs_last; [|done]. by eapply parse_ensures in Hu; [|apply ens_restconfGrammar]. }
  destruct s as [[pfx i] ks]. simpl. destruct pfx as [m|]; [|done].
  apply nextNode_module in Hn; [|done..]. simpl in Hn. by simplify_eq.
Qed.

Lemma asLibyangPathSplit_spec_witness :
  ∃ parent n p,
    Some Example.Tags = Some n ∧
    asLibyangPathSplit (X := x3_ref) (L := Example.ly_ref) tt "/restconf/data/example:top/tags=red" =
      Ok (parent, mkSeg (mkApi (Some (module_name (Libyang := Example.ly_ref) n)) "tags") ["red"]) ∧
    fst <$> asLibyangPath (L := Example.ly_ref) tt [mkSeg (api2 "example" "top") []] = Ok parent ∧
    "/example:top/tags[.='red']" = parent +:+ "/" +:+ maybeQualified (L := Example.ly_ref) n +:+ p.
Proof.
  apply (asLibyangPathSplit_spec (X := x3_ref) (HX := x3_ref_laws) (L := Example.ly_ref) (HL := Example.ly_ref_laws)
    tt "/restconf/data/example:top/tags=red"
    (mkPath default_prefix [mkSeg (api2 "example" "top") []; mkSeg (api1 "tags") ["red"]])
    [mkSeg (api2 "example" "top") []] (mkSeg (api1 "tags") ["red"])).
  - vm_compute. reflexivity.
  - reflexivity.
  - reflexivity.
Defined.

(** ** Fields *)

(** What a fields expression denotes: the paths it selects. *)
Fixpoint slash_path (e : Expr) : list string :=
  match e with
  | SlashExpr a None => [api_name a]
  | SlashExpr a (Some r) => api_name a :: slash_path r
  | _ => []
  end.
Fixpoint fields_paths (e : Expr) : list (list string) :=
  match e with
  | SemiExpr (ParenExpr l p) r =>
      match p with None => [slash_path l] | Some p => app (slash_path l) <$> fields_paths p end ++
      match r with None => [] | Some r => fields_paths r end
  | _ => []
  end.

Section fields_to_xpath.
Lemma collectPaths_slash e cur out b :
  wf_slash e = true →
  collectPaths e cur out b =
  (cur ++ slash_path e, if b then out ++ [join "/" (cur ++ slash_path e)] else out).
Proof.
  revert cur out. induction e as [a o IH| |]; intros cur out He; try done.
  destruct IH as [e IH|]; simpl in He |- *; [|done].
  apply andb_true_iff in He as [_ He]. rewrite (IH _ _ He), <- !app_assoc. done.
Qed.

Definition paren_paths (l : Expr) (p : option Expr) : list (list string) :=
  match p with None => [slash_path l] | Some p => app (slash_path l) <$> fields_paths p end.
Definition under (cur : list string) (ps : list (list string)) : list string :=
  (λ p, join "/" (cur ++ p)) <$> ps.
Lemma under_app cur k ps : under cur (app k <$> ps) = under (cur ++ k) ps.
Proof. unfold under. rewrite <- list_fmap_compose. apply list_fmap_ext. intros i p _. simpl. by rewrite app_assoc. Qed.

Lemma under_cat cur ps qs : under cur (ps ++ qs) = under cur ps ++ under cur qs.
Proof. apply fmap_app. Qed.

(** The collected paths do not depend on the flag, only the left operand of a parenthesis
    does; and the right operand of a semicolon starts from the same prefix. *)
Lemma collectPaths_fields e :
  (wf_fields e = true → ∀ cur out b, (collectPaths e cur out b).2 = out ++ under cur (fields_paths e)) ∧
  (∀ l p, e = ParenExpr l p → wf_slash l = true → from_option wf_fields true p = true →
     ∀ cur out b, (collectPaths e cur out b).2 = out ++ under cur (paren_paths l p)).
Proof.
  induction e as [a o IH|l IHl p IHp|l IHl r IHr]; (split; [|try done]); try done.
  - intros l' p' [= <- <-] Hl Hp cur out b. cbn [collectPaths]. rewrite collectPaths_slash by done.
    destruct IHp as [p IHp|]; simpl in *; [|done]. rewrite (proj1 IHp Hp). by rewrite under_app.
  - intros Hwf cur out b. destruct l as [|l p|]; try done. cbn [wf_fields] in Hwf. rewrite !andb_true_iff in Hwf.
    destruct Hwf as [[Hl Hp] Hr].
    change (collectPaths (SemiExpr (ParenExpr l p) r) cur out b) with
      (let '(cur', out') := collectPaths (ParenExpr l p) cur out (match r with None => true | Some _ => false end) in
       match r with
       | Some r => let '(_, out) := collectPaths r cur out' false in (cur', out)
       | None => (cur', out')
       end).
    pose proof (proj2 IHl l p eq_refl Hl ltac:(by destruct p) cur out (match r with None => true | Some _ => false end)) as H.
    destruct (collectPaths (ParenExpr l p) cur out _) as [cur' out']. simpl in H. subst out'.
    change (fields_paths (SemiExpr (ParenExpr l p) r)) with
      (paren_paths l p ++ match r with None => [] | Some r => fields_paths r end).
    rewrite under_cat.
    destruct IHr as [r IHr|]; [|done || by simpl; rewrite app_nil_r].
    pose proof (proj1 IHr Hr cur (out ++ under cur (paren_paths l p)) false) as H.
    destruct (collectPaths r cur _ false). simpl in *. subst. by rewrite app_assoc.
Qed.
End fields_to_xpath.

(** An expression whose paths cannot be resolved is refused with an [ErrorResponse]. *)
Lemma fieldsToXPath_responses {L : Libyang} {HL : LibyangLaws L} (ctx : Context) (pfx : string) (e : Expr) :
  only_responses (fieldsToXPath ctx pfx e).
Proof.
  unfold fieldsToXPath. destruct (collectPaths e [pfx] [] false) as [c out].
  apply only_responses_bind; [|done]. apply only_responses_for_each. intros p.
  apply only_responses_catch. intros x [Hx|(n & _ & Hx)]%bind_Throw_inv.
  - apply findPath_throws in Hx as (? & ? & ->). left. eauto.
  - pose proof (only_responses_validateMethod "GET" (mkPrefix BasicRestconfData None) (Some n)) as Hr.
    rewrite Hx in Hr. destruct x; try done. eauto.
Qed.

Lemma fieldsToXPath_join {L : Libyang} (ctx : Context) (pfx : string) (e : Expr) s :
  wf_fields e = true → fieldsToXPath ctx pfx e = Ok s → s = join " | " ((λ p, join "/" (pfx :: p)) <$> fields_paths e).
Proof.
  intros He Hs. unfold fieldsToXPath in Hs. pose proof (proj1 (collectPaths_fields e) He [pfx] [] false) as Hc.
  destruct (collectPaths e [pfx] [] false) as [c out]. simpl in Hc. subst out.
  apply bind_Ok_inv in Hs as ([] & _ & [= <-]). done.
Qed.

(** C40: a fields expression accepted by the grammar is translated into the union of exactly the
    paths it denotes, each below the given prefix: alternatives separated by semicolons are
    independent, a parenthesis distributes its path over everything inside; and every one of
    the paths has been found in the schema and is a data node, otherwise the request is refused
    with an [ErrorResponse]. *)
Theorem fieldsToXPath_spec {L : Libyang} {HL : LibyangLaws L} (ctx : Context) (pfx : string) (e : Expr) :
  wf_fields e = true →
  let paths := (λ p, join "/" (pfx :: p)) <$> fields_paths e in
  match fieldsToXPath ctx pfx e with
  | Ok s => s = join " | " paths ∧
            ∀ p, p ∈ paths → ∃ n, findPath ctx p = Ok n ∧ data_node n = true
  | Throw err => ∃ r, err = EResponse r
  end.
Proof.
  intros He paths. pose proof (fieldsToXPath_responses ctx pfx e) as Hr. unfold fieldsToXPath in *.
  pose proof (proj1 (collectPaths_fields e) He [pfx] [] false) as Hc.
  destruct (collectPaths e [pfx] [] false) as [c out]. simpl in Hc. subst out. fold paths.
  match goal with |- context [for_each ?f ?l] => destruct (for_each f l) as [[]|err] eqn:Hf end; simpl.
  - split; [done|]. apply for_each_Ok in Hf. intros p Hp. rewrite Forall_forall in Hf.
    specialize (Hf p Hp). unfold catch_as in Hf. apply try_catch_Ok_inv in Hf as [Hf|(x & _ & Hf)]; [|by destruct x].
    apply bind_Ok_inv in Hf as (n & Hn & Hv). exists n. split; [done|].
    apply validateMethod_Some in Hv as [[? _]|[_ ?]]; done.
  - destruct err; try done. eauto.
Qed.

(** [lst(name;id);aug:name] below the container *)
Lemma fieldsToXPath_spec_witness :
  let leaf a := SemiExpr (ParenExpr (SlashExpr (api1 a) None) None) in
  let e := SemiExpr (ParenExpr (SlashExpr (api1 "lst") None) (Some (leaf "name" (Some (leaf "id" None)))))
             (Some (SemiExpr (ParenExpr (SlashExpr (api2 "aug" "name") None) None) None)) in
  wf_fields e = true ∧
  "/example:top/lst/name | /example:top/lst/id | /example:top/aug:name" =
    join " | " ((λ p, join "/" ("/example:top" :: p)) <$> fields_paths e) ∧
  ∀ p, p ∈ ((λ p, join "/" ("/example:top" :: p)) <$> fields_paths e) →
    ∃ n, findPath (Libyang := Example.ly_ref) tt p = Ok n ∧ data_node (L := Example.ly_ref) n = true.
Proof.
  intros leaf e. split; [reflexivity|].
  exact (fieldsToXPath_spec (L := Example.ly_ref) (HL := Example.ly_ref_laws) tt "/example:top" e eq_refl).
Defined.

(** Joining a base URI with a relative target inserts exactly one slash between them, whichever of
    the two brings one along. *)
Theorem uriJoin_one_slash (a b : string) :
  ends_with_char "/" a = false → starts_with "/" b = false → a ≠ "" → b ≠ "" →
  uriJoin a b = a +:+ "/" +:+ b ∧
  uriJoin (a +:+ "/") b = a +:+ "/" +:+ b ∧
  uriJoin a ("/" +:+ b) = a +:+ "/" +:+ b ∧
  uriJoin (a +:+ "/") ("/" +:+ b) = a +:+ "/" +:+ b.
Proof.
  intros Ha Hb Hna Hnb. assert (∀ t, ends_with_char "/" (t +:+ "/") = true) as He.
  { intros t. apply bool_decide_eq_true. induction t as [|c t IH]; [done|]. rewrite str_app_cons.
    simpl. rewrite IH. by destruct (t +:+ "/") eqn:E; [destruct t|]. }
  assert (starts_with "/" ("/" +:+ b) = true) as Hs by (apply bool_decide_eq_true; eexists; reflexivity).
  assert (a +:+ "/" ≠ "") as Hne by (intros [? _]%str_app_eq_nil; done).
  unfold uriJoin. rewrite Ha, Hb, He, Hs, !(bool_decide_eq_false_2 (_ = "")) by done. simpl.
  split_and!; [done|by rewrite str_app_assoc|done|].
  by rewrite str_app_nil_l, Nat.sub_0_r, substring_all, str_app_assoc.
Qed.

Lemma uriJoin_one_slash_witness : uriJoin ("/restconf/data" +:+ "/") ("/" +:+ "ex:a") = "/restconf/data/ex:a".
Proof. apply (uriJoin_one_slash "/restconf/data" "ex:a"); reflexivity || discriminate. Defined.
