(* ===== verification/HttpUtils.v ===== *)
(** * HttpUtils: the header parsers of [http/utils.cpp]

    [Module Accept] holds the grammar of the [Accept] header and [parseAcceptHeader],
    [Module Forwarded] the one of the [Forwarded] header and [parseForwardedHeader]; then
    the header lookup and the URL prefix.  [header_map] is nghttp2's
    [std::multimap<std::string, header_value>]. *)

From S2P Require Import Prelude Exceptions X3 Double StableSort.

Open Scope x3_scope.

Section quoted.
Context {X : X3}.

(** A backslash quotes the next character; the two grammars declare the same rule. *)
Definition quotedString : parser string :=
  rule "quotedString"
    (lit_char dquote_char >>
     as_string (kleene ((lit_char "\" >> char_ any_char) <|>
                        char_ (λ c, negb (is_char dquote_char c)))) <<<
     lit_char dquote_char).

(** [*x3::space] *)
Definition spaces : parser string := as_string (kleene (char_ is_space)).
End quoted.

Record Mime := mkMime { mediaType : string; mediaSubtype : string }.
Record MediaType := mkMediaType { mime : Mime; parameters : list (string * string) }.

#[export] Instance Mime_eq_dec : EqDecision Mime.
Proof. solve_decision. Defined.
#[export] Instance MediaType_eq_dec : EqDecision MediaType.
Proof. solve_decision. Defined.

(** [std::stod] as a function that may throw *)
Definition stod_M (s : string) : M spec_float :=
  match stod s with
  | StodOk d => Ok d
  | StodOutOfRange => Throw (EOutOfRange "stod")
  | StodInvalid => Throw (EInvalidArgument "stod")
  end.

Definition is_q (kv : string * string) : bool := bool_decide (kv.1 = "q").

Definition qValue (e : MediaType) : M spec_float :=
  match List.find is_q (parameters e) with
  | Some kv => stod_M kv.2
  | None => Ok (S754_finite false 4503599627370496 (-52))  (** 1.0 *)
  end.

Module Accept.
Section grammar.
Context {X : X3}.

Definition identifier : parser string :=
  rule "identifier"
    (seq_str (char_str alpha) (as_string (kleene (alnum <|> char_lit "-" <|> char_lit ".")))).
Definition decimal : parser string :=
  rule "decimal"
    (seq_str (seq_str (opt_str (char_str (char_lit "-"))) (as_string (plus_ digit)))
       (opt_str (seq_str (char_str (char_lit ".")) (as_string (kleene digit))))).

Definition param : parser (string * string) :=
  rule "param"
    (((str_ "q" <|> str_ "Q") <<< lit_str "=" >>* decimal) <|>
     (diff identifier (cast (λ _, tt) (char_lit "q") <|> lit_str "Q") <<< lit_str "=" >>*
      (quotedString <|> identifier))).
Definition parametersRule : parser (list (string * string)) :=
  rule "parameters" (kleene (spaces >> lit_str ";" >> spaces >> param)).

Definition mimeWildcard : parser string := rule "mimeWildcard" (str_ "*").
Definition mimeSubtype : parser string :=
  rule "mimeSubtype"
    (seq_str identifier (opt_str (seq_str (char_str (char_lit "+")) identifier)) <|> mimeWildcard).
Definition mimeType : parser string := rule "mimeType" identifier.
Definition mimeRule : parser Mime :=
  rule "mime"
    (cast (λ '(t, s), mkMime t s)
       ((mimeWildcard <<< lit_str "/" >>* mimeWildcard) <|>
        (mimeType <<< lit_str "/" >>* (mimeSubtype <|> mimeWildcard)))).

Definition oneItem : parser MediaType :=
  rule "oneItem" (cast (λ '(m, p), mkMediaType m p) (mimeRule >>* parametersRule)).
Definition acceptGrammar : parser (list MediaType) :=
  rule "acceptGrammar" (spaces >> list_ oneItem (spaces >> lit_str "," >> spaces)).
End grammar.
End Accept.

Definition lower (s : string) : string := str_map to_lower s.

(** The body of the loop that makes names case insensitive, for one media type. *)
Definition lowerNames (e : MediaType) : MediaType :=
  mkMediaType (mkMime (lower (mediaType (mime e))) (lower (mediaSubtype (mime e))))
    ((λ kv, (lower kv.1, kv.2)) <$> parameters e).

(** What the loop does with the [q] parameters of a media type: [false] when one is out of
    range, which makes [parseAcceptHeader] return an empty vector. *)
Fixpoint checkQualities (ps : list (string * string)) : M bool :=
  match ps with
  | [] => Ok true
  | kv :: ps =>
      if is_q kv then
        match stod_M kv.2 with
        | Ok _ => checkQualities ps
        | Throw (EOutOfRange _) => Ok false
        | Throw e => Throw e
        end
      else checkQualities ps
  end.
Fixpoint lowerAll (l : list MediaType) : M (option (list MediaType)) :=
  match l with
  | [] => Ok (Some [])
  | e :: l =>
      let e := lowerNames e in
      ok ← checkQualities (parameters e);
      if ok : bool then (r ← lowerAll l; Ok (option_map (cons e) r)) else Ok None
  end.

(** The comparator of the sort, on media types with their quality *)
Definition better (x y : spec_float * MediaType) : bool :=
  let '(qa, a) := x in let '(qb, b) := y in
  if negb (SFeqb qa qb) then SFltb qb qa
  else if bool_decide (mediaType (mime a) = "*") then false
  else if bool_decide (mediaType (mime b) = "*") then true
  else if bool_decide (mediaSubtype (mime a) = "*") then false
  else if bool_decide (mediaSubtype (mime b) = "*") then true
  else false.

(** [std::remove_if] evaluates the quality of every element; it does not change later. *)
Fixpoint withQuality (l : list MediaType) : M (list (spec_float * MediaType)) :=
  match l with
  | [] => Ok []
  | e :: l => q ← qValue e; r ← withQuality l; Ok ((q, e) :: r)
  end.
Definition nonzero (x : spec_float * MediaType) : bool := negb (SFeqb x.1 (S754_zero false)).
Definition mimeText (e : MediaType) : string :=
  mediaType (mime e) +:+ "/" +:+ mediaSubtype (mime e).

Section accept.
Context {X : X3}.

(** [x3::parse(iter, end, acceptGrammar >> x3::omit[*x3::space] >> x3::eoi, mediaTypes)] *)
Definition parseMediaTypes (headerValue : string) : option (list MediaType) :=
  match run (Accept.acceptGrammar <<< spaces <<< eoi) headerValue with
  | PMatch l _ => Some l
  | _ => None
  end.

Definition parseAcceptHeader (headerValue : string) : M (list string) :=
  match parseMediaTypes headerValue with
  | None => Ok []
  | Some mediaTypes =>
      lowered ← lowerAll mediaTypes;
      match lowered with
      | None => Ok []
      | Some mediaTypes =>
          l ← withQuality mediaTypes;
          let kept := filter (λ x, nonzero x = true) l in
          Ok ((λ x, mimeText x.2) <$> stable_sort better kept)
      end
  end.
End accept.

Record ProtoAndHost := mkProtoAndHost { proto : option string; host : option string }.

Module Forwarded.
Section grammar.
Context {X : X3}.

Definition token : parser string :=
  rule "token"
    (as_string (plus_ (alnum <|> char_lit "-" <|> char_lit "." <|> char_lit "[" <|>
                       char_lit "]" <|> char_lit ":"))).
Definition value : parser string := rule "value" (token <|> quotedString).
Definition forwardedPair : parser (string * string) :=
  rule "forwardedPair" (token <<< lit_char "=" >>* value).
(** The pairs go into a [std::map], whose [insert] keeps a key it already has. *)
Definition map_insert (m : gmap string string) (kv : string * string) : gmap string string :=
  match m !! kv.1 with Some _ => m | None => <[kv.1 := kv.2]> m end.
Definition forwarded : parser (gmap string string) :=
  rule "forwarded" (cast (foldl map_insert ∅) (list_ forwardedPair (lit_str ";"))).
Definition forwardedList : parser (list (gmap string string)) :=
  rule "forwardedList" (list_ forwarded (spaces >> lit_char "," >> spaces)).
End grammar.
End Forwarded.

Section forwarded.
Context {X : X3}.

Definition parseForwardedHeader (headerValue : string) : ProtoAndHost :=
  match run (Forwarded.forwardedList <<< eoi) headerValue with
  | PMatch (front :: _) _ => mkProtoAndHost (front !! "proto") (front !! "host")
  | _ => mkProtoAndHost None None
  end.

Definition header_map : Type := list (string * string).

(** [headers.find(header)]: the first entry of that name *)
Definition getHeaderValue (headers : header_map) (header : string) : option string :=
  snd <$> List.find (λ kv, bool_decide (kv.1 = header)) headers.

Definition parseUrlPrefix (headers : header_map) : option string :=
  forward ← getHeaderValue headers "forward";
  let r := parseForwardedHeader forward in
  match proto r, host r with
  | Some proto, Some host => Some (proto +:+ "://" +:+ host)
  | _, _ => None
  end.

(** [remote] is the text of the peer's address. *)
Definition peer_from_request (remote : string) (headers : header_map) : string :=
  match getHeaderValue headers "forwarded" with
  | Some forwarded => remote +:+ "(" +:+ forwarded +:+ ")"
  | None => remote
  end.
End forwarded.

Example accept_example :
  @parseAcceptHeader x3_ref "text/*;q=0.5, */*;q=0.5,application/yang-data+XML ; q=0.9 ,a/b;q=0, x/y"
  = Ok ["x/y"; "application/yang-data+xml"; "text/*"; "*/*"].
Proof. vm_compute. reflexivity. Qed.
