(* ===== verification/HttpUtilsFacts.v ===== *)
(** * HttpUtilsFacts: what the header parsers accept and return *)

From S2P Require Import Prelude Exceptions X3 Double StableSort HttpUtils.

Open Scope x3_scope.

(** ** Lexical elements *)

Definition idc (c : ascii) : bool := is_alnum c || is_char "-" c || is_char "." c.
Definition is_ident (s : string) : bool :=
  match s with "" => false | String c s => is_alpha c && str_forall idc s end.
#[global] Arguments idc : simpl never.

(** An optional sign, digits, and optionally a point with decimals. *)
Definition is_unsigned (s : string) : bool :=
  let '(int, r) := span is_digit s in
  negb (bool_decide (int = "")) &&
  match r with "" => true | String c r => is_char "." c && str_forall is_digit r end.
Definition is_decimal (s : string) : bool :=
  match s with
  | String c r => if is_char "-" c then is_unsigned r else is_unsigned s
  | "" => false
  end.

Section lexical.
Context {X : X3} {HX : X3Laws X}.

Lemma run_idc s : run (alnum <|> char_lit "-" <|> char_lit ".") s = run (char_ idc) s.
Proof.
  unfold alnum, char_lit. rewrite !run_alt, !run_char. destruct s as [|c s]; [done|].
  unfold idc. by destruct (is_alnum c), (is_char "-" c), (is_char "." c).
Qed.
Lemma run_idcs s :
  run (as_string (kleene (alnum <|> char_lit "-" <|> char_lit "."))) s =
  let '(a, r) := span idc s in PMatch a r.
Proof.
  rewrite <- run_chars. unfold as_string. rewrite !run_cast. f_equal.
  apply run_kleene_ext; [|apply run_idc].
  eapply consuming_ext; [apply consuming_char|apply run_idc].
Qed.
Lemma run_ident s :
  run Accept.identifier s =
  match s with
  | "" => PFail
  | String c s =>
      if is_alpha c then let '(a, r) := span idc s in PMatch (String c a) r else PFail
  end.
Proof.
  unfold Accept.identifier, alpha. rewrite run_rule, run_seq_str. unfold char_str.
  rewrite run_cast, run_char. destruct s as [|c s]; simpl; [done|].
  destruct (is_alpha c); simpl; [|done]. rewrite run_idcs. by destruct (span idc s).
Qed.
Lemma run_ident_app i r :
  is_ident i = true → head_is idc r = false → run Accept.identifier (i +:+ r) = PMatch i r.
Proof.
  destruct i as [|c i]; simpl; [done|]. intros [Hc Hi]%andb_true_iff Hr.
  by rewrite str_app_cons, run_ident, Hc, span_app.
Qed.
Lemma ens_ident : ensures Accept.identifier (λ i, is_ident i = true).
Proof.
  intros [|c s] a r; rewrite run_ident; [done|]. destruct (is_alpha c) eqn:Hc; [|done].
  destruct (span idc s) as [a' r'] eqn:Hs. intros; simplify_eq/=.
  apply span_spec in Hs as (_ & -> & _). by rewrite Hc.
Qed.
Lemma fwd_ident : forward Accept.identifier.
Proof.
  intros [|c s]; rewrite run_ident; [done|]. destruct (is_alpha c); [|done].
  destruct (span idc s) as [a r] eqn:Hs. apply span_spec in Hs as (-> & _).
  by exists (String c a).
Qed.

(** The digits after the sign, then the optional decimals. *)
Lemma run_digits1 s :
  run (as_string (plus_ digit)) s =
  let '(a, r) := span is_digit s in if bool_decide (a = "") then PFail else PMatch a r.
Proof.
  unfold as_string, digit. rewrite run_cast, run_plus, run_seq, run_char.
  destruct s as [|c s]; simpl; [done|]. destruct (is_digit c); simpl; [|done].
  pose proof (run_chars is_digit s) as H. unfold as_string in H. rewrite run_cast in H.
  destruct (span is_digit s) as [a r].
  destruct (run (kleene (char_ is_digit)) s); simplify_eq/=. done.
Qed.
Definition fraction : parser string :=
  opt_str (seq_str (char_str (char_lit ".")) (as_string (kleene digit))).
Lemma run_decimals s :
  run fraction s =
  match s with
  | "" => PMatch "" ""
  | String c r =>
      if is_char "." c then let '(a, r) := span is_digit r in PMatch (String c a) r
      else PMatch "" s
  end.
Proof.
  unfold fraction, opt_str, char_str, char_lit, digit.
  rewrite run_cast, run_opt, run_seq_str, run_cast, run_char.
  destruct s as [|c s]; simpl; [done|]. destruct (is_char "." c) eqn:Hc; simpl; [|done].
  rewrite run_chars. destruct (span is_digit s). done.
Qed.
Definition unsigned : parser string := seq_str (as_string (plus_ digit)) fraction.
Lemma run_decimal s :
  run Accept.decimal s =
  match s with
  | String c r =>
      if is_char "-" c then pmap (String c) (run unsigned r) else run unsigned s
  | "" => PFail
  end.
Proof.
  unfold Accept.decimal. fold fraction. rewrite run_rule, !run_seq_str.
  unfold opt_str, char_str, char_lit. rewrite run_cast, run_opt, run_cast, run_char.
  destruct s as [|c s]; simpl; [by rewrite run_digits1|].
  unfold unsigned. destruct (is_char "-" c) eqn:Hc; simpl; rewrite run_seq_str.
  - destruct (run (as_string (plus_ digit)) s); simpl; [|done..].
    by destruct (run fraction rest).
  - destruct (run (as_string (plus_ digit)) (String c s)); simpl; [|done..].
    by destruct (run fraction rest).
Qed.
Lemma ens_unsigned : ensures unsigned (λ d, is_unsigned d = true).
Proof.
  intros s d r. unfold unsigned. rewrite run_seq_str, run_digits1.
  destruct (span is_digit s) as [int r'] eqn:Hs. apply span_spec in Hs as (-> & Hi & Hr).
  case_bool_decide as Hne; simpl; [done|]. rewrite run_decimals.
  unfold is_unsigned. destruct r' as [|c r']; simpl; [|destruct (is_char "." c) eqn:Hc].
  - intros; simplify_eq. rewrite span_app by done. by rewrite bool_decide_false.
  - destruct (span is_digit r') as [f r''] eqn:Hs. apply span_spec in Hs as (-> & Hf & _).
    simpl. intros; simplify_eq. rewrite span_app by done. by rewrite bool_decide_false, Hc, Hf.
  - simpl. intros; simplify_eq. rewrite span_app by done. by rewrite bool_decide_false.
Qed.
Lemma is_unsigned_head s c r : s = String c r → is_unsigned s = true → is_char "-" c = false.
Proof.
  intros ->. unfold is_unsigned. simpl. destruct (is_digit c) eqn:Hc; simpl; [|done].
  intros _. revert Hc. revert c. by_all_chars.
Qed.
Lemma ens_decimal : ensures Accept.decimal (λ d, is_decimal d = true).
Proof.
  intros [|c s] d r; rewrite run_decimal; [done|]. destruct (is_char "-" c) eqn:Hc.
  - intros (d' & H & ->)%pmap_PMatch_inv. apply ens_unsigned in H. simpl. by rewrite Hc.
  - intros H. apply ens_unsigned in H. unfold is_decimal.
    destruct d as [|c' d]; [done|]. by rewrite (is_unsigned_head (String c' d) c' d).
Qed.
(** What follows a number does not continue it. *)
Definition num_end (r : string) : bool := negb (head_is (λ c, is_digit c || is_char "." c) r).
Lemma run_unsigned_app d r :
  is_unsigned d = true → num_end r = true → run unsigned (d +:+ r) = PMatch d r.
Proof.
  unfold is_unsigned, unsigned. destruct (span is_digit d) as [int t] eqn:Hs.
  apply span_spec in Hs as (-> & Hi & Ht). intros [Hne Hf]%andb_true_iff Hr.
  apply negb_true_iff, bool_decide_eq_false in Hne.
  assert (head_is is_digit r = false ∧ head_is (is_char ".") r = false) as [Hd Hp].
  { destruct r as [|c r]; simpl in *; [done|]. unfold num_end in Hr. simpl in Hr.
    by destruct (is_digit c), (is_char "." c). }
  rewrite run_seq_str, run_digits1, str_app_assoc.
  destruct t as [|c t]; simpl in *.
  - rewrite str_app_nil_l, span_app, bool_decide_false by done. simpl. rewrite run_decimals.
    destruct r as [|c r]; simpl in *; [done|]. rewrite Hp. done.
  - apply andb_true_iff in Hf as [Hc Hf]. rewrite str_app_cons, span_app, bool_decide_false by done.
    simpl. rewrite run_decimals, Hc, span_app by done. done.
Qed.
Lemma run_decimal_app d r :
  is_decimal d = true → num_end r = true → run Accept.decimal (d +:+ r) = PMatch d r.
Proof.
  destruct d as [|c d]; simpl; [done|]. rewrite str_app_cons, run_decimal.
  destruct (is_char "-" c) eqn:Hc; intros Hd Hr.
  - by rewrite run_unsigned_app.
  - by rewrite <- str_app_cons, run_unsigned_app.
Qed.
Lemma fwd_decimal : forward Accept.decimal.
Proof.
  unfold Accept.decimal, digit, char_lit, opt_str, seq_str, char_str, as_string.
  auto 30 with x3fwd.
Qed.
End lexical.

(** [std::stod] accepts what the grammar calls a decimal. *)
Lemma stod_decimal d : is_decimal d = true → stod d ≠ StodInvalid.
Proof.
  assert (∀ neg s, is_unsigned s = true →
    (let '(int, r) := span is_digit s in
     let frac := match strip_prefix "." r with Some r => (span is_digit r).1 | None => "" end in
     if bool_decide (int +:+ frac = "") then StodInvalid
     else stod_ratio neg (digits_value (int +:+ frac))
            (Z.to_pos (10 ^ Z.of_nat (String.length frac)))) ≠ StodInvalid) as H.
  { intros neg s. unfold is_unsigned. destruct (span is_digit s) as [int r].
    intros [Hne%negb_true_iff%bool_decide_eq_false _]%andb_true_iff. simpl.
    rewrite bool_decide_false; [|by intros [??]%str_app_eq_nil].
    unfold stod_ratio. repeat case_match; done. }
  unfold is_decimal, stod. destruct d as [|c d]; [done|]. destruct (is_char "-" c) eqn:Hc.
  - apply is_char_true in Hc as <-. intros Hd. simpl. by apply H.
  - intros Hd. assert (strip_prefix "-" (String c d) = None) as ->; [|by apply H].
    simpl. case_decide; [subst; done|done].
Qed.

(** ** Well-formed media ranges *)

Definition q_char (c : ascii) : bool := is_char "q" c || is_char "Q" c.
#[global] Arguments q_char : simpl never.
(** The quality is a number; no other parameter name starts with a [q]. *)
Definition wf_param (kv : string * string) : bool :=
  if bool_decide (kv.1 = "q" ∨ kv.1 = "Q") then is_decimal kv.2
  else is_ident kv.1 && negb (head_is q_char kv.1).
(** [yang-data+json]: an identifier with an optional suffix *)
Definition is_subtype (s : string) : bool :=
  let '(a, r) := span idc s in
  is_ident a && match r with "" => true | String c r => is_char "+" c && is_ident r end.
Definition wf_mime (m : Mime) : bool :=
  (bool_decide (mediaType m = "*") && bool_decide (mediaSubtype m = "*")) ||
  (is_ident (mediaType m) && (bool_decide (mediaSubtype m = "*") || is_subtype (mediaSubtype m))).
Definition wf_item (e : MediaType) : bool := wf_mime (mime e) && forallb wf_param (parameters e).

Lemma is_ident_forall i : is_ident i = true → str_forall idc i = true.
Proof.
  destruct i as [|c i]; simpl; [done|]. intros [Hc ->]%andb_true_iff. rewrite andb_true_r.
  revert c Hc. by_all_chars.
Qed.

Section items.
Context {X : X3} {HX : X3Laws X}.

Definition notQ : parser string :=
  diff Accept.identifier (cast (λ _, tt) (char_lit "q") <|> lit_str "Q").
Lemma run_notQ s :
  run notQ s = if head_is q_char s then PFail else run Accept.identifier s.
Proof.
  unfold notQ, char_lit. rewrite run_diff, run_alt, run_cast, run_char. destruct s as [|c s]; simpl.
  - by rewrite run_lit_str1_nil.
  - rewrite run_lit_str1. unfold q_char. by destruct (is_char "q" c), (is_char "Q" c).
Qed.
Lemma ens_notQ : ensures notQ (λ n, is_ident n = true ∧ head_is q_char n = false).
Proof.
  intros s n r. rewrite run_notQ. destruct (head_is q_char s) eqn:Hq; [done|]. intros H.
  split; [by eapply ens_ident|]. rewrite run_ident in H. destruct s as [|c s]; [done|].
  destruct (is_alpha c); [|done]. destruct (span idc s). by simplify_eq/=.
Qed.
Lemma is_ident_not_q n :
  is_ident n = true → head_is q_char n = false → ¬ (n = "q" ∨ n = "Q").
Proof. intros _ H [-> | ->]; done. Qed.
Lemma ens_acceptParam : ensures Accept.param (λ kv, wf_param kv = true).
Proof.
  apply ens_rule, ens_alt.
  - eapply ens_weaken.
    + apply (ens_seq _ _ (λ n, n = "q" ∨ n = "Q")); [|apply ens_decimal].
      apply ens_seq_l, ens_alt; intros s n r; rewrite run_str;
        destruct (strip_prefix _ s); intros; simplify_eq; auto.
    + intros [n v] [Hn Hv]. unfold wf_param. by rewrite bool_decide_true.
  - eapply ens_weaken; [apply (ens_seq _ _ _ _ (ens_seq_l _ _ _ ens_notQ) (ens_true _))|].
    intros [n v] [[Hi Hn] _]. unfold wf_param. simpl in *.
    rewrite bool_decide_false by by apply is_ident_not_q. by rewrite Hi, Hn.
Qed.

Definition sep (c : ascii) : parser string := spaces >> lit_str (String c "") >> spaces.
Lemma fwd_spaces : forward spaces.
Proof. unfold spaces, as_string. auto with x3fwd. Qed.
Lemma consuming_sep c : consuming (sep c).
Proof.
  unfold sep. apply consuming_seq_r_l; [|apply fwd_spaces].
  apply consuming_seq_r; [apply fwd_spaces|apply consuming_lit_str1].
Qed.
Lemma fwd_sep c : forward (sep c).
Proof. unfold sep, seq_r, spaces, as_string. auto 20 with x3fwd. Qed.
Lemma consuming_quotedChar :
  consuming ((lit_char "\" >> char_ any_char) <|> char_ (λ c, negb (is_char dquote_char c))).
Proof.
  intros s a r. rewrite run_alt, run_seq_r. destruct s as [|c s].
  - by rewrite run_lit_nil; simpl; rewrite run_char.
  - rewrite run_lit, run_char. destruct (is_char "\" c); simpl.
    + rewrite run_char. destruct s as [|d s]; simpl; [|intros; simplify_eq; lia].
      destruct (negb _); intros; simplify_eq/=; lia.
    + destruct (negb _); intros; simplify_eq/=; lia.
Qed.
Lemma fwd_quotedString : forward quotedString.
Proof.
  unfold quotedString, seq_l, seq_r, as_string.
  repeat first [apply fwd_rule|apply fwd_cast|apply fwd_seq|apply fwd_lit_char].
  apply fwd_kleene; [apply consuming_quotedChar|]. auto 10 with x3fwd.
Qed.
Lemma fwd_acceptParam : forward Accept.param.
Proof.
  unfold Accept.param, seq_l, char_lit.
  auto 30 using fwd_decimal, fwd_ident, fwd_quotedString with x3fwd.
Qed.

Definition oneParam : parser (string * string) := sep ";" >> Accept.param.
Lemma consuming_oneParam : consuming oneParam.
Proof. apply consuming_seq_r_l; [apply consuming_sep|apply fwd_acceptParam]. Qed.
Lemma fwd_oneParam : forward oneParam.
Proof. unfold oneParam, seq_r. auto using fwd_sep, fwd_acceptParam with x3fwd. Qed.
Lemma run_parametersRule s : run Accept.parametersRule s = run (kleene oneParam) s.
Proof. unfold Accept.parametersRule. by rewrite run_rule. Qed.
Lemma fwd_parametersRule : forward Accept.parametersRule.
Proof. intros s. rewrite run_parametersRule. apply fwd_kleene; auto using consuming_oneParam, fwd_oneParam. Qed.
Lemma ens_parametersRule : ensures Accept.parametersRule (λ l, forallb wf_param l = true).
Proof.
  intros s l r. rewrite run_parametersRule. intros H.
  apply (ens_kleene _ (λ kv, wf_param kv = true)) in H;
    [|apply consuming_oneParam|apply ens_seq_r, ens_acceptParam].
  induction H as [|kv l Hk _ IH]; simpl; [done|]. by rewrite Hk.
Qed.

(** *** Media ranges *)
Lemma ens_wildcard : ensures Accept.mimeWildcard (λ s, s = "*").
Proof. intros s a r. unfold Accept.mimeWildcard. rewrite run_rule, run_str. by destruct (strip_prefix _ s); intros; simplify_eq. Qed.
Lemma is_subtype_app a b :
  is_ident a = true → (b = "" ∨ ∃ b', is_ident b' = true ∧ b = String "+" b') →
  is_subtype (a +:+ b) = true.
Proof.
  intros Ha Hb. unfold is_subtype.
  rewrite span_app; [|by apply is_ident_forall|by destruct Hb as [->|(b' & _ & ->)]].
  rewrite Ha. destruct Hb as [->|(b' & Hb & ->)]; simpl; [done|]. by rewrite Hb.
Qed.
Definition mimeSuffix : parser string := opt_str (seq_str (char_str (char_lit "+")) Accept.identifier).
Lemma run_mimeSuffix s :
  run mimeSuffix s =
  match s with
  | "" => PMatch "" ""
  | String c r =>
      if is_char "+" c then
        match run Accept.identifier r with
        | PMatch i r => PMatch (String c i) r
        | PFail => PMatch "" s
        | PExpect w n => PExpect w n
        end
      else PMatch "" s
  end.
Proof.
  unfold mimeSuffix, opt_str, char_str, char_lit. rewrite run_cast, run_opt, run_seq_str, run_cast, run_char.
  destruct s as [|c s]; simpl; [done|]. destruct (is_char "+" c); simpl; [|done].
  by destruct (run Accept.identifier s).
Qed.
Lemma ens_mimeSuffix : ensures mimeSuffix (λ b, b = "" ∨ ∃ b', is_ident b' = true ∧ b = String "+" b').
Proof.
  intros [|c s] b r; rewrite run_mimeSuffix; [intros [= <- _]; auto|].
  destruct (is_char "+" c) eqn:Hc; [|intros [= <- _]; auto].
  apply is_char_true in Hc as <-.
  destruct (run Accept.identifier s) as [i r'| |] eqn:E; intros; simplify_eq; [|auto].
  apply ens_ident in E. eauto.
Qed.
Lemma ens_mimeSubtype : ensures Accept.mimeSubtype (λ s, s = "*" ∨ is_subtype s = true).
Proof.
  apply ens_rule, ens_alt; [|eapply ens_weaken; [apply ens_wildcard|auto]].
  apply ens_cast. eapply ens_weaken; [apply (ens_seq _ _ _ _ ens_ident ens_mimeSuffix)|].
  intros [a b] [Ha Hb]. right. by apply is_subtype_app.
Qed.
Lemma ens_mimeRule : ensures Accept.mimeRule (λ m, wf_mime m = true).
Proof.
  apply ens_rule, ens_cast, ens_alt.
  - eapply ens_weaken; [apply (ens_seq _ _ _ _ (ens_seq_l _ _ _ ens_wildcard) ens_wildcard)|].
    intros [t s] [Ht Hs]; simpl in *; subst. done.
  - eapply ens_weaken;
      [apply (ens_seq _ _ _ _ (ens_seq_l _ _ _ (ens_rule _ _ _ ens_ident))
               (ens_alt _ _ (λ s, s = "*" ∨ is_subtype s = true) ens_mimeSubtype
                  (ens_weaken _ _ _ ens_wildcard (λ a H, or_introl H))))|].
    intros [t s] [Ht Hs]; simpl in *. unfold wf_mime; simpl. rewrite Ht.
    apply orb_true_intro. right. simpl. destruct Hs as [->| ->]; [done|by rewrite orb_true_r].
Qed.
Lemma ens_oneItem : ensures Accept.oneItem (λ e, wf_item e = true).
Proof.
  apply ens_rule, ens_cast. eapply ens_weaken; [apply (ens_seq _ _ _ _ ens_mimeRule ens_parametersRule)|].
  intros [m ps] [Hm Hp]. unfold wf_item. simpl in *. by rewrite Hm, Hp.
Qed.
Lemma fwd_mimeRule : forward Accept.mimeRule.
Proof.
  unfold Accept.mimeRule, Accept.mimeWildcard, Accept.mimeSubtype, Accept.mimeType, seq_l, seq_str,
    opt_str, char_str, char_lit.
  repeat first [apply fwd_ident|apply fwd_rule|apply fwd_cast|apply fwd_alt|apply fwd_seq|
    apply fwd_opt|apply fwd_str|apply fwd_lit_str|apply fwd_char].
Qed.
Lemma fwd_oneItem : forward Accept.oneItem.
Proof. unfold Accept.oneItem. auto using fwd_mimeRule, fwd_parametersRule with x3fwd. Qed.
Lemma parseMediaTypes_wf h l :
  parseMediaTypes h = Some l → l ≠ [] ∧ Forall (λ e, wf_item e = true) l.
Proof.
  unfold parseMediaTypes. destruct (run _ h) as [l' r| |] eqn:E; intros; simplify_eq.
  revert E. apply (ens_seq_l _ _ _ (ens_seq_l _ _ _ (ens_rule _ _ _ (ens_seq_r _ _ _
    (ens_list _ _ _ (consuming_sep ",") fwd_oneItem ens_oneItem))))).
Qed.
End items.

(** ** Lower case *)

Lemma str_map_app f s t : str_map f (s +:+ t) = str_map f s +:+ str_map f t.
Proof. induction s as [|c s IH]; [done|]. rewrite !str_app_cons. simpl. by rewrite IH, str_app_cons. Qed.
Lemma span_str_map P f s :
  (∀ c, P (f c) = P c) →
  span P (str_map f s) = (str_map f (span P s).1, str_map f (span P s).2).
Proof.
  intros HP. induction s as [|c s IH]; simpl; [done|]. rewrite HP. destruct (P c); [|done].
  rewrite IH. by destruct (span P s).
Qed.
Lemma str_forall_map P f s : (∀ c, P (f c) = P c) → str_forall P (str_map f s) = str_forall P s.
Proof. intros HP. induction s as [|c s IH]; simpl; [done|]. by rewrite HP, IH. Qed.
Lemma str_map_idemp f s : (∀ c, f (f c) = f c) → str_map f (str_map f s) = str_map f s.
Proof. intros Hf. induction s as [|c s IH]; simpl; [done|]. by rewrite Hf, IH. Qed.

Lemma idc_lower : ∀ c, idc (to_lower c) = idc c.
Proof. by_all_chars. Qed.
Lemma alpha_lower : ∀ c, is_alpha (to_lower c) = is_alpha c.
Proof. by_all_chars. Qed.
Lemma plus_lower : ∀ c, is_char "+" (to_lower c) = is_char "+" c.
Proof. by_all_chars. Qed.
Lemma to_lower_idemp : ∀ c, to_lower (to_lower c) = to_lower c.
Proof. by_all_chars. Qed.
Lemma lower_idemp s : lower (lower s) = lower s.
Proof. apply str_map_idemp, to_lower_idemp. Qed.
Lemma is_ident_lower s : is_ident (lower s) = is_ident s.
Proof.
  destruct s as [|c s]; simpl; [done|]. rewrite alpha_lower. f_equal.
  apply str_forall_map, idc_lower.
Qed.
Lemma is_subtype_lower s : is_subtype (lower s) = is_subtype s.
Proof.
  unfold is_subtype, lower. rewrite span_str_map by apply idc_lower.
  destruct (span idc s) as [a [|c r]]; simpl; fold lower; rewrite is_ident_lower; [done|].
  by rewrite plus_lower, is_ident_lower.
Qed.

(** What the rest of the server relies on: a lower-case type and subtype with one slash
    between them, and a wildcard type only in [*/*]. *)
Definition media_text (x : string) : Prop :=
  ∃ m, wf_mime m = true ∧ mediaType m = lower (mediaType m) ∧
       mediaSubtype m = lower (mediaSubtype m) ∧
       x = mediaType m +:+ "/" +:+ mediaSubtype m.

Definition q_is_number (kv : string * string) : Prop := is_q kv = true → is_decimal kv.2 = true.
Definition wf_lowered (e : MediaType) : Prop :=
  media_text (mimeText e) ∧ Forall q_is_number (parameters e).

Lemma lower_q n : lower n = "q" → n = "q" ∨ n = "Q".
Proof.
  destruct n as [|c [|d n]]; simpl; [done| |done]. intros [= H]. revert c H.
  by_all_chars; auto.
Qed.
Lemma wf_mime_lower m :
  wf_mime m = true → wf_mime (mkMime (lower (mediaType m)) (lower (mediaSubtype m))) = true.
Proof.
  unfold wf_mime. simpl. rewrite is_ident_lower, is_subtype_lower.
  intros [[Ht%bool_decide_eq_true Hs%bool_decide_eq_true]%andb_true_iff|
          [Ht [Hs%bool_decide_eq_true|Hs]%orb_true_iff]%andb_true_iff]%orb_true_iff.
  - rewrite Ht, Hs. done.
  - rewrite Ht, Hs. by rewrite orb_true_r.
  - by rewrite Ht, Hs, !orb_true_r.
Qed.
Lemma lowerNames_wf e : wf_item e = true → wf_lowered (lowerNames e).
Proof.
  unfold wf_item. intros [Hm Hp]%andb_true_iff. split.
  - exists (mkMime (lower (mediaType (mime e))) (lower (mediaSubtype (mime e)))). simpl.
    rewrite !lower_idemp. split; [by apply wf_mime_lower|done].
  - simpl. apply Forall_fmap. apply forallb_Forall in Hp.
    induction Hp as [|[n v] ps Hkv _ IH]; constructor; [|done].
    intros Hq%bool_decide_eq_true. simpl in *. apply lower_q in Hq.
    unfold wf_param in Hkv. by rewrite bool_decide_true in Hkv.
Qed.

(** ** The quality of a media type *)

(** Every quality is in the range of [double]. *)
Definition representable (e : MediaType) : bool :=
  forallb (λ kv, match stod kv.2 with StodOk _ => true | _ => negb (is_q kv) end) (parameters e).

Lemma checkQualities_spec ps :
  Forall q_is_number ps →
  checkQualities ps =
  Ok (forallb (λ kv, match stod kv.2 with StodOk _ => true | _ => negb (is_q kv) end) ps).
Proof.
  induction 1 as [|kv ps Hkv _ IH]; simpl; [done|]. unfold stod_M, q_is_number in *.
  destruct (is_q kv) eqn:Hq.
  - pose proof (stod_decimal kv.2 (Hkv eq_refl)). destruct (stod kv.2); [by rewrite IH|done|done].
  - rewrite IH. by destruct (stod kv.2).
Qed.
Lemma lowerAll_spec l :
  Forall (λ e, wf_item e = true) l →
  lowerAll l =
  Ok (if forallb (λ e, representable (lowerNames e)) l then Some (lowerNames <$> l) else None).
Proof.
  induction 1 as [|e l He _ IH]; [done|]. cbn [lowerAll forallb].
  destruct (lowerNames_wf e He) as [_ Hq]. rewrite checkQualities_spec by done.
  rewrite bind_Ok. fold (representable (lowerNames e)).
  destruct (representable (lowerNames e)); [|done]. rewrite IH. simpl.
  by destruct (forallb _ l).
Qed.

(** The quality as a number. *)
Definition quality (e : MediaType) : spec_float :=
  match qValue e with Ok d => d | Throw _ => S754_nan end.
Lemma qValue_quality e :
  representable e = true → qValue e = Ok (quality e) ∧ is_nan (quality e) = false.
Proof.
  unfold representable, quality, qValue. intros Hr.
  destruct (List.find is_q (parameters e)) as [kv|] eqn:E; [|done].
  apply List.find_some in E as [Hin Hq].
  rewrite List.forallb_forall in Hr. apply Hr in Hin. rewrite Hq in Hin.
  unfold stod_M. destruct (stod kv.2) eqn:Hs; [|done..]. split; [done|]. by eapply stod_not_nan.
Qed.
Lemma withQuality_spec l :
  forallb representable l = true → withQuality l = Ok ((λ e, (quality e, e)) <$> l).
Proof.
  induction l as [|e l IH]; [done|]. cbn [forallb withQuality]. intros [He Hl]%andb_true_iff.
  destruct (qValue_quality e He) as [-> _]. simpl. by rewrite (IH Hl).
Qed.

(** ** The order of preference *)

Definition specificity (m : Mime) : nat :=
  if bool_decide (mediaType m = "*") then 0 else if bool_decide (mediaSubtype m = "*") then 1 else 2.
(** Sorted by quality, then by specificity, both descending. *)
Definition preferred (x y : spec_float * MediaType) : Prop :=
  SFltb x.1 y.1 = false ∧
  (SFeqb x.1 y.1 = true → specificity (mime y.2) ≤ specificity (mime x.2)).

Lemma better_spec x y :
  better x y =
  if negb (SFeqb x.1 y.1) then SFltb y.1 x.1
  else bool_decide (specificity (mime y.2) < specificity (mime x.2)).
Proof.
  destruct x as [qa a], y as [qb b]. simpl. destruct (negb _); [done|]. unfold specificity.
  repeat case_bool_decide; try done; lia.
Qed.
Lemma SFcompare_nan f g : is_nan f = true ∨ is_nan g = true → SFcompare f g = None.
Proof. intros [H|H]; [by destruct f|destruct g; try done; by destruct f]. Qed.
Lemma SF_nan f g :
  is_nan f = true ∨ is_nan g = true → SFeqb f g = false ∧ SFltb f g = false ∧ SFltb g f = false.
Proof.
  intros H. unfold SFeqb, SFltb. rewrite SFcompare_nan by done.
  rewrite SFcompare_nan by tauto. done.
Qed.

(** What the comparator decides, for numbers. *)
Definition ranks_before (x y : spec_float * MediaType) : Prop :=
  let '(a, b, c) := key x.1 in let '(a', b', c') := key y.1 in
  (a' < a ∨ a = a' ∧ (b' < b ∨ b = b' ∧ (c' < c ∨ c = c' ∧
     (specificity (mime y.2) < specificity (mime x.2))%nat)))%Z.
Lemma better_ranks x y :
  is_nan x.1 = false → is_nan y.1 = false → better x y = true ↔ ranks_before x y.
Proof.
  intros Hx Hy. rewrite better_spec. unfold ranks_before.
  pose proof (SFeqb_key x.1 y.1 Hx Hy) as He. pose proof (SFltb_key y.1 x.1 Hy Hx) as Hl.
  destruct (key x.1) as [[a b] c], (key y.1) as [[a' b'] c']. simpl in Hl.
  destruct (SFeqb x.1 y.1); simpl.
  - destruct He as [He _]. specialize (He eq_refl). simplify_eq.
    rewrite bool_decide_eq_true. lia.
  - assert (¬ (a = a' ∧ b = b' ∧ c = c')) by (intros (-> & -> & ->); destruct He; naive_solver).
    rewrite Hl. lia.
Qed.
Lemma better_nan x y : is_nan x.1 = true ∨ is_nan y.1 = true → better x y = false.
Proof. intros H. rewrite better_spec. by destruct (SF_nan _ _ H) as (-> & _ & ->). Qed.

Lemma better_asym x y : better x y = true → better y x = false.
Proof.
  intros H. destruct (is_nan x.1) eqn:Hx; [by rewrite better_nan in H; auto|].
  destruct (is_nan y.1) eqn:Hy; [by rewrite better_nan in H; auto|].
  apply not_true_is_false. intros H'. apply better_ranks in H, H'; [|done..].
  unfold ranks_before in *. destruct (key x.1) as [[??]?], (key y.1) as [[??]?]. lia.
Qed.
Lemma better_neg_trans x y z :
  is_nan y.1 = false → in_order better x y → in_order better y z → in_order better x z.
Proof.
  unfold in_order. intros Hy Hxy Hyz.
  destruct (is_nan x.1) eqn:Hx; [by apply better_nan; auto|].
  destruct (is_nan z.1) eqn:Hz; [by apply better_nan; auto|].
  apply not_true_is_false. intros H. apply better_ranks in H; [|done..].
  assert (¬ ranks_before y x) as Hxy' by (rewrite <- better_ranks by done; by rewrite Hxy).
  assert (¬ ranks_before z y) as Hyz' by (rewrite <- better_ranks by done; by rewrite Hyz).
  unfold ranks_before in *.
  destruct (key x.1) as [[??]?], (key y.1) as [[??]?], (key z.1) as [[??]?]. lia.
Qed.
Lemma in_order_preferred x y :
  is_nan x.1 = false → is_nan y.1 = false → in_order better x y → preferred x y.
Proof.
  unfold in_order, preferred. intros Hx Hy H.
  assert (¬ ranks_before y x) as H' by (rewrite <- better_ranks by done; by rewrite H).
  pose proof (SFeqb_key x.1 y.1 Hx Hy) as He. pose proof (SFltb_key x.1 y.1 Hx Hy) as Hl.
  unfold ranks_before in H'. destruct (key x.1) as [[??]?], (key y.1) as [[??]?]. simpl in Hl. split.
  - apply not_true_is_false. rewrite Hl. lia.
  - intros [=]%He. subst. lia.
Qed.
Lemma same_rank_iff x y :
  is_nan x.1 = false → is_nan y.1 = false →
  same_rank better x y = true ↔
  SFeqb x.1 y.1 = true ∧ specificity (mime x.2) = specificity (mime y.2).
Proof.
  intros Hx Hy. unfold same_rank. rewrite andb_true_iff, !negb_true_iff, <- !not_true_iff_false.
  rewrite !better_ranks, SFeqb_key by done. unfold ranks_before.
  destruct (key x.1) as [[??]?], (key y.1) as [[??]?]. split.
  - intros [H1 H2]. split; [|lia]. f_equal; [f_equal|]; lia.
  - intros [[=] Hs]; subst. lia.
Qed.

(** ** [parseAcceptHeader] *)

(** The media types of a header that are kept, with their quality, in the order of the header. *)
Definition candidates (ms : list MediaType) : list (spec_float * MediaType) :=
  filter (λ x, nonzero x = true) ((λ e, (quality e, e)) <$> (lowerNames <$> ms)).

Lemma candidates_elem ms x :
  Forall (λ e, wf_item e = true) ms → forallb (λ e, representable (lowerNames e)) ms = true →
  x ∈ candidates ms → is_nan x.1 = false ∧ media_text (mimeText x.2).
Proof.
  intros Hw Hr%forallb_Forall [_ Hx]%list_elem_of_filter.
  apply list_elem_of_fmap in Hx as (e' & -> & Hx).
  apply list_elem_of_fmap in Hx as (e & -> & Hx).
  rewrite Forall_forall in Hw, Hr. split; [|by apply lowerNames_wf, Hw].
  by apply qValue_quality, Hr.
Qed.

(** Neither quality nor specificity tells two entries apart. *)
Definition ties (z x : spec_float * MediaType) : Prop :=
  SFeqb z.1 x.1 = true ∧ specificity (mime z.2) = specificity (mime x.2).
#[export] Instance ties_dec z x : Decision (ties z x).
Proof. unfold ties. apply _. Defined.

Lemma filter_ext_in {A} (P Q : A → Prop) `{!∀ x, Decision (P x), !∀ x, Decision (Q x)} l :
  Forall (λ x, P x ↔ Q x) l → filter P l = filter Q l.
Proof.
  induction 1 as [|x l Hx _ IH]; [done|]. rewrite !filter_cons, IH.
  by destruct (decide (P x)), (decide (Q x)); tauto || done.
Qed.

Section accept_facts.
Context {X : X3} {HX : X3Laws X}.

Lemma parseAcceptHeader_eq h :
  parseAcceptHeader h =
  Ok (match parseMediaTypes h with
      | Some ms =>
          if forallb (λ e, representable (lowerNames e)) ms
          then (λ x, mimeText x.2) <$> stable_sort better (candidates ms) else []
      | None => []
      end).
Proof.
  unfold parseAcceptHeader. destruct (parseMediaTypes h) as [ms|] eqn:E; [|done].
  apply parseMediaTypes_wf in E as [_ E]. rewrite lowerAll_spec by done. rewrite bind_Ok.
  destruct (forallb _ ms) eqn:Hr; [|done]. rewrite withQuality_spec; [done|].
  apply forallb_Forall, Forall_fmap. by apply forallb_Forall in Hr.
Qed.

Lemma parseAcceptHeader_media (h : string) :
  ∃ l, parseAcceptHeader h = Ok l ∧ Forall media_text l.
Proof.
  eexists. split; [apply parseAcceptHeader_eq|].
  destruct (parseMediaTypes h) as [ms|] eqn:E; [|constructor].
  apply parseMediaTypes_wf in E as [_ E]. destruct (forallb _ ms) eqn:Hr; [|constructor].
  apply Forall_fmap. rewrite stable_sort_perm. apply Forall_forall. intros x Hx.
  by eapply candidates_elem.
Qed.

(** Whatever the value of the header, [parseAcceptHeader] returns a list without
    throwing, and each entry is a lower-case type and subtype with one slash between them, where
    the type is a wildcard only in the range that matches everything. *)
Theorem parseAcceptHeader_total (h : string) :
  ∃ l, parseAcceptHeader h = Ok l ∧ Forall media_text l.
Proof. apply parseAcceptHeader_media. Qed.

(** When the header parses and its qualities are numbers of type double, the result of
    [parseAcceptHeader] lists exactly the media types whose quality is not zero, by descending
    quality, then the more specific first, and the ones that tie in the order of the header. *)
Theorem parseAcceptHeader_ranking (h : string) (ms : list MediaType) :
  parseMediaTypes h = Some ms → forallb (λ e, representable (lowerNames e)) ms = true →
  ∃ ranked : list (spec_float * MediaType),
    parseAcceptHeader h = Ok ((λ x, mimeText x.2) <$> ranked) ∧
    ranked ≡ₚ candidates ms ∧
    StronglySorted preferred ranked ∧
    ∀ z, is_nan z.1 = false → filter (ties z) ranked = filter (ties z) (candidates ms).
Proof.
  intros Hp Hr. exists (stable_sort better (candidates ms)).
  rewrite parseAcceptHeader_eq, Hp, Hr. split; [done|]. split; [apply stable_sort_perm|].
  apply parseMediaTypes_wf in Hp as [_ Hw].
  assert (Forall (λ x, is_nan x.1 = false) (candidates ms)) as Hn.
  { apply Forall_forall. intros x Hx. by eapply candidates_elem. }
  assert (Forall (λ x, is_nan x.1 = false) (stable_sort better (candidates ms))) as Hn'
    by by rewrite stable_sort_perm.
  split.
  - pose proof (stable_sort_sorted better _ better_asym better_neg_trans _ Hn) as Hs.
    revert Hn'. induction Hs as [|x l Hl IH Hx]; [constructor|].
    intros [Hxn Hln]%Forall_cons. constructor; [by apply IH|].
    apply Forall_forall. intros y Hy. rewrite Forall_forall in Hx, Hln.
    apply in_order_preferred; auto.
  - intros z Hz.
    rewrite !(filter_ext_in (ties z) (λ x, same_rank better z x = true)).
    + by apply (stable_sort_stable better _ better_asym better_neg_trans).
    + eapply Forall_impl; [exact Hn|]. intros x Hx. symmetry. by apply same_rank_iff.
    + eapply Forall_impl; [exact Hn'|]. intros x Hx. symmetry. by apply same_rank_iff.
Qed.
End accept_facts.

(** ** Writing headers *)

(** Quotes and backslashes are escaped inside a quoted string. *)
Fixpoint escape (s : string) : string :=
  match s with
  | "" => ""
  | String c s =>
      if is_char dquote_char c || is_char "\" c then String "\" (String c (escape s))
      else String c (escape s)
  end.
Definition quote (s : string) : string := dquote +:+ escape s +:+ dquote.

(** A parameter with the white space before and after its semicolon; the value of anything
    but the quality may be quoted. *)
Record PParam := mkPParam { pp_before : string; pp_after : string; pp_name : string;
                            pp_value : string; pp_quoted : bool }.
Record PItem := mkPItem { pi_before : string; pi_after : string; pi_mime : Mime;
                          pi_params : list PParam }.

Definition paramValue (p : PParam) : string * string := (pp_name p, pp_value p).
Definition itemValue (i : PItem) : MediaType := mkMediaType (pi_mime i) (paramValue <$> pi_params i).

Definition printParam (p : PParam) : string :=
  pp_before p +:+ ";" +:+ pp_after p +:+ pp_name p +:+ "=" +:+
  (if pp_quoted p then quote (pp_value p) else pp_value p).
Definition printParams (l : list PParam) : string := foldr (λ p r, printParam p +:+ r) "" l.
Definition printItem (i : PItem) : string :=
  mediaType (pi_mime i) +:+ "/" +:+ mediaSubtype (pi_mime i) +:+ printParams (pi_params i).
(** The first item has white space before it only; the others follow a comma. *)
Definition printMore (l : list PItem) : string :=
  foldr (λ i r, pi_before i +:+ "," +:+ pi_after i +:+ printItem i +:+ r) "" l.
Definition printAccept (i : PItem) (l : list PItem) (trailing : string) : string :=
  pi_after i +:+ printItem i +:+ printMore l +:+ trailing.

Definition blank (s : string) : bool := str_forall is_space s.
Definition is_quality (n : string) : bool := bool_decide (n = "q" ∨ n = "Q").
Definition wf_pparam (p : PParam) : bool :=
  blank (pp_before p) && blank (pp_after p) && wf_param (paramValue p) &&
  (if pp_quoted p then negb (is_quality (pp_name p))
   else is_quality (pp_name p) || is_ident (pp_value p)).
Definition wf_pitem (i : PItem) : bool :=
  blank (pi_before i) && blank (pi_after i) && wf_mime (pi_mime i) && forallb wf_pparam (pi_params i).

(** What may follow a media range, a parameter or an item. *)
Definition stops (r : string) : bool :=
  match r with "" => true | String c _ => is_space c || is_char ";" c || is_char "," c end.
Lemma stops_head P r :
  (∀ c, is_space c || is_char ";" c || is_char "," c = true → P c = false) →
  stops r = true → head_is P r = false.
Proof. destruct r; simpl; auto. Qed.

Section print.
Context {X : X3} {HX : X3Laws X}.

Lemma run_spaces_app w r :
  blank w = true → head_is is_space r = false → run spaces (w +:+ r) = PMatch w r.
Proof. intros Hw Hr. unfold spaces. by rewrite run_chars, span_app. Qed.
Lemma run_sep_app c w1 w2 r :
  blank w1 = true → blank w2 = true → is_space c = false → head_is is_space r = false →
  run (sep c) (w1 +:+ String c (w2 +:+ r)) = PMatch w2 r.
Proof.
  intros H1 H2 Hc Hr. unfold sep. rewrite !run_seq_r, run_spaces_app by done. simpl.
  rewrite run_lit_str1, is_char_refl. simpl. by apply run_spaces_app.
Qed.
(** The separator is not there. *)
Lemma run_sep_fail c w r :
  blank w = true → head_is is_space r = false → head_is (is_char c) r = false →
  run (sep c) (w +:+ r) = PFail.
Proof.
  intros Hw Hs Hc. unfold sep. rewrite !run_seq_r, run_spaces_app by done. simpl.
  destruct r as [|d r]; [by rewrite run_lit_str1_nil|]. simpl in Hc. by rewrite run_lit_str1, Hc.
Qed.

Definition quotedChar : parser ascii :=
  (lit_char "\" >> char_ any_char) <|> char_ (λ c, negb (is_char dquote_char c)).
Lemma run_quotedChars s r :
  run (as_string (kleene quotedChar)) (escape s +:+ String dquote_char r) =
  PMatch s (String dquote_char r).
Proof.
  unfold as_string. rewrite run_cast. induction s as [|c s IH]; simpl.
  - rewrite str_app_nil_l, run_kleene by apply consuming_quotedChar. unfold quotedChar at 1.
    rewrite run_alt, run_seq_r, run_lit, run_char. done.
  - destruct (is_char dquote_char c || is_char "\" c) eqn:Hc;
      rewrite !str_app_cons, run_kleene by apply consuming_quotedChar;
      unfold quotedChar at 1; rewrite run_alt, run_seq_r, run_lit.
    + simpl. rewrite run_char. simpl. destruct (run (kleene quotedChar) _); simpl in *; by simplify_eq.
    + apply orb_false_iff in Hc as [Hq Hb].
      assert (is_char "\" c = false) as -> by done. simpl. rewrite run_char, Hq. simpl.
      destruct (run (kleene quotedChar) _); simpl in *; by simplify_eq.
Qed.
Lemma run_quotedString_app s r : run quotedString (quote s +:+ r) = PMatch s r.
Proof.
  unfold quotedString, quote, dquote. rewrite run_rule, run_seq_l, run_seq_r.
  rewrite !str_app_assoc, !str_app_cons, !str_app_nil_l, run_lit_same. simpl.
  fold quotedChar. rewrite run_quotedChars. simpl. by rewrite run_lit_same.
Qed.
Lemma run_quotedString_other c r : is_char dquote_char c = false → run quotedString (String c r) = PFail.
Proof. intros Hc. unfold quotedString. by rewrite run_rule, run_seq_l, run_seq_r, run_lit, Hc. Qed.

Lemma is_ident_dquote c i : is_ident (String c i) = true → is_char dquote_char c = false.
Proof. simpl. intros [Hc _]%andb_true_iff. revert c Hc. by_all_chars. Qed.
Lemma run_param_app p r :
  wf_pparam p = true → stops r = true →
  run Accept.param (pp_name p +:+ "=" +:+ (if pp_quoted p then quote (pp_value p) else pp_value p) +:+ r)
  = PMatch (paramValue p) r.
Proof.
  destruct p as [b a n v q]. unfold wf_pparam, wf_param, paramValue. simpl.
  intros [[[_ _]%andb_true_iff Hv]%andb_true_iff Hq]%andb_true_iff Hr.
  unfold Accept.param. rewrite run_rule, run_alt, run_seq, run_seq_l, run_alt, !run_str.
  fold (is_quality n) in Hv. destruct (is_quality n) eqn:En.
  - destruct q; [done|].
    assert (num_end r = true) as Hn.
    { unfold num_end. rewrite (stops_head _ r); [done| |done]. by_all_chars. }
    apply bool_decide_eq_true in En as [-> | ->]; rewrite !str_app_cons, !str_app_nil_l; simpl;
      rewrite run_lit_str1; simpl; by rewrite run_decimal_app.
  - apply andb_true_iff in Hv as [Hi Hh%negb_true_iff].
    destruct n as [|c n]; [done|]. rewrite str_app_cons. cbn [strip_prefix head_is] in *.
    assert (c ≠ "q"%char ∧ c ≠ "Q"%char) as [H1 H2] by (split; intros ->; done).
    rewrite !decide_False by congruence. simpl.
    fold notQ. rewrite run_seq, run_seq_l, run_notQ. simpl. rewrite Hh.
    rewrite <- str_app_cons, run_ident_app by done. simpl.
    rewrite str_app_cons, str_app_nil_l, run_lit_str1. simpl. rewrite run_alt.
    destruct q; [by rewrite run_quotedString_app|]. simpl in Hq.
    destruct v as [|d v]; [done|].
    rewrite str_app_cons, run_quotedString_other by by eapply is_ident_dquote.
    rewrite <- str_app_cons, run_ident_app; [done|done|].
    apply stops_head; [|done]. by_all_chars.
Qed.
Lemma name_not_space p r : wf_pparam p = true → head_is is_space (pp_name p +:+ r) = false.
Proof.
  unfold wf_pparam, wf_param, paramValue. simpl. intros [[_ H]%andb_true_iff _]%andb_true_iff.
  revert H. case_bool_decide as Hn; [by destruct Hn as [-> | ->]|].
  intros [H _]%andb_true_iff. destruct (pp_name p) as [|c n]; [done|]. simpl in *.
  apply andb_true_iff in H as [H _]. clear Hn. revert c H. by_all_chars.
Qed.
Lemma run_oneParam_app p r :
  wf_pparam p = true → stops r = true → run oneParam (printParam p +:+ r) = PMatch (paramValue p) r.
Proof.
  intros Hp Hr. unfold oneParam, printParam. rewrite run_seq_r.
  pose proof Hp as [[[H1 H2]%andb_true_iff _]%andb_true_iff _]%andb_true_iff.
  rewrite !str_app_assoc, (str_app_cons ";"), str_app_nil_l, run_sep_app; try done.
  - simpl. by apply run_param_app.
  - by apply name_not_space.
Qed.
(** The rest of the header after the parameters of an item. *)
Definition item_end (r : string) : Prop :=
  ∃ w r', r = w +:+ r' ∧ blank w = true ∧ (r' = "" ∨ ∃ r'', r' = String "," r'').
Lemma blank_stops w r : blank w = true → stops r = true → stops (w +:+ r) = true.
Proof.
  destruct w as [|c w]; [by rewrite str_app_nil_l|]. rewrite str_app_cons. simpl.
  by intros [-> _]%andb_true_iff.
Qed.
Lemma item_end_stops r : item_end r → stops r = true.
Proof. intros (w & r' & -> & Hw & Hr). apply blank_stops; [done|]. by destruct Hr as [->|[? ->]]. Qed.
Lemma printParams_stops ps r :
  forallb wf_pparam ps = true → stops r = true → stops (printParams ps +:+ r) = true.
Proof.
  destruct ps as [|p ps]; simpl; [done|]. intros [Hp _]%andb_true_iff _. unfold printParam.
  rewrite !str_app_assoc. apply blank_stops; [|done].
  unfold wf_pparam in Hp. by destruct (blank (pp_before p)).
Qed.
Lemma run_parameters_app ps r :
  forallb wf_pparam ps = true → item_end r →
  run Accept.parametersRule (printParams ps +:+ r) = PMatch (paramValue <$> ps) r.
Proof.
  rewrite run_parametersRule. intros Hps Hr. induction ps as [|p ps IH]; simpl.
  - rewrite str_app_nil_l, run_kleene by apply consuming_oneParam.
    destruct Hr as (w & r' & -> & Hw & Hr). unfold oneParam at 1.
    rewrite run_seq_r, run_sep_fail; [done|done|..]; by destruct Hr as [->|[? ->]].
  - simpl in Hps. apply andb_true_iff in Hps as [Hp Hps].
    rewrite str_app_assoc, run_kleene by apply consuming_oneParam.
    rewrite run_oneParam_app; [|done|by apply printParams_stops, item_end_stops].
    simpl. by rewrite IH.
Qed.

Lemma run_wildcard_app r : run Accept.mimeWildcard (String "*" r) = PMatch "*" r.
Proof. unfold Accept.mimeWildcard. rewrite run_rule, run_str. done. Qed.
Lemma run_wildcard_other c r : is_char "*" c = false → run Accept.mimeWildcard (String c r) = PFail.
Proof.
  intros Hc. unfold Accept.mimeWildcard. rewrite run_rule, run_str. simpl.
  case_decide; [subst; done|done].
Qed.
Lemma is_ident_star c i : is_ident (String c i) = true → is_char "*" c = false.
Proof. simpl. intros [Hc _]%andb_true_iff. revert c Hc. by_all_chars. Qed.
Lemma run_mimeSubtype_app s r :
  is_subtype s = true → stops r = true → run Accept.mimeSubtype (s +:+ r) = PMatch s r.
Proof.
  intros Hs Hr. unfold Accept.mimeSubtype. rewrite run_rule, run_alt, run_seq_str.
  fold mimeSuffix. unfold is_subtype in Hs. destruct (span idc s) as [a t] eqn:E.
  apply span_spec in E as (-> & _ & Ht). apply andb_true_iff in Hs as [Ha Hs].
  assert (head_is idc r = false ∧ head_is (is_char "+") r = false) as [Hi Hp].
  { split; (apply stops_head; [by_all_chars|done]). }
  rewrite str_app_assoc. destruct t as [|c t]; simpl in Ht, Hs.
  - rewrite str_app_nil_l, run_ident_app by done. simpl. rewrite run_mimeSuffix.
    destruct r as [|c r]; simpl in *; [done|]. by rewrite Hp.
  - apply andb_true_iff in Hs as [Hc Hs]. rewrite run_ident_app; [|done|done].
    simpl. rewrite str_app_cons, run_mimeSuffix, Hc, run_ident_app by done. done.
Qed.
Lemma run_mimeRule_app m r :
  wf_mime m = true → stops r = true →
  run Accept.mimeRule (mediaType m +:+ "/" +:+ mediaSubtype m +:+ r) = PMatch m r.
Proof.
  destruct m as [t s]. unfold wf_mime. simpl. intros Hm Hr.
  unfold Accept.mimeRule. rewrite run_rule, run_cast, run_alt, run_seq, run_seq_l.
  apply orb_true_iff in Hm as [[->%bool_decide_eq_true ->%bool_decide_eq_true]%andb_true_iff|
    [Ht Hs]%andb_true_iff].
  - rewrite !str_app_cons, !str_app_nil_l, run_wildcard_app. simpl.
    rewrite run_lit_str1. simpl. by rewrite run_wildcard_app.
  - destruct t as [|c t]; [done|]. rewrite str_app_cons, run_wildcard_other by by eapply is_ident_star.
    simpl. rewrite run_seq, run_seq_l. unfold Accept.mimeType. rewrite run_rule, <- str_app_cons.
    rewrite run_ident_app by done. simpl. rewrite str_app_cons, str_app_nil_l, run_lit_str1. simpl.
    rewrite run_alt. apply orb_true_iff in Hs as [->%bool_decide_eq_true|Hs].
    + rewrite str_app_cons, str_app_nil_l. unfold Accept.mimeSubtype.
      rewrite run_rule, run_alt, run_seq_str, run_ident. simpl. by rewrite run_wildcard_app.
    + by rewrite run_mimeSubtype_app.
Qed.
Lemma run_oneItem_app i r :
  wf_pitem i = true → item_end r → run Accept.oneItem (printItem i +:+ r) = PMatch (itemValue i) r.
Proof.
  unfold wf_pitem. intros [[[_ _]%andb_true_iff Hm]%andb_true_iff Hp]%andb_true_iff Hr.
  unfold Accept.oneItem, printItem. rewrite run_rule, run_cast, run_seq, !str_app_assoc.
  rewrite run_mimeRule_app; [|done|by apply printParams_stops, item_end_stops].
  simpl. by rewrite run_parameters_app.
Qed.
Lemma printItem_head i r : wf_pitem i = true → head_is is_space (printItem i +:+ r) = false.
Proof.
  unfold wf_pitem, printItem. intros [[_ Hm]%andb_true_iff _]%andb_true_iff.
  unfold wf_mime in Hm. destruct (mediaType (pi_mime i)) as [|c t]; [done|].
  apply orb_true_iff in Hm as [[H%bool_decide_eq_true _]%andb_true_iff|[H _]%andb_true_iff].
  - injection H as -> ->. done.
  - simpl in *. apply andb_true_iff in H as [H _]. revert c H. by_all_chars.
Qed.
Lemma printMore_end l w : forallb wf_pitem l = true → blank w = true → item_end (printMore l +:+ w).
Proof.
  destruct l as [|i l]; simpl.
  - intros _ Hw. rewrite str_app_nil_l. exists w, "". rewrite str_app_nil_r. auto.
  - intros [Hi _]%andb_true_iff _. rewrite !str_app_assoc, str_app_cons, str_app_nil_l.
    eexists (pi_before i), _. split; [done|]. unfold wf_pitem in Hi.
    split; [by destruct (blank (pi_before i))|eauto].
Qed.
Definition moreItem : parser (string * MediaType) := sep "," >>* Accept.oneItem.
Lemma consuming_moreItem : consuming moreItem.
Proof. apply consuming_seq_l; [apply consuming_sep|apply fwd_oneItem]. Qed.
Lemma run_moreItems l w :
  forallb wf_pitem l = true → blank w = true →
  run (kleene moreItem) (printMore l +:+ w) = PMatch ((λ i, (pi_after i, itemValue i)) <$> l) w.
Proof.
  intros Hl Hw. induction l as [|i l IH]; rewrite run_kleene by apply consuming_moreItem;
    unfold moreItem at 1; rewrite run_seq; simpl.
  - rewrite str_app_nil_l. rewrite <- (str_app_nil_r w) at 1. by rewrite run_sep_fail.
  - simpl in Hl. apply andb_true_iff in Hl as [Hi Hl].
    pose proof Hi as [[[Hb Ha]%andb_true_iff _]%andb_true_iff _]%andb_true_iff.
    rewrite !str_app_assoc, str_app_cons, str_app_nil_l.
    rewrite run_sep_app by (done || by apply printItem_head). simpl.
    rewrite run_oneItem_app by (done || by apply printMore_end). simpl. by rewrite IH.
Qed.

(** A header made of well-formed media ranges with their parameters (the quality, and
    quoted or plain values of others), with any white space around commas and semicolons, is
    parsed into exactly these media types. *)
Theorem parseMediaTypes_roundtrip (i : PItem) (l : list PItem) (trailing : string) :
  wf_pitem i = true → forallb wf_pitem l = true → blank trailing = true →
  parseMediaTypes (printAccept i l trailing) = Some (itemValue <$> i :: l).
Proof.
  intros Hi Hl Hw. unfold parseMediaTypes, printAccept, Accept.acceptGrammar.
  pose proof Hi as [[[_ Ha]%andb_true_iff _]%andb_true_iff _]%andb_true_iff.
  rewrite !run_seq_l, run_rule, run_seq_r, run_spaces_app by (done || by apply printItem_head).
  simpl. rewrite run_list, run_seq, run_oneItem_app by (done || by apply printMore_end).
  simpl. fold (sep ","). fold moreItem. rewrite run_moreItems by done. simpl.
  rewrite <- (str_app_nil_r trailing), run_spaces_app by done. simpl. rewrite run_eoi. simpl.
  f_equal. f_equal. rewrite <- list_fmap_compose. done.
Qed.
End print.

(** ** The [Forwarded] header *)

Definition tokc (c : ascii) : bool :=
  is_alnum c || is_char "-" c || is_char "." c || is_char "[" c || is_char "]" c || is_char ":" c.
#[global] Arguments tokc : simpl never.
Definition is_token (s : string) : bool := negb (bool_decide (s = "")) && str_forall tokc s.

(** A pair of a forwarded element; the value may be quoted. *)
Record FPair := mkFPair { fp_name : string; fp_value : string; fp_quoted : bool }.
(** The pairs one proxy added, with the white space around the comma before them. *)
Record FElement := mkFElement { fe_before : string; fe_after : string; fe_first : FPair;
                                fe_more : list FPair }.
Definition printPair (p : FPair) : string :=
  fp_name p +:+ "=" +:+ (if fp_quoted p then quote (fp_value p) else fp_value p).
Definition printPairs (l : list FPair) : string := foldr (λ p r, ";" +:+ printPair p +:+ r) "" l.
Definition printElement (e : FElement) : string := printPair (fe_first e) +:+ printPairs (fe_more e).
Definition printElements (l : list FElement) : string :=
  foldr (λ e r, fe_before e +:+ "," +:+ fe_after e +:+ printElement e +:+ r) "" l.

Definition wf_fpair (p : FPair) : bool :=
  is_token (fp_name p) && (fp_quoted p || is_token (fp_value p)).
Definition wf_felement (e : FElement) : bool :=
  blank (fe_before e) && blank (fe_after e) && wf_fpair (fe_first e) && forallb wf_fpair (fe_more e).
Definition pairValue (p : FPair) : string * string := (fp_name p, fp_value p).
Definition elementPairs (e : FElement) : list (string * string) :=
  pairValue <$> fe_first e :: fe_more e.
#[global] Arguments elementPairs : simpl never.

(** The value of the first pair of a name. *)
Definition first_value (l : list (string * string)) (k : string) : option string :=
  snd <$> List.find (λ kv, bool_decide (kv.1 = k)) l.

Lemma map_insert_lookup m l k :
  foldl Forwarded.map_insert m l !! k =
  match m !! k with Some v => Some v | None => first_value l k end.
Proof.
  revert m. induction l as [|[k' v'] l IH]; intros m; simpl; [by destruct (m !! k)|].
  rewrite IH. unfold Forwarded.map_insert, first_value. simpl. case_bool_decide as Hk.
  - subst. destruct (m !! k) eqn:E; [by rewrite E|]. by rewrite lookup_insert_eq.
  - destruct (m !! k') eqn:E; [done|]. by rewrite lookup_insert_ne.
Qed.

Section forwarded_facts.
Context {X : X3} {HX : X3Laws X}.

Definition tokenChar : parser ascii :=
  alnum <|> char_lit "-" <|> char_lit "." <|> char_lit "[" <|> char_lit "]" <|> char_lit ":".
Lemma run_tokenChar s : run tokenChar s = run (char_ tokc) s.
Proof.
  unfold tokenChar, alnum, char_lit. rewrite !run_alt, !run_char. destruct s as [|c s]; [done|].
  unfold tokc. by destruct (is_alnum c), (is_char "-" c), (is_char "." c), (is_char "[" c),
    (is_char "]" c), (is_char ":" c).
Qed.
Lemma run_token s :
  run Forwarded.token s =
  let '(a, r) := span tokc s in if bool_decide (a = "") then PFail else PMatch a r.
Proof.
  assert (consuming tokenChar) as Hc
    by (eapply consuming_ext; [apply consuming_char|apply run_tokenChar]).
  unfold Forwarded.token, as_string. fold tokenChar.
  rewrite run_rule, run_cast, run_plus, run_seq, run_tokenChar, run_char.
  destruct s as [|c s]; simpl; [done|]. destruct (tokc c); simpl; [|done].
  rewrite (run_kleene_ext _ (char_ tokc)) by (done || apply run_tokenChar).
  pose proof (run_chars tokc s) as H. unfold as_string in H. rewrite run_cast in H.
  destruct (span tokc s) as [a r]. destruct (run (kleene (char_ tokc)) s); simplify_eq/=. done.
Qed.
Lemma run_token_app t r :
  is_token t = true → head_is tokc r = false → run Forwarded.token (t +:+ r) = PMatch t r.
Proof.
  unfold is_token. intros [Hne%negb_true_iff Ht]%andb_true_iff Hr.
  by rewrite run_token, span_app, Hne.
Qed.
Lemma fwd_token : forward Forwarded.token.
Proof.
  intros s. rewrite run_token. destruct (span tokc s) as [a r] eqn:E. case_bool_decide; [done|].
  apply span_spec in E as (-> & _). by exists a.
Qed.
Lemma fwd_forwardedPair : forward Forwarded.forwardedPair.
Proof.
  unfold Forwarded.forwardedPair, Forwarded.value, seq_l.
  auto 20 using fwd_token, fwd_quotedString with x3fwd.
Qed.
Lemma fwd_forwarded : forward Forwarded.forwarded.
Proof.
  unfold Forwarded.forwarded. apply fwd_rule, fwd_cast, fwd_list;
    auto using fwd_forwardedPair, consuming_lit_str1 with x3fwd.
Qed.

Lemma run_forwardedPair_app p r :
  wf_fpair p = true → head_is tokc r = false →
  run Forwarded.forwardedPair (printPair p +:+ r) = PMatch (pairValue p) r.
Proof.
  intros [Hn Hv]%andb_true_iff Hr. unfold Forwarded.forwardedPair, printPair.
  rewrite run_rule, run_seq, run_seq_l, !str_app_assoc, str_app_cons, str_app_nil_l.
  rewrite run_token_app by done. simpl. rewrite run_lit_same. simpl.
  unfold Forwarded.value. rewrite run_rule, run_alt.
  destruct (fp_quoted p); simpl in Hv.
  - assert (run Forwarded.token (quote (fp_value p) +:+ r) = PFail) as -> by by rewrite run_token.
    by rewrite run_quotedString_app.
  - by rewrite run_token_app.
Qed.
(** What follows an element: the end of the header or the comma before the next one. *)
Lemma item_end_element r :
  item_end r → head_is tokc r = false ∧ head_is (is_char ";") r = false.
Proof.
  intros (w & r' & -> & Hw & Hr). destruct w as [|c w]; simpl in Hw.
  - rewrite str_app_nil_l. by destruct Hr as [->|[? ->]].
  - rewrite str_app_cons. apply andb_true_iff in Hw as [Hc _]. simpl. revert c Hc. by_all_chars.
Qed.
Lemma printPairs_head ps r : item_end r → head_is tokc (printPairs ps +:+ r) = false.
Proof. intros Hr. destruct ps; simpl; [|done]. by apply item_end_element. Qed.
Definition morePair : parser (unit * (string * string)) := lit_str ";" >>* Forwarded.forwardedPair.
Lemma consuming_morePair : consuming morePair.
Proof. apply consuming_seq_l; [apply consuming_lit_str1|apply fwd_forwardedPair]. Qed.
Lemma run_morePairs ps r :
  forallb wf_fpair ps = true → item_end r →
  run (kleene morePair) (printPairs ps +:+ r) = PMatch ((λ p, (tt, pairValue p)) <$> ps) r.
Proof.
  intros Hps Hr. induction ps as [|p ps IH]; rewrite run_kleene by apply consuming_morePair;
    unfold morePair at 1; rewrite run_seq; simpl.
  - rewrite str_app_nil_l. apply item_end_element in Hr as [_ Hr].
    destruct r as [|c r]; [by rewrite run_lit_str1_nil|]. simpl in Hr. by rewrite run_lit_str1, Hr.
  - simpl in Hps. apply andb_true_iff in Hps as [Hp Hps].
    rewrite !str_app_assoc, str_app_cons, str_app_nil_l, run_lit_str1. simpl.
    rewrite run_forwardedPair_app by (done || by apply printPairs_head). simpl. by rewrite IH.
Qed.
Lemma run_forwarded_app e r :
  wf_felement e = true → item_end r →
  run Forwarded.forwarded (printElement e +:+ r) =
  PMatch (foldl Forwarded.map_insert ∅ (elementPairs e)) r.
Proof.
  unfold wf_felement. intros [[_ Hf]%andb_true_iff Hm]%andb_true_iff Hr.
  unfold Forwarded.forwarded, printElement. rewrite run_rule, run_cast, run_list, run_seq.
  rewrite str_app_assoc, run_forwardedPair_app by (done || by apply printPairs_head). simpl.
  fold morePair. rewrite run_morePairs by done. simpl. by rewrite <- list_fmap_compose.
Qed.
Lemma printElement_head e r : wf_felement e = true → head_is is_space (printElement e +:+ r) = false.
Proof.
  unfold wf_felement, printElement, printPair.
  intros [[_ [Hn _]%andb_true_iff]%andb_true_iff _]%andb_true_iff.
  destruct (fp_name (fe_first e)) as [|c n]; [done|]. unfold is_token in Hn. simpl in *.
  apply andb_true_iff in Hn as [Hn _]. revert c Hn. by_all_chars.
Qed.
Lemma printElements_end l : forallb wf_felement l = true → item_end (printElements l).
Proof.
  destruct l as [|e l]; simpl.
  - intros _. exists "", "". auto.
  - intros [He _]%andb_true_iff. eexists (fe_before e), _. split; [done|].
    unfold wf_felement in He. split; [by destruct (blank (fe_before e))|eauto].
Qed.
Definition forwardedSep : parser string := spaces >> lit_char "," >> spaces.
Lemma run_forwardedSep s : run forwardedSep s = run (sep ",") s.
Proof.
  unfold forwardedSep, sep. rewrite !run_seq_r. destruct (run spaces s) as [w r| |]; simpl; [|done..].
  destruct r; [by rewrite run_lit_nil, run_lit_str1_nil|by rewrite run_lit, run_lit_str1].
Qed.
Definition moreElement : parser (string * gmap string string) := forwardedSep >>* Forwarded.forwarded.
Lemma consuming_moreElement : consuming moreElement.
Proof.
  apply consuming_seq_l; [|apply fwd_forwarded].
  eapply consuming_ext; [apply consuming_sep|apply run_forwardedSep].
Qed.
Lemma run_moreElements l :
  forallb wf_felement l = true → ∃ ms, run (kleene moreElement) (printElements l) = PMatch ms "".
Proof.
  induction l as [|e l IH]; intros Hl; rewrite run_kleene by apply consuming_moreElement;
    unfold moreElement at 1; rewrite run_seq, run_forwardedSep; simpl.
  - change "" with ("" +:+ "") at 1. rewrite run_sep_fail by done. eauto.
  - simpl in Hl. apply andb_true_iff in Hl as [He Hl].
    pose proof He as [[[Hb Ha]%andb_true_iff _]%andb_true_iff _]%andb_true_iff.
    rewrite str_app_cons, str_app_nil_l.
    rewrite run_sep_app by (done || by apply printElement_head). simpl.
    rewrite run_forwarded_app by (done || by apply printElements_end). simpl.
    destruct (IH Hl) as [ms ->]. simpl. eauto.
Qed.

(** For a well-formed Forwarded header the scheme and the host the server uses are the
    first [proto] and the first [host] pair of the first element, the one the proxy closest to
    the client added; the elements other proxies append and repeated pairs have no effect. *)
Theorem parseForwardedHeader_first (e : FElement) (l : list FElement) :
  wf_felement e = true → forallb wf_felement l = true →
  parseForwardedHeader (printElement e +:+ printElements l) =
  mkProtoAndHost (first_value (elementPairs e) "proto") (first_value (elementPairs e) "host").
Proof.
  intros He Hl. unfold parseForwardedHeader, Forwarded.forwardedList.
  rewrite run_seq_l, run_rule, run_list, run_seq.
  rewrite run_forwarded_app by (done || by apply printElements_end).
  remember (foldl Forwarded.map_insert ∅ (elementPairs e)) as m eqn:Hm. simpl.
  fold forwardedSep. fold moreElement. destruct (run_moreElements l Hl) as [ms ->]. simpl.
  rewrite run_eoi. simpl. by rewrite Hm, !map_insert_lookup, !lookup_empty.
Qed.
End forwarded_facts.

(** The header the URL prefix is read from is named [forward]: a request that carries only the
    standard [Forwarded] header (RFC 7239) has no prefix. *)
Theorem parseUrlPrefix_ignores_forwarded {X : X3} (value : string) :
  parseUrlPrefix [("forwarded", value)] = None.
Proof. done. Qed.

(** Parameter names in another case are not found: the header is parsed as it came. *)
Example forwarded_case_sensitive :
  @parseForwardedHeader x3_ref "Proto=https;Host=h" = mkProtoAndHost None None ∧
  @parseForwardedHeader x3_ref "proto=https;host=h" = mkProtoAndHost (Some "https") (Some "h").
Proof. vm_compute. done. Qed.

(** A parameter whose name only starts with a [q] makes the whole header invalid. *)
Example accept_rejects_qs :
  @parseAcceptHeader x3_ref "application/yang-data+xml;qs=1" = Ok [].
Proof. vm_compute. reflexivity. Qed.

(** ** Samples *)

Lemma parseAcceptHeader_total_witness :
  ∃ l, @parseAcceptHeader x3_ref "*/*;q=2, x/y;q=-1" = Ok l ∧ Forall media_text l.
Proof. exact (@parseAcceptHeader_total x3_ref x3_ref_laws "*/*;q=2, x/y;q=-1"). Defined.

Definition sample_types : list MediaType :=
  [mkMediaType (mkMime "text" "*") [("q", "0.5")]; mkMediaType (mkMime "a" "b") [("Q", "0.5")];
   mkMediaType (mkMime "c" "d") [("q", "0")]].
Lemma parseAcceptHeader_ranking_witness :
  ∃ ranked : list (spec_float * MediaType),
    @parseAcceptHeader x3_ref "text/*;q=0.5,a/b;Q=0.5,c/d;q=0" = Ok ((λ x, mimeText x.2) <$> ranked) ∧
    ranked ≡ₚ candidates sample_types ∧
    StronglySorted preferred ranked ∧
    ∀ z, is_nan z.1 = false → filter (ties z) ranked = filter (ties z) (candidates sample_types).
Proof.
  apply (@parseAcceptHeader_ranking x3_ref x3_ref_laws "text/*;q=0.5,a/b;Q=0.5,c/d;q=0" sample_types);
    vm_compute; reflexivity.
Defined.

Definition sample_item : PItem :=
  mkPItem "" " " (mkMime "application" "yang-data+json")
    [mkPParam " " "" "q" "0.75" false; mkPParam "" " " "charset" (String dquote_char "x") true].
Lemma parseMediaTypes_roundtrip_witness :
  @parseMediaTypes x3_ref (printAccept sample_item [mkPItem "" "  " (mkMime "*" "*") []] " ") =
  Some (itemValue <$> [sample_item; mkPItem "" "  " (mkMime "*" "*") []]).
Proof.
  apply (@parseMediaTypes_roundtrip x3_ref x3_ref_laws sample_item
           [mkPItem "" "  " (mkMime "*" "*") []] " "); vm_compute; reflexivity.
Defined.

Definition sample_element : FElement :=
  mkFElement "" "" (mkFPair "proto" "https" false) [mkFPair "host" "example.net:10443" true;
    mkFPair "proto" "http" false].
Lemma parseForwardedHeader_first_witness :
  @parseForwardedHeader x3_ref
    (printElement sample_element +:+ printElements [mkFElement " " " " (mkFPair "proto" "http" false) []]) =
  mkProtoAndHost (first_value (elementPairs sample_element) "proto")
    (first_value (elementPairs sample_element) "host").
Proof.
  apply (@parseForwardedHeader_first x3_ref x3_ref_laws sample_element
           [mkFElement " " " " (mkFPair "proto" "http" false) []]); vm_compute; reflexivity.
Defined.
