(* ===== verification/DataFormat.v ===== *)
(** * DataFormat: the request and response encodings, [restconf/utils/dataformat.cpp]

    Indexing a vector out of range is undefined behaviour, written [Throw (EUndefined _)]:
    [chooseDataEncoding_spec] shows that no header leads to it. *)

From S2P Require Import Prelude Exceptions UriTypes X3 Double StableSort HttpUtils HttpUtilsFacts.

(** [libyang::DataFormat]: [JSON] or [XML]; a value other than these cannot be written. *)
Definition asMimeType (dataFormat : DataFormat) : string :=
  match dataFormat with
  | JSON => "application/yang-data+json"
  | XML => "application/yang-data+xml"
  end.

Inductive MimeTypeWildcards := ALLOWED | FORBIDDEN.

(** [boost::split(tokens, s, boost::is_any_of("/"))] *)
Fixpoint split (s : string) : list string :=
  match s with
  | "" => [""]
  | String c s =>
      if is_char "/" c then "" :: split s
      else match split s with t :: ts => String c t :: ts | [] => [String c ""] end
  end.

(** [tokens[i]] *)
Definition index (tokens : list string) (i : nat) : M string :=
  match tokens !! i with
  | Some x => Ok x
  | None => Throw (EUndefined "vector index out of range")
  end.
Definition eq_M (a b : M string) : M bool := x ← a; y ← b; Ok (bool_decide (x = y)).
(** [a && b] and [a || b] evaluate [b] only if needed. *)
Definition and_M (a b : M bool) : M bool := x ← a; if x : bool then b else Ok false.
Definition or_M (a b : M bool) : M bool := x ← a; if x : bool then Ok true else b.

Definition mimeMatch (providedMime applicationMime : string) (wildcards : MimeTypeWildcards) : M bool :=
  let tokensMime := split providedMime in
  let tokensApplicationMime := split applicationMime in
  let exact := and_M (eq_M (index tokensMime 0) (index tokensApplicationMime 0))
                     (eq_M (index tokensMime 1) (index tokensApplicationMime 1)) in
  match wildcards with
  | ALLOWED =>
      any ← eq_M (index tokensMime 0) (Ok "*");
      if any : bool then Ok true
      else
        sub ← and_M (eq_M (index tokensMime 0) (index tokensApplicationMime 0))
                    (eq_M (index tokensMime 1) (Ok "*"));
        if sub : bool then Ok true else exact
  | FORBIDDEN => exact
  end.

Definition dataTypeFromMimeType (mime : string) (wildcards : MimeTypeWildcards) : M (option DataFormat) :=
  let mime := lower mime in
  json ← or_M (mimeMatch mime (asMimeType JSON) wildcards)
              (mimeMatch mime "application/yang-patch+json" wildcards);
  if json : bool then Ok (Some JSON)
  else
    xml ← or_M (mimeMatch mime (asMimeType XML) wildcards)
               (mimeMatch mime "application/yang-patch+xml" wildcards);
    if xml : bool then Ok (Some XML) else Ok None.

(** [struct DataFormat] *)
Record DataEncoding := mkDataEncoding { request : option DataFormat; response : DataFormat }.

(** The loop that takes the first acceptable type. *)
Fixpoint firstSupported (acceptTypes : list string) : M (option DataFormat) :=
  match acceptTypes with
  | [] => Ok None
  | mediaType :: rest =>
      type ← dataTypeFromMimeType mediaType ALLOWED;
      match type with Some type => Ok (Some type) | None => firstSupported rest end
  end.

Section choose.
Context {X : X3}.

(** An absent header gives an empty vector. *)
Definition parseHeader (headers : header_map) (name : string) : M (list string) :=
  match getHeaderValue headers name with
  | Some value => parseAcceptHeader value
  | None => Ok []
  end.

Definition chooseDataEncoding (headers : header_map) : M DataEncoding :=
  acceptTypes ← parseHeader headers "accept";
  contentTypes ← parseHeader headers "content-type";
  let contentType := last contentTypes in
  resAccept ←
    (if bool_decide (acceptTypes = []) then Ok None
     else
       r ← firstSupported acceptTypes;
       match r with
       | Some type => Ok (Some type)
       | None => throwResponse 406 "application" "operation-not-supported" "No requested format supported"
       end);
  resContentType ←
    match contentType with
    | Some contentType =>
        r ← dataTypeFromMimeType contentType FORBIDDEN;
        match r with
        | Some type => Ok (Some type)
        | None =>
            throwResponse 415 "application" "operation-not-supported"
              "content-type format value not supported"
        end
    | None => Ok None
    end;
  let resAccept := match resAccept with Some _ => resAccept | None => resContentType end in
  Ok (mkDataEncoding resContentType (default JSON resAccept)).
End choose.

(** ** What is supported *)

(** The format a media type stands for; ranges are accepted in the [Accept] header only and
    stand for the server's preferred format. *)
Definition supported (wildcards : MimeTypeWildcards) (mime : string) : option DataFormat :=
  if decide (mime ∈ ["application/yang-data+json"; "application/yang-patch+json"]) then Some JSON
  else if decide (mime ∈ ["application/yang-data+xml"; "application/yang-patch+xml"]) then Some XML
  else match wildcards with
       | ALLOWED => if decide (mime ∈ ["*/*"; "application/*"]) then Some JSON else None
       | FORBIDDEN => None
       end.

Definition no_slash (s : string) : bool := str_forall (λ c, negb (is_char "/" c)) s.
Lemma split_no_slash s : no_slash s = true → split s = [s].
Proof.
  induction s as [|c s IH]; [done|]. unfold no_slash in *. simpl.
  intros [Hc%negb_true_iff Hs]%andb_true_iff. by rewrite Hc, IH.
Qed.
Lemma split_slash t s :
  no_slash t = true → no_slash s = true → split (t +:+ "/" +:+ s) = [t; s].
Proof.
  intros Ht Hs. induction t as [|c t IH].
  - rewrite str_app_nil_l, str_app_cons, str_app_nil_l. simpl. by rewrite split_no_slash.
  - unfold no_slash in Ht. simpl in Ht. apply andb_true_iff in Ht as [Hc%negb_true_iff Ht].
    rewrite str_app_cons. simpl. by rewrite Hc, IH.
Qed.
Lemma slash_eq t s a b :
  no_slash t = true → no_slash s = true → no_slash a = true → no_slash b = true →
  t +:+ "/" +:+ s = a +:+ "/" +:+ b ↔ t = a ∧ s = b.
Proof.
  intros Ht Hs Ha Hb. split; [|by intros [-> ->]]. intros H%(f_equal split).
  rewrite !split_slash in H by done. by simplify_eq.
Qed.

Lemma idc_no_slash s : str_forall idc s = true → no_slash s = true.
Proof. apply str_forall_impl. by_all_chars. Qed.
Lemma is_subtype_no_slash s : is_subtype s = true → no_slash s = true.
Proof.
  unfold is_subtype. destruct (span idc s) as [a r] eqn:E. apply span_spec in E as (-> & Ha & _).
  intros [_ Hr]%andb_true_iff. unfold no_slash. rewrite str_forall_app.
  fold (no_slash a). rewrite idc_no_slash by done. simpl.
  destruct r as [|c r]; [done|]. apply andb_true_iff in Hr as [Hc Hr].
  apply is_char_true in Hc as <-. simpl. by apply idc_no_slash, is_ident_forall.
Qed.
(** The two tokens of a parsed media type. *)
Lemma media_text_tokens x :
  media_text x → ∃ t s, x = t +:+ "/" +:+ s ∧ no_slash t = true ∧ no_slash s = true ∧
                        lower x = x ∧ (t = "*" → s = "*").
Proof.
  intros ([t s] & Hw & Ht & Hs & ->). simpl in *. exists t, s. split; [done|].
  assert (lower (t +:+ "/" +:+ s) = t +:+ "/" +:+ s) as Hl.
  { unfold lower in *. rewrite !str_map_app, <- Ht, <- Hs. done. }
  unfold wf_mime in Hw. simpl in Hw.
  apply orb_true_iff in Hw as [[->%bool_decide_eq_true ->%bool_decide_eq_true]%andb_true_iff|
    [Hi Hw]%andb_true_iff]; [done|].
  split; [by apply idc_no_slash, is_ident_forall|].
  split; [|split; [done|by intros ->]].
  apply orb_true_iff in Hw as [->%bool_decide_eq_true|Hw]; [done|by apply is_subtype_no_slash].
Qed.
Lemma mimeMatch_tokens t s a b w :
  no_slash t = true → no_slash s = true → no_slash a = true → no_slash b = true →
  mimeMatch (t +:+ "/" +:+ s) (a +:+ "/" +:+ b) w =
  Ok (match w with
      | ALLOWED => bool_decide (t = "*" ∨ t = a ∧ s = "*" ∨ t = a ∧ s = b)
      | FORBIDDEN => bool_decide (t = a ∧ s = b)
      end).
Proof.
  intros Ht Hs Ha Hb. unfold mimeMatch. rewrite !split_slash by done.
  unfold eq_M, and_M. cbn -[bool_decide].
  destruct w; repeat (case_bool_decide; cbn -[bool_decide]); try done; naive_solver.
Qed.
(** The media types the server knows besides the two ranges. *)
Definition known_subtypes : list string :=
  ["yang-data+json"; "yang-patch+json"; "yang-data+xml"; "yang-patch+xml"].
Lemma dataTypeFromMimeType_known x w :
  x = "*/*" ∨ (∃ s, s ∈ "*" :: known_subtypes ∧ x = "application/" +:+ s) →
  dataTypeFromMimeType x w = Ok (supported w x).
Proof.
  intros [->|(s & Hs & ->)]; [by destruct w; vm_compute|].
  unfold known_subtypes in Hs. rewrite !elem_of_cons, elem_of_nil in Hs.
  destruct Hs as [->|[->|[->|[->|[->|[]]]]]]; destruct w; vm_compute; reflexivity.
Qed.
Lemma dataTypeFromMimeType_unknown t s w :
  no_slash t = true → no_slash s = true → lower (t +:+ "/" +:+ s) = t +:+ "/" +:+ s →
  t ≠ "*" → ¬ (t = "application" ∧ s ∈ "*" :: known_subtypes) →
  dataTypeFromMimeType (t +:+ "/" +:+ s) w = Ok None ∧ supported w (t +:+ "/" +:+ s) = None.
Proof.
  intros Ht Hs Hl Hstar Hk.
  assert (∀ b, b ∈ "*" :: known_subtypes → t +:+ "/" +:+ s ≠ "application/" +:+ b) as Hne.
  { intros b Hb He. apply Hk. change ("application/" +:+ b) with ("application" +:+ "/" +:+ b) in He.
    apply slash_eq in He as [-> ->]; [done|done|done|done|].
    unfold known_subtypes in Hb. rewrite !elem_of_cons, elem_of_nil in Hb.
    by destruct Hb as [->|[->|[->|[->|[->|[]]]]]]. }
  assert (∀ b w', b ∈ known_subtypes →
    mimeMatch (t +:+ "/" +:+ s) ("application/" +:+ b) w' = Ok false) as Hm.
  { intros b w' Hb. change ("application/" +:+ b) with ("application" +:+ "/" +:+ b).
    rewrite mimeMatch_tokens; [|done|done|done|].
    - destruct w'; rewrite bool_decide_false; try done; intros H; apply Hk.
      + destruct H as [?|[[? ->]|[? ->]]]; [done|split; [done|by left]|split; [done|by right]].
      + destruct H as [? ->]. split; [done|by right].
    - unfold known_subtypes in Hb. rewrite !elem_of_cons, elem_of_nil in Hb.
      by destruct Hb as [->|[->|[->|[->|[]]]]]. }
  split.
  - unfold dataTypeFromMimeType, or_M. rewrite Hl.
    rewrite (Hm "yang-data+json"), (Hm "yang-patch+json"), (Hm "yang-data+xml"), (Hm "yang-patch+xml");
      [done|..]; unfold known_subtypes; rewrite !elem_of_cons; tauto.
  - assert (t +:+ "/" +:+ s ≠ "*/*") as Hs'.
    { intros He. change "*/*" with ("*" +:+ "/" +:+ "*") in He. by apply slash_eq in He as [-> _]. }
    pose proof (Hne "*") as H1. pose proof (Hne "yang-data+json") as H2.
    pose proof (Hne "yang-patch+json") as H3. pose proof (Hne "yang-data+xml") as H4.
    pose proof (Hne "yang-patch+xml") as H5.
    unfold known_subtypes in *. rewrite !elem_of_cons in H1, H2, H3, H4, H5.
    unfold supported. rewrite !decide_False; [by destruct w|..];
      rewrite ?not_elem_of_cons; repeat split; try apply not_elem_of_nil; tauto.
Qed.
Lemma dataTypeFromMimeType_supported x w :
  media_text x → dataTypeFromMimeType x w = Ok (supported w x).
Proof.
  intros (t & s & -> & Ht & Hs & Hl & Hw)%media_text_tokens.
  destruct (decide (t = "*")) as [->|Hstar].
  { apply dataTypeFromMimeType_known. left. by rewrite Hw. }
  destruct (decide (t = "application" ∧ s ∈ "*" :: known_subtypes)) as [[-> Hk]|Hk].
  { apply dataTypeFromMimeType_known. right. by exists s. }
  by destruct (dataTypeFromMimeType_unknown t s w) as [-> ->].
Qed.

Lemma firstSupported_spec l :
  Forall media_text l →
  (∃ pre x post f, l = pre ++ x :: post ∧ Forall (λ y, supported ALLOWED y = None) pre ∧
     supported ALLOWED x = Some f ∧ firstSupported l = Ok (Some f)) ∨
  (Forall (λ y, supported ALLOWED y = None) l ∧ firstSupported l = Ok None).
Proof.
  induction 1 as [|x l Hx _ IH]; [right; by split|]. cbn [firstSupported].
  rewrite dataTypeFromMimeType_supported by done. rewrite bind_Ok.
  destruct (supported ALLOWED x) as [f|] eqn:Hf; [left; by exists [], x, l, f|].
  destruct IH as [(pre & y & post & f & -> & Hp & Hy & ->)|[Hl ->]].
  - left. exists (x :: pre), y, post, f. repeat split; [by constructor|done].
  - right. split; [by constructor|done].
Qed.

Section choose_facts.
Context {X : X3} {HX : X3Laws X}.

Lemma parseHeader_total headers name :
  ∃ l, parseHeader headers name = Ok l ∧ Forall media_text l.
Proof.
  unfold parseHeader. destruct (getHeaderValue headers name); [apply parseAcceptHeader_media|].
  by exists [].
Qed.

(** What the content type decides, once the [Accept] header is dealt with. *)
Definition contentOutcome (content : list string) : M (option DataFormat) :=
  match last content with
  | Some c =>
      match supported FORBIDDEN c with
      | Some f => Ok (Some f)
      | None =>
          throwResponse 415 "application" "operation-not-supported"
            "content-type format value not supported"
      end
  | None => Ok None
  end.
Lemma contentOutcome_eq content :
  Forall media_text content →
  match last content with
  | Some contentType =>
      r ← dataTypeFromMimeType contentType FORBIDDEN;
      match r with
      | Some type => Ok (Some type)
      | None =>
          throwResponse 415 "application" "operation-not-supported"
            "content-type format value not supported"
      end
  | None => Ok None
  end = contentOutcome content.
Proof.
  intros H. unfold contentOutcome. destruct (last content) as [c|] eqn:E; [|done].
  apply last_Some in E as [l ->]. apply Forall_app in H as [_ H]. apply Forall_cons in H as [H _].
  by rewrite dataTypeFromMimeType_supported.
Qed.

(** What the headers of a request ask for, as a relation on the parsed media types. *)
Definition encoding_contract (accept content : list string) (r : M DataEncoding) : Prop :=
  match r with
  | Ok enc =>
      request enc = (last content ≫= supported FORBIDDEN) ∧
      (content ≠ [] → is_Some (request enc)) ∧
      (accept = [] → response enc = default JSON (request enc)) ∧
      (accept ≠ [] → ∃ pre x post, accept = pre ++ x :: post ∧
         Forall (λ y, supported ALLOWED y = None) pre ∧
         supported ALLOWED x = Some (response enc))
  | Throw (EResponse e) =>
      (code e = 406%Z ∧ accept ≠ [] ∧ Forall (λ y, supported ALLOWED y = None) accept) ∨
      (code e = 415%Z ∧ ∃ c, last content = Some c ∧ supported FORBIDDEN c = None)
  | Throw _ => False
  end.

(** C35: [chooseDataEncoding] never has undefined behaviour and fails only with 406, when the
    request lists acceptable types and the server supports none of them, or with 415, when the
    content type of the request is not supported.  Otherwise the response format is the one of
    the most preferred supported type of the Accept header; without one it is the format of the
    request body, or JSON. *)
Theorem chooseDataEncoding_spec (headers : header_map) :
  ∃ accept content,
    parseHeader headers "accept" = Ok accept ∧ parseHeader headers "content-type" = Ok content ∧
    encoding_contract accept content (chooseDataEncoding headers).
Proof.
  destruct (parseHeader_total headers "accept") as (accept & Ha & Hma).
  destruct (parseHeader_total headers "content-type") as (content & Hc & Hmc).
  exists accept, content. split; [done|]. split; [done|].
  unfold chooseDataEncoding. rewrite Ha, Hc, !bind_Ok, contentOutcome_eq by done. clear Ha Hc.
  unfold contentOutcome.
  assert (last content = None → content = []) as Hnil by apply last_None.
  case_bool_decide as Hn;
    [rewrite bind_Ok|destruct (firstSupported_spec accept Hma)
      as [(pre & x & post & f & Hl & Hp & Hx & ->)|[Hl ->]]; simpl; [|left; eauto]];
    (destruct (last content) as [c|] eqn:El; [destruct (supported FORBIDDEN c) eqn:Es|]); simpl;
    rewrite ?El; simpl; rewrite ?Es; naive_solver eauto 10.
Qed.
End choose_facts.

Lemma chooseDataEncoding_spec_witness :
  ∃ accept content,
    @parseHeader x3_ref [("accept", "text/html, application/yang-data+xml;q=0.3")] "accept" = Ok accept ∧
    @parseHeader x3_ref [("accept", "text/html, application/yang-data+xml;q=0.3")] "content-type" = Ok content ∧
    encoding_contract accept content
      (@chooseDataEncoding x3_ref [("accept", "text/html, application/yang-data+xml;q=0.3")]).
Proof.
  exact (@chooseDataEncoding_spec x3_ref x3_ref_laws
           [("accept", "text/html, application/yang-data+xml;q=0.3")]).
Defined.

(** A quality of zero only drops the entry: the refused format is still chosen through a range,
    and a header that refuses everything counts as no header. *)
Example refused_format_chosen :
  @chooseDataEncoding x3_ref [("accept", "application/yang-data+json;q=0, */*")] =
    Ok (mkDataEncoding None JSON) ∧
  @chooseDataEncoding x3_ref [("accept", "*/*;q=0")] = Ok (mkDataEncoding None JSON).
Proof. split; vm_compute; reflexivity. Qed.
