(* ===== verification/Nacm.v ===== *)
(** * Nacm: the gate for anonymous access, [auth/Nacm.cpp]

    The NACM configuration is a libyang data tree; [DataTree] has the three operations the
    code uses.  A dereference of an empty optional is [Throw (EUndefined _)].  The rules are
    given a meaning by [decide_list], the rule processing of RFC 8341 (section 3.4.4,
    steps 6 to 9) that sysrepo implements: the first rule that matches a request decides.  *)

From S2P Require Import Prelude Exceptions.

Class DataTree : Type := {
  Node : Type;
  findXPath : Node → string → list Node;
  findPath : Node → string → option Node;
  valueStr : Node → string               (** [asTerm().valueStr()] *)
}.

(** [findPath] finds the node that [findXPath] lists, and nothing if there is none.  A rule
    always has an action, which is mandatory, and the leaves with default values. *)
Class DataTreeLaws (T : DataTree) (isRule : Node → Prop) : Prop := {
  findPath_head n p : findPath n p = head (findXPath n p);
  rule_complete n p : isRule n → p ∈ ["action"; "module-name"; "access-operations"] → is_Some (findPath n p)
}.

Section nacm.
Context {T : DataTree}.
(** [NacmIdentities.h], set by the build *)
Context (ANONYMOUS_USER ANONYMOUS_USER_GROUP : string).

Definition isWhitelistedRPC (moduleNameNode rpcNameNode : option Node) : bool :=
  match moduleNameNode, rpcNameNode with
  | Some m, Some r =>
      bool_decide (valueStr m = "ietf-subscribed-notifications") &&
      bool_decide (valueStr r = "establish-subscription")
  | _, _ => false
  end.

(** [*nodes.begin()] is evaluated when there is exactly one node. *)
Definition isRuleForAnonymousAccess (rule : Node) : bool :=
  match findXPath rule "access-operations" with
  | [op] =>
      bool_decide (valueStr op = "read") ||
      (bool_decide (valueStr op = "exec") &&
       isWhitelistedRPC (findPath rule "module-name") (findPath rule "rpc-name"))
  | _ => false
  end.

(** [rule.findPath(p)->asTerm().valueStr() == v] *)
Definition leafIs (rule : Node) (p v : string) : M bool :=
  match findPath rule p with
  | Some n => Ok (bool_decide (valueStr n = v))
  | None => Throw (EUndefined "empty optional")
  end.
Definition isRuleWildcardDeny (rule : Node) : M bool :=
  a ← leafIs rule "action" "deny";
  if a : bool then
    m ← leafIs rule "module-name" "*";
    if m : bool then leafIs rule "access-operations" "*" else Ok false
  else Ok false.

(** [data]: what [session.getData("/ietf-netconf-acm:nacm")] returns *)
Definition validAnonymousNacmRules (data : option Node) (anonGroup : string) : M bool :=
  match data with
  | None => Ok false
  | Some data =>
      match findXPath data "/ietf-netconf-acm:nacm/rule-list" with
      | [] => Ok false
      | firstRuleSet :: _ =>
          let rules := findXPath firstRuleSet "rule" in
          let groups := findXPath firstRuleSet "group" in
          if negb (existsb (λ e, bool_decide (valueStr e = anonGroup)) groups) then Ok false
          else match last rules with
               | None => Ok false
               | Some back =>
                   if negb (forallb isRuleForAnonymousAccess (removelast rules)) then Ok false
                   else isRuleWildcardDeny back
               end
      end
  end.

(** [Nacm::m_anonymousEnabled], false until the first change is reported *)
Record Nacm := mkNacm { m_anonymousEnabled : bool }.
Definition newNacm : Nacm := mkNacm false.

(** The callback of [onModuleChange] *)
Definition onModuleChange (data : option Node) (nacm : Nacm) : M Nacm :=
  valid ← validAnonymousNacmRules data ANONYMOUS_USER_GROUP;
  Ok (mkNacm valid).

(** [sysrepo::Session], as far as it matters here: the user its accesses are checked for *)
Record Session := mkSession { nacmUser : option string }.

Definition authorize (nacm : Nacm) (session : Session) (user : string) : Session * bool :=
  if bool_decide (user = ANONYMOUS_USER) && negb (m_anonymousEnabled nacm) then (session, false)
  else (mkSession (Some user), true).

(** ** What the rules mean *)

Inductive AccessOperation := Create | Read | Update | Delete | Exec.
#[export] Instance AccessOperation_eq_dec : EqDecision AccessOperation.
Proof. solve_decision. Defined.
Definition op_name (op : AccessOperation) : string :=
  match op with
  | Create => "create" | Read => "read" | Update => "update" | Delete => "delete" | Exec => "exec"
  end.

(** An access to check: the module and the operation, and the RPC for an execution. *)
Record Access := mkAccess { acc_module : string; acc_op : AccessOperation; acc_rpc : option string }.

(** The words of a [bits] value. *)
Fixpoint words (s : string) : list string :=
  match s with
  | "" => [""]
  | String c s =>
      if is_char " " c then "" :: words s
      else match words s with w :: ws => String c w :: ws | [] => [String c ""] end
  end.
(** [data_match] decides for rules on notifications and on paths. *)
Context (data_match : Node → Access → bool).

Definition leaf_matches (rule : Node) (p : string) (test : string → bool) (absent : bool) : bool :=
  match findPath rule p with Some n => test (valueStr n) | None => absent end.
Definition rule_matches (rule : Node) (a : Access) : bool :=
  leaf_matches rule "module-name" (λ v, bool_decide (v = "*" ∨ v = acc_module a)) true &&
  leaf_matches rule "access-operations"
    (λ v, bool_decide (v = "*" ∨ op_name (acc_op a) ∈ words v)) true &&
  leaf_matches rule "rpc-name" (λ v, bool_decide (acc_rpc a = Some v ∨ v = "*" ∧ is_Some (acc_rpc a))) true &&
  (if bool_decide (findPath rule "path" = None ∧ findPath rule "notification-name" = None) then true
   else data_match rule a).
Definition permits (rule : Node) : bool :=
  leaf_matches rule "action" (λ v, bool_decide (v = "permit")) false.

(** The decision of a list of rules, if one of them matches. *)
Fixpoint decide_list (rules : list Node) (a : Access) : option bool :=
  match rules with
  | [] => None
  | r :: rules => if rule_matches r a then Some (permits r) else decide_list rules a
  end.

(** What an anonymous user may be allowed to do at most. *)
Definition harmless (a : Access) : Prop :=
  acc_op a = Read ∨
  (acc_op a = Exec ∧ acc_module a = "ietf-subscribed-notifications" ∧
   acc_rpc a = Some "establish-subscription").
(** The rule applies to everything in the modules it names. *)
Definition unrestricted (rule : Node) : Prop :=
  findPath rule "rpc-name" = None ∧ findPath rule "path" = None ∧ findPath rule "notification-name" = None.
End nacm.

Arguments rule_matches : simpl never.
Arguments permits : simpl never.

Section facts.
Context {T : DataTree} {isRule : Node → Prop} {HT : DataTreeLaws T isRule}.
Context (ANONYMOUS_USER ANONYMOUS_USER_GROUP : string) (data_match : Node → Access → bool).

Lemma leaf_matches_true rule p test absent n :
  findPath rule p = Some n → leaf_matches rule p test absent = true → test (valueStr n) = true.
Proof. unfold leaf_matches. by intros ->. Qed.
Lemma op_name_words op v : words v = [v] → op_name op ∈ words v → op_name op = v.
Proof. intros ->. by rewrite list_elem_of_singleton. Qed.

(** A rule that passes the check only ever matches harmless accesses. *)
Lemma anonymous_rule_harmless rule a :
  isRuleForAnonymousAccess rule = true → rule_matches data_match rule a = true → harmless a.
Proof.
  unfold isRuleForAnonymousAccess, rule_matches. intros Hr Hm.
  apply andb_true_iff in Hm as [[[Hmod Hop]%andb_true_iff Hrpc]%andb_true_iff _].
  destruct (findXPath rule "access-operations") as [|op [|]] eqn:Eop; [done| |done].
  assert (findPath rule "access-operations" = Some op) as Hp by by rewrite findPath_head, Eop.
  eapply leaf_matches_true in Hop; [|exact Hp]. apply bool_decide_eq_true in Hop.
  apply orb_true_iff in Hr as [Hv%bool_decide_eq_true|[Hv%bool_decide_eq_true Hw]%andb_true_iff];
    rewrite Hv in Hop; (destruct Hop as [?|Hop]; [done|]); apply op_name_words in Hop; try done.
  - left. by destruct (acc_op a).
  - right. split; [by destruct (acc_op a)|]. unfold isWhitelistedRPC in Hw.
    destruct (findPath rule "module-name") as [m|] eqn:Em; [|done].
    destruct (findPath rule "rpc-name") as [r|] eqn:Er; [|done].
    apply andb_true_iff in Hw as [Hm%bool_decide_eq_true Hr%bool_decide_eq_true].
    eapply leaf_matches_true in Hmod; [|exact Em]. eapply leaf_matches_true in Hrpc; [|exact Er].
    apply bool_decide_eq_true in Hmod, Hrpc. rewrite Hm in Hmod. rewrite Hr in Hrpc.
    split; [by destruct Hmod|by destruct Hrpc as [?|[? _]]].
Qed.

Lemma leafIs_true rule p v :
  leafIs rule p v = Ok true → ∃ n, findPath rule p = Some n ∧ valueStr n = v.
Proof.
  unfold leafIs. destruct (findPath rule p) as [n|]; [|done]. intros [= H%bool_decide_eq_true]. eauto.
Qed.
Lemma isRuleWildcardDeny_true rule :
  isRuleWildcardDeny rule = Ok true →
  (∃ n, findPath rule "action" = Some n ∧ valueStr n = "deny") ∧
  (∃ n, findPath rule "module-name" = Some n ∧ valueStr n = "*") ∧
  (∃ n, findPath rule "access-operations" = Some n ∧ valueStr n = "*").
Proof.
  unfold isRuleWildcardDeny.
  destruct (leafIs rule "action" "deny") as [[]|] eqn:Ha; simpl; [|done..].
  destruct (leafIs rule "module-name" "*") as [[]|] eqn:Hm; simpl; [|done..].
  intros Ho. auto using leafIs_true.
Qed.
(** Without a restriction to an RPC, a path or a notification, the last rule denies everything. *)
Lemma wildcard_deny_matches rule a :
  isRuleWildcardDeny rule = Ok true → unrestricted rule →
  rule_matches data_match rule a = true ∧ permits rule = false.
Proof.
  intros ((n & Ha & Hav) & (m & Hm & Hmv) & (o & Ho & Hov))%isRuleWildcardDeny_true (Hr & Hp & Hn).
  unfold rule_matches, permits, leaf_matches. rewrite Ha, Hm, Ho, Hr, Hav, Hmv, Hov.
  rewrite !bool_decide_true by auto. done.
Qed.

Lemma decide_list_snoc rules back a :
  (∀ r, r ∈ rules → rule_matches data_match r a = true → harmless a) →
  rule_matches data_match back a = true → permits back = false →
  ∃ b, decide_list data_match (rules ++ [back]) a = Some b ∧ (b = true → harmless a).
Proof.
  intros Hr Hm Hp. induction rules as [|r rules IH]; simpl.
  - rewrite Hm, Hp. by exists false.
  - destruct (rule_matches data_match r a) eqn:E.
    + eexists. split; [done|]. intros _. apply (Hr r); [by left|done].
    + apply IH. intros r' Hin. apply Hr. by right.
Qed.

Lemma removelast_last (rules : list Node) back : last rules = Some back → rules = removelast rules ++ [back].
Proof.
  intros [l ->]%last_Some. by rewrite List.removelast_last.
Qed.
Lemma validAnonymousNacmRules_true data group :
  validAnonymousNacmRules data group = Ok true →
  ∃ root first more back,
    data = Some root ∧ findXPath root "/ietf-netconf-acm:nacm/rule-list" = first :: more ∧
    (∃ g, g ∈ findXPath first "group" ∧ valueStr g = group) ∧
    last (findXPath first "rule") = Some back ∧
    (∀ r, r ∈ removelast (findXPath first "rule") → isRuleForAnonymousAccess r = true) ∧
    isRuleWildcardDeny back = Ok true.
Proof.
  unfold validAnonymousNacmRules. destruct data as [root|]; [|done].
  destruct (findXPath root _) as [|first more] eqn:El; [done|].
  destruct (existsb _ _) eqn:Eg; simpl; [|done].
  destruct (last (findXPath first "rule")) as [back|] eqn:Eb; [|done].
  destruct (forallb _ _) eqn:Ea; simpl; [|done]. intros Hd.
  exists root, first, more, back. repeat split; try done.
  - apply List.existsb_exists in Eg as (g & Hg & Hv%bool_decide_eq_true).
    exists g. split; [by apply list_elem_of_In|done].
  - apply forallb_Forall in Ea. by rewrite Forall_forall in Ea.
Qed.

(** C32: if the rules pass [validAnonymousNacmRules] and the final deny rule is not narrowed to
    an RPC, a notification or a path, then the first rule list, which is the one of the anonymous
    group, decides every access by itself, and permits at most reading and the RPC that
    establishes a subscription. *)
Theorem anonymous_rules_harmless (data : option Node) (group : string) :
  validAnonymousNacmRules data group = Ok true →
  ∃ root first more back,
    data = Some root ∧ findXPath root "/ietf-netconf-acm:nacm/rule-list" = first :: more ∧
    (∃ g, g ∈ findXPath first "group" ∧ valueStr g = group) ∧
    last (findXPath first "rule") = Some back ∧
    (unrestricted back → ∀ a, ∃ permitted,
       decide_list data_match (findXPath first "rule") a = Some permitted ∧
       (permitted = true → harmless a)).
Proof.
  intros (root & first & more & back & Hd & Hl & Hg & Hb & Hr & Hw)%validAnonymousNacmRules_true.
  exists root, first, more, back. repeat split; try done. intros Hu a.
  rewrite (removelast_last _ _ Hb). destruct (wildcard_deny_matches back a Hw Hu).
  apply decide_list_snoc; [|done|done]. intros r Hin. by apply anonymous_rule_harmless, Hr.
Qed.

(** The reports of the NACM configuration the server has received, the latest first, and the
    state they left. *)
Inductive reported : list (option Node) → Nacm → Prop :=
| reported_none : reported [] newNacm
| reported_change reports nacm data nacm' :
    reported reports nacm → onModuleChange ANONYMOUS_USER_GROUP data nacm = Ok nacm' →
    reported (data :: reports) nacm'.

Lemma reported_enabled reports nacm :
  reported reports nacm → m_anonymousEnabled nacm = true →
  ∃ data rest, reports = data :: rest ∧
    validAnonymousNacmRules data ANONYMOUS_USER_GROUP = Ok true.
Proof.
  intros [|reports' nacm0 data nacm' _ H]; [done|]. unfold onModuleChange in H. inv_result. simpl.
  intros ->. eauto.
Qed.
Lemma authorize_true nacm s user s' :
  authorize ANONYMOUS_USER nacm s user = (s', true) →
  nacmUser s' = Some user ∧ (user = ANONYMOUS_USER → m_anonymousEnabled nacm = true).
Proof.
  unfold authorize. destruct (m_anonymousEnabled nacm); simpl.
  - rewrite andb_false_r. by intros [= <-].
  - rewrite andb_true_r. case_bool_decide; intros; simplify_eq/=. done.
Qed.

(** C33: [Nacm::authorize] lets the anonymous user in only if the NACM configuration reported
    last passes the validation, so never before the first report nor after the rules were
    removed; a session that is refused keeps its user, and any other user is set as asked. *)
Theorem anonymous_gate (reports : list (option Node)) (nacm : Nacm) (s : Session) (user : string) :
  reported reports nacm →
  match authorize ANONYMOUS_USER nacm s user with
  | (s', true) =>
      nacmUser s' = Some user ∧
      (user = ANONYMOUS_USER → ∃ data rest, reports = data :: rest ∧
         validAnonymousNacmRules data ANONYMOUS_USER_GROUP = Ok true)
  | (s', false) => s' = s ∧ user = ANONYMOUS_USER
  end.
Proof.
  intros Hr. destruct (authorize _ nacm s user) as [s' []] eqn:E.
  - apply authorize_true in E as [Hu He]. split; [done|]. intros Hx.
    by eapply reported_enabled, He.
  - unfold authorize in E. destruct (bool_decide_reflect (user = ANONYMOUS_USER)); simpl in E;
      [|done]. destruct (m_anonymousEnabled nacm); simpl in E; by simplify_eq.
Qed.

(** On data that follows the YANG module, where a rule has its mandatory and default
    leaves, the validation has no undefined behaviour and never throws. *)
Theorem validAnonymousNacmRules_total (data : option Node) (group : string) :
  (∀ root l r, data = Some root → l ∈ findXPath root "/ietf-netconf-acm:nacm/rule-list" →
     r ∈ findXPath l "rule" → isRule r) →
  ∃ b, validAnonymousNacmRules data group = Ok b.
Proof.
  intros Hr. unfold validAnonymousNacmRules. destruct data as [root|]; [|eauto].
  destruct (findXPath root _) as [|first more] eqn:El; [eauto|].
  destruct (negb _); [eauto|]. destruct (last _) as [back|] eqn:Eb; [|eauto].
  destruct (negb _); [eauto|].
  assert (isRule back) as Hback.
  { apply (Hr root first); [done|rewrite El; by left|].
    rewrite (removelast_last _ _ Eb). apply elem_of_app. right. by left. }
  assert (∀ p v, p ∈ ["action"; "module-name"; "access-operations"] → ∃ b, leafIs back p v = Ok b) as Hl.
  { intros p v Hp. unfold leafIs. destruct (rule_complete back p Hback Hp) as [n ->]. eauto. }
  unfold isRuleWildcardDeny.
  destruct (Hl "action" "deny") as [[] ->]; [by left| |simpl; eauto]. simpl.
  destruct (Hl "module-name" "*") as [[] ->]; [right; by left| |simpl; eauto]. simpl.
  apply Hl. right. right. by left.
Qed.
End facts.

(** ** A concrete configuration *)

Module NacmSample.
Scheme All for list.
(** A node with the path it is found by, its value and its children. *)
Inductive tree := Tree (path value : string) (children : list tree).
Definition tree_path (t : tree) : string := let 'Tree p _ _ := t in p.
Definition tree_children (t : tree) : list tree := let 'Tree _ _ c := t in c.
Definition tree_value (t : tree) : string := let 'Tree _ v _ := t in v.
Definition at_path (p : string) (t : tree) : bool := bool_decide (tree_path t = p).
#[export] Instance tree_data : DataTree := {|
  Node := tree;
  findXPath n p := List.filter (at_path p) (tree_children n);
  findPath n p := head (List.filter (at_path p) (tree_children n));
  valueStr := tree_value
|}.
Definition complete (n : tree) : Prop :=
  forallb (λ p, match findPath n p with Some _ => true | None => false end)
    ["action"; "module-name"; "access-operations"] = true.
Lemma tree_laws : DataTreeLaws tree_data complete.
Proof.
  split; [done|]. intros n p Hn Hp. unfold complete in Hn. apply forallb_Forall in Hn.
  rewrite Forall_forall in Hn. apply Hn in Hp. simpl in *. by destruct (head _).
Qed.

Definition leaf (p v : string) : tree := Tree p v [].
Definition rule (action module ops : string) (more : list tree) : tree :=
  Tree "rule" "" ([leaf "action" action; leaf "module-name" module; leaf "access-operations" ops] ++ more).
Definition config (more : list tree) : tree :=
  Tree "" "" [Tree "/ietf-netconf-acm:nacm/rule-list" ""
    [leaf "group" "yangnobody"; rule "permit" "ietf-system" "read" [];
     rule "permit" "ietf-subscribed-notifications" "exec" [leaf "rpc-name" "establish-subscription"];
     rule "deny" "*" "*" more]].

Lemma anonymous_rules_harmless_witness :
  ∃ root first more back,
    Some (config []) = Some root ∧
    findXPath root "/ietf-netconf-acm:nacm/rule-list" = first :: more ∧
    (∃ g, g ∈ findXPath first "group" ∧ valueStr g = "yangnobody") ∧
    last (findXPath first "rule") = Some back ∧
    (unrestricted back → ∀ a, ∃ permitted,
       decide_list (λ _ _, false) (findXPath first "rule") a = Some permitted ∧
       (permitted = true → harmless a)).
Proof.
  apply (@anonymous_rules_harmless tree_data complete tree_laws (λ _ _, false) (Some (config [])) "yangnobody").
  vm_compute. reflexivity.
Defined.

Lemma anonymous_gate_witness :
  match authorize "yangnobody" (mkNacm true) (mkSession None) "yangnobody" with
  | (s', true) =>
      nacmUser s' = Some "yangnobody" ∧
      ("yangnobody" = "yangnobody" → ∃ data rest, [Some (config [])] = data :: rest ∧
         validAnonymousNacmRules data "yangnobody" = Ok true)
  | (s', false) => s' = mkSession None ∧ "yangnobody" = "yangnobody"
  end.
Proof.
  apply (@anonymous_gate tree_data "yangnobody" "yangnobody" [Some (config [])]
           (mkNacm true) (mkSession None) "yangnobody").
  apply (@reported_change tree_data "yangnobody" [] newNacm (Some (config [])) (mkNacm true));
    [constructor|vm_compute; reflexivity].
Defined.

Lemma validAnonymousNacmRules_total_witness :
  ∃ b, validAnonymousNacmRules (Some (config [])) "yangnobody" = Ok b.
Proof.
  apply (@validAnonymousNacmRules_total tree_data complete tree_laws (Some (config [])) "yangnobody").
  intros root l r [= <-] Hl Hr. simpl in Hl. apply list_elem_of_singleton in Hl as ->.
  simpl in Hr. rewrite !elem_of_cons, elem_of_nil in Hr.
  destruct Hr as [->|[->|[->|[]]]]; vm_compute; reflexivity.
Defined.

(** The check of the last rule looks at its action, module and operations only.  Narrowed to a
    path or an RPC it passes too, and then accesses outside of it are left to the rule lists that
    follow, although the policy asks for a rule that denies everything. *)
Theorem narrowed_deny_rule_accepted :
  validAnonymousNacmRules (Some (config [leaf "rpc-name" "factory-reset"])) "yangnobody" = Ok true ∧
  decide_list (λ _ _, false)
    (findXPath (hd (config []) (findXPath (config [leaf "rpc-name" "factory-reset"])
       "/ietf-netconf-acm:nacm/rule-list")) "rule")
    (mkAccess "ietf-system" Exec (Some "system-restart")) = None.
Proof. split; vm_compute; reflexivity. Qed.
End NacmSample.
