(* ===== verification/Pam.v ===== *)
(** * Pam: Basic authentication through PAM, [auth/PAM.cpp]

    The header grammars, the base64 decoding, the PAM conversation and the sequence of PAM
    calls.  libpam is a parameter: it answers each call knowing the calls before it and the
    credentials, which it obtains through the conversation function.  Boost's base64
    iterators are a parameter too; [Base64Laws] says that they invert the encoding of RFC
    4648, and [base64_ref] is an implementation. *)

From S2P Require Import Prelude Exceptions X3.

Open Scope x3_scope.

Record UserPass := mkUserPass { username : string; password : string }.

Section grammar.
Context {X : X3}.

Definition base64Blob : parser string :=
  rule "base64Blob"
    (as_string (kleene (alnum <|> char_lit "+" <|> char_lit "/")) <<<
     repeat_upto 2 (lit_char "=")).
(** [no_skip] has no effect without a skipper. *)
Definition headerGrammar : parser string := no_case_lit "basic" >> lit_char " " >> base64Blob.
Definition usernameRule : parser string :=
  rule "username" (as_string (plus_ (diff (char_ any_char) (lit_char ":")))).
Definition passwordRule : parser string := rule "password" (as_string (plus_ (char_ any_char))).
Definition userPass : parser UserPass :=
  cast (λ '(u, p), mkUserPass u p) (usernameRule <<< lit_char ":" >>* passwordRule).
End grammar.

(** [std::string(It(begin), It(end))]: the octets of a base64 text without padding *)
Class Base64 : Type := { b64_octets : string → M string }.

(** [trim_right_copy_if] of NUL characters *)
Fixpoint trim_nul (s : string) : string :=
  match s with
  | "" => ""
  | String c s =>
      match trim_nul s with
      | "" => if is_char "000" c then "" else String c ""
      | t => String c t
      end
  end.

Section auth.
Context {X : X3} {B : Base64}.

Definition b64_decode (val : string) : M string := s ← b64_octets val; Ok (trim_nul s).

(** [x3::parse(iter, end, p >> x3::eoi, attr)] *)
Definition parse_all {A} (p : parser A) (s : string) : option A :=
  match run (p <<< eoi) s with PMatch a _ => Some a | _ => None end.

Definition parseBasicAuth (blob : string) : M UserPass :=
  match parse_all headerGrammar blob with
  | None => Throw (EAuth "Cannot parse the Basic authorization header" None)
  | Some b64 =>
      b64 ← b64_decode b64;
      match parse_all userPass b64 with
      | None => Throw (EAuth "Cannot parse the user-pass authorization blob" None)
      | Some res => Ok res
      end
  end.
End auth.

(** ** The conversation *)

Inductive MsgStyle := PAM_PROMPT_ECHO_ON | PAM_PROMPT_ECHO_OFF | PAM_ERROR_MSG | PAM_TEXT_INFO
| OtherStyle (n : Z).
Inductive ConvResult :=
| ConvSuccess (responses : list (option string))   (** [PAM_SUCCESS], [*resp_r] is set *)
| PAM_BUF_ERR
| PAM_CONV_ERR.

(** [c_str()] ends at the first NUL. *)
Definition c_str (s : string) : string := (span (λ c, negb (is_char "000" c)) s).1.

(** The loop; [alloc] says whether the next call of [strdup] succeeds. *)
Fixpoint conv_loop (up : UserPass) (alloc : list bool) (msgs : list MsgStyle)
    (resp : list (option string)) : ConvResult :=
  match msgs with
  | [] => ConvSuccess resp
  | PAM_PROMPT_ECHO_ON :: msgs =>
      if hd true alloc then conv_loop up (tl alloc) msgs (resp ++ [Some (c_str (username up))])
      else PAM_BUF_ERR
  | PAM_PROMPT_ECHO_OFF :: msgs =>
      if hd true alloc then conv_loop up (tl alloc) msgs (resp ++ [Some (c_str (password up))])
      else PAM_BUF_ERR
  | (PAM_ERROR_MSG | PAM_TEXT_INFO) :: msgs => conv_loop up alloc msgs (resp ++ [None])
  | OtherStyle _ :: _ => PAM_CONV_ERR
  end.
Definition pam_userpass_conv (up : UserPass) (alloc : list bool) (msgs : list MsgStyle) : ConvResult :=
  conv_loop up alloc msgs [].

(** ** The calls *)

Inductive PamCall :=
| PamStart (service user : string)
| PamSetRhost (host : string)
| PamSetFailDelay
| PamAuthenticate
| PamAcctMgmt
| PamGetUser
| PamEnd (status : Z).

Record PamAnswer := mkAnswer {
  ans_res : Z;
  ans_delay : option N;      (** what the call passed to [pam_register_delay] last, if it did *)
  ans_handle : bool;         (** [pam_start] stored a handle *)
  ans_user : string          (** the item [pam_get_item] returned *)
}.
Definition PAM_SUCCESS : Z := 0.

(** [data.delay], [res] and the calls made so far *)
Record PamState := mkPam { p_calls : list (PamCall * PamAnswer); p_delay : option N; p_res : Z }.

Section pam.
Context (pam : UserPass → list (PamCall * PamAnswer) → PamCall → PamAnswer).
Context (pam_strerror : Z → string).

Definition pam_register_delay (usec_delay : option N) (delay : option N) : option N :=
  match usec_delay with Some d => Some (u32 d) | None => delay end.

Definition call (up : UserPass) (c : PamCall) (st : PamState) : PamState :=
  let a := pam up (p_calls st) c in
  mkPam (p_calls st ++ [(c, a)]) (pam_register_delay (ans_delay a) (p_delay st)) (ans_res a).

(** [res = c; check(fun); k] *)
Definition checked {A} (up : UserPass) (c : PamCall) (fn : string) (st : PamState)
    (k : PamState → PamState * M A) : PamState * M A :=
  let st := call up c st in
  if bool_decide (p_res st ≠ PAM_SUCCESS)
  then (st, Throw (EAuth ("PAM: " +:+ fn +:+ ": " +:+ pam_strerror (p_res st)) (p_delay st)))
  else k st.

Definition last_answer (st : PamState) : option PamAnswer := snd <$> last (p_calls st).

(** Everything between [pam_start] and the end of the function. *)
Definition pam_body (up : UserPass) (remoteHost : option string) (st : PamState) : PamState * M string :=
  let rest st :=
    checked up PamSetFailDelay "pam_set_item(PAM_FAIL_DELAY)" st (λ st,
    checked up PamAuthenticate "pam_authenticate" st (λ st,
    checked up PamAcctMgmt "pam_acct_mgmt" st (λ st,
    checked up PamGetUser "pam_get_item(PAM_USER)" st (λ st,
    (st, Ok (from_option ans_user "" (last_answer st))))))) in
  checked up (PamStart "rousette" (c_str (username up))) "pam_start()" st (λ st,
    match remoteHost with
    | Some h => checked up (PamSetRhost (c_str h)) "pam_set_item(PAM_RHOST)" st rest
    | None => rest st
    end).

(** The destructor of the guard ends the transaction, unless [pam_start] left no handle. *)
Definition pamh_deleter (up : UserPass) (st : PamState) : PamState :=
  match head (p_calls st) with
  | Some (_, a) => if ans_handle a then call up (PamEnd (p_res st)) st else st
  | None => st
  end.

Definition authenticate_pam (up : UserPass) (remoteHost : option string) : PamState * M string :=
  let '(st, r) := pam_body up remoteHost (mkPam [] None PAM_SUCCESS) in (pamh_deleter up st, r).

Context {X : X3} {B : Base64}.

(** The public overload: the header is parsed first. *)
Definition authenticate_pam_blob (blob : string) (remoteHost : option string) : M string :=
  up ← parseBasicAuth blob; (authenticate_pam up remoteHost).2.
End pam.
