(* ===== verification/PamFacts.v ===== *)
(** * PamFacts: what Basic authentication guarantees *)

From S2P Require Import Prelude Exceptions X3 Pam.

Open Scope x3_scope.

(** ** Base64 (RFC 4648, section 4) *)

Definition b64_char (n : N) : ascii :=
  Ascii.ascii_of_N
    (if N.ltb n 26 then 65 + n else if N.ltb n 52 then 71 + n
     else if N.ltb n 62 then n - 4 else if N.eqb n 62 then 43 else 47).
Definition b64_value (c : ascii) : N :=
  let n := Ascii.N_of_ascii c in
  if is_upper c then n - 65 else if is_lower c then n - 71 else if is_digit c then n + 4
  else if is_char "+" c then 62 else 63.
Definition is_b64 (c : ascii) : bool := is_alnum c || is_char "+" c || is_char "/" c.
#[global] Arguments is_b64 : simpl never.
#[global] Arguments b64_char : simpl never.
#[global] Arguments b64_value : simpl never.

Definition octet (c : ascii) : N := Ascii.N_of_ascii c.
(** The text without the padding. *)
Fixpoint b64_encode (s : string) : string :=
  match s with
  | String a (String b (String c s)) =>
      String (b64_char (octet a / 4))
      (String (b64_char (octet a mod 4 * 16 + octet b / 16))
      (String (b64_char (octet b mod 16 * 4 + octet c / 64))
      (String (b64_char (octet c mod 64)) (b64_encode s))))
  | String a (String b "") =>
      String (b64_char (octet a / 4))
      (String (b64_char (octet a mod 4 * 16 + octet b / 16))
      (String (b64_char (octet b mod 16 * 4)) ""))
  | String a "" => String (b64_char (octet a / 4)) (String (b64_char (octet a mod 4 * 16)) "")
  | "" => ""
  end.
(** The padding makes the length a multiple of four. *)
Definition b64_padding (s : string) : string :=
  match Nat.modulo (String.length s) 3 with 1 => "==" | 2 => "=" | _ => "" end.
Definition b64_text (s : string) : string := b64_encode s +:+ b64_padding s.

Class Base64Laws (B : Base64) : Prop := {
  b64_octets_encode s : b64_octets (b64_encode s) = Ok s
}.

(** An implementation: groups of four characters, of which the last may be short. *)
Definition oct (n : N) : ascii := Ascii.ascii_of_N n.
Fixpoint b64_octets_ref (s : string) : M string :=
  match s with
  | "" => Ok ""
  | String w (String x "") => Ok (String (oct (b64_value w * 4 + b64_value x / 16)) "")
  | String w (String x (String y "")) =>
      Ok (String (oct (b64_value w * 4 + b64_value x / 16))
         (String (oct (b64_value x mod 16 * 16 + b64_value y / 4)) ""))
  | String w (String x (String y (String z s))) =>
      r ← b64_octets_ref s;
      Ok (String (oct (b64_value w * 4 + b64_value x / 16))
         (String (oct (b64_value x mod 16 * 16 + b64_value y / 4))
         (String (oct (b64_value y mod 4 * 64 + b64_value z)) r)))
  | String _ "" => Throw (ERuntime "attempt to decode a value not in base64 char set")
  end.
Definition base64_ref : Base64 := {| b64_octets := b64_octets_ref |}.

Lemma b64_value_char n : (n < 64)%N → b64_value (b64_char n) = n.
Proof.
  intros H. assert (∀ k, k ∈ List.seq 0 64 → b64_value (b64_char (N.of_nat k)) = N.of_nat k) as Hall.
  { intros k Hk. apply N.eqb_eq.
    assert (forallb (λ k, N.eqb (b64_value (b64_char (N.of_nat k))) (N.of_nat k)) (List.seq 0 64) = true)
      as Hf by (vm_compute; reflexivity).
    apply forallb_Forall in Hf. rewrite Forall_forall in Hf. by apply Hf. }
  rewrite <- (N2Nat.id n). apply Hall. rewrite elem_of_seq. lia.
Qed.
Lemma octet_lt c : (octet c < 256)%N.
Proof. apply Ascii.N_ascii_bounded. Qed.
Lemma oct_octet n c : n = octet c → oct n = c.
Proof. intros ->. apply Ascii.ascii_N_embedding. Qed.

(** Two digits put together and taken apart. *)
Lemma join_div (x k y : N) : (y < k)%N → ((x * k + y) / k = x)%N.
Proof. intros H. rewrite N.div_add_l by lia. rewrite N.div_small by done. lia. Qed.
Lemma join_mod (x k y : N) : (y < k)%N → ((x * k + y) mod k = y)%N.
Proof. intros H. rewrite N.add_comm, N.Div0.mod_add. by apply N.mod_small. Qed.
Lemma join_div0 (x k : N) : (0 < k)%N → (x * k / k = x)%N.
Proof. intros H. by apply N.div_mul; lia. Qed.
Lemma split_octet (k c : N) : (0 < k)%N → (c / k * k + c mod k)%N = c ∧ (c mod k < k)%N.
Proof.
  intros H. split; [|by apply N.mod_lt; lia].
  rewrite N.mul_comm. symmetry. apply N.Div0.div_mod.
Qed.
Lemma octet_div (k m : N) c : (256 = m * k)%N → (octet c / k < m)%N.
Proof.
  intros H. pose proof (octet_lt c). apply N.Div0.div_lt_upper_bound. lia.
Qed.

Lemma b64_ref_encode s : b64_octets_ref (b64_encode s) = Ok s.
Proof.
  induction s as [s IH] using (induction_ltof1 _ String.length).
  destruct s as [|a [|b [|c s]]]; [done|..]; cbn [b64_encode b64_octets_ref];
    try (rewrite IH by (unfold ltof; simpl; lia); rewrite bind_Ok);
    pose proof (octet_div 4 64 a eq_refl); pose proof (split_octet 4 (octet a) ltac:(lia)) as [??];
    try (pose proof (octet_div 16 16 b eq_refl); pose proof (split_octet 16 (octet b) ltac:(lia)) as [??]);
    try (pose proof (octet_div 64 4 c eq_refl); pose proof (split_octet 64 (octet c) ltac:(lia)) as [??]);
    rewrite !b64_value_char by lia; rewrite ?join_div, ?join_mod, ?join_div0 by lia;
    rewrite ?N.Div0.mod_mul.
  - by rewrite (oct_octet _ a) by done.
  - rewrite (oct_octet _ a) by done. by rewrite (oct_octet _ b) by done.
  - rewrite (oct_octet _ a) by done. rewrite (oct_octet _ b) by done. by rewrite (oct_octet _ c) by done.
Qed.
Lemma base64_ref_laws : Base64Laws base64_ref.
Proof. split. apply b64_ref_encode. Qed.

(** ** The header *)

Lemma is_b64_char n : is_b64 (b64_char n) = true.
Proof.
  assert (forallb (λ k, is_b64 (b64_char (N.of_nat k))) (List.seq 0 64) = true)
    as Hf by (vm_compute; reflexivity).
  apply forallb_Forall in Hf. rewrite Forall_forall in Hf.
  destruct (N.ltb_spec n 64) as [H|H].
  - rewrite <- (N2Nat.id n). apply Hf. rewrite elem_of_seq. lia.
  - unfold b64_char. rewrite !(proj2 (N.ltb_ge _ _)) by lia.
    by rewrite (proj2 (N.eqb_neq _ _)) by lia.
Qed.
Lemma b64_encode_chars s : str_forall is_b64 (b64_encode s) = true.
Proof.
  induction s as [s IH] using (induction_ltof1 _ String.length).
  destruct s as [|a [|b [|c s]]]; [done|..]; cbn [b64_encode str_forall]; rewrite !is_b64_char; [done..|].
  apply IH. unfold ltof. simpl. lia.
Qed.
Lemma b64_padding_cases s : b64_padding s ∈ [""; "="; "=="].
Proof. unfold b64_padding. repeat case_match; rewrite !elem_of_cons; auto. Qed.

Lemma trim_nul_last s : last_char s ≠ Some "000"%char → trim_nul s = s.
Proof.
  induction s as [|c s IH]; [done|]. intros H. destruct s as [|d s].
  - simpl in *. destruct (is_char "000" c) eqn:E; [|done]. apply is_char_true in E as <-. done.
  - change (last_char (String c (String d s))) with (last_char (String d s)) in H.
    cbn [trim_nul] in *. by rewrite (IH H).
Qed.
Lemma last_char_app s c t : last_char (s +:+ String c t) = last_char (String c t).
Proof.
  induction s as [|d s IH]; [done|]. rewrite str_app_cons. destruct s as [|e s]; [done|]. exact IH.
Qed.

Section header.
Context {X : X3} {HX : X3Laws X}.

Definition b64Char : parser ascii := alnum <|> char_lit "+" <|> char_lit "/".
Lemma run_b64Char s : run b64Char s = run (char_ is_b64) s.
Proof.
  unfold b64Char, alnum, char_lit. rewrite !run_alt, !run_char. destruct s as [|c s]; [done|].
  unfold is_b64. by destruct (is_alnum c), (is_char "+" c), (is_char "/" c).
Qed.
Lemma run_b64Chars s :
  run (as_string (kleene b64Char)) s = let '(a, r) := span is_b64 s in PMatch a r.
Proof.
  rewrite <- run_chars. unfold as_string. rewrite !run_cast. f_equal.
  apply run_kleene_ext; [|apply run_b64Char].
  eapply consuming_ext; [apply consuming_char|apply run_b64Char].
Qed.
Lemma run_base64Blob t pad :
  str_forall is_b64 t = true → pad ∈ [""; "="; "=="] → run base64Blob (t +:+ pad) = PMatch t "".
Proof.
  intros Ht Hp. unfold base64Blob. rewrite run_rule, run_seq_l. fold b64Char. rewrite run_b64Chars.
  rewrite !elem_of_cons, elem_of_nil in Hp.
  destruct Hp as [->|[->|[->|[]]]]; rewrite span_app by done; simpl;
    rewrite !run_repeat_upto_S, ?run_lit_nil, ?run_lit_same; simpl;
    rewrite ?run_repeat_upto_S, ?run_lit_nil, ?run_lit_same; simpl;
    by rewrite ?run_repeat_upto_O.
Qed.
Lemma strip_prefix_no_case_app p q r :
  str_map to_lower p = str_map to_lower q → strip_prefix_no_case p (q +:+ r) = Some r.
Proof.
  revert q. induction p as [|c p IH]; intros [|d q]; simpl; try done.
  intros [= Hc Hq]. rewrite Hc, is_char_refl. by apply IH.
Qed.
Lemma parse_header scheme s :
  str_map to_lower scheme = "basic" →
  parse_all headerGrammar (scheme +:+ " " +:+ b64_text s) = Some (b64_encode s).
Proof.
  intros Hs. unfold parse_all, headerGrammar. rewrite run_seq_l, !run_seq_r, run_no_case_lit.
  rewrite (strip_prefix_no_case_app "basic" scheme) by done. simpl.
  rewrite str_app_cons, str_app_nil_l, run_lit_same. simpl. unfold b64_text.
  rewrite run_base64Blob by (apply b64_encode_chars || apply b64_padding_cases).
  simpl. by rewrite run_eoi.
Qed.

Definition not_colon (c : ascii) : bool := negb (is_char ":" c).
Lemma run_userChar s : run (diff (char_ any_char) (lit_char ":")) s = run (char_ not_colon) s.
Proof.
  rewrite run_diff, !run_char. unfold not_colon. destruct s as [|c s]; [by rewrite run_lit_nil|].
  rewrite run_lit. by destruct (is_char ":" c).
Qed.
Lemma run_chars1 (p : parser ascii) P s :
  (∀ s, run p s = run (char_ P) s) →
  run (as_string (plus_ p)) s =
  let '(a, r) := span P s in if bool_decide (a = "") then PFail else PMatch a r.
Proof.
  intros He. assert (consuming p) as Hc by (eapply consuming_ext; [apply consuming_char|done]).
  unfold as_string. rewrite run_cast, run_plus, run_seq, He, run_char.
  destruct s as [|c s]; simpl; [done|]. destruct (P c); simpl; [|done].
  rewrite (run_kleene_ext _ (char_ P)) by done.
  pose proof (run_chars P s) as H. unfold as_string in H. rewrite run_cast in H.
  destruct (span P s) as [a r]. destruct (run (kleene (char_ P)) s); simplify_eq/=. done.
Qed.
Lemma span_any s : span any_char s = (s, "").
Proof. induction s as [|c s IH]; simpl; [done|]. by rewrite IH. Qed.
Lemma run_userPass s :
  run userPass s =
  let '(u, r) := span not_colon s in
  match r with
  | "" => PFail
  | String _ p => if bool_decide (u = "" ∨ p = "") then PFail else PMatch (mkUserPass u p) ""
  end.
Proof.
  unfold userPass, usernameRule, passwordRule.
  rewrite run_cast, run_seq, run_seq_l, run_rule, (run_chars1 _ not_colon) by apply run_userChar.
  destruct (span not_colon s) as [u r] eqn:E. apply span_spec in E as (_ & _ & Hr).
  case_bool_decide as Hu; simpl.
  - destruct r as [|c p]; [done|]. by rewrite bool_decide_true by auto.
  - destruct r as [|c p]; [by rewrite run_lit_nil|]. simpl in Hr.
    unfold not_colon in Hr. apply negb_false_iff in Hr. rewrite run_lit, Hr. simpl.
    rewrite run_rule, (run_chars1 _ any_char) by done. rewrite span_any.
    case_bool_decide; simpl; [by rewrite bool_decide_true by auto|].
    by rewrite bool_decide_false by tauto.
Qed.

Context {B : Base64} {HB : Base64Laws B}.

(** Credentials sent the way RFC 7617 says, the base64 text of a user name and a password
    with a colon between them, are read back exactly, whatever the case of the scheme; the user
    name has no colon, neither is empty and the password does not end with a NUL. *)
Theorem parseBasicAuth_roundtrip (scheme user pass : string) :
  str_map to_lower scheme = "basic" →
  user ≠ "" → str_contains ":" user = false → pass ≠ "" → last_char pass ≠ Some "000"%char →
  parseBasicAuth (scheme +:+ " " +:+ b64_text (user +:+ ":" +:+ pass)) = Ok (mkUserPass user pass).
Proof.
  intros Hs Hu Hc Hp Hn. unfold parseBasicAuth. rewrite parse_header by done.
  unfold b64_decode. rewrite b64_octets_encode, !bind_Ok.
  rewrite str_app_cons, str_app_nil_l.
  rewrite trim_nul_last; [|destruct pass as [|c pass]; [done|]; by rewrite last_char_app].
  unfold parse_all. rewrite run_seq_l, run_userPass.
  rewrite span_app; [|by apply str_contains_false in Hc|done].
  rewrite bool_decide_false by tauto. simpl. by rewrite run_eoi.
Qed.

(** Whatever the header is, the result is credentials with a non-empty user name without a
    colon and a non-empty password, or an authentication error without a delay, or an exception
    of the base64 decoder; so PAM is never asked about an empty password. *)
Theorem parseBasicAuth_sound (blob : string) :
  match parseBasicAuth blob with
  | Ok up => username up ≠ "" ∧ str_contains ":" (username up) = false ∧ password up ≠ ""
  | Throw e => (∃ w, e = EAuth w None) ∨ ∃ b64, b64_octets b64 = Throw e
  end.
Proof.
  unfold parseBasicAuth, b64_decode. destruct (parse_all headerGrammar blob) as [b64|]; [|eauto].
  destruct (b64_octets b64) as [s|e] eqn:E; simpl; [|eauto].
  destruct (parse_all userPass (trim_nul s)) as [up|] eqn:Ep; [|eauto].
  unfold parse_all in Ep. rewrite run_seq_l, run_userPass in Ep.
  destruct (span not_colon (trim_nul s)) as [u r] eqn:Es. apply span_spec in Es as (_ & Hc & _).
  destruct r as [|c p]; [done|]. case_bool_decide as Hn; simpl in Ep; [done|].
  rewrite run_eoi in Ep. simplify_eq/=. repeat split; [tauto| |tauto]. by apply str_contains_false.
Qed.
End header.

(** ** The conversation *)

(** The answer to one message. *)
Definition answers (up : UserPass) (m : MsgStyle) : option string :=
  match m with
  | PAM_PROMPT_ECHO_ON => Some (c_str (username up))
  | PAM_PROMPT_ECHO_OFF => Some (c_str (password up))
  | _ => None
  end.
Lemma conv_loop_spec up alloc msgs resp :
  match conv_loop up alloc msgs resp with
  | ConvSuccess l => l = resp ++ (answers up <$> msgs)
  | PAM_BUF_ERR => false ∈ alloc
  | PAM_CONV_ERR => ∃ n, OtherStyle n ∈ msgs
  end.
Proof.
  revert alloc resp. induction msgs as [|m msgs IH]; intros alloc resp; cbn [conv_loop fmap list_fmap].
  { by rewrite app_nil_r. }
  assert (∀ alloc' (x := answers up m), (false ∈ alloc' → false ∈ alloc) →
    match conv_loop up alloc' msgs (resp ++ [x]) with
    | ConvSuccess l => l = resp ++ x :: (answers up <$> msgs)
    | PAM_BUF_ERR => false ∈ alloc
    | PAM_CONV_ERR => ∃ n, OtherStyle n ∈ m :: msgs
    end) as Hstep.
  { intros alloc' x Ha. specialize (IH alloc' (resp ++ [x])). destruct (conv_loop _ _ _ _).
    - by rewrite IH, <- app_assoc.
    - by apply Ha.
    - destruct IH as [n ?]. exists n. by right. }
  destruct m; [| |by apply Hstep|by apply Hstep|exists n; by left];
    (destruct alloc as [|[] alloc]; cbn [hd tl]; [by apply Hstep|apply Hstep; intros ?; by right|by left]).
Qed.

(** The conversation answers a visible prompt with the user name and a hidden prompt with
    the password, message by message, and gives nothing for the others; so the password is
    never an answer to a prompt that echoes.  It fails only when memory runs out or on a
    message style PAM does not define. *)
Theorem pam_userpass_conv_spec (up : UserPass) (alloc : list bool) (msgs : list MsgStyle) :
  match pam_userpass_conv up alloc msgs with
  | ConvSuccess responses => responses = answers up <$> msgs
  | PAM_BUF_ERR => false ∈ alloc
  | PAM_CONV_ERR => ∃ n, OtherStyle n ∈ msgs
  end.
Proof. exact (conv_loop_spec up alloc msgs []). Qed.

(** ** The sequence of PAM calls *)

Section calls.
Context (pam : UserPass → list (PamCall * PamAnswer) → PamCall → PamAnswer).
Context (pam_strerror : Z → string).

(** The calls of a run that is not cut short by an error. *)
Definition full_run (up : UserPass) (remoteHost : option string) : list PamCall :=
  PamStart "rousette" (c_str (username up)) ::
  from_option (λ h, [PamSetRhost (c_str h)]) [] remoteHost ++
  [PamSetFailDelay; PamAuthenticate; PamAcctMgmt; PamGetUser].

(** All of the calls succeeded, or all but the last. *)
Definition ok_call (x : PamCall * PamAnswer) : Prop := ans_res x.2 = PAM_SUCCESS.

(** The delay PAM asked for last. *)
Definition asked_delay (d : option N) (calls : list (PamCall * PamAnswer)) : option N :=
  foldl (λ d x, pam_register_delay (ans_delay x.2) d) d calls.

(** What the body leaves: it made the calls of the full run up to the first one that failed. *)
Definition body_done (up : UserPass) (plan : list PamCall) (st : PamState) (out : PamState * M string) : Prop :=
  ∃ made,
    p_calls out.1 = p_calls st ++ made ∧ fst <$> made `prefix_of` plan ∧
    p_delay out.1 = asked_delay (p_delay st) made ∧
    match out.2 with
    | Ok u => fst <$> made = plan ∧ Forall ok_call made ∧ p_res out.1 = PAM_SUCCESS ∧
              ∃ a, last made = Some (PamGetUser, a) ∧ u = ans_user a
    | Throw e => ∃ w init c a, e = EAuth w (p_delay out.1) ∧ made = init ++ [(c, a)] ∧
                 Forall ok_call init ∧ p_res out.1 = ans_res a ∧ ans_res a ≠ PAM_SUCCESS
    end.

Lemma checked_step up c fn plan st (k : PamState → PamState * M string) :
  (∀ a, p_calls st ++ [(c, a)] = p_calls (call pam up c st) → ans_res a = PAM_SUCCESS →
     body_done up plan (call pam up c st) (k (call pam up c st)) ∧ plan ≠ []) →
  body_done up (c :: plan) st (checked pam pam_strerror up c fn st k).
Proof.
  intros Hk. unfold checked. set (a := pam up (p_calls st) c).
  assert (p_calls (call pam up c st) = p_calls st ++ [(c, a)]) as Hcalls by done.
  assert (p_res (call pam up c st) = ans_res a) as Hres by done.
  case_bool_decide as Hne.
  - exists [(c, a)]. simpl. split; [done|]. split; [by apply prefix_cons, prefix_nil|].
    split; [done|]. eexists _, [], c, a. split; [done|]. split; [done|]. split; [constructor|]. split; [done|].
    by rewrite <- Hres.
  - assert (ans_res a = PAM_SUCCESS) as Hok by by rewrite <- Hres.
    destruct (Hk a (eq_sym Hcalls) Hok) as [(made & Hm & Hp & Hd & Ho) Hpl].
    exists ((c, a) :: made). rewrite Hm, Hcalls, <- app_assoc. split; [done|].
    split; [by apply prefix_cons|]. split; [by rewrite Hd|].
    destruct (k (call pam up c st)).2 as [u|e].
    + destruct Ho as (Hf & Ha & Hr & x & Hl & Hu). split; [by rewrite fmap_cons, Hf|].
      split; [by constructor|]. split; [done|]. exists x. split; [|done].
      destruct made; [by destruct plan|done].
    + destruct Ho as (w & init & c' & a' & -> & -> & Hi & Hr & Hx).
      exists w, ((c, a) :: init), c', a'. repeat split; try done. by constructor.
Qed.
Lemma checked_last up fn st :
  body_done up [PamGetUser] st
    (checked pam pam_strerror up PamGetUser fn st
       (λ st, (st, Ok (from_option ans_user "" (last_answer st))))).
Proof.
  unfold checked. set (a := pam up (p_calls st) PamGetUser).
  assert (p_calls (call pam up PamGetUser st) = p_calls st ++ [(PamGetUser, a)]) as Hcalls by done.
  assert (p_res (call pam up PamGetUser st) = ans_res a) as Hres by done.
  exists [(PamGetUser, a)]. case_bool_decide as Hne; cbn [fst snd].
  - split; [done|]. split; [done|]. split; [done|]. eexists _, [], PamGetUser, a.
    split; [done|]. split; [done|]. split; [constructor|]. split; [done|]. by rewrite <- Hres.
  - assert (ans_res a = PAM_SUCCESS) as Hok by by rewrite <- Hres.
    split; [done|]. split; [done|]. split; [done|]. split; [done|].
    split; [by repeat constructor|]. split; [by rewrite Hres|].
    exists a. split; [done|]. unfold last_answer. by rewrite Hcalls, last_snoc.
Qed.
Lemma pam_body_done up remoteHost st :
  body_done up (full_run up remoteHost) st (pam_body pam pam_strerror up remoteHost st).
Proof.
  unfold pam_body, full_run. apply checked_step. intros a _ _.
  destruct remoteHost as [h|]; simpl; (split; [|done]);
    repeat (apply checked_step; intros ? _ _; split; [|done]); apply checked_last.
Qed.

(** [pam_end] is called with the result of the call before it. *)
Definition is_end (x : PamCall * PamAnswer) : bool :=
  match x.1 with PamEnd _ => true | _ => false end.
Lemma full_run_no_end up remoteHost made :
  fst <$> made `prefix_of` full_run up remoteHost → Forall (λ x, is_end x = false) made.
Proof.
  intros [rest Hr].
  assert (Forall (λ c, match c with PamEnd _ => False | _ => True end) (full_run up remoteHost)) as Hf
    by (unfold full_run; destruct remoteHost; simpl; repeat constructor).
  rewrite Hr in Hf. apply Forall_app in Hf as [Hf _]. apply Forall_fmap in Hf.
  eapply Forall_impl; [exact Hf|]. intros [[] a]; done.
Qed.

(** Both outcomes: the calls of the body, then at most the call that ends the transaction. *)
Lemma authenticate_pam_calls up remoteHost st r :
  authenticate_pam pam pam_strerror up remoteHost = (st, r) →
  ∃ made body,
    pam_body pam pam_strerror up remoteHost (mkPam [] None PAM_SUCCESS) = (body, r) ∧
    p_calls body = made ∧
    body_done up (full_run up remoteHost) (mkPam [] None PAM_SUCCESS) (body, r) ∧
    st = pamh_deleter pam up body.
Proof.
  unfold authenticate_pam.
  pose proof (pam_body_done up remoteHost (mkPam [] None PAM_SUCCESS)) as Hb.
  destruct (pam_body _ _ _ _ _) as [body r'] eqn:E. intros [= <- <-]. eauto 10.
Qed.

Lemma authenticate_pam_success_calls (up : UserPass) (remoteHost : option string) (st : PamState) (user : string) :
  authenticate_pam pam pam_strerror up remoteHost = (st, Ok user) →
  ∃ made a ended,
    p_calls st = made ++ ended ∧
    fst <$> made = full_run up remoteHost ∧ Forall ok_call made ∧
    last made = Some (PamGetUser, a) ∧ user = ans_user a.
Proof.
  intros (made & body & _ & Hm & (made' & Hc & _ & _ & Ho) & ->)%authenticate_pam_calls.
  simpl in Hc, Ho. destruct Ho as (Hf & Ha & _ & a & Hl & Hu). rewrite Hc in Hm. subst made'.
  assert (∃ ended, p_calls (pamh_deleter pam up body) = made ++ ended) as [ended He].
  { unfold pamh_deleter. rewrite Hc. destruct (head made) as [[c x]|]; [|by exists []; rewrite app_nil_r].
    destruct (ans_handle x); [|by exists []; rewrite app_nil_r]. simpl. rewrite Hc. eauto. }
  exists made, a, ended. auto.
Qed.

(** C34: a user is authenticated only after [pam_start], the items, [pam_authenticate] and
    [pam_acct_mgmt] were all called, in this order, and all returned [PAM_SUCCESS], and the user
    name is the one PAM reports afterwards, not the one of the request. *)
Theorem authenticate_pam_success (up : UserPass) (remoteHost : option string) (st : PamState) (user : string) :
  authenticate_pam pam pam_strerror up remoteHost = (st, Ok user) →
  ∃ made a ended,
    p_calls st = made ++ ended ∧
    fst <$> made = full_run up remoteHost ∧ Forall ok_call made ∧
    last made = Some (PamGetUser, a) ∧ user = ans_user a.
Proof. apply authenticate_pam_success_calls. Qed.

(** However [authenticate_pam] ends, a transaction that [pam_start] opened is ended exactly
    once, as the last call and with the result of the call before it, and one it did not open is
    not; the only exception it throws is the authentication error with the delay PAM asked for last. *)
Theorem authenticate_pam_releases (up : UserPass) (remoteHost : option string) (st : PamState) (r : M string) :
  authenticate_pam pam pam_strerror up remoteHost = (st, r) →
  ∃ first more,
    Forall (λ x, is_end x = false) (first :: more) ∧
    (if ans_handle first.2
     then ∃ final a, last (first :: more) = Some final ∧
            p_calls st = (first :: more) ++ [(PamEnd (ans_res final.2), a)]
     else p_calls st = first :: more) ∧
    match r with
    | Ok _ => True
    | Throw e => ∃ w, e = EAuth w (asked_delay None (first :: more))
    end.
Proof.
  intros (made & body & _ & Hm & (made' & Hc & Hp & Hd & Ho) & ->)%authenticate_pam_calls.
  simpl in Hc, Hd, Ho. rewrite Hc in Hm. subst made'.
  assert (∃ final, last made = Some final ∧ p_res body = ans_res final.2) as (final & Hl & Hr).
  { destruct r as [u|e].
    - destruct Ho as (_ & Ha & Hr & a & Hl & _). exists (PamGetUser, a). split; [done|].
      rewrite Hr. apply last_Some in Hl as [l ->]. apply Forall_app in Ha as [_ Ha].
      by apply Forall_cons in Ha as [-> _].
    - destruct Ho as (w & init & c & a & _ & -> & _ & Hr & _). exists (c, a).
      by rewrite last_snoc. }
  apply full_run_no_end in Hp. destruct made as [|first more]; [done|].
  exists first, more. split; [done|]. unfold pamh_deleter. rewrite Hc. cbn [head].
  destruct first as [c x]. cbn [snd]. destruct (ans_handle x) eqn:Eh.
  - split.
    + exists final. eexists. split; [done|]. unfold call at 1. cbn [p_calls]. rewrite Hc, Hr. done.
    + destruct r as [u|e]; [done|]. destruct Ho as (w & _ & _ & _ & -> & _). exists w. by rewrite Hd.
  - split; [done|]. destruct r as [u|e]; [done|].
    destruct Ho as (w & _ & _ & _ & -> & _). exists w. by rewrite Hd.
Qed.
End calls.

(** ** Samples *)

Module PamSample.
Lemma parseBasicAuth_roundtrip_witness :
  @parseBasicAuth x3_ref base64_ref ("BASIC" +:+ " " +:+ b64_text ("root" +:+ ":" +:+ "a:b")) =
  Ok (mkUserPass "root" "a:b").
Proof.
  apply (@parseBasicAuth_roundtrip x3_ref x3_ref_laws base64_ref base64_ref_laws "BASIC" "root" "a:b");
    vm_compute; congruence.
Defined.

Lemma parseBasicAuth_sound_witness :
  match @parseBasicAuth x3_ref base64_ref "Basic Og==" with
  | Ok up => username up ≠ "" ∧ str_contains ":" (username up) = false ∧ password up ≠ ""
  | Throw e => (∃ w, e = EAuth w None) ∨ ∃ b64, @b64_octets base64_ref b64 = Throw e
  end.
Proof. exact (@parseBasicAuth_sound x3_ref x3_ref_laws base64_ref "Basic Og=="). Defined.

(** A PAM that knows one password and asks for a delay when it is wrong. *)
Definition pam (up : UserPass) (calls : list (PamCall * PamAnswer)) (c : PamCall) : PamAnswer :=
  match c with
  | PamAuthenticate =>
      if bool_decide (password up = "secret") then mkAnswer 0 None false ""
      else mkAnswer 7 (Some 2000000%N) false ""
  | PamStart _ _ => mkAnswer 0 None true ""
  | PamGetUser => mkAnswer 0 None false "root"
  | _ => mkAnswer 0 None false ""
  end.
Definition strerror (n : Z) : string := "Authentication failure".

Lemma authenticate_pam_success_witness :
  ∃ st, ∃ made a ended,
    p_calls st = made ++ ended ∧
    fst <$> made = full_run (mkUserPass "toor" "secret") None ∧ Forall ok_call made ∧
    last made = Some (PamGetUser, a) ∧ "root" = ans_user a.
Proof.
  exists (authenticate_pam pam strerror (mkUserPass "toor" "secret") None).1.
  apply (authenticate_pam_success pam strerror (mkUserPass "toor" "secret") None _ "root").
  vm_compute. reflexivity.
Defined.

Lemma authenticate_pam_releases_witness :
  ∃ first more,
    Forall (λ x, is_end x = false) (first :: more) ∧
    (if ans_handle first.2
     then ∃ final a, last (first :: more) = Some final ∧
            p_calls (authenticate_pam pam strerror (mkUserPass "root" "x") None).1 =
            (first :: more) ++ [(PamEnd (ans_res final.2), a)]
     else p_calls (authenticate_pam pam strerror (mkUserPass "root" "x") None).1 = first :: more) ∧
    match (authenticate_pam pam strerror (mkUserPass "root" "x") None).2 with
    | Ok _ => True
    | Throw e => ∃ w, e = EAuth w (asked_delay None (first :: more))
    end.
Proof.
  apply (authenticate_pam_releases pam strerror (mkUserPass "root" "x") None).
  vm_compute. reflexivity.
Defined.
End PamSample.
