(* ===== verification/HttpAuth.v ===== *)
(** * HttpAuth: authorization of HTTP requests, [auth/Http.cpp]

    [authorizeRequest] chooses the NACM user of the session of a request.  [processAuthError]
    sends the error response at once or after the delay PAM asked for: a timer of Boost.Asio
    and the closing of the HTTP stream run as events.  By the documentation of Asio a timer
    that is cancelled while it is waiting completes with an error, and one whose completion
    is already queued completes with success even if it is cancelled then. *)

From S2P Require Import Prelude Exceptions X3 HttpUtils Nacm Pam PamFacts.

Section auth.
Context (ANONYMOUS_USER : string).
Context (pam : UserPass → list (PamCall * PamAnswer) → PamCall → PamAnswer).
Context (pam_strerror : Z → string).
Context {X : X3} {B : Base64}.

(** The session is passed by reference: the result says how it is left. *)
Definition authorizeRequest (nacm : Nacm) (sess : Session) (headers : header_map) : Session * M unit :=
  let nacmUser :=
    match getHeaderValue headers "authorization" with
    | Some authHeader => authenticate_pam_blob pam pam_strerror authHeader None
    | None => Ok ANONYMOUS_USER
    end in
  match nacmUser with
  | Throw e => (sess, Throw e)
  | Ok user =>
      match authorize ANONYMOUS_USER nacm sess user with
      | (sess, true) => (sess, Ok tt)
      | (sess, false) => (sess, Throw (EAuth "Access denied." None))
      end
  end.

(** The credentials of the header passed every step of the PAM transaction as [user]. *)
Definition pam_verified (headers : header_map) (user : string) : Prop :=
  ∃ blob up st made a ended,
    getHeaderValue headers "authorization" = Some blob ∧ parseBasicAuth blob = Ok up ∧
    authenticate_pam pam pam_strerror up None = (st, Ok user) ∧
    p_calls st = made ++ ended ∧ fst <$> made = full_run up None ∧ Forall ok_call made ∧
    last made = Some (PamGetUser, a) ∧ user = ans_user a.

Lemma authenticate_pam_blob_verified headers blob user :
  getHeaderValue headers "authorization" = Some blob →
  authenticate_pam_blob pam pam_strerror blob None = Ok user → pam_verified headers user.
Proof.
  intros Hh H. unfold authenticate_pam_blob in H. apply bind_Ok_inv in H as (up & Hp & H).
  destruct (authenticate_pam pam pam_strerror up None) as [st r] eqn:E. simpl in H. subst r.
  destruct (authenticate_pam_success_calls _ _ _ _ _ _ E) as (made & a & ended & ?).
  exists blob, up, st, made, a, ended. tauto.
Qed.

(** When a request is authorized, the session has the user that PAM verified for the
    credentials of the request, or, without an [authorization] header, the anonymous user; the
    anonymous user only while the NACM rules for it are valid.  A request that is refused leaves
    the user of the session as it was. *)
Theorem authorizeRequest_sound (nacm : Nacm) (sess : Session) (headers : header_map) :
  match authorizeRequest nacm sess headers with
  | (sess', Ok _) =>
      ∃ user, nacmUser sess' = Some user ∧
        (user = ANONYMOUS_USER → m_anonymousEnabled nacm = true) ∧
        (pam_verified headers user ∨
         getHeaderValue headers "authorization" = None ∧ user = ANONYMOUS_USER)
  | (sess', Throw _) => sess' = sess
  end.
Proof.
  unfold authorizeRequest.
  destruct (getHeaderValue headers "authorization") as [blob|] eqn:Eh.
  - destruct (authenticate_pam_blob _ _ _ _) as [user|e] eqn:Ep; [|done].
    pose proof (authenticate_pam_blob_verified _ _ _ Eh Ep) as Hv.
    destruct (authorize ANONYMOUS_USER nacm sess user) as [s' []] eqn:Ea.
    + apply authorize_true in Ea as [? ?]. exists user. auto.
    + unfold authorize in Ea. repeat case_match; by simplify_eq.
  - destruct (authorize ANONYMOUS_USER nacm sess ANONYMOUS_USER) as [s' []] eqn:Ea.
    + apply authorize_true in Ea as [? ?]. exists ANONYMOUS_USER. auto.
    + unfold authorize in Ea. repeat case_match; by simplify_eq.
Qed.
End auth.

(** ** The delayed error response *)

(** The timer: waiting, its completion queued with success or as cancelled, or completed. *)
Inductive DelayTimer := Waiting | Queued (cancelled : bool) | Completed.
Record AuthReply := mkReply {
  reply_timer : DelayTimer;
  closed : bool;                (** the stream is closed, [req] and [res] are gone *)
  replies : list bool           (** each call of [errorResponseCb]: was the stream closed? *)
}.

Definition errorResponseCb (r : AuthReply) : AuthReply :=
  mkReply (reply_timer r) (closed r) (replies r ++ [closed r]).
(** [processAuthError]: the delay is that of the error. *)
Definition processAuthError (delay : option N) : AuthReply :=
  match delay with
  | Some _ => mkReply Waiting false []
  | None => errorResponseCb (mkReply Completed false [])
  end.
(** The handler of [res.on_close]: [timer->cancel()] *)
Definition onClose (r : AuthReply) : AuthReply :=
  mkReply (match reply_timer r with Waiting => Queued true | t => t end) true (replies r).
(** The completion handler of the timer *)
Definition onTimer (cancelled : bool) (r : AuthReply) : AuthReply :=
  let r := mkReply Completed (closed r) (replies r) in
  if cancelled then r else errorResponseCb r.

(** What can happen next: the delay passes, the client closes the stream, or the queued
    completion runs. *)
Inductive reply_step : AuthReply → AuthReply → Prop :=
| step_expire c l : reply_step (mkReply Waiting c l) (mkReply (Queued false) c l)
| step_close t l : reply_step (mkReply t false l) (onClose (mkReply t false l))
| step_complete b c l : reply_step (mkReply (Queued b) c l) (onTimer b (mkReply (Queued b) c l)).

Definition reply_reachable (delay : option N) : AuthReply → Prop :=
  rtc reply_step (processAuthError delay).

(** The shape of every reachable state. *)
Definition reply_inv (r : AuthReply) : Prop :=
  match reply_timer r with
  | Waiting => closed r = false ∧ replies r = []
  | Queued b => replies r = [] ∧ (b = true → closed r = true)
  | Completed => length (replies r) ≤ 1 ∧ (replies r = [] → closed r = true)
  end.
Lemma reply_inv_step r r' : reply_inv r → reply_step r r' → reply_inv r'.
Proof.
  intros Hi Hs. destruct Hs as [c l|t l|[] c l]; unfold reply_inv in *; simpl in *.
  - naive_solver.
  - destruct t; naive_solver.
  - destruct Hi as [-> ?]. simpl. auto with lia.
  - destruct Hi as [-> ?]. simpl. split; [lia|done].
Qed.
Lemma reply_inv_init delay : reply_inv (processAuthError delay).
Proof. destruct delay; unfold reply_inv; simpl; [done|]. split; [lia|done]. Qed.
Lemma reply_inv_reachable delay r : reply_reachable delay r → reply_inv r.
Proof.
  intros H. unfold reply_reachable in H. revert H. generalize (reply_inv_init delay).
  generalize (processAuthError delay). intros r0 H0 H.
  induction H as [|x y z Hs _ IH]; [done|]. by eapply IH, reply_inv_step.
Qed.
(** Every run ends: the measure counts the events that are still possible. *)
Definition reply_measure (r : AuthReply) : nat :=
  (match reply_timer r with Waiting => 2 | Queued _ => 1 | Completed => 0 end) +
  (if closed r then 0 else 2).
Lemma reply_step_decreases r r' : reply_step r r' → reply_measure r' < reply_measure r.
Proof. destruct 1 as [c l|[]l|[] c l]; unfold reply_measure; simpl; try lia; destruct c; lia. Qed.

(** The error response of a failed authentication is sent at most once, and it is sent
    unless the client closes the stream before the delay has passed. *)
Theorem processAuthError_once (delay : option N) (r : AuthReply) :
  reply_reachable delay r →
  length (replies r) ≤ 1 ∧
  (reply_timer r = Completed → replies r = [] → closed r = true) ∧
  (closed r = false → Forall (λ late, late = false) (replies r)).
Proof.
  intros H. pose proof (reply_inv_reachable _ _ H) as Hi.
  assert (closed r = false → Forall (λ late, late = false) (replies r)) as Hc.
  { clear Hi. unfold reply_reachable in H.
    assert (Forall (λ late, late = false) (replies (processAuthError delay)) ∨
            closed (processAuthError delay) = true) as H0
      by (left; destruct delay; repeat constructor).
    revert H0 H. generalize (processAuthError delay). intros r0 H0 H.
    induction H as [x|x y z Hs _ IH]; [intros; destruct H0; [done|congruence]|]. apply IH.
    destruct Hs as [c l|t l|[] c l]; simpl in *; try tauto.
    destruct c; [by right|]. left. destruct H0; [|done]. apply Forall_app. split; [done|by repeat constructor]. }
  unfold reply_inv in Hi. repeat split; try done.
  - destruct (reply_timer r); destruct Hi as [Hi ?]; [rewrite H0; simpl; lia|rewrite Hi; simpl; lia|done].
  - intros Ht. rewrite Ht in Hi. tauto.
Qed.

(** The completion of the timer can already be queued when the stream is closed; cancelling it
    has no effect then, and the response is written to a stream that is gone. *)
Theorem auth_reply_after_close (d : N) :
  reply_reachable (Some d) (mkReply Completed true [true]).
Proof.
  eapply rtc_l; [apply step_expire|]. eapply rtc_l; [apply step_close|].
  eapply rtc_l; [apply step_complete|]. apply rtc_refl.
Qed.

Lemma processAuthError_once_witness :
  length (replies (mkReply (Queued false) true [])) ≤ 1 ∧
  (reply_timer (mkReply (Queued false) true []) = Completed →
   replies (mkReply (Queued false) true []) = [] → closed (mkReply (Queued false) true []) = true) ∧
  (closed (mkReply (Queued false) true []) = false →
   Forall (λ late, late = false) (replies (mkReply (Queued false) true []))).
Proof.
  apply (processAuthError_once (Some 5%N) (mkReply (Queued false) true [])).
  eapply rtc_l; [apply step_expire|]. eapply rtc_l; [apply step_close|]. apply rtc_refl.
Defined.
