(* ===== verification/EventStream.v ===== *)
(** * EventStream: server-sent events over one HTTP/2 response ([http/EventStream.cpp])

    Every handler of the class is a function on the object's state that says which tasks it
    posts to the event loop.  Each handler holds the mutex for its whole effect, so that
    handlers are atomic and an execution is a sequence of them: the [step] relation interleaves
    the signals, the ping timer, the event loop and nghttp2's callbacks arbitrarily.  nghttp2
    is the environment: it calls the read callback only while the response is open, has
    not been ended, and has not been deferred since the last [resume()], and it calls the
    close callback once. *)

From S2P Require Import Prelude Exceptions.

Inductive State := HasEvents | WaitingForEvents | WantToClose | Closed.
#[export] Instance State_eq_dec : EqDecision State.
Proof. solve_decision. Defined.

(** A task posted to the event loop.  It holds a weak pointer to the stream: empty when
    the constructor posts it, before [enable_shared_from_this] works. *)
Inductive Task := ResumeWithEvents (weak : bool) | ResumeToClose (weak : bool).

Record EventStream := mkStream {
  state : State;
  queue : list string;
  ping : bool;                 (** the keep-alive timer is armed *)
  eventSub : bool;             (** connected to the event signal *)
  terminateSub : bool
}.

(** ** Formatting of events *)

Definition newline : ascii := "010".
Definition nl : string := String newline "".

(** All the pieces between newlines. *)
Fixpoint split_nl (s : string) : list string :=
  match s with
  | "" => [""]
  | String c s =>
      match split_nl s with
      | l :: ls => if Ascii.eqb c newline then "" :: l :: ls else String c l :: ls
      | [] => []
      end
  end.
(** [std::sregex_token_iterator] with index -1: an empty piece after the last match is not
    produced, but a string without a match is one token. *)
Definition tokens (what : string) : list string :=
  match split_nl what with
  | [l] => [l]
  | ls => if decide (last ls = Some "") then removelast ls else ls
  end.
Fixpoint format_lines (fieldName : string) (ls : list string) : string :=
  match ls with
  | [] => ""
  | l :: ls => fieldName +:+ ": " +:+ l +:+ nl +:+ format_lines fieldName ls
  end.
Definition format_event (fieldName what : string) : string :=
  format_lines fieldName (tokens what) +:+ nl.

Definition FIELD_DATA : string := "data".

(** ** The handlers *)

Definition with_state (st : State) (q : list string) (s : EventStream) : EventStream :=
  mkStream st q (ping s) (eventSub s) (terminateSub s).

(** [enqueue]; [shared] says whether [weak_from_this()] gives a live pointer. *)
Definition enqueue (shared : bool) (fieldName what : string) (s : EventStream) : EventStream * list Task :=
  let buf := format_event fieldName what in
  match state s with
  | Closed | WantToClose => (s, [])
  | HasEvents | WaitingForEvents => (with_state HasEvents (queue s ++ [buf]) s, [ResumeWithEvents shared])
  end.

(** The constructor, up to the point where the object is shared. *)
Definition construct (initialEvent : option string) : EventStream * list Task :=
  let s := mkStream WaitingForEvents [] false false false in
  let '(s, tasks) := match initialEvent with Some e => enqueue false FIELD_DATA e s | None => (s, []) end in
  (mkStream (state s) (queue s) (ping s) true true, tasks).

Definition start_ping (s : EventStream) : EventStream :=
  mkStream (state s) (queue s) true (eventSub s) (terminateSub s).
Definition activate (s : EventStream) : EventStream := start_ping s.
Definition create (initialEvent : option string) : EventStream * list Task :=
  let '(s, tasks) := construct initialEvent in (activate s, tasks).

(** The slot of the termination signal. *)
Definition on_termination (s : EventStream) : EventStream * list Task :=
  match state s with
  | Closed => (s, [])
  | _ => (with_state WantToClose (queue s) s, [ResumeToClose true])
  end.

(** The [on_close] callback. *)
Definition on_close (s : EventStream) : EventStream := mkStream Closed (queue s) false false false.

(** The ping timer expired: a comment keeps the connection alive. *)
Definition on_ping (s : EventStream) : EventStream * list Task :=
  let '(s, tasks) := enqueue true "" nl s in (start_ping s, tasks).

(** The loop of [send_chunk]: the bytes copied to [destination], and what is left queued.
    [room] is [len - written]. *)
Fixpoint send_loop (room : nat) (q : list string) : string * list string :=
  match q with
  | [] => ("", [])
  | front :: rest =>
      let num := Nat.min (String.length front) room in
      if num <? String.length front then
        (String.substring 0 num front,
         String.substring num (String.length front - num) front :: rest)
      else let '(out, q') := send_loop (room - num) rest in (front +:+ out, q')
  end.
Definition send_chunk (len : nat) (s : EventStream) : M (string * EventStream) :=
  _ ← throw_if (negb (bool_decide (state s = HasEvents))) (ELogic "send_chunk");
  let '(out, q) := send_loop len (queue s) in
  Ok (out, with_state (if decide (q = []) then WaitingForEvents else HasEvents) q s).

(** What [process] tells nghttp2. *)
Inductive ReadResult := Written (bytes : string) | Deferred | Eof.

Definition process (len : nat) (s : EventStream) : M (ReadResult * EventStream) :=
  match state s with
  | HasEvents => '(out, s) ← send_chunk len s; Ok (Written out, s)
  | WaitingForEvents => Ok (Deferred, s)
  | WantToClose => Ok (Eof, s)
  | Closed => Throw (ELogic "response already closed")
  end.

(** A posted task runs: does it call [res.resume()]? *)
Definition run_task (t : Task) (s : EventStream) : bool :=
  match t with
  | ResumeWithEvents weak => weak && negb (bool_decide (state s = Closed))
  | ResumeToClose weak => weak && bool_decide (state s = WantToClose)
  end.

(** ** The stream and its environment *)

Record World := mkWorld {
  es : EventStream;
  tasks : list Task;            (** posted, not run yet *)
  deferred : bool;              (** nghttp2 waits for [resume()] *)
  eof : bool;                   (** the response has been ended *)
  sent : string;                (** all the bytes handed to nghttp2 *)
  accepted : list (option string)  (** the queued events, in order; [None] is a ping *)
}.

Definition item_event (i : option string) : string :=
  match i with Some m => format_event FIELD_DATA m | None => format_event "" nl end.

Definition accepts (s : EventStream) : bool := match state s with HasEvents | WaitingForEvents => true | _ => false end.

(** The tasks a handler posted go to the end of the event loop's queue. *)
Definition posted (w : World) (r : EventStream * list Task) (i : option (option string)) : World :=
  mkWorld r.1 (tasks w ++ r.2) (deferred w) (eof w) (sent w)
    (match i with Some i => if accepts (es w) then accepted w ++ [i] else accepted w | None => accepted w end).
Definition initial (initialEvent : option string) : World :=
  let '(s, ts) := create initialEvent in
  mkWorld s ts false false "" (match initialEvent with Some e => [Some e] | None => [] end).

(** A slot of a signal or the handler of an expired timer may already be on its way when
    [on_close] disconnects or cancels it, so these steps are always possible. *)
Inductive step : World → World → Prop :=
| step_event w msg : step w (posted w (enqueue true FIELD_DATA msg (es w)) (Some (Some msg)))
| step_ping w : step w (posted w (on_ping (es w)) (Some None))
| step_terminate w : step w (posted w (on_termination (es w)) None)
| step_task w t ts :
    tasks w = t :: ts →
    step w (mkWorld (es w) ts (deferred w && negb (run_task t (es w))) (eof w) (sent w) (accepted w))
| step_read w len r s :
    deferred w = false → eof w = false → state (es w) ≠ Closed → process len (es w) = Ok (r, s) →
    step w (mkWorld s (tasks w)
              (match r with Deferred => true | _ => false end)
              (match r with Eof => true | _ => false end)
              (match r with Written b => sent w +:+ b | _ => sent w end) (accepted w))
| step_close w :
    state (es w) ≠ Closed →
    step w (mkWorld (on_close (es w)) (tasks w) (deferred w) (eof w) (sent w) (accepted w)).

Definition reachable (w : World) : Prop := ∃ initialEvent, rtc step (initial initialEvent) w.

(** ** Bytes *)

Definition str_concat (l : list string) : string := foldr String.append "" l.
Lemma str_concat_app l k : str_concat (l ++ k) = str_concat l +:+ str_concat k.
Proof. induction l as [|s l IH]; simpl; [done|]. by rewrite IH, str_app_assoc. Qed.

Lemma substring_split n s :
  n ≤ String.length s →
  String.substring 0 n s +:+ String.substring n (String.length s - n) s = s.
Proof.
  revert n. induction s as [|c s IH]; intros [|n] Hn; simpl in *.
  - done.
  - lia.
  - rewrite str_app_nil_l. f_equal. specialize (IH 0 ltac:(lia)). rewrite Nat.sub_0_r in IH.
    rewrite <- IH at 3. by destruct s.
  - by rewrite str_app_cons, IH by lia.
Qed.
Lemma substring_length n m s :
  n + m ≤ String.length s → String.length (String.substring n m s) = m.
Proof.
  revert n m. induction s as [|c s IH]; intros [|n] [|m] Hn; simpl in *; try lia.
  - by rewrite IH by (simpl; lia).
  - by rewrite IH by lia.
  - by rewrite IH by lia.
Qed.

(** No byte is lost, duplicated or reordered by a chunk, and a chunk never exceeds the buffer;
    an incomplete chunk fills the buffer. *)
Lemma send_loop_spec room q out q' :
  send_loop room q = (out, q') →
  out +:+ str_concat q' = str_concat q ∧ String.length out ≤ room ∧
  (q' ≠ [] → String.length out = room) ∧
  (Forall (λ e, e ≠ "") q → Forall (λ e, e ≠ "") q').
Proof.
  revert room out q'. induction q as [|front rest IH]; intros room out q'; simpl.
  - intros; simplify_eq. split_and!; [done|simpl; lia|done|done].
  - destruct (Nat.ltb_spec (Nat.min (String.length front) room) (String.length front)) as [Hlt|Hge].
    + rewrite (Nat.min_r (String.length front) room) by lia. intros; simplify_eq. simpl.
      rewrite <- str_app_assoc, substring_split by lia. split; [done|].
      rewrite substring_length by lia. split_and!; [lia|done|].
      intros [? ?]%Forall_cons. constructor; [|done]. intros He.
      apply (f_equal String.length) in He. rewrite substring_length in He by lia. simpl in He. lia.
    + destruct (send_loop _ rest) as [out' q''] eqn:E. intros; simplify_eq.
      apply IH in E as (Hc & Hl & Hfull & Hne). rewrite str_app_assoc, Hc, str_length_app.
      split_and!; [done|lia|intros ?; rewrite Hfull by done; lia|].
      intros [_ ?]%Forall_cons. auto.
Qed.

Lemma format_lines_nonempty f w : format_event f w ≠ "".
Proof. unfold format_event. intros [_ H]%str_app_eq_nil. done. Qed.

(** ** The invariant *)

Record inv (w : World) : Prop := {
  inv_queue : accepts (es w) = true → (state (es w) = HasEvents ↔ queue (es w) ≠ []);
  inv_nonempty : Forall (λ e, e ≠ "") (queue (es w));
  inv_fifo : sent w +:+ str_concat (queue (es w)) = str_concat (item_event <$> accepted w);
  inv_wakeup : deferred w = true → state (es w) = HasEvents ∨ state (es w) = WantToClose →
    ∃ t, t ∈ tasks w ∧ run_task t (es w) = true;
  inv_eof : eof w = true → state (es w) = WantToClose ∨ state (es w) = Closed
}.

Lemma inv_initial e : inv (initial e).
Proof.
  destruct e as [e|]; split; simpl; try done.
  - by constructor; [apply format_lines_nonempty|].
Qed.

Section steps.
(** An event or a ping is queued. *)
Lemma inv_enqueue w f m i :
  item_event i = format_event f m → inv w → inv (posted w (enqueue true f m (es w)) (Some i)).
Proof.
  intros Hi [Hq Hn Hf Hw He]. unfold posted, enqueue. simpl.
  destruct (state (es w)) eqn:Hs; unfold accepts; rewrite Hs; simpl.
  3,4: rewrite app_nil_r; split; simpl; rewrite ?Hs in *; auto.
  all: split; simpl; [by destruct (queue (es w))| | | |intros ?%He; naive_solver].
  all: try (apply Forall_app; split; [done|]; constructor; [apply format_lines_nonempty|done]).
  all: try (rewrite str_concat_app, fmap_app, str_concat_app, <- str_app_assoc, Hf; simpl; by rewrite Hi).
  all: intros _ _; exists (ResumeWithEvents true); split; [set_solver|done].
Qed.
Lemma inv_ext w s :
  state s = state (es w) → queue s = queue (es w) → inv w →
  inv (mkWorld s (tasks w) (deferred w) (eof w) (sent w) (accepted w)).
Proof.
  intros Hs Hq [H1 H2 H3 H4 H5]. split; simpl; unfold accepts in *; rewrite ?Hs, ?Hq; auto.
  intros Hd Hst. destruct (H4 Hd Hst) as (t & ? & Ht). exists t. split; [done|].
  revert Ht. by destruct t; simpl; rewrite Hs.
Qed.

Lemma step_inv w w' : inv w → step w w' → inv w'.
Proof.
  intros Hw Hstep. destruct Hstep as [w msg|w|w|w t ts Ht|w len r s Hd He Hc Hp|w Hc].
  - by apply inv_enqueue.
  - pose proof (inv_enqueue w "" nl None eq_refl Hw) as H.
    unfold posted, on_ping in *. destruct (enqueue true "" nl (es w)) as [s ts]. simpl in *.
    by apply (inv_ext _ (start_ping s)) in H.
  - destruct Hw as [Hq Hn Hf Hwk He]. unfold posted, on_termination.
    destruct (state (es w)) eqn:Hs; simpl; (split; simpl; rewrite ?Hs, ?app_nil_r in *; auto; try done).
    all: intros _ _; exists (ResumeToClose true); split; [set_solver|done].
  - destruct Hw as [Hq Hn Hf Hwk He]. split; simpl; auto.
    destruct (deferred w); simpl; [|done]. rewrite negb_true_iff. intros Hrun Hst.
    destruct (Hwk eq_refl Hst) as (t' & Hin & Hrun'). rewrite Ht in Hin.
    apply elem_of_cons in Hin as [->|Hin]; [congruence|eauto].
  - destruct Hw as [Hq Hn Hf Hwk Heof]. unfold process in Hp.
    destruct (state (es w)) eqn:Hs; simpl in Hp.
    + unfold send_chunk in Hp. rewrite Hs in Hp. simpl in Hp.
      destruct (send_loop len (queue (es w))) as [out q] eqn:El. simpl in Hp. simplify_eq.
      apply send_loop_spec in El as (Hcat & _ & _ & Hne). split; simpl; auto.
      * intros _. by destruct q.
      * by rewrite str_app_assoc, Hcat.
      * done.
      * done.
    + simplify_eq. split; simpl; auto; rewrite ?Hs; naive_solver.
    + simplify_eq. split; simpl; auto; rewrite ?Hs; naive_solver.
    + done.
  - destruct Hw as [Hq Hn Hf Hwk He]. split; simpl; try done; auto. naive_solver.
Qed.

Lemma steps_inv w w' : inv w → rtc step w w' → inv w'.
Proof. intros Hi H. induction H; eauto using step_inv. Qed.
Lemma reachable_inv w : reachable w → inv w.
Proof. intros [e H]. eapply steps_inv; [apply inv_initial|exact H]. Qed.
End steps.

(** ** The signal of a stream *)

(** The slot the constructor connects, called while it is connected *)
Definition on_signal (msg : string) (w : World) : World :=
  if eventSub (es w) then posted w (enqueue true FIELD_DATA msg (es w)) (Some (Some msg)) else w.
(** The messages a stream has queued, without the pings *)
Definition messages (w : World) : list string := omap id (accepted w).

Lemma step_connected w w' :
  step w w' → accepts (es w') = true → accepts (es w) = true ∧ eventSub (es w') = eventSub (es w).
Proof.
  unfold accepts. intros Hs. destruct Hs as [w msg|w|w|w t ts Ht|w len r s Hd He Hc Hp|w Hc]; simpl;
    unfold on_ping, on_termination, enqueue; try (by destruct (state (es w)) eqn:E; simpl; rewrite ?E).
  intros Ha. unfold process, send_chunk in Hp. destruct (state (es w)) eqn:E; [|simplify_eq; by rewrite ?E in *..].
  rewrite bool_decide_eq_true_2 in Hp by done. simpl in Hp. destruct (send_loop len (queue (es w))) as [out q].
  simpl in Hp. simplify_eq. done.
Qed.
Lemma messages_posted w f msg :
  messages (posted w (enqueue true f msg (es w)) (Some (Some msg))) =
  if accepts (es w) then messages w ++ [msg] else messages w.
Proof. unfold messages. simpl. destruct (accepts (es w)); [|done]. by rewrite omap_app. Qed.

Lemma reachable_step w w' : reachable w → step w w' → reachable w'.
Proof. intros [e H] Hs. exists e. by eapply rtc_r. Qed.
Lemma reachable_on_signal msg w : reachable w → reachable (on_signal msg w).
Proof. intros H. unfold on_signal. destruct (eventSub (es w)); [|done]. eapply reachable_step; [exact H|apply step_event]. Qed.
Lemma accepts_on_signal msg w : accepts (es (on_signal msg w)) = accepts (es w).
Proof.
  unfold on_signal, accepts, posted. destruct (eventSub (es w)); [|done]. simpl. unfold enqueue.
  by destruct (state (es w)) eqn:E; simpl; rewrite ?E.
Qed.
Lemma eventSub_on_signal msg w : eventSub (es (on_signal msg w)) = eventSub (es w).
Proof. unfold on_signal. destruct (eventSub (es w)) eqn:E; [|done]. simpl. unfold enqueue. by destruct (state (es w)). Qed.
Lemma messages_on_signal msg w :
  messages (on_signal msg w) = if eventSub (es w) && accepts (es w) then messages w ++ [msg] else messages w.
Proof. unfold on_signal. destruct (eventSub (es w)); [|done]. apply messages_posted. Qed.

(** ** What a client decodes *)

Definition carriage_return : ascii := "013".
(** The lines of an event stream: a line ends with CR, LF or CR LF. *)
Fixpoint sse_lines (s : string) : list string :=
  match s with
  | "" => [""]
  | String c s' =>
      if Ascii.eqb c newline then "" :: sse_lines s'
      else if Ascii.eqb c carriage_return then
        match s' with
        | String d s'' => if Ascii.eqb d newline then "" :: sse_lines s'' else "" :: sse_lines s'
        | "" => "" :: sse_lines s'
        end
      else match sse_lines s' with l :: ls => String c l :: ls | [] => [] end
  end.
(** The events a client dispatches: an empty line ends an event, [data] lines are joined by
    newlines, a line that starts with a colon is a comment, an unterminated event is dropped. *)
Fixpoint sse_events (data : list string) (ls : list string) : list string :=
  match ls with
  | [] => []
  | "" :: ls => match data with [] => sse_events [] ls | _ => join nl data :: sse_events [] ls end
  | l :: ls =>
      match strip_prefix "data: " l with
      | Some v => sse_events (data ++ [v]) ls
      | None => sse_events data ls
      end
  end.
Definition sse_decode (s : string) : list string := sse_events [] (removelast (sse_lines s)).

(** The message without its final newline, if it ends with one. *)
Fixpoint chomp (s : string) : string :=
  match s with
  | "" => ""
  | String c "" => if Ascii.eqb c newline then "" else s
  | String c s => String c (chomp s)
  end.

Section decode.
Lemma split_nl_nonempty s : ∃ l ls, split_nl s = l :: ls.
Proof.
  induction s as [|c s (l & ls & IH)]; simpl; [eauto|]. rewrite IH. destruct (Ascii.eqb c newline); eauto.
Qed.
Lemma sse_lines_split s : str_contains carriage_return s = false → sse_lines s = split_nl s.
Proof.
  induction s as [|c s IH]; [done|]. cbn [str_contains sse_lines split_nl]. intros [Hc Hs]%orb_false_iff.
  assert (Ascii.eqb c carriage_return = false) as -> by (by rewrite Ascii.eqb_sym).
  rewrite IH by done. destruct (split_nl_nonempty s) as (l & ls & ->). by destruct (Ascii.eqb c newline).
Qed.
Definition no_nl (s : string) : Prop := str_contains newline s = false.
Lemma split_nl_app l s : no_nl l → split_nl (l +:+ nl +:+ s) = l :: split_nl s.
Proof.
  unfold no_nl. intros Hl. induction l as [|c l IH].
  - rewrite str_app_nil_l. unfold nl. rewrite str_app_cons, str_app_nil_l. cbn [split_nl].
    destruct (split_nl_nonempty s) as (x & xs & ->). done.
  - cbn [str_contains] in Hl. apply orb_false_iff in Hl as [Hc Hl]. rewrite str_app_cons. cbn [split_nl].
    rewrite IH by done. by rewrite Ascii.eqb_sym, Hc.
Qed.
Lemma split_nl_no_nl s : Forall no_nl (split_nl s).
Proof.
  induction s as [|c s IH]; cbn [split_nl]; [by repeat constructor|].
  destruct (split_nl_nonempty s) as (l & ls & E). rewrite E in *. apply Forall_cons in IH as [Hl Hls].
  destruct (Ascii.eqb c newline) eqn:Ec; constructor; try done; [by constructor|].
  unfold no_nl in *. cbn [str_contains]. by rewrite Hl, orb_false_r, Ascii.eqb_sym.
Qed.
Lemma tokens_spec s : ∃ l ls, tokens s = l :: ls ∧ Forall no_nl (l :: ls).
Proof.
  pose proof (split_nl_no_nl s) as H. unfold tokens.
  destruct (split_nl s) as [|l [|l' ls]] eqn:E.
  - destruct (split_nl_nonempty s) as (? & ? & ?). congruence.
  - eauto.
  - case_decide; [|eauto]. exists l, (removelast (l' :: ls)). split; [done|].
    apply Forall_cons in H as [Hl Hls]. constructor; [done|]. clear -Hls.
    revert l' Hls. induction ls as [|x ls IH]; intros l' Hls; simpl; [done|].
    apply Forall_cons in Hls as [??]. constructor; [done|]. by apply IH.
Qed.

Lemma split_format_lines f ls s :
  no_nl f → Forall no_nl ls →
  split_nl (format_lines f ls +:+ nl +:+ s) = ((λ l, f +:+ ": " +:+ l) <$> ls) ++ "" :: split_nl s.
Proof.
  intros Hf. induction 1 as [|l ls Hl Hls IH].
  - rewrite str_app_nil_l. by apply (split_nl_app "").
  - cbn [format_lines fmap list_fmap]. rewrite !str_app_assoc.
    replace (f +:+ ": " +:+ l +:+ nl +:+ format_lines f ls +:+ nl +:+ s)
      with ((f +:+ ": " +:+ l) +:+ nl +:+ format_lines f ls +:+ nl +:+ s) by (by rewrite !str_app_assoc).
    rewrite split_nl_app, IH; [done|]. unfold no_nl in *. rewrite !str_contains_app. by rewrite Hf, Hl.
Qed.

Lemma sse_events_data acc ls rest :
  sse_events acc (((λ l, "data" +:+ ": " +:+ l) <$> ls) ++ rest) = sse_events (acc ++ ls) rest.
Proof.
  revert acc. induction ls as [|l ls IH]; intros acc; [by rewrite app_nil_r|].
  cbn [fmap list_fmap app]. change ("data" +:+ ": " +:+ l) with (String "d" ("ata" +:+ ": " +:+ l)).
  cbn [sse_events]. replace (String "d" ("ata" +:+ ": " +:+ l)) with ("data: " +:+ l) by done.
  rewrite strip_prefix_app, IH, <- app_assoc. done.
Qed.
Lemma sse_events_comment ls rest :
  sse_events [] (((λ l, "" +:+ ": " +:+ l) <$> ls) ++ "" :: rest) = sse_events [] rest.
Proof. induction ls as [|l ls IH]; [done|]. exact IH. Qed.

Lemma removelast_cons_split x s : removelast (x :: split_nl s) = x :: removelast (split_nl s).
Proof. by destruct (split_nl_nonempty s) as (l & ls & ->). Qed.
Lemma removelast_app_split (xs : list string) s :
  removelast (xs ++ split_nl s) = xs ++ removelast (split_nl s).
Proof. apply removelast_app. by destruct (split_nl_nonempty s) as (l & ls & ->). Qed.

Lemma join_nl_snoc ls : ls ≠ [] → join nl (ls ++ [""]) = join nl ls +:+ nl.
Proof.
  induction ls as [|l [|l' ls] IH]; intros H; [done| |].
  - by rewrite <- (str_app_nil_r nl) at 2.
  - change (join nl ((l :: l' :: ls) ++ [""])) with (l +:+ nl +:+ join nl ((l' :: ls) ++ [""])).
    rewrite IH by done. change (join nl (l :: l' :: ls)) with (l +:+ nl +:+ join nl (l' :: ls)).
    by rewrite !str_app_assoc.
Qed.
Lemma join_split_nl s : join nl (split_nl s) = s.
Proof.
  induction s as [|c s IH]; [done|]. cbn [split_nl].
  destruct (split_nl_nonempty s) as (l & ls & E). rewrite E in *. destruct (Ascii.eqb_spec c newline) as [->|].
  - change (join nl ("" :: l :: ls)) with (nl +:+ join nl (l :: ls)). by rewrite IH.
  - rewrite <- IH. destruct ls as [|l' ls]; [done|]. reflexivity.
Qed.
Lemma chomp_nl s : chomp (s +:+ nl) = s.
Proof.
  induction s as [|c s IH]; [done|]. rewrite str_app_cons.
  destruct (s +:+ nl) eqn:E; [by apply str_app_eq_nil in E as [_ ?]|].
  change (chomp (String c (String a s0))) with (String c (chomp (String a s0))). by rewrite IH.
Qed.
Lemma chomp_id s : (∀ t, s ≠ t +:+ nl) → chomp s = s.
Proof.
  induction s as [|c s IH]; intros H; [done|]. destruct s as [|d s].
  - simpl. destruct (Ascii.eqb_spec c newline) as [->|]; [|done]. by destruct (H "").
  - change (chomp (String c (String d s))) with (String c (chomp (String d s))). rewrite IH; [done|].
    intros t Ht. apply (H (String c t)). by rewrite str_app_cons, <- Ht.
Qed.
Lemma split_nl_snoc t : split_nl (t +:+ nl) = split_nl t ++ [""].
Proof.
  induction t as [|c t IH]; [done|]. rewrite str_app_cons. cbn [split_nl]. rewrite IH.
  destruct (split_nl_nonempty t) as (a & as_ & ->). by destruct (Ascii.eqb c newline).
Qed.
Lemma join_tokens s : join nl (tokens s) = chomp s.
Proof.
  unfold tokens. pose proof (join_split_nl s) as Hj. destruct (split_nl_nonempty s) as (l & ls & E). rewrite E in *.
  destruct ls as [|l' ls].
  - pose proof (split_nl_no_nl s) as Hn. rewrite E in Hn. apply Forall_cons in Hn as [Hn _]. simpl in Hj. subst l.
    change (join nl [s]) with s. symmetry. apply chomp_id. intros t ->. unfold no_nl in Hn. rewrite str_contains_app in Hn.
    by destruct (str_contains newline t).
  - case_decide as Hl.
    + apply last_Some in Hl as (k & Hk). rewrite Hk in *. rewrite removelast_last.
      rewrite join_nl_snoc in Hj by (by destruct k). by rewrite <- Hj, chomp_nl.
    + rewrite Hj. symmetry. apply chomp_id. intros t Ht. apply Hl.
      by rewrite <- E, Ht, split_nl_snoc, last_snoc.
Qed.

Definition no_cr (s : string) : Prop := str_contains carriage_return s = false.
Lemma no_cr_format f ls : no_cr f → Forall no_cr ls → no_cr (format_lines f ls).
Proof.
  unfold no_cr. intros Hf. induction 1 as [|l ls Hl _ IH]; [done|]. cbn [format_lines].
  rewrite !str_contains_app. by rewrite Hf, Hl, IH.
Qed.
Lemma no_cr_tokens s : no_cr s → Forall no_cr (tokens s).
Proof.
  intros Hs. assert (Forall no_cr (split_nl s)) as H.
  { revert Hs. unfold no_cr. induction s as [|c s IH]; intros Hs; [by repeat constructor|].
    cbn [str_contains split_nl] in *. apply orb_false_iff in Hs as [Hc Hs]. specialize (IH Hs).
    destruct (split_nl_nonempty s) as (l & ls & E). rewrite E in *. apply Forall_cons in IH as [Hl Hls].
    destruct (Ascii.eqb c newline); constructor; try done; [by constructor|]. cbn [str_contains]. by rewrite Hl, Hc. }
  unfold tokens. destruct (split_nl s) as [|l [|l' ls]]; [done|done|]. case_decide as Hl; [|done].
  apply last_Some in Hl as (k & Hk). rewrite Hk in *. rewrite removelast_last. by apply Forall_app in H as [? _].
Qed.
Definition item_no_cr (i : option string) : Prop := match i with Some m => no_cr m | None => True end.
Lemma no_cr_item i : item_no_cr i → no_cr (item_event i).
Proof.
  destruct i as [m|]; [|done]. intros Hm. unfold no_cr, item_event, format_event. rewrite str_contains_app.
  rewrite (no_cr_format FIELD_DATA) by (done || by apply no_cr_tokens). done.
Qed.

Lemma split_event f m s :
  no_nl f →
  split_nl (format_event f m +:+ s) = ((λ l, f +:+ ": " +:+ l) <$> tokens m) ++ "" :: split_nl s.
Proof.
  intros Hf. unfold format_event. rewrite str_app_assoc. destruct (tokens_spec m) as (l & ls & -> & Hls).
  by apply split_format_lines.
Qed.
Lemma decode_events items :
  sse_events [] (removelast (split_nl (str_concat (item_event <$> items)))) =
  chomp <$> omap id items.
Proof.
  induction items as [|[m|] items IH]; [done|..]; cbn [fmap list_fmap str_concat foldr]; unfold item_event at 1;
    rewrite split_event by done.
  - change ("" :: split_nl ?s) with ([""] ++ split_nl s). rewrite app_assoc, removelast_app_split, <- app_assoc.
    unfold FIELD_DATA. rewrite sse_events_data. cbn [app sse_events].
    destruct (tokens_spec m) as (l & ls & E & _). rewrite E, <- E, join_tokens. cbn. by rewrite <- IH.
  - change ("" :: split_nl ?s) with ([""] ++ split_nl s). rewrite app_assoc, removelast_app_split, <- app_assoc. cbn [app].
    rewrite sse_events_comment. exact IH.
Qed.
Lemma sse_decode_events items :
  Forall item_no_cr items → sse_decode (str_concat (item_event <$> items)) = chomp <$> omap id items.
Proof.
  intros Hcr. unfold sse_decode. rewrite sse_lines_split; [apply decode_events|].
  induction Hcr as [|i items Hi _ IH]; [done|]. cbn [fmap list_fmap str_concat foldr].
  rewrite str_contains_app. fold (str_concat (item_event <$> items)). rewrite IH. by rewrite (no_cr_item i Hi).
Qed.
End decode.

Lemma sent_prefix w : reachable w → ∃ rest, sent w +:+ rest = str_concat (item_event <$> accepted w).
Proof. intros [_ _ Hf _ _]%reachable_inv. eauto. Qed.
Lemma waiting_sent w :
  reachable w → state (es w) = WaitingForEvents →
  sent w = str_concat (item_event <$> accepted w) ∧
  (Forall item_no_cr (accepted w) → sse_decode (sent w) = chomp <$> messages w).
Proof.
  intros [Hq _ Hf _ _]%reachable_inv Hs.
  assert (queue (es w) = []) as He.
  { unfold accepts in Hq. rewrite Hs in Hq. specialize (Hq eq_refl).
    destruct (queue (es w)); [done|]. naive_solver. }
  rewrite He, str_app_nil_r in Hf. split; [done|]. intros Hcr. by rewrite Hf, sse_decode_events.
Qed.

(** C28: reliable ordered delivery.  At any point of any interleaving of event signals,
    keep-alive pings, termination, the event loop and nghttp2's reads with buffers of any size,
    what has been sent is a prefix of the formatted events in the order they were queued; and
    when the stream waits for more events, everything has been sent, and a client decodes
    exactly the messages, without the pings (messages without carriage returns; a final
    newline of a message is not preserved). *)
Theorem stream_delivers_in_order (w : World) :
  reachable w →
  (∃ rest, sent w +:+ rest = str_concat (item_event <$> accepted w)) ∧
  (state (es w) = WaitingForEvents →
   sent w = str_concat (item_event <$> accepted w) ∧
   (Forall item_no_cr (accepted w) → sse_decode (sent w) = chomp <$> omap id (accepted w))).
Proof. intros H. split; [by apply sent_prefix|]. by apply waiting_sent. Qed.

(** A message of two lines and a ping, read at once. *)
Definition sample_start : World := initial (Some ("a" +:+ nl +:+ "b")).
Definition sample_pinged : World := posted sample_start (on_ping (es sample_start)) (Some None).
Definition sample_world : World :=
  match process 100 (es sample_pinged) with
  | Ok (Written b, s) => mkWorld s (tasks sample_pinged) false false b (accepted sample_pinged)
  | _ => sample_pinged
  end.
Lemma sample_reachable : reachable sample_world.
Proof.
  exists (Some ("a" +:+ nl +:+ "b")). apply (rtc_l _ _ sample_pinged); [apply step_ping|]. apply rtc_once.
  refine (eq_ind _ (step sample_pinged)
    (step_read sample_pinged 100 (Written (sent sample_world)) (es sample_world) _ _ _ _) _ _);
    vm_compute; reflexivity || discriminate.
Qed.
Lemma stream_delivers_in_order_witness :
  state (es sample_world) = WaitingForEvents ∧ sse_decode (sent sample_world) = ["a" +:+ nl +:+ "b"].
Proof.
  split; [reflexivity|].
  apply (proj2 (stream_delivers_in_order sample_world sample_reachable) eq_refl).
  by repeat constructor.
Defined.

(** ** Progress *)

(** The event loop runs all the posted tasks. *)
Definition wake (w : World) : World :=
  mkWorld (es w) [] (deferred w && forallb (λ t, negb (run_task t (es w))) (tasks w)) (eof w) (sent w) (accepted w).
(** nghttp2 reads with a buffer of the given size, if it may. *)
Definition read_step (w : World) (len : nat) : World :=
  if deferred w || eof w then w
  else match process len (es w) with
  | Ok (r, s) => mkWorld s (tasks w) (match r with Deferred => true | _ => false end)
                   (match r with Eof => true | _ => false end)
                   (match r with Written b => sent w +:+ b | _ => sent w end) (accepted w)
  | Throw _ => w
  end.
Definition serve (w : World) (lens : list nat) : World := fold_left read_step lens w.

Section progress.
Lemma steps_wake w : rtc step w (wake w).
Proof.
  destruct w as [s ts d e b a]. unfold wake. simpl. revert d. induction ts as [|t ts IH]; intros d; simpl.
  - by rewrite andb_true_r.
  - eapply rtc_l; [by apply (step_task _ t ts)|]. simpl. rewrite andb_assoc. apply IH.
Qed.
Lemma wake_awake w :
  inv w → state (es w) = HasEvents ∨ state (es w) = WantToClose → deferred (wake w) = false.
Proof.
  intros [_ _ _ Hw _] Hs. simpl. destruct (deferred w); [|done]. destruct (Hw eq_refl Hs) as (t & Hin & Ht). simpl.
  apply not_true_iff_false. rewrite forallb_forall. intros H.
  specialize (H t (proj1 (list_elem_of_In _ _) Hin)). by rewrite Ht in H.
Qed.
Lemma steps_read w len : state (es w) ≠ Closed → rtc step w (read_step w len).
Proof.
  intros Hc. unfold read_step. destruct (deferred w) eqn:Hd; [done|]. destruct (eof w) eqn:He; [done|]. simpl.
  destruct (process len (es w)) as [[r s]|] eqn:Hp; [|done]. apply rtc_once. by apply (step_read w len r s).
Qed.

(** Bytes that wait in the queue. *)
Definition backlog (w : World) : nat := String.length (str_concat (queue (es w))).
Lemma backlog_empty w : inv w → backlog w = 0 → queue (es w) = [].
Proof.
  intros [_ Hn _ _ _]. unfold backlog. destruct Hn as [|e q He]; [done|]. simpl. rewrite str_length_app.
  destruct e; [done|simpl; lia].
Qed.
Lemma read_step_events w len :
  inv w → 0 < len → state (es w) = HasEvents → deferred w = false → eof w = false →
  let w' := read_step w len in
  accepted w' = accepted w ∧ backlog w' < backlog w ∧ deferred w' = false ∧ eof w' = false ∧
  state (es w') = (if decide (queue (es w') = []) then WaitingForEvents else HasEvents).
Proof.
  intros Hi Hlen Hs Hd He. pose proof Hi as [Hq Hn _ _ _]. unfold read_step. rewrite Hd, He. cbn [orb].
  unfold process, send_chunk. rewrite Hs. cbn [bool_decide decide].
  rewrite bool_decide_eq_true_2 by done. cbn [negb throw_if]. rewrite bind_Ok.
  destruct (send_loop len (queue (es w))) as [out q] eqn:El. rewrite bind_Ok. cbn [es accepted deferred eof].
  apply send_loop_spec in El as (Hcat & Hle & Hfull & _). split; [done|]. split; [|by simpl].
  unfold backlog. cbn [es queue with_state]. rewrite <- Hcat, str_length_app.
  destruct (decide (q = [])) as [->|Hne]; [|rewrite Hfull by done; lia].
  assert (queue (es w) ≠ []) as Hne by (apply Hq; unfold accepts; by rewrite Hs).
  destruct (queue (es w)) as [|e rest]; [done|]. apply Forall_cons in Hn as [He' _].
  simpl in Hcat. rewrite str_app_nil_r in Hcat. subst out. rewrite str_length_app. destruct e; [done|simpl; lia].
Qed.

Lemma read_step_waiting w len :
  state (es w) = WaitingForEvents → state (es (read_step w len)) = WaitingForEvents ∧
  sent (read_step w len) = sent w ∧ accepted (read_step w len) = accepted w.
Proof.
  intros Hs. unfold read_step. destruct (deferred w || eof w); [done|]. unfold process. by rewrite Hs.
Qed.
Lemma serve_waiting lens w :
  state (es w) = WaitingForEvents →
  rtc step w (serve w lens) ∧ state (es (serve w lens)) = WaitingForEvents ∧
  sent (serve w lens) = sent w ∧ accepted (serve w lens) = accepted w.
Proof.
  unfold serve. revert w. induction lens as [|len lens IH]; intros w Hs; [done|]. cbn [fold_left].
  destruct (read_step_waiting w len Hs) as (H1 & H2 & H3). destruct (IH _ H1) as (Hr & ? & -> & ->).
  split_and!; [|done..]. etrans; [|done]. apply steps_read. by rewrite Hs.
Qed.
Lemma serve_events lens w :
  inv w → Forall (λ len, 0 < len) lens → state (es w) = HasEvents → deferred w = false → eof w = false →
  backlog w ≤ length lens →
  rtc step w (serve w lens) ∧ state (es (serve w lens)) = WaitingForEvents ∧
  accepted (serve w lens) = accepted w.
Proof.
  intros Hi Hl. revert w Hi. induction Hl as [|len lens Hlen Hl IH]; intros w Hi Hs Hd He Hb.
  - exfalso. pose proof Hi as [Hq _ _ _ _]. simpl in Hb.
    apply (proj1 (Hq ltac:(unfold accepts; by rewrite Hs)) Hs). apply backlog_empty; [done|lia].
  - destruct (read_step_events w len Hi Hlen Hs Hd He) as (Ha & Hb' & Hd' & He' & Hs').
    assert (rtc step w (read_step w len)) as Hr by (apply steps_read; by rewrite Hs).
    assert (inv (read_step w len)) as Hi' by by eapply steps_inv.
    unfold serve. cbn [fold_left]. fold (serve (read_step w len) lens). case_decide as Hq.
    + destruct (serve_waiting lens _ Hs') as (? & ? & _ & Hacc). split_and!; [by etrans|done|congruence].
    + simpl in Hb. destruct (IH _ Hi' Hs' Hd' He' ltac:(lia)) as (? & ? & Hacc).
      split_and!; [by etrans|done|congruence].
Qed.
Lemma serve_all w lens :
  reachable w → state (es w) = HasEvents → Forall (λ len, 0 < len) lens → backlog w ≤ length lens →
  let w' := serve (wake w) lens in rtc step w w' ∧ state (es w') = WaitingForEvents ∧ accepted w' = accepted w.
Proof.
  intros Hr Hs Hl Hb. pose proof (reachable_inv w Hr) as Hi.
  assert (eof w = false) as He.
  { apply not_true_iff_false. intros [?|?]%(inv_eof _ Hi); congruence. }
  assert (inv (wake w)) as Hi' by (eapply steps_inv; [done|apply steps_wake]).
  destruct (serve_events lens (wake w) Hi' Hl Hs (wake_awake w Hi (or_introl Hs)) He Hb) as (Hsteps & Hst & Hacc).
  split_and!; [etrans; [apply steps_wake|done]|done..].
Qed.
(** An open stream can get to where it waits for events, without new ones. *)
Lemma stream_drains w :
  reachable w → accepts (es w) = true →
  ∃ w', rtc step w w' ∧ state (es w') = WaitingForEvents ∧ accepted w' = accepted w.
Proof.
  intros Hr Ha. unfold accepts in Ha. destruct (state (es w)) eqn:Hs; [|by exists w|done..].
  eexists. apply (serve_all w (replicate (backlog w) 1) Hr Hs); [apply Forall_replicate; lia|by rewrite length_replicate].
Qed.
Lemma step_accepted w w' : step w w' → accepted w `prefix_of` accepted w'.
Proof.
  intros []; simpl; try done; destruct (accepts _); try done; by apply prefix_app_r.
Qed.
Lemma step_closed w w' : step w w' → state (es w) = Closed → state (es w') = Closed.
Proof. intros [] Hs; simpl; try done; unfold on_ping, on_termination, enqueue; by rewrite Hs. Qed.
End progress.

(** No lost wake-up and delivery.  Whenever events are queued on an open stream, the event loop
    running the tasks it has been given and nghttp2 reading, with buffers of any non-zero
    sizes, as many times as there are bytes queued, is enough to deliver everything that has
    been accepted: the stream is never left asleep with events in its queue. *)
Theorem stream_delivers_everything (w : World) (lens : list nat) :
  reachable w → state (es w) = HasEvents → Forall (λ len, 0 < len) lens → backlog w ≤ length lens →
  let w' := serve (wake w) lens in
  rtc step w w' ∧ state (es w') = WaitingForEvents ∧
  sent w' = str_concat (item_event <$> accepted w).
Proof.
  intros Hr Hs Hl Hb w'. destruct (serve_all w lens Hr Hs Hl Hb) as (Hall & Hst & Hacc). split_and!; [done..|].
  assert (reachable w') as Hr' by (destruct Hr as [e Hr]; exists e; by etrans).
  destruct (waiting_sent w' Hr' Hst) as [-> _]. by rewrite <- Hacc.
Qed.

(** The stream was asleep when a message arrived. *)
Definition sample_asleep : World := mkWorld (es sample_world) (tasks sample_world) true false (sent sample_world) (accepted sample_world).
Definition sample_woken : World := posted sample_asleep (enqueue true FIELD_DATA "c" (es sample_asleep)) (Some (Some "c")).
Lemma sample_woken_reachable : reachable sample_woken.
Proof.
  destruct sample_reachable as [e H]. exists e. etrans; [exact H|].
  apply (rtc_l _ _ sample_asleep); [|apply rtc_once, step_event].
  refine (eq_ind _ (step sample_world) (step_read sample_world 1 Deferred (es sample_world) _ _ _ _) _ _);
    vm_compute; reflexivity || discriminate.
Qed.
Lemma stream_delivers_everything_witness :
  deferred sample_woken = true ∧ backlog sample_woken = 9 ∧
  sent (serve (wake sample_woken) (repeat 1 9)) = str_concat (item_event <$> accepted sample_woken).
Proof.
  split; [reflexivity|]. split; [reflexivity|].
  apply (stream_delivers_everything sample_woken (repeat 1 9)).
  - exact sample_woken_reachable.
  - reflexivity.
  - repeat constructor.
  - vm_compute. lia.
Defined.

(** Orderly shutdown.  After the termination signal, the tasks already posted and a single read
    are enough to end the response, no later event is accepted, and a stream that is closing
    or closed never goes back to delivering. *)
Theorem stream_terminates (w : World) :
  reachable w →
  (state (es w) = WantToClose → eof w = false → ∀ len, rtc step w (read_step (wake w) len) ∧ eof (read_step (wake w) len) = true) ∧
  (∀ w', step w w' → accepts (es w) = false →
     accepts (es w') = false ∧ accepted w' = accepted w ∧ (state (es w) = Closed → state (es w') = Closed ∧ sent w' = sent w)).
Proof.
  intros Hr. pose proof (reachable_inv w Hr) as Hi. split.
  - intros Hs He len. split.
    + etrans; [apply steps_wake|]. apply steps_read. simpl. by rewrite Hs.
    + unfold read_step. rewrite (wake_awake w Hi (or_intror Hs)). cbn [es eof wake]. rewrite He. simpl.
      unfold process. by rewrite Hs.
  - intros w' Hstep Ha. unfold accepts in *.
    destruct Hstep as [w msg|w|w|w t ts Ht|w len r s Hd He Hc Hp|w Hc]; simpl;
      unfold on_ping, on_termination, enqueue; destruct (state (es w)) eqn:Hs; try done; simpl; rewrite ?Hs;
      unfold accepts; rewrite ?Hs; try done.
    unfold process in Hp. rewrite Hs in Hp. simplify_eq. simpl. by rewrite Hs.
Qed.

Definition sample_terminated : World := posted sample_asleep (on_termination (es sample_asleep)) None.
Lemma stream_terminates_witness :
  deferred sample_terminated = true ∧ eof (read_step (wake sample_terminated) 10) = true.
Proof.
  split; [reflexivity|].
  refine (proj2 (proj1 (stream_terminates sample_terminated _) eq_refl eq_refl 10)).
  destruct sample_reachable as [e H]. exists e. etrans; [exact H|].
  apply (rtc_l _ _ sample_asleep); [|apply rtc_once, step_terminate].
  refine (eq_ind _ (step sample_world) (step_read sample_world 1 Deferred (es sample_world) _ _ _ _) _ _);
    vm_compute; reflexivity || discriminate.
Defined.

(** The read callback is memory-safe and never throws: in every state in which nghttp2 may call
    it, that is unless the response has been closed, it returns, and what it wrote fits into
    the buffer it was given. *)
Theorem stream_read_safe (w : World) (len : nat) :
  state (es w) ≠ Closed →
  ∃ r s, process len (es w) = Ok (r, s) ∧
    match r with Written b => String.length b ≤ len | _ => True end.
Proof.
  intros Hc. unfold process, send_chunk. destruct (state (es w)) eqn:Hs; try done; try (by eexists _, _).
  rewrite bool_decide_eq_true_2 by done. simpl.
  destruct (send_loop len (queue (es w))) as [out q] eqn:E. apply send_loop_spec in E as (_ & Hle & _).
  by eexists _, _.
Qed.

Lemma stream_read_safe_witness :
  ∃ r s, process 3 (es sample_woken) = Ok (r, s) ∧ match r with Written b => String.length b ≤ 3 | _ => True end.
Proof.
  apply (stream_read_safe sample_woken 3). discriminate.
Defined.
