(* ===== verification/DynamicSubscriptions.v ===== *)
(** * DynamicSubscriptions: subscribed notifications ([restconf/DynamicSubscriptions.cpp])

    A subscription object is shared by the registry of the manager and by the HTTP stream that
    consumes it, and is destroyed when the last of them lets go; so the model has a heap of
    objects, the registry (a map from UUIDs to heap locations) and the open streams.  sysrepo
    is the environment: the identifiers of the notification subscriptions it runs are part of
    the state, subscribing adds one, terminating removes one or fails when it is not there
    any more, for instance because its stop time has been reached. *)

From S2P Require Import Prelude Exceptions UriTypes Uuid YangUtils.

(** [SubscriptionData::State] *)
Inductive SubState := Start | ReceiverActive | Terminating.
#[export] Instance SubState_eq_dec : EqDecision SubState.
Proof. solve_decision. Defined.

(** The wait for the inactivity timer.  Its handler holds a weak pointer, which is empty when the timer is
    armed by the constructor. *)
Inductive Timer := Idle | Armed (weak : bool).
#[export] Instance Timer_eq_dec : EqDecision Timer.
Proof. solve_decision. Defined.

Definition loc := nat.

Section subscriptions.
Context {U : UuidLib}.
(** [sysrepo::Session::getNacmRecoveryUser()] *)
Context (recoveryUser : string).

Record SubscriptionData := mkSub {
  subscriptionId : N;
  dataFormat : DataFormat;
  sub_uuid : uuid;
  user : string;
  sub_state : SubState;
  timer : Timer;
  expired : list bool      (** completions of the timer that are queued with success: is the weak pointer live? *)
}.

Record World := mkSubs {
  m_subscriptions : gmap uuid loc;
  heap : gmap loc SubscriptionData;
  streams : list loc;                (** the subscription each open HTTP stream refers to *)
  sr_active : gset N                 (** the subscriptions sysrepo runs *)
}.

Definition with_sub_state (st : SubState) (d : SubscriptionData) : SubscriptionData :=
  mkSub (subscriptionId d) (dataFormat d) (sub_uuid d) (user d) st (timer d) (expired d).
Definition with_timer (t : Timer) (d : SubscriptionData) : SubscriptionData :=
  mkSub (subscriptionId d) (dataFormat d) (sub_uuid d) (user d) (sub_state d) t (expired d).
Definition with_expired (q : list bool) (d : SubscriptionData) : SubscriptionData :=
  mkSub (subscriptionId d) (dataFormat d) (sub_uuid d) (user d) (sub_state d) (timer d) q.

(** ** One subscription *)

(** By the documentation of Asio, [cancel] and [expires_after] make a pending wait complete with
    [operation_aborted], and then its handler does nothing; a wait that has expired, and whose completion is queued, completes
    with success all the same.  [shared]: [weak_from_this()] gives a live pointer, that is, not in the
    constructor. *)
Definition inactivityStart (shared : bool) (d : SubscriptionData) : SubscriptionData :=
  if decide (sub_state d = Terminating) then d else with_timer (Armed shared) d.
Definition inactivityCancel (d : SubscriptionData) : SubscriptionData := with_timer Idle d.

Definition newSubscriptionData (id : N) (format : DataFormat) (u : uuid) (user : string) : SubscriptionData :=
  inactivityStart false (mkSub id format u user Start Idle []).

Definition clientDisconnected (d : SubscriptionData) : SubscriptionData :=
  if decide (sub_state d = Terminating) then d else inactivityStart true (with_sub_state Start d).
Definition clientConnected (d : SubscriptionData) : SubscriptionData :=
  with_sub_state ReceiverActive (inactivityCancel d).
Definition isReadyToAcceptClient (d : SubscriptionData) : bool := bool_decide (sub_state d = Start).

(** [SubscriptionData::terminate]; an error of sysrepo is logged and ignored. *)
Definition terminate (d : SubscriptionData) (active : gset N) : SubscriptionData * gset N :=
  if decide (sub_state d = Terminating) then (d, active)
  else (with_sub_state Terminating d, active ∖ {[subscriptionId d]}).
Definition stop_one (d : SubscriptionData) : SubscriptionData :=
  with_sub_state Terminating (inactivityCancel d).

(** ** The registry *)

(** The last reference may be gone: the destructor runs, and sysrepo's own subscription
    object, a member, ends the subscription in any case. *)
Definition referenced (w : World) (l : loc) : bool :=
  bool_decide (l ∈ streams w) || bool_decide (map_Exists (λ _ l', l' = l) (m_subscriptions w)).
Definition release (l : loc) (w : World) : World :=
  if referenced w l then w
  else match heap w !! l with
  | Some d =>
      let '(d', active) := terminate (inactivityCancel d) (sr_active w) in
      mkSubs (m_subscriptions w) (delete l (heap w)) (streams w) (active ∖ {[subscriptionId d']})
  | None => w
  end.

(** [std::find_if] over the map, by subscription identifier *)
Definition findById (subId : N) (w : World) : option (uuid * loc) :=
  snd <$> list_find (λ e, subscriptionId <$> heap w !! e.2 = Some subId)
            (map_to_list (m_subscriptions w)).

Definition mayUse (d : SubscriptionData) (usr : option string) : bool :=
  bool_decide (Some (user d) = usr) || bool_decide (usr = Some recoveryUser).

Definition getSubscriptionForUser (u : uuid) (usr : option string) (w : World) : option (loc * SubscriptionData) :=
  l ← m_subscriptions w !! u; d ← heap w !! l;
  if mayUse d usr then Some (l, d) else None.
Definition getSubscriptionForUserById (subId : N) (usr : option string) (w : World)
    : option (loc * SubscriptionData) :=
  '(_, l) ← findById subId w; d ← heap w !! l;
  if mayUse d usr then Some (l, d) else None.

Definition terminateSubscription (subId : N) (w : World) : World :=
  match findById subId w with
  | None => w
  | Some (u, l) =>
      match heap w !! l with
      | None => w
      | Some d =>
          let '(d, active) := terminate d (sr_active w) in
          release l (mkSubs (delete u (m_subscriptions w)) (<[l := d]> (heap w)) (streams w) active)
      end
  end.

Definition stop (w : World) : World :=
  mkSubs (m_subscriptions w)
    (map_imap (λ l d, Some (if bool_decide (map_Exists (λ _ l', l' = l) (m_subscriptions w)) then stop_one d else d))
       (heap w))
    (streams w) (sr_active w).

(** ** RPCs *)

(** The leaves of the RPC input the code looks up.  A filter is an XPath or the tree of a
    subtree filter. *)
Context {anydata : Type}.
Record RpcInput := mkInput {
  in_path : string;
  in_encoding : option string;
  in_stream : option string;
  in_stream_filter_name : bool;
  in_stop_time : option string;
  in_filter : option (string + anydata);
  in_replay_start_time : option string;
  in_id : N;
  in_is_kill : bool
}.

Definition getEncoding (encoding : option string) (requestEncoding : DataFormat) : M DataFormat :=
  match encoding with
  | Some encodingStr =>
      if decide (encodingStr = "ietf-subscribed-notifications:encode-json") then Ok JSON
      else if decide (encodingStr = "ietf-subscribed-notifications:encode-xml") then Ok XML
      else throwResponse 400 "application" "invalid-attribute"
             ("Unsupported encoding in establish-subscription: '" +:+ encodingStr +:+
              "'. Currently we support only 'encode-xml' and 'encode-json' identities.")
  | None => Ok requestEncoding
  end.

(** libyang's and sysrepo's part: timestamps, and the call that subscribes, which gives the
    identifier and the start of the replay. *)
Context {timestamp : Type} (fromYangTimeFormat : string → M timestamp) (yangTimeFormat : timestamp → string).
Context (subscribeNotifications : World → option (string + anydata) → string → option timestamp → option timestamp →
           M (N * option timestamp)).

Definition optionalTime (o : option string) : M (option timestamp) :=
  match o with Some s => Some <$> fromYangTimeFormat s | None => Ok None end.

Definition makeStreamSubscription (rpcInput : RpcInput) (w : World) : M (N * list (string * string)) :=
  match in_stream rpcInput with
  | None => throwResponse 400 "application" "invalid-attribute" "Stream is required"
  | Some stream =>
      _ ← throw_if (in_stream_filter_name rpcInput)
            (EResponse (newErrorResponse 400 "application" "invalid-attribute"
               "Stream filtering with predefined filters is not supported" None));
      stopTime ← optionalTime (in_stop_time rpcInput);
      replayStartTime ← optionalTime (in_replay_start_time rpcInput);
      '(id, revision) ← subscribeNotifications w (in_filter rpcInput) stream stopTime replayStartTime;
      Ok (id, match revision, replayStartTime with
              | Some r, Some _ => [("replay-start-time-revision", yangTimeFormat r)]
              | _, _ => []
              end)
  end.

(** [m_restconfStreamUri] *)
Context (restconfStreamUri : string).

(** [m_subscriptions[uuid] = std::make_shared<SubscriptionData>(...)], for a subscription that
    sysrepo runs now; what was registered under the UUID is released. *)
Definition register (u : uuid) (l : loc) (id : N) (format : DataFormat) (usr : string) (w : World) : World :=
  let old := m_subscriptions w !! u in
  let w' := mkSubs (<[u := l]> (m_subscriptions w))
              (<[l := newSubscriptionData id format u usr]> (heap w)) (streams w) ({[id]} ∪ sr_active w) in
  match old with Some l' => release l' w' | None => w' end.

(** The new UUID comes from the random generator, the new location from the allocator. *)
Definition establishSubscription (u : uuid) (l : loc) (nacmUser : option string) (requestSchemeAndHost : option string)
    (requestEncoding : DataFormat) (rpcInput : RpcInput) (w : World) : M (World * list (string * string)) :=
  match requestSchemeAndHost with
  | None =>
      throwResponse 400 "application" "invalid-value"
        "Request scheme and host information is required to establish subscription."
  | Some schemeAndHost =>
      format ← getEncoding (in_encoding rpcInput) requestEncoding;
      try_catch
        ('(id, output) ← makeStreamSubscription rpcInput w;
         usr ← deref nacmUser;
         Ok (register u l id format usr w,
             output ++ [("id", pretty id);
                        ("ietf-restconf-subscribed-notifications:uri",
                         schemeAndHost +:+ restconfStreamUri +:+ "subscribed/" +:+ uuid_to_string u)]))
        (λ e, match e with
              | ESysrepo _ what => throwResponse 400 "application" "invalid-attribute" what
              | e => Throw e
              end)
  end.

Definition deleteSubscription (nacmUser : option string) (rpcInput : RpcInput) (w : World) : M World :=
  let isKill := in_is_kill rpcInput in
  match getSubscriptionForUserById (in_id rpcInput) nacmUser w with
  | None => throwResponseAt 404 "application" "invalid-value" "Subscription not found." (in_path rpcInput)
  | Some (l, d) =>
      _ ← throw_if (negb isKill && bool_decide (nacmUser = Some recoveryUser) &&
                    negb (bool_decide (user d = recoveryUser)))
            (EResponse (newErrorResponse 400 "application" "invalid-attribute"
               "Trying to delete subscription not created by root. Use kill-subscription instead."
               (Some (in_path rpcInput))));
      _ ← throw_if (negb (bool_decide (subscriptionId d ∈ sr_active w)))
            (ESysrepo SrNotFound "subscription not found");
      Ok (release l (mkSubs (delete (sub_uuid d) (m_subscriptions w)) (heap w) (streams w)
                       (sr_active w ∖ {[subscriptionId d]})))
  end.

(** ** HTTP streams *)

(** A client asks for the stream (the handler in [Server.cpp], then
    [DynamicSubscriptionHttpStream::create] and [activate]). *)
Definition openStream (u : uuid) (usr : option string) (w : World) : M World :=
  match getSubscriptionForUser u usr w with
  | None => throwResponse 404 "application" "invalid-value" "Subscription not found."
  | Some (l, d) =>
      _ ← throw_if (negb (isReadyToAcceptClient d))
            (EResponse (newErrorResponse 409 "application" "resource-denied"
               "There is already another GET request on this subscription." None));
      Ok (mkSubs (m_subscriptions w) (<[l := clientConnected d]> (heap w)) (l :: streams w) (sr_active w))
  end.

(** The stream is closed: the [onClientDisconnectedCb], then the stream object goes away. *)
Definition closeStream (i : nat) (w : World) : World :=
  match streams w !! i with
  | None => w
  | Some l =>
      release l (mkSubs (m_subscriptions w) (alter clientDisconnected l (heap w)) (delete i (streams w)) (sr_active w))
  end.
(** The server shuts down: the [onTerminationCb] of a stream. *)
Definition terminateStream (i : nat) (w : World) : World :=
  match streams w !! i with
  | None => w
  | Some l =>
      match heap w !! l with
      | None => w
      | Some d =>
          let '(d, active) := terminate d (sr_active w) in
          mkSubs (m_subscriptions w) (<[l := d]> (heap w)) (streams w) active
      end
  end.
(** The inactivity timer expires: the completion of the wait is queued. *)
Definition timerExpired (l : loc) (w : World) : World :=
  match heap w !! l with
  | Some d =>
      match timer d with
      | Idle => w
      | Armed weak =>
          mkSubs (m_subscriptions w) (<[l := with_timer Idle (with_expired (expired d ++ [weak]) d)]> (heap w))
            (streams w) (sr_active w)
      end
  | None => w
  end.
(** The event loop runs the first queued completion: the handler given to [async_wait], whatever the
    state of the subscription is by now. *)
Definition waitCompleted (l : loc) (w : World) : World :=
  match heap w !! l with
  | Some d =>
      match expired d with
      | [] => w
      | weak :: rest =>
          let w' := mkSubs (m_subscriptions w) (<[l := with_expired rest d]> (heap w)) (streams w) (sr_active w) in
          if weak then terminateSubscription (subscriptionId d) w' else w'
      end
  | None => w
  end.
End subscriptions.
