(* ===== verification/DynamicSubscriptionsFacts.v ===== *)
(** * DynamicSubscriptionsFacts: the registry invariant, user isolation, and the life of a subscription *)

From S2P Require Import Prelude Exceptions UriTypes Uuid X3 UriGrammar UriPathFacts YangUtils DynamicSubscriptions.

Section registry.
Context {U : UuidLib} (recoveryUser : string).

(** ** The invariant *)

Definition in_registry (w : World) (l : loc) : Prop := ∃ u, m_subscriptions w !! u = Some l.

(** [x] is a location that may have lost its last reference just now. *)
Record Inv (x : option loc) (w : World) : Prop := {
  inv_registry u l : m_subscriptions w !! u = Some l → ∃ d, heap w !! l = Some d ∧ sub_uuid d = u;
  inv_ids l1 d1 l2 d2 : heap w !! l1 = Some d1 → heap w !! l2 = Some d2 →
    subscriptionId d1 = subscriptionId d2 → l1 = l2;
  inv_live l d : heap w !! l = Some d → x = Some l ∨ l ∈ streams w ∨ in_registry w l;
  inv_streams l : l ∈ streams w → is_Some (heap w !! l);
  inv_nodup : NoDup (streams w);
  inv_start l d : heap w !! l = Some d → sub_state d = Start → l ∉ streams w;
  inv_active l d : heap w !! l = Some d → sub_state d = ReceiverActive → l ∈ streams w ∧ timer d = Idle;
  inv_sysrepo id : id ∈ sr_active w → ∃ l d, heap w !! l = Some d ∧ subscriptionId d = id
}.

Lemma referenced_spec w l : referenced w l = true ↔ l ∈ streams w ∨ in_registry w l.
Proof.
  unfold referenced, in_registry. rewrite orb_true_iff, !bool_decide_eq_true. unfold map_Exists. naive_solver.
Qed.

Lemma terminate_fields d a : subscriptionId (terminate d a).1 = subscriptionId d ∧ sub_uuid (terminate d a).1 = sub_uuid d ∧
  user (terminate d a).1 = user d ∧ sub_state (terminate d a).1 = Terminating ∧ (terminate d a).2 ⊆ a ∧
  (sub_state d ≠ Terminating → subscriptionId d ∉ (terminate d a).2) ∧
  (∀ id, id ∈ a → id ≠ subscriptionId d → id ∈ (terminate d a).2).
Proof. unfold terminate. case_decide; simpl; split_and!; set_solver. Qed.

Lemma Inv_release l w : Inv (Some l) w → Inv None (release l w).
Proof.
  intros [H1 H2 H3 H4 H5 H6 H7 H8]. unfold release. destruct (referenced w l) eqn:Hr.
  - apply referenced_spec in Hr. split; auto. intros l' d Hd. destruct (H3 l' d Hd) as [[= <-]|?]; tauto.
  - assert ((l ∉ streams w) ∧ ¬ in_registry w l) as [Hs Hreg].
    { apply not_true_iff_false in Hr. rewrite referenced_spec in Hr. tauto. }
    destruct (heap w !! l) as [d|] eqn:Hd.
    2: { split; auto. intros l' d' Hd'. destruct (H3 l' d' Hd') as [[= <-]|?]; [congruence|tauto]. }
    pose proof (terminate_fields (inactivityCancel d) (sr_active w)) as (Hid & _ & _ & _ & Hsub & _).
    destruct (terminate (inactivityCancel d) (sr_active w)) as [d' a]. simpl in Hid, Hsub.
    split; simpl.
    + intros u l' Hu. destruct (H1 u l' Hu) as (d0 & Hd0 & ?). exists d0. rewrite lookup_delete_ne; [done|].
      intros <-. apply Hreg. by exists u.
    + intros l1 d1 l2 d2 [_ ?]%lookup_delete_Some [_ ?]%lookup_delete_Some. eauto.
    + intros l' d0 [Hne Hd0]%lookup_delete_Some. destruct (H3 l' d0 Hd0) as [[= <-]|?]; [done|tauto].
    + intros l' Hl'. rewrite lookup_delete_ne; [auto|]. by intros <-.
    + done.
    + intros l' d0 [_ ?]%lookup_delete_Some. eauto.
    + intros l' d0 [_ ?]%lookup_delete_Some. eauto.
    + intros id [Ha Hne]%elem_of_difference. destruct (H8 id) as (l' & d0 & Hd0 & Hi); [set_solver|].
      exists l', d0. split; [|done]. rewrite lookup_delete_ne; [done|]. intros <-. simplify_eq.
      apply Hne. rewrite Hid. set_solver.
Qed.

(** An object changes, not its identity. *)
Lemma Inv_update x w l d d' ss a :
  heap w !! l = Some d → subscriptionId d' = subscriptionId d → sub_uuid d' = sub_uuid d →
  a ⊆ sr_active w → NoDup ss →
  (∀ l', l' ∈ ss → l' = l ∨ l' ∈ streams w) → (∀ l', l' ∈ streams w → l' ≠ l → l' ∈ ss) →
  (sub_state d' = Start → l ∉ ss) → (sub_state d' = ReceiverActive → l ∈ ss ∧ timer d' = Idle) →
  (x = Some l ∨ l ∈ ss ∨ in_registry w l) →
  Inv None w → Inv x (mkSubs (m_subscriptions w) (<[l := d']> (heap w)) ss a).
Proof.
  intros Hd Hid Hu Ha Hnd Hin Hout Hst Hact Href [H1 H2 H3 H4 H5 H6 H7 H8].
  assert (∀ k e, <[l := d']> (heap w) !! k = Some e →
    (k = l ∧ e = d') ∨ (k ≠ l ∧ heap w !! k = Some e)) as Hlk.
  { intros k e. rewrite lookup_insert_Some. naive_solver. }
  split; simpl.
  - intros u k Hk. destruct (H1 u k Hk) as (e & He & ?). destruct (decide (k = l)) as [->|].
    + exists d'. rewrite lookup_insert_eq. simplify_eq. done.
    + exists e. by rewrite lookup_insert_ne.
  - intros k1 e1 k2 e2 [[-> ->]|[? He1]]%Hlk [[-> ->]|[? He2]]%Hlk Heq; eauto.
    + eapply H2; [exact Hd|exact He2|congruence].
    + eapply H2; [exact He1|exact Hd|congruence].
  - intros k e [[-> ->]|[Hne He]]%Hlk; [done|]. destruct (H3 k e He) as [?|[?|?]]; [done| |]; auto.
  - intros k [->|Hk]%Hin; [rewrite lookup_insert_eq; eauto|]. destruct (decide (k = l)) as [->|].
    + rewrite lookup_insert_eq. eauto.
    + rewrite lookup_insert_ne by done. auto.
  - done.
  - intros k e [[-> ->]|[Hne He]]%Hlk ?; [auto|]. intros [->|?]%Hin; [done|]. by eapply H6.
  - intros k e [[-> ->]|[Hne He]]%Hlk Hs; [auto|]. destruct (H7 k e He Hs). auto.
  - intros id Hi. destruct (H8 id) as (k & e & He & Hie); [set_solver|]. destruct (decide (k = l)) as [->|].
    + exists l, d'. rewrite lookup_insert_eq. simplify_eq. done.
    + exists k, e. by rewrite lookup_insert_ne.
Qed.
Lemma Inv_erase x w u l :
  m_subscriptions w !! u = Some l → Inv x w → (x = None ∨ x = Some l) →
  Inv (Some l) (mkSubs (delete u (m_subscriptions w)) (heap w) (streams w) (sr_active w)).
Proof.
  intros Hu [H1 H2 H3 H4 H5 H6 H7 H8] Hx. split; simpl; auto.
  - intros u' l' [_ ?]%lookup_delete_Some. auto.
  - intros l' d Hd. destruct (decide (l' = l)) as [->|Hne]; [by left|].
    destruct (H3 l' d Hd) as [?|[?|[u' Hu']]]; [naive_solver|tauto|].
    right; right. exists u'. simpl. rewrite lookup_delete_ne; [done|]. intros <-. congruence.
Qed.
Lemma Inv_active x w a : a ⊆ sr_active w → Inv x w → Inv x (mkSubs (m_subscriptions w) (heap w) (streams w) a).
Proof. intros Ha [H1 H2 H3 H4 H5 H6 H7 H8]. split; simpl; auto. Qed.

Lemma findById_Some id w u l :
  findById id w = Some (u, l) →
  m_subscriptions w !! u = Some l ∧ ∃ d, heap w !! l = Some d ∧ subscriptionId d = id.
Proof.
  unfold findById. rewrite fmap_Some. intros ([i [u' l']] & (Hi & Hd & _)%list_find_Some & [= <- <-]).
  split; [apply elem_of_map_to_list; by eapply list_elem_of_lookup_2|].
  apply fmap_Some in Hd as (d & ? & ?). eauto.
Qed.
(** The linear search finds the only subscription with the identifier. *)
Lemma findById_complete x id w u l d :
  Inv x w → m_subscriptions w !! u = Some l → heap w !! l = Some d → subscriptionId d = id →
  findById id w = Some (u, l).
Proof.
  intros Hi Hu Hd Hid. destruct (findById id w) as [[u' l']|] eqn:E.
  - apply findById_Some in E as (Hu' & d' & Hd' & Hid'). assert (l' = l) as -> by (eapply (inv_ids _ _ Hi); eauto; congruence).
    destruct (inv_registry _ _ Hi u l Hu) as (e & He & <-), (inv_registry _ _ Hi u' l Hu') as (e' & He' & <-).
    by simplify_eq.
  - exfalso. unfold findById in E. apply fmap_None in E. rewrite list_find_None in E.
    rewrite Forall_forall in E. apply (E (u, l)); [by apply elem_of_map_to_list|]. simpl. rewrite Hd. by simplify_eq/=.
Qed.

Lemma Inv_terminateSubscription id w : Inv None w → Inv None (terminateSubscription id w).
Proof.
  intros Hi. unfold terminateSubscription. destruct (findById id w) as [[u l]|] eqn:E; [|done].
  apply findById_Some in E as (Hu & d & Hd & Hid). rewrite Hd.
  pose proof (terminate_fields d (sr_active w)) as (H1 & H2 & _ & H4 & H5 & _).
  destruct (terminate d (sr_active w)) as [d' a]. simpl in *.
  assert (Inv None (mkSubs (m_subscriptions w) (<[l := d']> (heap w)) (streams w) a)) as Hi'.
  { eapply Inv_update; eauto using inv_nodup; try (rewrite H4; done).
    destruct (inv_live _ _ Hi l d Hd) as [?|?]; tauto. }
  apply Inv_release. apply (Inv_erase _ _ u l) in Hi'; [exact Hi'|done|by left].
Qed.

Lemma getById_Some id usr w l d :
  getSubscriptionForUserById recoveryUser id usr w = Some (l, d) →
  ∃ u, m_subscriptions w !! u = Some l ∧ heap w !! l = Some d ∧ subscriptionId d = id ∧ mayUse recoveryUser d usr = true.
Proof.
  unfold getSubscriptionForUserById. intros ([u l'] & (Hu & d' & Hd & Hid)%findById_Some & H)%bind_Some.
  rewrite Hd in H. simpl in H. destruct (mayUse recoveryUser d' usr) eqn:Hm; simplify_eq. eauto.
Qed.
Lemma get_Some u usr w l d :
  getSubscriptionForUser recoveryUser u usr w = Some (l, d) →
  m_subscriptions w !! u = Some l ∧ heap w !! l = Some d ∧ mayUse recoveryUser d usr = true.
Proof.
  unfold getSubscriptionForUser. intros (l' & Hu & (d' & Hd & H)%bind_Some)%bind_Some.
  destruct (mayUse recoveryUser d' usr) eqn:Hm; by simplify_eq.
Qed.

(** What a successful [delete-subscription] does. *)
Lemma deleteSubscription_Ok {anydata} usr (input : RpcInput (anydata := anydata)) w w' :
  Inv None w → deleteSubscription recoveryUser usr input w = Ok w' →
  ∃ u l d, m_subscriptions w !! u = Some l ∧ heap w !! l = Some d ∧ sub_uuid d = u ∧
    subscriptionId d = in_id input ∧ mayUse recoveryUser d usr = true ∧
    w' = release l (mkSubs (delete u (m_subscriptions w)) (heap w) (streams w) (sr_active w ∖ {[subscriptionId d]})).
Proof.
  intros Hi. unfold deleteSubscription.
  destruct (getSubscriptionForUserById recoveryUser (in_id input) usr w) as [[l d]|] eqn:E; [|done].
  apply getById_Some in E as (u & Hu & Hd & Hid & Hm). intros H. inv_result.
  destruct (inv_registry _ _ Hi u l Hu) as (d' & Hd' & <-). simplify_eq. eauto 10.
Qed.
Lemma Inv_delete {anydata} usr (input : RpcInput (anydata := anydata)) w w' :
  Inv None w → deleteSubscription recoveryUser usr input w = Ok w' → Inv None w'.
Proof.
  intros Hi (u & l & d & Hu & Hd & _ & _ & _ & ->)%deleteSubscription_Ok; [|done].
  apply Inv_release. apply (Inv_active _ _ (sr_active w ∖ {[subscriptionId d]})) in Hi; [|set_solver].
  apply (Inv_erase _ _ u l) in Hi; [exact Hi|done|by left].
Qed.
Lemma openStream_Ok u usr w w' :
  openStream recoveryUser u usr w = Ok w' →
  ∃ l d, m_subscriptions w !! u = Some l ∧ heap w !! l = Some d ∧ mayUse recoveryUser d usr = true ∧
    sub_state d = Start ∧
    w' = mkSubs (m_subscriptions w) (<[l := clientConnected d]> (heap w)) (l :: streams w) (sr_active w).
Proof.
  unfold openStream. destruct (getSubscriptionForUser recoveryUser u usr w) as [[l d]|] eqn:E; [|done].
  apply get_Some in E as (Hu & Hd & Hm). intros H. inv_result.
  match goal with H : negb _ = false |- _ => apply negb_false_iff, bool_decide_eq_true in H end. eauto 10.
Qed.
Lemma Inv_open u usr w w' : Inv None w → openStream recoveryUser u usr w = Ok w' → Inv None w'.
Proof.
  intros Hi (l & d & Hu & Hd & _ & Hs & ->)%openStream_Ok.
  eapply Inv_update; [exact Hd|done|done|done|..|exact Hi]; try done.
  - constructor; [by eapply inv_start|by eapply inv_nodup].
  - intros l' [->|?]%elem_of_cons; auto.
  - intros l' ? _. by right.
  - intros _. split; [left|done].
  - right; left. left.
Qed.
Lemma Inv_close i w : Inv None w → Inv None (closeStream i w).
Proof.
  intros Hi. unfold closeStream. destruct (streams w !! i) as [l|] eqn:Hl; [|done].
  assert (l ∈ streams w) as Hin by by eapply list_elem_of_lookup_2.
  destruct (inv_streams _ _ Hi l Hin) as [d Hd]. apply Inv_release.
  assert (alter clientDisconnected l (heap w) = <[l := clientDisconnected d]> (heap w)) as ->.
  { apply map_eq. intros k. destruct (decide (k = l)) as [->|].
    - by rewrite lookup_alter_eq, lookup_insert_eq, Hd.
    - by rewrite lookup_alter_ne, lookup_insert_ne by done. }
  assert (∀ l', l' ∈ delete i (streams w) ↔ l' ∈ streams w ∧ l' ≠ l) as Hdel.
  { intros l'. pose proof (inv_nodup _ _ Hi) as Hnd. rewrite (delete_take_drop (streams w) i).
    rewrite <- (take_drop_middle _ _ _ Hl), NoDup_app, NoDup_cons in Hnd. destruct Hnd as (_ & Hnd & Hnd' & _).
    rewrite <- (take_drop_middle _ _ _ Hl) at 3. rewrite !elem_of_app, elem_of_cons.
    split; [|naive_solver]. intros [Ht|Hdr].
    - split; [auto|]. intros ->. by apply (Hnd l Ht); left.
    - split; [auto|]. by intros ->. }
  eapply Inv_update; [exact Hd|..|exact Hi]; unfold clientDisconnected, inactivityStart.
  - by repeat (case_decide; simpl).
  - by repeat (case_decide; simpl).
  - done.
  - eapply sublist_NoDup; [by eapply inv_nodup|apply sublist_delete].
  - intros l' ?%Hdel. tauto.
  - intros l' ??. by apply Hdel.
  - intros _. rewrite Hdel. naive_solver.
  - repeat (case_decide; simpl in *); congruence.
  - by left.
Qed.
Lemma Inv_terminateStream i w : Inv None w → Inv None (terminateStream i w).
Proof.
  intros Hi. unfold terminateStream. destruct (streams w !! i) as [l|] eqn:Hl; [|done].
  destruct (heap w !! l) as [d|] eqn:Hd; [|done].
  pose proof (terminate_fields d (sr_active w)) as (H1 & H2 & _ & H4 & H5 & _).
  destruct (terminate d (sr_active w)) as [d' a]. simpl in *.
  eapply Inv_update; eauto using inv_nodup; try (rewrite H4; done).
  right; left. by eapply list_elem_of_lookup_2.
Qed.
(** An object changes in its timer only. *)
Lemma Inv_keep w l d d' :
  heap w !! l = Some d → subscriptionId d' = subscriptionId d → sub_uuid d' = sub_uuid d → sub_state d' = sub_state d →
  (timer d = Idle → timer d' = Idle) → Inv None w →
  Inv None (mkSubs (m_subscriptions w) (<[l := d']> (heap w)) (streams w) (sr_active w)).
Proof.
  intros Hd Hid Hu Hs Ht Hi. eapply Inv_update; eauto using inv_nodup; rewrite ?Hs.
  - intros H. by eapply inv_start.
  - intros H. destruct (inv_active _ _ Hi l d Hd H). auto.
  - destruct (inv_live _ _ Hi l d Hd) as [?|?]; tauto.
Qed.
Lemma Inv_timer l w : Inv None w → Inv None (timerExpired l w).
Proof.
  intros Hi. unfold timerExpired. destruct (heap w !! l) as [d|] eqn:Hd; [|done].
  destruct (timer d) as [|weak] eqn:Ht; [done|]. by eapply Inv_keep.
Qed.
Lemma Inv_completed l w : Inv None w → Inv None (waitCompleted l w).
Proof.
  intros Hi. unfold waitCompleted. destruct (heap w !! l) as [d|] eqn:Hd; [|done].
  destruct (expired d) as [|weak q]; [done|].
  assert (Inv None (mkSubs (m_subscriptions w) (<[l := with_expired q d]> (heap w)) (streams w) (sr_active w)))
    by (by eapply Inv_keep).
  destruct weak; [by apply Inv_terminateSubscription|done].
Qed.
Lemma heap_stop w l d' :
  heap (stop w) !! l = Some d' →
  ∃ d, heap w !! l = Some d ∧ subscriptionId d' = subscriptionId d ∧ sub_uuid d' = sub_uuid d ∧
    (d' = d ∨ sub_state d' = Terminating).
Proof.
  simpl. rewrite map_lookup_imap. destruct (heap w !! l) as [d|]; simpl; [|done]. intros [= <-].
  exists d. case_bool_decide; auto.
Qed.
Lemma heap_stop_expired w l d' :
  heap (stop w) !! l = Some d' → ∃ d, heap w !! l = Some d ∧ subscriptionId d' = subscriptionId d ∧ expired d' = expired d.
Proof.
  simpl. rewrite map_lookup_imap. destruct (heap w !! l) as [d|]; simpl; [|done]. intros [= <-].
  exists d. by case_bool_decide.
Qed.
Lemma heap_stop_Some w l : is_Some (heap (stop w) !! l) ↔ is_Some (heap w !! l).
Proof. simpl. rewrite map_lookup_imap. destruct (heap w !! l); simpl; split; intros []; eauto; done. Qed.
Lemma Inv_stop w : Inv None w → Inv None (stop w).
Proof.
  intros [H1 H2 H3 H4 H5 H6 H7 H8]. split.
  - intros u l Hu. destruct (H1 u l Hu) as (d & Hd & Hu'). destruct (proj2 (heap_stop_Some w l)) as [d' Hd']; [eauto|].
    exists d'. split; [done|]. destruct (heap_stop w l d' Hd') as (e & ? & _ & ? & _). congruence.
  - intros l1 d1 l2 d2 (e1 & ? & ? & _)%heap_stop (e2 & ? & ? & _)%heap_stop Heq. eapply H2; eauto. congruence.
  - intros l d (e & He & _)%heap_stop. apply (H3 l e He).
  - intros l Hl. apply heap_stop_Some. auto.
  - done.
  - intros l d (e & He & _ & _ & [->|?])%heap_stop Hs; [eauto|congruence].
  - intros l d (e & He & _ & _ & [->|?])%heap_stop Hs; [eauto|congruence].
  - intros id Hid. destruct (H8 id Hid) as (l & d & Hd & <-). destruct (proj2 (heap_stop_Some w l)) as [d' Hd']; [eauto|].
    exists l, d'. split; [done|]. destruct (heap_stop w l d' Hd') as (e & ? & ? & _). congruence.
Qed.

(** Releasing an object does not touch the registry or the other objects. *)
Lemma release_registry l w : m_subscriptions (release l w) = m_subscriptions w.
Proof.
  unfold release. destruct (referenced w l); [done|]. destruct (heap w !! l) as [d|]; [|done].
  by destruct (terminate (inactivityCancel d) (sr_active w)).
Qed.
Lemma release_streams l w : streams (release l w) = streams w.
Proof.
  unfold release. destruct (referenced w l); [done|]. destruct (heap w !! l) as [d|]; [|done].
  by destruct (terminate (inactivityCancel d) (sr_active w)).
Qed.
Lemma release_heap l w l' : l' ≠ l → heap (release l w) !! l' = heap w !! l'.
Proof.
  intros Hne. unfold release. destruct (referenced w l); [done|]. destruct (heap w !! l) as [d|]; [|done].
  destruct (terminate (inactivityCancel d) (sr_active w)). simpl. by rewrite lookup_delete_ne.
Qed.
Lemma release_unreferenced l w d :
  l ∉ streams w → ¬ in_registry w l → heap w !! l = Some d →
  heap (release l w) !! l = None ∧ subscriptionId d ∉ sr_active (release l w).
Proof.
  intros Hs Hr Hd. unfold release.
  assert (referenced w l = false) as -> by (apply not_true_iff_false; rewrite referenced_spec; tauto).
  rewrite Hd. pose proof (terminate_fields (inactivityCancel d) (sr_active w)) as (Hid & _).
  destruct (terminate (inactivityCancel d) (sr_active w)) as [d' a]. simpl in *. rewrite lookup_delete_eq.
  split; [done|]. rewrite Hid. set_solver.
Qed.
Lemma not_in_registry_after_erase w u l :
  Inv None w → m_subscriptions w !! u = Some l → ¬ ∃ u', delete u (m_subscriptions w) !! u' = Some l.
Proof.
  intros Hi Hu (u' & [Hne Hu']%lookup_delete_Some).
  destruct (inv_registry _ _ Hi u l Hu) as (d & Hd & <-), (inv_registry _ _ Hi u' l Hu') as (d' & Hd' & <-). congruence.
Qed.

Lemma terminateSubscription_effect w u l d :
  Inv None w → m_subscriptions w !! u = Some l → heap w !! l = Some d → l ∉ streams w →
  let w' := terminateSubscription (subscriptionId d) w in
  m_subscriptions w' !! u = None ∧ heap w' !! l = None ∧ subscriptionId d ∉ sr_active w'.
Proof.
  intros Hi Hu Hd Hs. unfold terminateSubscription. rewrite (findById_complete _ _ _ u l d Hi Hu Hd eq_refl), Hd.
  pose proof (terminate_fields d (sr_active w)) as (H1 & _).
  destruct (terminate d (sr_active w)) as [d' a]. simpl in *. rewrite release_registry. simpl.
  split; [by rewrite lookup_delete_eq|]. rewrite <- H1. apply release_unreferenced; simpl; [done| |].
  - intros [u' Hu']. by apply (not_in_registry_after_erase w u l Hi Hu); exists u'.
  - by rewrite lookup_insert_eq.
Qed.
(** The queued completions run: if the object of one of them was alive, the subscription is terminated. *)
Lemma completions_terminate w u l d :
  Inv None w → m_subscriptions w !! u = Some l → heap w !! l = Some d → l ∉ streams w → true ∈ expired d →
  let w' := Nat.iter (length (expired d)) (waitCompleted l) w in
  m_subscriptions w' !! u = None ∧ heap w' !! l = None ∧ subscriptionId d ∉ sr_active w'.
Proof.
  remember (expired d) as q eqn:Hq. revert w d Hq. induction q as [|weak q IH]; intros w d Hq Hi Hu Hd Hs Hin; [set_solver|].
  cbn [length]. rewrite Nat.iter_succ_r.
  set (w1 := mkSubs (m_subscriptions w) (<[l := with_expired q d]> (heap w)) (streams w) (sr_active w)).
  assert (waitCompleted l w = if weak then terminateSubscription (subscriptionId d) w1 else w1) as ->
    by (unfold waitCompleted; by rewrite Hd, <- Hq).
  assert (Inv None w1) as Hi1 by (by eapply Inv_keep).
  assert (heap w1 !! l = Some (with_expired q d)) as Hd1 by (simpl; by rewrite lookup_insert_eq).
  destruct weak.
  - destruct (terminateSubscription_effect w1 u l (with_expired q d) Hi1 Hu Hd1 Hs) as (H1 & H2 & H3).
    simpl in H1, H2, H3. set (w2 := terminateSubscription _ _) in *.
    assert (∀ n, Nat.iter n (waitCompleted l) w2 = w2) as Hn; [|cbv zeta; by rewrite Hn].
    intros n. induction n as [|n IHn]; [done|]. simpl. rewrite IHn. unfold waitCompleted. by rewrite H2.
  - apply (IH w1 (with_expired q d)); try done. set_solver.
Qed.
End registry.

Section executions.
Context {U : UuidLib} (recoveryUser : string).
Context {timestamp anydata : Type} (fromYangTimeFormat : string → M timestamp) (yangTimeFormat : timestamp → string).
Context (subscribeNotifications : World → option (string + anydata) → string → option timestamp → option timestamp →
           M (N * option timestamp)).
Context (restconfStreamUri : string).

(** sysrepo does not give out the identifier of a subscription that still exists. *)
Definition fresh_ids : Prop :=
  ∀ w filter stream stop start id rev,
    subscribeNotifications w filter stream stop start = Ok (id, rev) →
    (id ∉ sr_active w) ∧ ∀ l d, heap w !! l = Some d → subscriptionId d ≠ id.

(** ** Executions *)

Abbreviation establish := (establishSubscription fromYangTimeFormat yangTimeFormat subscribeNotifications restconfStreamUri).

Inductive step : World → World → Prop :=
| step_establish u l usr host enc input w w' out :
    heap w !! l = None → establish u l usr host enc input w = Ok (w', out) → step w w'
| step_delete usr (input : RpcInput (anydata := anydata)) w w' : deleteSubscription recoveryUser usr input w = Ok w' → step w w'
| step_open u usr w w' : openStream recoveryUser u usr w = Ok w' → step w w'
| step_close i w : step w (closeStream i w)
| step_terminate i w : step w (terminateStream i w)
| step_timer l w : step w (timerExpired l w)
| step_completed l w : step w (waitCompleted l w)
| step_stop w : step w (stop w)
| step_stop_time id w : step w (mkSubs (m_subscriptions w) (heap w) (streams w) (sr_active w ∖ {[id]})).

Definition empty_world : World := mkSubs ∅ ∅ [] ∅.
Definition reachable (w : World) : Prop := rtc step empty_world w.

Lemma establish_registers u l usr host enc input w w' out :
  establish u l usr host enc input w = Ok (w', out) → ∃ id format us, w' = register u l id format us w.
Proof.
  unfold establishSubscription. destruct host as [h|]; [|done]. intros H.
  apply bind_Ok_inv in H as (fmt & _ & H). apply try_catch_Ok_inv in H as [H|(e & _ & H)]; [|by destruct e].
  apply bind_Ok_inv in H as ([id out'] & _ & H). apply bind_Ok_inv in H as (us & _ & H). injection H as <- _. eauto.
Qed.
Lemma Inv_establish u l usr host enc input w w' out :
  fresh_ids → Inv None w → heap w !! l = None → establish u l usr host enc input w = Ok (w', out) → Inv None w'.
Proof.
  intros Hfresh Hi Hl. unfold establishSubscription. destruct host as [h|]; [|done].
  intros (format & Hf & H)%bind_Ok_inv. apply try_catch_Ok_inv in H as [H|(e & _ & H)]; [|by destruct e].
  apply bind_Ok_inv in H as ([id output] & Hm & H). apply bind_Ok_inv in H as (us & Hus & H).
  injection H as <- _.
  assert ((id ∉ sr_active w) ∧ ∀ l d, heap w !! l = Some d → subscriptionId d ≠ id) as [_ Hid].
  { unfold makeStreamSubscription in Hm. destruct (in_stream input); [|done]. inv_result.
    match goal with H : (let '(_, _) := ?p in _) = _ |- _ => destruct p as [id' rev]; simplify_eq end. eauto. }
  destruct Hi as [H1 H2 H3 H4 H5 H6 H7 H8].
  set (d := newSubscriptionData id format u us).
  assert (l ∉ streams w) as Hls by (intros [? ?]%H4; congruence).
  assert (¬ in_registry w l) as Hlr by (intros [u' (d0 & ? & _)%H1]; congruence).
  assert (∀ x, (match m_subscriptions w !! u with Some l' => x = Some l' | None => x = None end) →
    Inv x (mkSubs (<[u := l]> (m_subscriptions w)) (<[l := d]> (heap w)) (streams w) ({[id]} ∪ sr_active w))) as Hinv.
  { intros x Hx. split; simpl.
    - intros u' l' [[<- <-]|[Hne Hu']]%lookup_insert_Some; [exists d; by rewrite lookup_insert_eq|].
      destruct (H1 u' l' Hu') as (e & ? & ?). exists e. rewrite lookup_insert_ne; [done|]. congruence.
    - intros l1 d1 l2 d2 [[<- <-]|[? He1]]%lookup_insert_Some [[<- <-]|[? He2]]%lookup_insert_Some; simpl; [done|..].
      + intros Heq. symmetry in Heq. by eapply Hid in Heq.
      + intros Heq. by eapply Hid in Heq.
      + eauto.
    - intros k e [[<- <-]|[? He]]%lookup_insert_Some.
      + right; right. exists u. simpl. by rewrite lookup_insert_eq.
      + destruct (H3 k e He) as [?|[?|[u' Hu']]]; [done|tauto|]. destruct (decide (u' = u)) as [->|].
        * left. by rewrite Hu' in Hx.
        * right; right. exists u'. simpl. by rewrite lookup_insert_ne.
    - intros k Hk. destruct (decide (k = l)) as [->|]; [done|]. rewrite lookup_insert_ne by done. auto.
    - done.
    - intros k e [[<- <-]|[? He]]%lookup_insert_Some; [done|eauto].
    - intros k e [[<- <-]|[? He]]%lookup_insert_Some; [done|eauto].
    - intros i [->%elem_of_singleton|Hi]%elem_of_union; [exists l, d; by rewrite lookup_insert_eq|].
      destruct (H8 i Hi) as (k & e & He & ?). exists k, e. rewrite lookup_insert_ne; [done|]. congruence. }
  unfold register. destruct (m_subscriptions w !! u) as [l'|]; [apply Inv_release|]; by apply Hinv.
Qed.

Lemma Inv_empty : Inv None empty_world.
Proof. split; simpl; try set_solver. constructor. Qed.
Lemma Inv_step w w' : fresh_ids → Inv None w → step w w' → Inv None w'.
Proof.
  intros Hf Hi Hs. destruct Hs; eauto using Inv_establish, Inv_delete, Inv_open, Inv_close,
    Inv_terminateStream, Inv_timer, Inv_completed, Inv_stop.
  eapply Inv_active; [set_solver|done].
Qed.
(** What is never changed *)
Definition same_subscription (d d' : SubscriptionData) : Prop :=
  subscriptionId d' = subscriptionId d ∧ dataFormat d' = dataFormat d ∧ sub_uuid d' = sub_uuid d ∧ user d' = user d.
Lemma same_terminate d a : same_subscription d (terminate d a).1.
Proof. unfold terminate. by case_decide. Qed.
Lemma same_clientDisconnected d : same_subscription d (clientDisconnected d).
Proof. unfold clientDisconnected, inactivityStart. by repeat case_decide. Qed.
Lemma release_in_stream l k w : k ∈ streams w → heap (release l w) !! k = heap w !! k.
Proof.
  intros Hk. destruct (decide (k = l)) as [->|?]; [|by apply release_heap].
  unfold release. assert (referenced w l = true) as -> by (apply referenced_spec; auto). done.
Qed.
Lemma same_insert (h : gmap loc SubscriptionData) k e l d :
  h !! l = Some d → (k = l → same_subscription d e) → ∃ d', <[k := e]> h !! l = Some d' ∧ same_subscription d d'.
Proof.
  intros Hd He. destruct (decide (k = l)) as [->|?]; [|rewrite lookup_insert_ne by done; by exists d].
  rewrite lookup_insert_eq. eauto.
Qed.
Lemma same_terminateSubscription id l d w :
  l ∈ streams w → heap w !! l = Some d →
  ∃ d', heap (terminateSubscription id w) !! l = Some d' ∧ same_subscription d d'.
Proof.
  intros Hl Hd. unfold terminateSubscription. destruct (findById id w) as [[u k]|]; [|by exists d].
  destruct (heap w !! k) as [e|] eqn:He; [|by exists d]. pose proof (same_terminate e (sr_active w)) as Hs.
  destruct (terminate e (sr_active w)) as [e' a]. rewrite release_in_stream by done. apply same_insert; [done|].
  intros ->. by simplify_eq.
Qed.

(** While a client is connected, its subscription exists and stays the same. *)
Lemma step_same w w' l d :
  step w w' → l ∈ streams w → l ∈ streams w' → heap w !! l = Some d →
  ∃ d', heap w' !! l = Some d' ∧ same_subscription d d'.
Proof.
  intros Hs Hl Hl' Hd.
  destruct Hs as [u k usr host enc input w w' out Hk He|usr input w w' He|u usr w w' He|i w|i w|k w|k w|w|id w].
  - apply establish_registers in He as (id & fmt & us & ->).
    exists d. split; [|done]. assert (k ≠ l) by congruence.
    unfold register. destruct (m_subscriptions w !! u); [rewrite release_in_stream by done|]; simpl; by rewrite lookup_insert_ne.
  - unfold deleteSubscription in He. destruct (getSubscriptionForUserById _ _ _ _) as [[k e]|]; [|done]. inv_result.
    exists d. split; [|done]. by rewrite release_in_stream.
  - apply openStream_Ok in He as (k & e & _ & He & _ & _ & ->). apply same_insert; [done|]. intros ->. by simplify_eq.
  - unfold closeStream in *. destruct (streams w !! i) as [k|]; [|by exists d]. rewrite release_streams in Hl'.
    rewrite release_in_stream by done. simpl. destruct (decide (k = l)) as [->|?].
    + rewrite lookup_alter_eq, Hd. eexists. split; [done|apply same_clientDisconnected].
    + rewrite lookup_alter_ne by done. by exists d.
  - unfold terminateStream. destruct (streams w !! i) as [k|]; [|by exists d].
    destruct (heap w !! k) as [e|] eqn:He; [|by exists d]. pose proof (same_terminate e (sr_active w)) as Hs.
    destruct (terminate e (sr_active w)) as [e' a]. apply same_insert; [done|]. intros ->. by simplify_eq.
  - unfold timerExpired. destruct (heap w !! k) as [e|] eqn:He; [|by exists d]. destruct (timer e) as [|weak]; [by exists d|].
    apply same_insert; [done|]. intros ->. by simplify_eq.
  - unfold waitCompleted. destruct (heap w !! k) as [e|] eqn:He; [|by exists d]. destruct (expired e) as [|weak q]; [by exists d|].
    destruct (same_insert (heap w) k (with_expired q e) l d Hd) as (d1 & Hd1 & H1); [intros ->; by simplify_eq|].
    cbv zeta. destruct weak; [|by exists d1].
    destruct (same_terminateSubscription (subscriptionId e) l d1
      (mkSubs (m_subscriptions w) (<[k := with_expired q e]> (heap w)) (streams w) (sr_active w)) Hl Hd1) as (d2 & Hd2 & H2).
    exists d2. split; [exact Hd2|]. unfold same_subscription in *. naive_solver congruence.
  - simpl. rewrite map_lookup_imap, Hd. simpl. eexists. split; [done|]. by case_bool_decide.
  - by exists d.
Qed.
(** Where a queued completion with a live object comes from: the timer of this very object, armed by a client
    that had disconnected, expired. *)
Lemma release_heap_Some k w l d : heap (release k w) !! l = Some d → heap w !! l = Some d.
Proof.
  unfold release. destruct (referenced w k); [done|]. destruct (heap w !! k) as [e|]; [|done].
  destruct (terminate _ _). cbn [heap]. by intros [_ ?]%lookup_delete_Some.
Qed.
Lemma expired_insert (h : gmap loc SubscriptionData) k e e' l d' :
  h !! k = Some e → subscriptionId e' = subscriptionId e → (∀ b, b ∈ expired e' → b ∈ expired e) →
  <[k := e']> h !! l = Some d' → true ∈ expired d' →
  ∃ d, h !! l = Some d ∧ subscriptionId d' = subscriptionId d ∧ true ∈ expired d.
Proof. intros He Hid Hx [[<- <-]|[_ ?]]%lookup_insert_Some Ht; eauto. Qed.
Lemma expired_terminate d a : expired (terminate d a).1 = expired d.
Proof. unfold terminate. by case_decide. Qed.
Lemma expired_terminateSubscription id w l d' :
  heap (terminateSubscription id w) !! l = Some d' → true ∈ expired d' →
  ∃ d, heap w !! l = Some d ∧ subscriptionId d' = subscriptionId d ∧ true ∈ expired d.
Proof.
  unfold terminateSubscription. destruct (findById id w) as [[u k]|]; [|eauto].
  destruct (heap w !! k) as [e|] eqn:He; [|eauto].
  pose proof (terminate_fields e (sr_active w)) as (Hid & _). pose proof (expired_terminate e (sr_active w)) as Hx.
  destruct (terminate e (sr_active w)) as [e' a]. simpl in Hid, Hx. intros H%release_heap_Some Ht.
  eapply (expired_insert (heap w)); [exact He|exact Hid|by rewrite Hx|exact H|exact Ht].
Qed.
Lemma step_expired w w' l d' :
  step w w' → heap w' !! l = Some d' → true ∈ expired d' →
  (∃ d, heap w !! l = Some d ∧ subscriptionId d' = subscriptionId d ∧ true ∈ expired d) ∨
  w' = timerExpired l w ∧ ∃ d, heap w !! l = Some d ∧ subscriptionId d' = subscriptionId d ∧ timer d = Armed true.
Proof.
  intros Hs Hd Ht.
  destruct Hs as [u k usr host enc input w w' out Hk He|usr input w w' He|u usr w w' He|i w|i w|k w|k w|w|id w].
  - left. apply establish_registers in He as (id & fmt & us & ->).
    assert (heap (register u k id fmt us w) !! l = Some d' → <[k := newSubscriptionData id fmt u us]> (heap w) !! l = Some d') as Hr.
    { unfold register. destruct (m_subscriptions w !! u); [apply release_heap_Some|done]. }
    apply Hr, lookup_insert_Some in Hd as [[_ <-]|[_ ?]]; [|eauto]. cbn in Ht. by apply elem_of_nil in Ht.
  - left. unfold deleteSubscription in He. destruct (getSubscriptionForUserById _ _ _ _) as [[k e]|]; [|done]. inv_result.
    apply release_heap_Some in Hd. eauto.
  - left. apply openStream_Ok in He as (k & e & _ & He & _ & _ & ->).
    exact (expired_insert (heap w) k e (clientConnected e) l d' He eq_refl (λ _ H, H) Hd Ht).
  - left. unfold closeStream in Hd. destruct (streams w !! i) as [k|]; [|eauto]. apply release_heap_Some in Hd.
    cbn [heap] in Hd. apply lookup_alter_Some in Hd as [(-> & e & He & ->)|[_ ?]]; [|eauto]. exists e. split; [done|].
    unfold clientDisconnected, inactivityStart in *. repeat case_decide; done.
  - left. unfold terminateStream in Hd. destruct (streams w !! i) as [k|]; [|eauto].
    destruct (heap w !! k) as [e|] eqn:He; [|eauto].
    pose proof (terminate_fields e (sr_active w)) as (Hid & _). pose proof (expired_terminate e (sr_active w)) as Hx.
    destruct (terminate e (sr_active w)) as [e' a]. simpl in Hid, Hx.
    apply (expired_insert (heap w) k e e' l d' He Hid); [by rewrite Hx|exact Hd|exact Ht].
  - unfold timerExpired in Hd |- *. destruct (heap w !! k) as [e|] eqn:He; [|eauto]. destruct (timer e) as [|weak] eqn:Et; [eauto|].
    cbn [heap] in Hd. destruct (decide (k = l)) as [->|Hne]; [|left; rewrite lookup_insert_ne in Hd by done; eauto].
    rewrite lookup_insert_eq in Hd. injection Hd as <-. simpl in Ht. apply elem_of_app in Ht as [Ht|Ht].
    + left. exists e. eauto.
    + right. apply list_elem_of_singleton in Ht as <-. rewrite He, Et. split; [done|]. by exists e.
  - left. unfold waitCompleted in Hd. destruct (heap w !! k) as [e|] eqn:He; [|eauto]. destruct (expired e) as [|weak q] eqn:Eq; [eauto|].
    assert (∃ d, <[k := with_expired q e]> (heap w) !! l = Some d ∧ subscriptionId d' = subscriptionId d ∧ true ∈ expired d)
      as (d & Hd1 & Hid & Ht1).
    { destruct weak; [by apply expired_terminateSubscription in Hd|eauto]. }
    rewrite Hid. apply (expired_insert (heap w) k e (with_expired q e) l d He eq_refl); [|exact Hd1|exact Ht1].
    rewrite Eq. intros b Hb. by right.
  - left. apply heap_stop_expired in Hd as (d & ? & ? & Hx). exists d. by rewrite <- Hx.
  - eauto.
Qed.
Lemma Inv_reachable w : fresh_ids → reachable w → Inv None w.
Proof. intros Hf Hr. pose proof Inv_empty as Hi. induction Hr; eauto using Inv_step. Qed.

End executions.

(** ** sysrepo as the witnesses use it: the next identifier *)
Section example.
Context {U : UuidLib}.
Definition used_ids (w : World) : gset N :=
  sr_active w ∪ list_to_set (subscriptionId <$> (map_to_list (heap w)).*2).
Definition subscribe_example {anydata} (w : World) (filter : option (string + anydata)) (stream : string)
    (stop start : option string) : M (N * option string) :=
  if decide (stream = "NETCONF") then Ok (N.succ (foldr N.max 0%N (elements (used_ids w))), start)
  else Throw (ESysrepo SrNotFound "no such stream").
Lemma subscribe_example_fresh {anydata} : fresh_ids (subscribe_example (anydata := anydata)).
Proof.
  intros w filter stream stop start id rev. unfold subscribe_example. case_decide; [|done]. intros [= <- _].
  assert (N.succ (foldr N.max 0%N (elements (used_ids w))) ∉ used_ids w) as Hf.
  { intros Hin%elem_of_elements. assert (∀ (x : N) k, x ∈ k → (x ≤ foldr N.max 0 k)%N) as Hmax.
    { intros x k. induction k as [|y k IH]; [by intros ?%elem_of_nil|]. simpl.
      intros [->|?%IH]%elem_of_cons; lia. }
    apply Hmax in Hin. lia. }
  unfold used_ids in Hf at 2. rewrite not_elem_of_union in Hf. destruct Hf as [H1 H2].
  split; [done|]. intros l d Hd He. apply H2. apply elem_of_list_to_set, list_elem_of_fmap.
  exists d. split; [done|]. apply list_elem_of_fmap. exists (l, d). split; [done|]. by apply elem_of_map_to_list.
Qed.
End example.

(** ** Theorems *)

Section theorems.
Context {U : UuidLib} (recoveryUser : string).
Context {timestamp anydata : Type} (fromYangTimeFormat : string → M timestamp) (yangTimeFormat : timestamp → string).
Context (subscribeNotifications : World → option (string + anydata) → string → option timestamp → option timestamp →
           M (N * option timestamp)).
Context (restconfStreamUri : string).
Abbreviation reachable_subs := (reachable recoveryUser fromYangTimeFormat yangTimeFormat subscribeNotifications restconfStreamUri).
Abbreviation establish := (establishSubscription fromYangTimeFormat yangTimeFormat subscribeNotifications restconfStreamUri).

(** C26: in every state the server can get into, by any sequence of RPCs, clients connecting and
    disconnecting, timers, sysrepo ending subscriptions and shutdown: a registered UUID names an
    existing subscription with that UUID; identifiers are unique; no subscription object
    outlives its last reference, and no sysrepo subscription outlives its object; and each
    subscription has at most one client, none while it is ready to accept one. *)
Theorem subscriptions_invariant (w : World) :
  fresh_ids subscribeNotifications → reachable_subs w →
  (∀ u l, m_subscriptions w !! u = Some l → ∃ d, heap w !! l = Some d ∧ sub_uuid d = u) ∧
  (∀ l1 d1 l2 d2, heap w !! l1 = Some d1 → heap w !! l2 = Some d2 → subscriptionId d1 = subscriptionId d2 → l1 = l2) ∧
  (∀ l d, heap w !! l = Some d → l ∈ streams w ∨ ∃ u, m_subscriptions w !! u = Some l) ∧
  (∀ id, id ∈ sr_active w → ∃ l d, heap w !! l = Some d ∧ subscriptionId d = id) ∧
  NoDup (streams w) ∧
  (∀ l d, heap w !! l = Some d → isReadyToAcceptClient d = true → l ∉ streams w).
Proof.
  intros Hf Hr. destruct (Inv_reachable _ _ _ _ _ w Hf Hr) as [H1 H2 H3 H4 H5 H6 H7 H8].
  split_and!; try done.
  - intros l d Hd. destruct (H3 l d Hd) as [?|?]; [done|tauto].
  - intros l d Hd Hs%bool_decide_eq_true. eauto.
Qed.

(** C27: users are isolated from each other: whoever is neither the one who established a
    subscription nor the recovery user cannot find it, neither by its UUID nor by its identifier;
    an attempt to consume, delete or kill it gives the same 404 error as for a subscription that
    does not exist. *)
Theorem subscriptions_isolation (w : World) (u : uuid) (l : loc) (d : SubscriptionData) (usr : option string) :
  fresh_ids subscribeNotifications → reachable_subs w →
  m_subscriptions w !! u = Some l → heap w !! l = Some d →
  usr ≠ Some (user d) → usr ≠ Some recoveryUser →
  openStream recoveryUser u usr w =
    throwResponse 404 "application" "invalid-value" "Subscription not found." ∧
  ∀ input : RpcInput (anydata := anydata), in_id input = subscriptionId d →
    deleteSubscription recoveryUser usr input w =
      throwResponseAt 404 "application" "invalid-value" "Subscription not found." (in_path input).
Proof.
  intros Hf Hr Hu Hd H1 H2. pose proof (Inv_reachable _ _ _ _ _ w Hf Hr) as Hi.
  assert (mayUse recoveryUser d usr = false) as Hm.
  { unfold mayUse. rewrite !bool_decide_eq_false_2 by congruence. done. }
  unfold openStream, getSubscriptionForUser, deleteSubscription, getSubscriptionForUserById. rewrite Hu.
  cbn [mbind option_bind]. rewrite Hd. cbn [mbind option_bind]. rewrite Hm. split; [done|]. intros input Hin.
  rewrite Hin, (findById_complete _ _ _ u l d Hi Hu Hd eq_refl). cbn [mbind option_bind].
  rewrite Hd. cbn [mbind option_bind]. by rewrite Hm.
Qed.

(** Exclusive consumption: once a client has connected to a subscription, nobody, not even the
    recovery user, can connect to it, until that client has disconnected; then the user who
    established it can. *)
Theorem subscriptions_exclusive (w w' : World) (u : uuid) (usr : option string) :
  openStream recoveryUser u usr w = Ok w' →
  (∀ usr', ∃ r, openStream recoveryUser u usr' w' = Throw (EResponse r) ∧ (code r = 409 ∨ code r = 404)%Z) ∧
  is_ok (openStream recoveryUser u usr (closeStream 0 w')) = true.
Proof.
  intros (l & d & Hu & Hd & Hm & Hs & ->)%openStream_Ok. split.
  - intros usr'. unfold openStream, getSubscriptionForUser. cbn [m_subscriptions heap]. rewrite Hu.
    cbn [mbind option_bind]. rewrite lookup_insert_eq. cbn [mbind option_bind].
    destruct (mayUse recoveryUser (clientConnected d) usr'); eexists; simpl; split; eauto.
  - unfold closeStream. cbn [streams lookup list_lookup m_subscriptions heap sr_active delete list_delete].
    set (w2 := mkSubs _ _ _ _).
    assert (release l w2 = w2) as ->.
    { unfold release. assert (referenced w2 l = true) as -> by (apply referenced_spec; right; by exists u). done. }
    unfold openStream, getSubscriptionForUser, w2. cbn [m_subscriptions heap]. rewrite Hu. cbn [mbind option_bind].
    rewrite lookup_alter_eq, lookup_insert_eq. cbn [fmap option_fmap option_map mbind option_bind].
    change (mayUse recoveryUser (clientDisconnected (clientConnected d)) usr) with (mayUse recoveryUser d usr).
    by rewrite Hm.
Qed.

(** Deletion takes effect and is local: after a successful delete or kill, no user can find
    the subscription by its UUID or its identifier and sysrepo does not run it any more,
    while all the other registered subscriptions are still there, unchanged. *)
Theorem deleteSubscription_effect (w w' : World) (usr : option string) (input : RpcInput (anydata := anydata)) :
  fresh_ids subscribeNotifications → reachable_subs w →
  deleteSubscription recoveryUser usr input w = Ok w' →
  ∃ u l d, m_subscriptions w !! u = Some l ∧ heap w !! l = Some d ∧ subscriptionId d = in_id input ∧
    (∀ usr', getSubscriptionForUser recoveryUser u usr' w' = None ∧
             getSubscriptionForUserById recoveryUser (in_id input) usr' w' = None) ∧
    (in_id input ∉ sr_active w') ∧
    ∀ u' l', u' ≠ u → m_subscriptions w !! u' = Some l' →
      m_subscriptions w' !! u' = Some l' ∧ heap w' !! l' = heap w !! l'.
Proof.
  intros Hf Hr Hdel. pose proof (Inv_reachable _ _ _ _ _ w Hf Hr) as Hi.
  pose proof (Inv_delete _ _ _ _ _ Hi Hdel) as Hi'.
  apply deleteSubscription_Ok in Hdel as (u & l & d & Hu & Hd & Hud & Hid & Hm & ->); [|done].
  exists u, l, d. split_and!; [done..| | |].
  - intros usr'. split.
    + unfold getSubscriptionForUser. rewrite release_registry. simpl. by rewrite lookup_delete_eq.
    + destruct (getSubscriptionForUserById _ _ _ _) as [[l' d']|] eqn:E; [|done]. exfalso.
      apply getById_Some in E as (u' & Hu' & Hd' & Hid' & _).
      rewrite release_registry in Hu'. simpl in Hu'. pose proof Hu' as [Hne Hu'']%lookup_delete_Some.
      destruct (decide (l' = l)) as [->|Hl].
      * by apply (not_in_registry_after_erase w u l Hi Hu); exists u'.
      * rewrite release_heap in Hd' by done. simpl in Hd'. apply Hl.
        eapply (inv_ids _ _ Hi); [exact Hd'|exact Hd|congruence].
  - unfold release. rewrite <- Hid. case_match; simpl; [set_solver|]. rewrite Hd.
    destruct (terminate_fields (inactivityCancel d) (sr_active w ∖ {[subscriptionId d]})) as (_ & _ & _ & _ & Hsub & _).
    destruct (terminate _ _). simpl in *. set_solver.
  - intros u' l' Hne Hu'. rewrite release_registry. simpl. rewrite lookup_delete_ne by done. split; [done|].
    rewrite release_heap; [done|]. intros ->. apply Hne.
    destruct (inv_registry _ _ Hi u l Hu) as (e & ? & <-), (inv_registry _ _ Hi u' l Hu') as (e' & ? & <-). congruence.
Qed.

(** A subscription whose client has gone is cleaned up: when the client of a registered subscription
    disconnects, the inactivity timeout passes and the completions of its timer run, the subscription leaves the registry, the object
    is destroyed and sysrepo does not run it any more. *)
Theorem subscription_cleaned_up (w : World) (i : nat) (u : uuid) (l : loc) (d : SubscriptionData) :
  fresh_ids subscribeNotifications → reachable_subs w →
  streams w !! i = Some l → m_subscriptions w !! u = Some l → heap w !! l = Some d → sub_state d = ReceiverActive →
  let w' := Nat.iter (S (length (expired d))) (waitCompleted l) (timerExpired l (closeStream i w)) in
  m_subscriptions w' !! u = None ∧ heap w' !! l = None ∧ (subscriptionId d ∉ sr_active w').
Proof.
  intros Hf Hr Hst Hu Hd Hact. pose proof (Inv_reachable _ _ _ _ _ w Hf Hr) as Hi.
  pose proof (Inv_close i w Hi) as Hi'. pose proof (Inv_timer l _ Hi') as Hi2. unfold closeStream in *. rewrite Hst in *.
  set (w2 := mkSubs _ _ _ _) in *.
  assert (release l w2 = w2) as Hrel.
  { unfold release. assert (referenced w2 l = true) as -> by (apply referenced_spec; right; by exists u). done. }
  rewrite Hrel in *. assert (clientDisconnected d = mkSub (subscriptionId d) (dataFormat d) (sub_uuid d) (user d) Start
    (Armed true) (expired d)) as He.
  { unfold clientDisconnected. rewrite decide_False by congruence. by destruct d. }
  assert (heap w2 !! l = Some (clientDisconnected d)) as Hd2 by (simpl; by rewrite lookup_alter_eq, Hd).
  assert (l ∉ streams w2) as Hls by (eapply (inv_start _ _ Hi'); [exact Hd2|by rewrite He]).
  unfold timerExpired in *. rewrite Hd2, He in *. cbn [timer expired] in *.
  set (d3 := with_timer Idle _) in *.
  set (w3 := mkSubs (m_subscriptions w2) (<[l := d3]> (heap w2)) (streams w2) (sr_active w2)) in *.
  assert (S (length (expired d)) = length (expired d3)) as -> by (simpl; rewrite length_app; simpl; lia).
  apply (completions_terminate w3 u l d3); try done; [simpl; by rewrite lookup_insert_eq|]. simpl. set_solver.
Qed.

(** Cancelling the timer does not help against a completion that is queued: when it runs, the subscription is
    terminated and leaves the registry although a client has connected in the meantime; the stream of that
    client stays open. *)
Theorem queued_completion_ends_connected (w : World) (u : uuid) (l : loc) (d : SubscriptionData) (rest : list bool) :
  fresh_ids subscribeNotifications → reachable_subs w →
  m_subscriptions w !! u = Some l → heap w !! l = Some d → sub_state d = ReceiverActive → expired d = true :: rest →
  let w' := waitCompleted l w in
  m_subscriptions w' !! u = None ∧ (subscriptionId d ∉ sr_active w') ∧ l ∈ streams w' ∧
  ∃ d', heap w' !! l = Some d' ∧ sub_state d' = Terminating.
Proof.
  intros Hf Hr Hu Hd Hact Hx. pose proof (Inv_reachable _ _ _ _ _ w Hf Hr) as Hi. cbv zeta.
  destruct (inv_active _ _ Hi l d Hd Hact) as [Hs _].
  unfold waitCompleted. rewrite Hd, Hx. cbv zeta. set (w1 := mkSubs _ _ _ _).
  assert (Inv None w1) as Hi1 by (by eapply Inv_keep).
  assert (heap w1 !! l = Some (with_expired rest d)) as Hd1 by (simpl; by rewrite lookup_insert_eq).
  unfold terminateSubscription.
  rewrite (findById_complete _ (subscriptionId d) _ u l (with_expired rest d) Hi1 Hu Hd1 eq_refl), Hd1.
  pose proof (terminate_fields (with_expired rest d) (sr_active w1)) as (_ & _ & _ & Ht & _ & Hn & _).
  destruct (terminate (with_expired rest d) (sr_active w1)) as [d' a]. simpl in Ht, Hn.
  rewrite release_registry, release_streams. split; [simpl; by rewrite lookup_delete_eq|].
  set (w2 := mkSubs _ _ _ _).
  assert (release l w2 = w2) as ->.
  { unfold release. assert (referenced w2 l = true) as -> by (apply referenced_spec; by left). done. }
  split; [apply Hn; congruence|]. split; [done|]. exists d'. simpl. by rewrite lookup_insert_eq.
Qed.
End theorems.

(** ** The life of a fresh subscription *)

Section fresh.
Context {X : X3} {HX : X3Laws X} {U : UuidLib} {HU : UuidLaws U}.

Lemma hex_then_inv n (k : string → bool) s :
  hex_then n k s = true →
  ∃ a r, s = a +:+ r ∧ k r = true ∧ ∀ r', run (xdigits n) (a +:+ r') = PMatch a r'.
Proof.
  revert s. induction n as [|n IH]; intros s H.
  - exists "", s. split_and!; [done|by destruct s|]. intros r'. unfold xdigits, as_string.
    by rewrite run_cast, run_repeat_O.
  - destruct s as [|c s]; [done|]. simpl in H. apply andb_true_iff in H as [Hc H].
    destruct (IH s H) as (a & r & -> & Hk & Ha). exists (String c a), r. split_and!; [done..|]. intros r'.
    specialize (Ha r'). unfold xdigits, as_string, xdigit in *. rewrite run_cast in *.
    rewrite str_app_cons, run_repeat_S, run_seq, run_char, Hc. cbn [pbind].
    destruct (run (repeat_ n (char_ is_xdigit)) (a +:+ r')); simpl in *; by simplify_eq.
Qed.
Lemma dash_then_inv (k : string → bool) s :
  dash_then k s = true → ∃ r, s = "-" +:+ r ∧ k r = true.
Proof. destruct s as [|c s]; simpl; [done|]. intros [Hc%is_char_true Hk]%andb_true_iff. subst. eauto. Qed.
Lemma run_dash r : run dash ("-" +:+ r) = PMatch "-" r.
Proof. unfold dash, char_str, char_lit. by rewrite run_cast, run_char. Qed.
Lemma run_expect_str_app (p q : parser string) s a b r :
  run p s = PMatch a (b +:+ r) → run q (b +:+ r) = PMatch b r → run (expect_str p q) s = PMatch (a +:+ b) r.
Proof. intros Hp Hq. rewrite run_expect_str, Hp. simpl. by rewrite Hq. Qed.
Lemma run_uuid_impl s : uuid_shape s = true → run uuid_impl s = PMatch s "".
Proof.
  unfold uuid_shape. intros H.
  apply hex_then_inv in H as (a1 & r1 & -> & H & R1). apply dash_then_inv in H as (s1 & -> & H).
  apply hex_then_inv in H as (a2 & r2 & -> & H & R2). apply dash_then_inv in H as (s2 & -> & H).
  apply hex_then_inv in H as (a3 & r3 & -> & H & R3). apply dash_then_inv in H as (s3 & -> & H).
  apply hex_then_inv in H as (a4 & r4 & -> & H & R4). apply dash_then_inv in H as (s4 & -> & H).
  apply hex_then_inv in H as (a5 & r5 & -> & H & R5). destruct r5; [clear H|done].
  assert (∀ x, run uuid_impl x = PMatch ((((((((a1 +:+ "-") +:+ a2) +:+ "-") +:+ a3) +:+ "-") +:+ a4) +:+ "-") +:+ a5) "" →
    run uuid_impl x = PMatch (a1 +:+ "-" +:+ a2 +:+ "-" +:+ a3 +:+ "-" +:+ a4 +:+ "-" +:+ a5 +:+ "") "") as Hx.
  { intros x ->. by rewrite !str_app_assoc, str_app_nil_r. }
  apply Hx. unfold uuid_impl. rewrite run_rule.
  repeat (apply run_expect_str_app; [|first [apply run_dash|auto]]). auto.
Qed.
Lemma parseStreamUri_subscribed u :
  parseStreamUri ("/streams/" +:+ "subscribed/" +:+ uuid_to_string u) = Ok (SubscribedStream u).
Proof.
  apply parse_match. unfold streamGrammar, subscribedStream, uuid_rule.
  rewrite run_rule, !run_expect_r.
  change ("/streams/" +:+ ?x) with ("/" +:+ "streams" +:+ "/" +:+ x). rewrite run_lit_str_app. cbn [pbind].
  rewrite run_lit_str_app. cbn [pbind or_expect]. rewrite run_lit_str_app. cbn [pbind or_expect].
  rewrite run_alt, run_cast, run_rule, !run_expect_r.
  change ("subscribed/" +:+ ?x) with ("subscribed" +:+ "/" +:+ x). rewrite run_lit_str_app. cbn [pbind or_expect].
  rewrite run_lit_str_app. cbn [pbind or_expect].
  rewrite run_rule, run_action, run_uuid_impl by apply uuid_to_string_shape. cbn [pbind].
  by rewrite string_generator_to_string.
Qed.

Context (recoveryUser : string).
Context {timestamp anydata : Type} (fromYangTimeFormat : string → M timestamp) (yangTimeFormat : timestamp → string).
Context (subscribeNotifications : World → option (string + anydata) → string → option timestamp → option timestamp →
           M (N * option timestamp)).
Abbreviation establish := (establishSubscription fromYangTimeFormat yangTimeFormat subscribeNotifications "/streams/").

Lemma establish_Ok u l usr host enc input w w' out :
  establish u l usr host enc input w = Ok (w', out) → m_subscriptions w !! u = None →
  ∃ us h id format out', usr = Some us ∧ host = Some h ∧ getEncoding (in_encoding input) enc = Ok format ∧
    w' = mkSubs (<[u := l]> (m_subscriptions w)) (<[l := newSubscriptionData id format u us]> (heap w))
           (streams w) ({[id]} ∪ sr_active w) ∧
    out = out' ++ [("id", pretty id);
                   ("ietf-restconf-subscribed-notifications:uri",
                    h +:+ "/streams/" +:+ "subscribed/" +:+ uuid_to_string u)].
Proof.
  unfold establishSubscription. destruct host as [h|]; [|done].
  intros (format & Hf & H)%bind_Ok_inv Hu. apply try_catch_Ok_inv in H as [H|(e & _ & H)]; [|by destruct e].
  apply bind_Ok_inv in H as ([id output] & Hm & H). apply bind_Ok_inv in H as (us & Hus & H).
  unfold register in H. rewrite Hu in H. injection H as <- <-. destruct usr; simplify_eq/=. eauto 10.
Qed.

(** The URI the server returns for a new subscription leads back to it: the part of the URI after
    scheme and host is parsed as a subscribed stream with the UUID of the subscription, and
    the user who established it, or the recovery user, can connect there right away, while nobody
    else can. *)
Theorem establish_uri_roundtrip (u : uuid) (l : loc) (usr : option string) (host : option string)
    (enc : DataFormat) (input : RpcInput) (w w' : World) (out : list (string * string)) :
  establish u l usr host enc input w = Ok (w', out) → m_subscriptions w !! u = None →
  ∃ h p, host = Some h ∧ ("ietf-restconf-subscribed-notifications:uri", h +:+ p) ∈ out ∧
    parseStreamUri p = Ok (SubscribedStream u) ∧
    ∀ usr', is_ok (openStream recoveryUser u usr' w') = bool_decide (usr' = usr ∨ usr' = Some recoveryUser).
Proof.
  intros H Hu. apply establish_Ok in H as (us & h & id & format & out' & -> & -> & _ & -> & ->); [|done].
  exists h, ("/streams/" +:+ "subscribed/" +:+ uuid_to_string u). split; [done|]. split.
  { apply elem_of_app. right. right. left. }
  split; [apply parseStreamUri_subscribed|]. intros usr'.
  unfold openStream, getSubscriptionForUser. cbn [m_subscriptions heap]. rewrite lookup_insert_eq. cbn [mbind option_bind].
  rewrite lookup_insert_eq. cbn [mbind option_bind].
  assert (mayUse recoveryUser (newSubscriptionData id format u us) usr' =
    bool_decide (usr' = Some us ∨ usr' = Some recoveryUser)) as ->.
  { unfold mayUse. simpl. repeat case_bool_decide; naive_solver. }
  by destruct (bool_decide _).
Qed.

(** The inactivity timer of a subscription nobody has connected to yet does nothing when it
    expires, because it was armed in the constructor, where the weak pointer to the object is
    empty: such a subscription stays registered, ready and running, and there is no timer and no completion left
    that would ever remove it. *)
Theorem unused_subscription_not_cleaned_up (u : uuid) (l : loc) (usr : option string) (host : option string)
    (enc : DataFormat) (input : RpcInput) (w w' : World) (out : list (string * string)) :
  establish u l usr host enc input w = Ok (w', out) → m_subscriptions w !! u = None →
  let w2 := waitCompleted l (timerExpired l w') in
  m_subscriptions w2 = m_subscriptions w' ∧ sr_active w2 = sr_active w' ∧
  (∃ d, heap w2 !! l = Some d ∧ isReadyToAcceptClient d = true ∧ timer d = Idle ∧ expired d = []) ∧
  timerExpired l w2 = w2 ∧ waitCompleted l w2 = w2.
Proof.
  intros H Hu. apply establish_Ok in H as (us & h & id & format & out' & -> & -> & _ & -> & ->); [|done].
  set (w' := mkSubs _ _ _ _). intros w2.
  assert (w2 = mkSubs (m_subscriptions w')
    (<[l := mkSub id format u us Start Idle []]> (heap w)) (streams w') (sr_active w')) as ->.
  { unfold w2, timerExpired, waitCompleted, w'. cbn [heap]. rewrite lookup_insert_eq. simpl. rewrite lookup_insert_eq.
    simpl. by rewrite !insert_insert_eq. }
  split_and!; [done|done| | |].
  - exists (mkSub id format u us Start Idle []). simpl. by rewrite lookup_insert_eq.
  - unfold timerExpired. cbn [heap]. by rewrite lookup_insert_eq.
  - unfold waitCompleted. cbn [heap]. by rewrite lookup_insert_eq.
Qed.
End fresh.

(** ** Witnesses: alice establishes a subscription, connects, disconnects *)

Module Sample.
#[local] Existing Instance uuid_ref.
Definition input (stream : string) : RpcInput (anydata := unit) :=
  mkInput "/rpc" (Some "ietf-subscribed-notifications:encode-xml") (Some stream) false None None None 0 true.
Definition est := establishSubscription (timestamp := string) Ok id subscribe_example "/streams/" nil_uuid 0
  (Some "alice") (Some "https://host") JSON (input "NETCONF") empty_world.
Definition established : World := match est with Ok (w, _) => w | Throw _ => empty_world end.
Definition connected : World :=
  match openStream "root" nil_uuid (Some "alice") established with Ok w => w | Throw _ => established end.
Abbreviation reachable_example := (reachable "root" (timestamp := string) (anydata := unit) Ok id subscribe_example "/streams/").


Lemma est_Ok : ∃ out, est = Ok (established, out).
Proof.
  assert (is_ok est = true) as H by (vm_compute; reflexivity).
  unfold established. destruct est as [[w out]|]; [eauto|discriminate H].
Qed.
Lemma established_reachable : reachable_example established.
Proof. destruct est_Ok as [out H]. apply rtc_once. eapply step_establish; [|exact H]. done. Qed.
Lemma connected_Ok : openStream "root" nil_uuid (Some "alice") established = Ok connected.
Proof.
  assert (is_ok (openStream "root" nil_uuid (Some "alice") established) = true) as H by (vm_compute; reflexivity).
  unfold connected. by destruct (openStream "root" nil_uuid (Some "alice") established).
Qed.
Lemma connected_reachable : reachable_example connected.
Proof. eapply rtc_r; [apply established_reachable|]. eapply step_open, connected_Ok. Qed.
(** The object alice has connected to. *)
Lemma connected_lookup :
  m_subscriptions connected !! nil_uuid = Some 0 ∧
  heap connected !! 0 = Some (mkSub 1 XML nil_uuid "alice" ReceiverActive Idle []) ∧ streams connected !! 0 = Some 0.
Proof. split_and!; match goal with |- _ = ?x => vm_cast_no_check (eq_refl x) end. Qed.

Lemma subscriptions_invariant_witness :
  NoDup (streams connected) ∧
  ∀ l d, heap connected !! l = Some d → isReadyToAcceptClient d = true → l ∉ streams connected.
Proof.
  apply (subscriptions_invariant "root" (timestamp := string) (anydata := unit) Ok id subscribe_example "/streams/" connected).
  - apply subscribe_example_fresh.
  - exact connected_reachable.
Defined.
Lemma subscriptions_isolation_witness :
  openStream "root" nil_uuid (Some "mallory") connected =
    throwResponse 404 "application" "invalid-value" "Subscription not found.".
Proof.
  destruct connected_lookup as (Hu & Hd & _).
  apply (subscriptions_isolation "root" (timestamp := string) (anydata := unit) Ok id subscribe_example "/streams/" connected nil_uuid 0
           (mkSub 1 XML nil_uuid "alice" ReceiverActive Idle []) (Some "mallory")).
  - apply subscribe_example_fresh.
  - exact connected_reachable.
  - exact Hu.
  - exact Hd.
  - discriminate.
  - discriminate.
Defined.
Lemma subscriptions_exclusive_witness :
  is_ok (openStream "root" nil_uuid (Some "alice") (closeStream 0 connected)) = true.
Proof. apply (subscriptions_exclusive "root" established connected nil_uuid (Some "alice")). exact connected_Ok. Defined.
Definition kill_input : RpcInput (anydata := unit) := mkInput "/kill" None None false None None None 1 true.
Definition killed : World :=
  match deleteSubscription "root" (Some "root") kill_input connected with Ok w => w | Throw _ => connected end.
Lemma killed_Ok : deleteSubscription "root" (Some "root") kill_input connected = Ok killed.
Proof.
  assert (is_ok (deleteSubscription "root" (Some "root") kill_input connected) = true) as H by (vm_compute; reflexivity).
  unfold killed. by destruct (deleteSubscription "root" (Some "root") kill_input connected).
Qed.
Lemma deleteSubscription_effect_witness : 1%N ∉ sr_active killed.
Proof.
  destruct (deleteSubscription_effect "root" (timestamp := string) (anydata := unit) Ok id subscribe_example "/streams/"
    connected killed (Some "root") kill_input subscribe_example_fresh connected_reachable killed_Ok)
    as (u & l & d & _ & _ & _ & _ & H & _).
  exact H.
Defined.
Lemma subscription_cleaned_up_witness :
  m_subscriptions (waitCompleted 0 (timerExpired 0 (closeStream 0 connected))) !! nil_uuid = None.
Proof.
  destruct connected_lookup as (Hu & Hd & Hs).
  apply (subscription_cleaned_up "root" (timestamp := string) (anydata := unit) Ok id subscribe_example "/streams/" connected 0 nil_uuid 0
           (mkSub 1 XML nil_uuid "alice" ReceiverActive Idle [])).
  - apply subscribe_example_fresh.
  - exact connected_reachable.
  - exact Hs.
  - exact Hu.
  - exact Hd.
  - reflexivity.
Defined.
(** alice disconnects, the timeout passes, and she connects again before the completion runs. *)
Definition left_alone : World := timerExpired 0 (closeStream 0 connected).
Definition raced : World :=
  match openStream "root" nil_uuid (Some "alice") left_alone with Ok w => w | Throw _ => left_alone end.
Lemma raced_Ok : openStream "root" nil_uuid (Some "alice") left_alone = Ok raced.
Proof.
  assert (is_ok (openStream "root" nil_uuid (Some "alice") left_alone) = true) as H by (vm_compute; reflexivity).
  unfold raced. by destruct (openStream "root" nil_uuid (Some "alice") left_alone).
Qed.
Lemma raced_reachable : reachable_example raced.
Proof.
  eapply rtc_r; [eapply rtc_r; [eapply rtc_r; [apply connected_reachable|]|]|].
  - apply (step_close _ _ _ _ _ 0).
  - apply (step_timer _ _ _ _ _ 0).
  - eapply step_open, raced_Ok.
Qed.
Lemma raced_lookup :
  m_subscriptions raced !! nil_uuid = Some 0 ∧
  heap raced !! 0 = Some (mkSub 1 XML nil_uuid "alice" ReceiverActive Idle [true]).
Proof. split; match goal with |- _ = ?x => vm_cast_no_check (eq_refl x) end. Qed.
Lemma queued_completion_ends_connected_witness :
  m_subscriptions (waitCompleted 0 raced) !! nil_uuid = None ∧ 0 ∈ streams (waitCompleted 0 raced).
Proof.
  destruct raced_lookup as [Hu Hd].
  destruct (queued_completion_ends_connected "root" (timestamp := string) (anydata := unit) Ok id subscribe_example "/streams/" raced
    nil_uuid 0 (mkSub 1 XML nil_uuid "alice" ReceiverActive Idle [true]) [] subscribe_example_fresh raced_reachable Hu Hd eq_refl eq_refl)
    as (H1 & _ & H2 & _).
  by split.
Defined.
Lemma establish_uri_roundtrip_witness :
  is_ok (openStream "root" nil_uuid (Some "bob") established) = false.
Proof.
  destruct est_Ok as [out H].
  destruct (establish_uri_roundtrip (X := x3_ref) (HX := x3_ref_laws) (HU := uuid_ref_laws) "root" (timestamp := string) (anydata := unit)
    Ok id subscribe_example nil_uuid 0 (Some "alice") (Some "https://host") JSON (input "NETCONF")
    empty_world established out H eq_refl) as (h & p & _ & _ & _ & Ho).
  rewrite (Ho (Some "bob")). reflexivity.
Defined.
Lemma unused_subscription_not_cleaned_up_witness :
  m_subscriptions (waitCompleted 0 (timerExpired 0 established)) = m_subscriptions established.
Proof.
  destruct est_Ok as [out H].
  apply (unused_subscription_not_cleaned_up (timestamp := string) (anydata := unit) Ok id subscribe_example nil_uuid 0 (Some "alice")
    (Some "https://host") JSON (input "NETCONF") empty_world established out H eq_refl).
Defined.
End Sample.
