(* ===== verification/Effects.v ===== *)
(** * Effects: what the request handlers ask of libyang, sysrepo and the HTTP library

    The handlers are sequences of calls to data trees of libyang, to a sysrepo session and to an
    HTTP response, none of which is part of the repository.  Each call is a command
    with a type of answers; a handler is a tree of commands ([prog]) that continues with any
    answer, an exception included.  [runs p t r]: [p] can perform the commands of the trace [t],
    given the answers in [t], and ends with [r].  Nothing is assumed of an answer
    unless a theorem says so, by a predicate on events.  [wp] is the weakest precondition of a
    program for a monitor, an automaton that watches the trace; [wp_runs] is its soundness.  [interp] runs
    a program against a function that answers, for examples.

    A data node is a handle: what a tree holds is known from the answers only.  Its place in
    the schema, [schema], does not change. *)

From S2P Require Import Prelude Exceptions UriTypes Libyang YangUtils.

(** The rest of libyang's schema interface the handlers use. *)
Class LibyangMore (L : Libyang) : Type := {
  LyModule_eq_dec :: EqDecision (@Module L);
  DataNode_eq_dec :: EqDecision (@DataNode L);
  ly_module_name : @Module L → string;                        (** [module.name()] *)
  ly_module_ns : @Module L → string;
  ly_module_revision : @Module L → option string;
  ly_module_implemented : @Module L → bool;
  ly_submodule_name : @Submodule L → string;
  getModuleImplemented : @Context L → string → option (@Module L);
  getModuleLatest : @Context L → string → option (@Module L);
  featureEnabled : @Module L → string → bool;
  ctx_modules : @Context L → list (@Module L);
  actionRpcs : @Module L → list (@SchemaNode L);
  rpc_input_child : @SchemaNode L → bool;                     (** [asActionRpc().input().child()] *)
  leaf_isKey : @SchemaNode L → bool;                          (** [asLeaf().isKey()] *)
  module_of : @SchemaNode L → @Module L
}.

(** [libyang::PrintFlags], as the list of the flags set; [sysrepo::GetOptions] *)
Inductive PrintFlag := PSiblings | PEmptyContainers | PShrink | PWithDefaultsTrim | PWithDefaultsAll | PWithDefaultsAllTag.
Inductive GetOptions := GetDefault | OperNoConfig | OperNoState.
#[export] Instance PrintFlag_eq_dec : EqDecision PrintFlag.
Proof. solve_decision. Defined.
#[export] Instance GetOptions_eq_dec : EqDecision GetOptions.
Proof. solve_decision. Defined.

Section effects.
Context {L : Libyang}.

Record Meta := mkMeta { isInternal : bool; meta_module : Module; meta_name : string; meta_value : string }.

Inductive Cmd :=
(** libyang: creating, parsing and changing data trees *)
| LyNewPath (path : string) (value : option string)
| LyNewPath2 (path : string) (opaque : bool)
| LyNodeNewPath (n : DataNode) (path : string) (value : option string)
| LyNodeNewPathTree (n : DataNode) (path : string) (m : DataNode)
| LyNewOpaqueJSON (ns prefix name : string) (value : option string)
| LyNewOpaqueXML (ns prefix name : string) (value : option string)
| LyParseData (s : string) (f : DataFormat)
| LyParseSubtree (n : DataNode) (s : string) (f : DataFormat)
| LyParseOp (n : DataNode) (s : string) (f : DataFormat)
| LyValidateOp (n : DataNode) (dep : option DataNode)
| LyGetErrors
| LyUnlink (n : DataNode)
| LyUnlinkWithSiblings (n : DataNode)
| LyInsertChild (n m : DataNode)
| LyInsertSibling (n m : DataNode)
| LyDuplicate (n : DataNode)
| LyNewMeta (n : DataNode) (m : Module) (name value : string)
| LyNewAttrOpaqueJSON (n : DataNode) (module name value : string)
| LyEraseMeta (n : DataNode) (i : nat)
(** libyang: looking at data trees *)
| LyImmediateChildren (n : DataNode)
| LySiblings (n : DataNode)
| LyChildrenDfs (n : DataNode)
| LyChild (n : DataNode)
| LyParent (n : DataNode)
| LyFindPath (n : DataNode) (p : string)
| LyFindXPath (n : DataNode) (p : string)
| LyMeta (n : DataNode)
| LyNodePath (n : DataNode)
| LyValueStr (n : DataNode)
| LyValueUInt32 (n : DataNode)
| LyIsTerm (n : DataNode)
| LyIsOpaque (n : DataNode)
| LyIsImplicitDefault (n : DataNode)
| LyAnyNode (n : DataNode)
| LyPrintStr (n : DataNode) (f : DataFormat) (flags : list PrintFlag)
| LySchemaPrint (m : Module + Submodule)
(** sysrepo: the session of the request *)
| SrSessionStart (d : Datastore)
| SrSetNacmUser (u : string)
| SrSwitchDatastore (d : Datastore)
| SrActiveDatastore
| SrLock
| SrUnlock
| SrGetData (xpath : string) (depth : N) (opts : GetOptions) (timeout : option N)
| SrEditBatch (edit : DataNode)
| SrApplyChanges (timeout : N)
| SrReplaceConfig (config : option DataNode) (timeout : N)
| SrSendRPC (n : DataNode) (timeout : N)
| SrCheckNacmOperation (n : DataNode)
(** sysrepo: subscriptions; [first] creates the subscription object *)
| SrOnNotification (first : bool) (module : string) (filter : option string) (startTime stopTime : option Z)
| SrModuleReplaySupport (module : string)
| SrOnModuleChange (module : string)
| SrGetChanges (xpath : string)
| SrUnsubscribe (module : string)             (** the destructor of a subscription *)
| SrProcessEvent                              (** the callbacks one event leads to: tree and time *)
| SrSetItem (path value : string)
(** the clock, and the signals of the event sources and of the streams *)
| ClockNow
| SignalChange (module content : string)
| SignalEvent (content : string)
(** the file descriptor of a subscription: [poll] gives its result, [POLLIN] and [POLLHUP] *)
| PollFd
| AsyncWait
(** the HTTP response *)
| HttpWriteHead (code : Z) (headers : list (string * string))
| HttpEnd (body : option string)
| HttpEndStream.                           (** [end] with a callback that produces the body *)

(** What a command returns when it does not throw. *)
Definition Answer (c : Cmd) : Type :=
  match c with
  | LyNewPath _ _ | LyInsertSibling _ _ | LyDuplicate _ => DataNode
  | LyNewPath2 _ _ => option DataNode * option DataNode
  | LyNodeNewPath _ _ _ | LyNewOpaqueJSON _ _ _ _ | LyNewOpaqueXML _ _ _ _ | LyParseData _ _
  | LyChild _ | LyParent _ | LyFindPath _ _ | LyAnyNode _ | SrGetData _ _ _ _ | SrSendRPC _ _ => option DataNode
  | LyGetErrors => list (string * option string)
  | LyImmediateChildren _ | LySiblings _ | LyChildrenDfs _ | LyFindXPath _ _ => list DataNode
  | LyMeta _ => list Meta
  | SrModuleReplaySupport _ => bool * option Z
  | SrGetChanges _ => list DataNode
  | SrProcessEvent => list (option DataNode * Z)
  | PollFd => Z * (bool * bool)
  | ClockNow => Z
  | LyValueUInt32 _ => N
  | LyNodePath _ | LyValueStr _ | LySchemaPrint _ => string
  | LyPrintStr _ _ _ => option string
  | LyIsTerm _ | LyIsOpaque _ | LyIsImplicitDefault _ | SrCheckNacmOperation _ => bool
  | SrActiveDatastore => Datastore
  | _ => unit
  end.

(** ** Programs *)

Inductive prog (A : Type) : Type :=
| Ret (a : A)
| Raise (e : exn)
| Vis (c : Cmd) (k : M (Answer c) → prog A).
Arguments Ret {A} a.
Arguments Raise {A} e.
Arguments Vis {A} c k.

Fixpoint prog_bind {A B} (p : prog A) (f : A → prog B) : prog B :=
  match p with
  | Ret a => f a
  | Raise e => Raise e
  | Vis c k => Vis c (λ x, prog_bind (k x) f)
  end.
(** [try { p } catch (e) { h(e) }]; [h] raises again what it does not catch. *)
Fixpoint prog_try {A} (p : prog A) (h : exn → prog A) : prog A :=
  match p with
  | Ret a => Ret a
  | Raise e => h e
  | Vis c k => Vis c (λ x, prog_try (k x) h)
  end.
(** A destructor that runs when the scope is left, in either way. *)
Fixpoint prog_finally {A} (p : prog A) (d : Cmd) : prog A :=
  match p with
  | Ret a => Vis d (λ _, Ret a)
  | Raise e => Vis d (λ _, Raise e)
  | Vis c k => Vis c (λ x, prog_finally (k x) d)
  end.

Definition lift {A} (m : M A) : prog A := match m with Ok a => Ret a | Throw e => Raise e end.
Definition call (c : Cmd) : prog (Answer c) := Vis c lift.
Definition raiseResponse {A} (code : Z) (errorType errorTag errorMessage : string) (path : option string) : prog A :=
  Raise (EResponse (newErrorResponse code errorType errorTag errorMessage path)).
(** [*o] of an optional, and [*c.begin()] of a collection *)
Definition unwrap {A} (o : option A) : prog A := lift (deref o).
Definition front {A} (l : list A) : prog A :=
  match l with a :: _ => Ret a | [] => Raise (EUndefined "begin() of an empty collection") end.

(** A range-[for], and one that updates a variable. *)
Fixpoint foreach {A} (f : A → prog unit) (l : list A) : prog unit :=
  match l with
  | [] => Ret tt
  | x :: l => prog_bind (f x) (λ _, foreach f l)
  end.
Fixpoint foldM {A S} (f : S → A → prog S) (s : S) (l : list A) : prog S :=
  match l with
  | [] => Ret s
  | x :: l => prog_bind (f s x) (λ s, foldM f s l)
  end.

(** ** Traces *)

Inductive Event := Ev (c : Cmd) (x : M (Answer c)).

Fixpoint runs {A} (p : prog A) (t : list Event) (r : M A) : Prop :=
  match p with
  | Ret a => t = [] ∧ r = Ok a
  | Raise e => t = [] ∧ r = Throw e
  | Vis c k => ∃ x t', t = Ev c x :: t' ∧ runs (k x) t' r
  end.

(** Running against answers that depend on the command only. *)
Fixpoint interp {A} (env : ∀ c, M (Answer c)) (p : prog A) : list Event * M A :=
  match p with
  | Ret a => ([], Ok a)
  | Raise e => ([], Throw e)
  | Vis c k => let '(t, r) := interp env (k (env c)) in (Ev c (env c) :: t, r)
  end.

Lemma interp_runs {A} env (p : prog A) : runs p (interp env p).1 (interp env p).2.
Proof.
  induction p as [a|e|c k IH]; simpl; [done..|].
  destruct (interp env (k (env c))) as [t r] eqn:E. simpl. exists (env c), t.
  split; [done|]. specialize (IH (env c)). by rewrite E in IH.
Qed.

Lemma runs_bind {A B} (p : prog A) (f : A → prog B) t r :
  runs (prog_bind p f) t r →
  (∃ a t1 t2, t = t1 ++ t2 ∧ runs p t1 (Ok a) ∧ runs (f a) t2 r) ∨ (∃ e, r = Throw e ∧ runs p t (Throw e)).
Proof.
  revert t. induction p as [a|e|c k IH]; simpl; intros t H.
  - left. exists a, [], t. done.
  - right. exists e. destruct H as [-> ->]. done.
  - destruct H as (x & t' & -> & H). destruct (IH x t' H) as [(a & t1 & t2 & -> & ? & ?)|(e & -> & ?)].
    + left. exists a, (Ev c x :: t1), t2. split; [done|]. split; [|done]. exists x, t1. done.
    + right. exists e. split; [done|]. exists x, t'. done.
Qed.
Lemma runs_try {A} (p : prog A) (h : exn → prog A) t r :
  runs (prog_try p h) t r →
  (∃ a, r = Ok a ∧ runs p t (Ok a)) ∨ (∃ e t1 t2, t = t1 ++ t2 ∧ runs p t1 (Throw e) ∧ runs (h e) t2 r).
Proof.
  revert t. induction p as [a|e|c k IH]; simpl; intros t H.
  - left. exists a. destruct H as [-> ->]. done.
  - right. exists e, [], t. done.
  - destruct H as (x & t' & -> & H). destruct (IH x t' H) as [(a & -> & ?)|(e & t1 & t2 & -> & ? & ?)].
    + left. exists a. split; [done|]. exists x, t'. done.
    + right. exists e, (Ev c x :: t1), t2. split; [done|]. split; [|done]. exists x, t1. done.
Qed.

Lemma runs_bind_Throw {A B} (p : prog A) (f : A → prog B) t e :
  runs p t (Throw e) → runs (prog_bind p f) t (Throw e).
Proof.
  revert t. induction p as [a|e'|c k IH]; simpl; intros t H; [by destruct H| |].
  - destruct H as [-> [= ->]]. done.
  - destruct H as (x & t' & -> & H). exists x, t'. auto.
Qed.

(** ** Weakest preconditions for a monitor *)

Section wp.
(** The monitor: a state that follows the trace.  [lawful]: what is known of the answers in
    a state. *)
Context {S : Type} (next : S → Event → S) (lawful : S → Event → Prop).

Fixpoint watch (s : S) (t : list Event) : S :=
  match t with [] => s | ev :: t => watch (next s ev) t end.
Fixpoint all_lawful (s : S) (t : list Event) : Prop :=
  match t with [] => True | ev :: t => lawful s ev ∧ all_lawful (next s ev) t end.

Lemma watch_app s t1 t2 : watch s (t1 ++ t2) = watch (watch s t1) t2.
Proof. revert s. induction t1; simpl; auto. Qed.

(** [good]: what the monitor demands of each event. *)
Context (good : S → Event → Prop).
Fixpoint all_good (s : S) (t : list Event) : Prop :=
  match t with [] => True | ev :: t => good s ev ∧ all_good (next s ev) t end.

Lemma all_good_at s t1 ev t2 :
  all_good s (t1 ++ ev :: t2) → good (watch s t1) ev.
Proof. revert s. induction t1 as [|ev' t1 IH]; simpl; intros s; [tauto|]. intros [_ H]. by apply IH. Qed.

Fixpoint wp {A} (p : prog A) (Q : S → M A → Prop) (s : S) : Prop :=
  match p with
  | Ret a => Q s (Ok a)
  | Raise e => Q s (Throw e)
  | Vis c k => ∀ x, lawful s (Ev c x) → good s (Ev c x) ∧ wp (k x) Q (next s (Ev c x))
  end.

Lemma wp_runs {A} (p : prog A) Q s t r :
  wp p Q s → runs p t r → all_lawful s t → all_good s t ∧ Q (watch s t) r.
Proof.
  revert s t. induction p as [a|e|c k IH]; intros s t Hp Hr Ht; simpl in *.
  - destruct Hr as [-> ->]. done.
  - destruct Hr as [-> ->]. done.
  - destruct Hr as (x & t' & -> & Hr). destruct Ht as [Hx Ht]. destruct (Hp x Hx) as [? Hk].
    destruct (IH x _ _ Hk Hr Ht). done.
Qed.

Lemma interp_lawful {A} env (p : prog A) s :
  (∀ s c, lawful s (Ev c (env c))) → all_lawful s (interp env p).1.
Proof.
  intros He. revert s. induction p as [a|e|c k IH]; intros s; simpl; [done..|].
  specialize (IH (env c) (next s (Ev c (env c)))). destruct (interp env (k (env c))) as [t r]. simpl in *. done.
Qed.

Lemma wp_mono {A} (p : prog A) Q Q' s :
  wp p Q s → (∀ s' r, Q s' r → Q' s' r) → wp p Q' s.
Proof.
  revert s. induction p as [a|e|c k IH]; intros s Hp HQ; simpl in *; [auto..|].
  intros x Hx. destruct (Hp x Hx). eauto.
Qed.

(** What is left to do after a part that returned, or that raised an exception. *)
Lemma wp_bind {A B} (p : prog A) (f : A → prog B) Q s :
  wp p (λ s' r, match r with Ok a => wp (f a) Q s' | Throw e => Q s' (Throw e) end) s →
  wp (prog_bind p f) Q s.
Proof.
  revert s. induction p as [a|e|c k IH]; intros s Hp; simpl in *; [done..|].
  intros x Hx. destruct (Hp x Hx). auto.
Qed.
Lemma wp_try {A} (p : prog A) h Q s :
  wp p (λ s' r, match r with Ok a => Q s' (Ok a) | Throw e => wp (h e) Q s' end) s →
  wp (prog_try p h) Q s.
Proof.
  revert s. induction p as [a|e|c k IH]; intros s Hp; simpl in *; [done..|].
  intros x Hx. destruct (Hp x Hx). auto.
Qed.
Lemma wp_finally {A} (p : prog A) d Q s :
  wp p (λ s' r, ∀ x, lawful s' (Ev d x) → good s' (Ev d x) ∧ Q (next s' (Ev d x)) r) s →
  wp (prog_finally p d) Q s.
Proof.
  revert s. induction p as [a|e|c k IH]; intros s Hp; simpl in *; [done..|].
  intros x Hx. destruct (Hp x Hx). auto.
Qed.
Lemma wp_lift {A} (m : M A) (Q : S → M A → Prop) s : Q s m → wp (lift m) Q s.
Proof. by destruct m. Qed.
Lemma wp_call c (Q : S → M (Answer c) → Prop) s :
  (∀ x, lawful s (Ev c x) → good s (Ev c x) ∧ Q (next s (Ev c x)) x) → wp (call c) Q s.
Proof. intros H x Hx. destruct (H x Hx). split; [done|]. by apply wp_lift. Qed.

Lemma wp_foreach {A} (f : A → prog unit) l (I : S → Prop) Q s :
  (∀ s x, x ∈ l → I s → wp (f x) (λ s' r, match r with Ok _ => I s' | Throw e => Q s' (Throw e) end) s) →
  (∀ s, I s → Q s (Ok tt)) → I s → wp (foreach f l) Q s.
Proof.
  revert s. induction l as [|x l IH]; intros s Hf HQ Hs; simpl; [auto|].
  apply wp_bind. eapply wp_mono; [apply Hf; [by left|done]|].
  intros s' [[]|e] H; [|done]. apply IH; [|done..]. intros. apply Hf; [by right|done].
Qed.
Lemma wp_foldM {A B} (f : B → A → prog B) b l (I : S → B → Prop) Q s :
  (∀ s b x, x ∈ l → I s b → wp (f b x) (λ s' r, match r with Ok b => I s' b | Throw e => Q s' (Throw e) end) s) →
  (∀ s b, I s b → Q s (Ok b)) → I s b → wp (foldM f b l) Q s.
Proof.
  revert s b. induction l as [|x l IH]; intros s b Hf HQ Hs; simpl; [auto|].
  apply wp_bind. eapply wp_mono; [apply Hf; [by left|done]|].
  intros s' [b'|e] H; [|done]. apply IH; [|done..]. intros. apply Hf; [by right|done].
Qed.
End wp.

(** ** Kinds of commands *)

(** libyang's own, which neither touch the session nor the response *)
Definition ly_cmd (c : Cmd) : bool :=
  match c with
  | LyNewPath _ _ | LyNewPath2 _ _ | LyNodeNewPath _ _ _ | LyNodeNewPathTree _ _ _ | LyNewOpaqueJSON _ _ _ _
  | LyNewOpaqueXML _ _ _ _ | LyParseData _ _ | LyParseSubtree _ _ _ | LyParseOp _ _ _ | LyValidateOp _ _
  | LyGetErrors | LyUnlink _ | LyUnlinkWithSiblings _ | LyInsertChild _ _ | LyInsertSibling _ _ | LyDuplicate _
  | LyNewMeta _ _ _ _ | LyNewAttrOpaqueJSON _ _ _ _ | LyEraseMeta _ _ | LyImmediateChildren _ | LySiblings _
  | LyChildrenDfs _ | LyChild _ | LyParent _ | LyFindPath _ _ | LyFindXPath _ _ | LyMeta _ | LyNodePath _
  | LyValueStr _ | LyValueUInt32 _ | LyIsTerm _ | LyIsOpaque _ | LyIsImplicitDefault _ | LyAnyNode _ | LyPrintStr _ _ _
  | LySchemaPrint _ => true
  | _ => false
  end.
(** ... and neither search a tree, nor parse into one, nor join two *)
Definition local_cmd (c : Cmd) : bool :=
  ly_cmd c && match c with LyFindXPath _ _ | LyParseSubtree _ _ _ | LyInsertSibling _ _ => false | _ => true end.
Definition http_cmd (c : Cmd) : bool :=
  match c with HttpWriteHead _ _ | HttpEnd _ | HttpEndStream => true | _ => false end.

(** ** Programs that use some commands only *)

Section only.
Context (f : Cmd → bool).

Fixpoint only {A} (p : prog A) : Prop :=
  match p with
  | Ret _ | Raise _ => True
  | Vis c k => f c = true ∧ ∀ x, only (k x)
  end.

Lemma only_bind {A B} (p : prog A) (g : A → prog B) : only p → (∀ a, only (g a)) → only (prog_bind p g).
Proof. intros Hp Hg. induction p as [a|e|c k IH]; simpl in *; [done..|]. destruct Hp. auto. Qed.
Lemma only_try {A} (p : prog A) h : only p → (∀ e, only (h e)) → only (prog_try p h).
Proof. intros Hp Hg. induction p as [a|e|c k IH]; simpl in *; [done..|]. destruct Hp. auto. Qed.
Lemma only_finally {A} (p : prog A) d : only p → f d = true → only (prog_finally p d).
Proof. intros Hp Hd. induction p as [a|e|c k IH]; simpl in *; [done..|]. destruct Hp. auto. Qed.
Lemma only_lift {A} (m : M A) : only (lift m).
Proof. by destruct m. Qed.
Lemma only_call c : f c = true → only (call c).
Proof. intros. split; [done|]. intros x. apply only_lift. Qed.
Lemma only_unwrap {A} (o : option A) : only (unwrap o).
Proof. by destruct o. Qed.
Lemma only_front {A} (l : list A) : only (front l).
Proof. by destruct l. Qed.
Lemma only_foreach {A} (g : A → prog unit) l : (∀ x, only (g x)) → only (foreach g l).
Proof. intros Hg. induction l as [|x l IH]; simpl; [done|]. by apply only_bind. Qed.
Lemma only_foldM {A S} (g : S → A → prog S) s l : (∀ s x, only (g s x)) → only (foldM g s l).
Proof. intros Hg. revert s. induction l as [|x l IH]; intros s; simpl; [done|]. by apply only_bind. Qed.

(** Commands the monitor does not react to leave its state as it is. *)
Lemma wp_only {A S} (next : S → Event → S) (lawful good : S → Event → Prop) (p : prog A) s :
  (∀ c x, f c = true → next s (Ev c x) = s ∧ good s (Ev c x)) →
  only p → wp next lawful good p (λ s' _, s' = s) s.
Proof.
  intros Hn. induction p as [a|e|c k IH]; simpl; [done..|]. intros [Hc Hk] x Hx.
  destruct (Hn c x Hc) as [-> ?]. auto.
Qed.
(** In any run, all the commands are of this kind. *)
Lemma only_runs {A} (p : prog A) t r : only p → runs p t r → Forall (λ ev, let 'Ev c _ := ev in f c = true) t.
Proof.
  revert t. induction p as [a|e|c k IH]; simpl; intros t Hp Hr.
  - destruct Hr as [-> _]. constructor.
  - destruct Hr as [-> _]. constructor.
  - destruct Hr as (x & t' & -> & Hr), Hp. constructor; eauto.
Qed.
End only.

Lemma only_mono (f g : Cmd → bool) {A} (p : prog A) :
  (∀ c, f c = true → g c = true) → only f p → only g p.
Proof. intros Hfg. induction p as [a|e|c k IH]; simpl; [done..|]. intros [? ?]. eauto. Qed.

(** ** What a program returns, whatever the answers are *)

Section returns.

Fixpoint returns {A} (P : A → Prop) (p : prog A) : Prop :=
  match p with
  | Ret a => P a
  | Raise _ => True
  | Vis c k => ∀ x, returns P (k x)
  end.

Lemma returns_runs {A} (P : A → Prop) (p : prog A) t a : returns P p → runs p t (Ok a) → P a.
Proof.
  revert t. induction p as [b|e|c k IH]; simpl; intros t Hp Hr.
  - by destruct Hr as [_ [= ->]].
  - by destruct Hr.
  - destruct Hr as (x & t' & -> & Hr). eauto.
Qed.
Lemma returns_bind {A B} (P : B → Prop) (p : prog A) (f : A → prog B) :
  returns (λ a, returns P (f a)) p → returns P (prog_bind p f).
Proof. induction p as [a|e|c k IH]; simpl; auto. Qed.
Lemma returns_mono {A} (P Q : A → Prop) (p : prog A) : returns P p → (∀ a, P a → Q a) → returns Q p.
Proof. intros Hp HQ. induction p as [a|e|c k IH]; simpl in *; auto. Qed.
Lemma returns_true {A} (p : prog A) : returns (λ _, True) p.
Proof. induction p as [a|e|c k IH]; simpl; auto. Qed.
(** The value of the first part does not matter. *)
Lemma returns_seq {A B} (P : B → Prop) (p : prog A) (f : A → prog B) :
  (∀ a, returns P (f a)) → returns P (prog_bind p f).
Proof. intros Hf. apply returns_bind. eapply returns_mono; [apply returns_true|]. intros a _. apply Hf. Qed.
Lemma returns_lift {A} (P : A → Prop) (m : M A) : (∀ a, m = Ok a → P a) → returns P (lift m).
Proof. destruct m; simpl; auto. Qed.
Lemma returns_try {A} (P : A → Prop) (p : prog A) h :
  returns P p → (∀ e, returns P (h e)) → returns P (prog_try p h).
Proof. intros Hp Hh. induction p as [a|e|c k IH]; simpl in *; auto. Qed.
End returns.

(** ** Stepping through a program

    The rules for a bind whose first part is a single command, another bind, or a part the
    monitor does not see. *)
Section stepping.
Context {S : Type} (next : S → Event → S) (lawful good : S → Event → Prop).
Abbreviation wp := (wp next lawful good).

Lemma wp_bind_assoc {A B C} (p : prog A) (f : A → prog B) (g : B → prog C) Q s :
  wp (prog_bind p (λ x, prog_bind (f x) g)) Q s → wp (prog_bind (prog_bind p f) g) Q s.
Proof.
  revert s. induction p as [a|e|c k IH]; intros s Hp; simpl in *; [done..|].
  intros x Hx. destruct (Hp x Hx). auto.
Qed.
Lemma wp_bind_call {B} c (f : Answer c → prog B) Q s :
  (∀ x, lawful s (Ev c x) → good s (Ev c x) ∧
     match x with Ok a => wp (f a) Q (next s (Ev c x)) | Throw e => Q (next s (Ev c x)) (Throw e) end) →
  wp (prog_bind (call c) f) Q s.
Proof. intros H x Hx. destruct (H x Hx). split; [done|]. by destruct x. Qed.
(** Commands that keep an invariant *)
Lemma wp_inv (f : Cmd → bool) (I : S → Prop) {A} (p : prog A) s :
  (∀ s c x, f c = true → I s → good s (Ev c x) ∧ I (next s (Ev c x))) →
  only f p → I s → wp p (λ s' _, I s') s.
Proof.
  intros Hf. revert s. induction p as [a|e|c k IH]; simpl; intros s Hp Hs; [done..|].
  destruct Hp as [Hc Hk]. intros x _. destruct (Hf s c x Hc Hs). auto.
Qed.
Lemma wp_bind_quiet (f : Cmd → bool) {A B} (p : prog A) (g : A → prog B) Q s :
  (∀ c x, f c = true → next s (Ev c x) = s ∧ good s (Ev c x)) →
  only f p → (∀ e, Q s (Throw e)) → (∀ a, wp (g a) Q s) → wp (prog_bind p g) Q s.
Proof.
  intros Hf Hp He Hg. apply wp_bind. eapply wp_mono; [by apply (wp_only f)|]. intros s' [a|e] ->; auto.
Qed.
Lemma wp_quiet (f : Cmd → bool) {A} (p : prog A) (Q : S → M A → Prop) s :
  (∀ c x, f c = true → next s (Ev c x) = s ∧ good s (Ev c x)) →
  only f p → (∀ r, Q s r) → wp p Q s.
Proof. intros Hf Hp He. eapply wp_mono; [by apply (wp_only f)|]. intros s' r ->; auto. Qed.
End stepping.
(** ** Runs with one possible end

    [ends next lawful p s s' r]: against lawful answers, [p] started in the state [s] of the
    monitor ends in [s'] with [r]. *)
Section ends.
Context {S : Type} (next : S → Event → S) (lawful : S → Event → Prop).

Definition unrestricted (s : S) (ev : Event) : Prop := True.
Definition ends {A} (p : prog A) (s s' : S) (r : M A) : Prop :=
  wp next lawful unrestricted p (λ s1 r1, s1 = s' ∧ r1 = r) s.

Lemma ends_runs {A} (p : prog A) s s' r t r' :
  ends p s s' r → runs p t r' → all_lawful next lawful s t → watch next s t = s' ∧ r' = r.
Proof. intros Hp Hr Ht. by destruct (wp_runs _ _ _ _ _ _ _ _ Hp Hr Ht). Qed.
Lemma ends_Ret {A} (a : A) s : ends (Ret a) s s (Ok a).
Proof. done. Qed.
Lemma ends_Raise {A} e s : ends (Raise (A := A) e) s s (Throw e).
Proof. done. Qed.
Lemma ends_lift {A} (m : M A) s : ends (lift m) s s m.
Proof. by destruct m. Qed.
Lemma ends_call c s s' (a : Answer c) :
  (∀ x, lawful s (Ev c x) → x = Ok a ∧ next s (Ev c x) = s') → ends (call c) s s' (Ok a).
Proof. intros H. apply wp_call. intros x Hx. destruct (H x Hx) as [-> <-]. done. Qed.
Lemma ends_bind {A B} (p : prog A) (f : A → prog B) s s1 s2 a r :
  ends p s s1 (Ok a) → ends (f a) s1 s2 r → ends (prog_bind p f) s s2 r.
Proof. intros Hp Hf. apply wp_bind. eapply wp_mono; [exact Hp|]. intros ? ? [-> ->]. exact Hf. Qed.
Lemma ends_bind_Throw {A B} (p : prog A) (f : A → prog B) s s1 e :
  ends p s s1 (Throw e) → ends (prog_bind p f) s s1 (Throw e).
Proof. intros Hp. apply wp_bind. eapply wp_mono; [exact Hp|]. intros ? ? [-> ->]. done. Qed.
(** The first part is a function that may throw. *)
Lemma ends_bind_lift {A B} (m : M A) (f : A → prog B) s s2 r :
  match m with Ok a => ends (f a) s s2 r | Throw e => s2 = s ∧ r = Throw e end →
  ends (prog_bind (lift m) f) s s2 r.
Proof. destruct m; [done|]. by intros [-> ->]. Qed.
Lemma ends_try_Ok {A} (p : prog A) h s s1 a : ends p s s1 (Ok a) → ends (prog_try p h) s s1 (Ok a).
Proof. intros Hp. apply wp_try. eapply wp_mono; [exact Hp|]. intros ? ? [-> ->]. done. Qed.
Lemma ends_try_Throw {A} (p : prog A) h s s1 s2 e r :
  ends p s s1 (Throw e) → ends (h e) s1 s2 r → ends (prog_try p h) s s2 r.
Proof. intros Hp Hh. apply wp_try. eapply wp_mono; [exact Hp|]. intros ? ? [-> ->]. exact Hh. Qed.
(** ... and in runs against answers that depend on the command only *)
Lemma ends_interp {A} env (p : prog A) s s' r :
  ends p s s' r → (∀ s c, lawful s (Ev c (env c))) → (interp env p).2 = r ∧ watch next s (interp env p).1 = s'.
Proof.
  intros Hp He. destruct (ends_runs p s s' r _ _ Hp (interp_runs env p)) as [-> ->]; [|done].
  by apply interp_lawful.
Qed.
End ends.

End effects.

Arguments Cmd L : clear implicits.
Arguments prog L A : clear implicits.
Arguments Event L : clear implicits.
Arguments Ret {L A} a.
Arguments Raise {L A} e.
Arguments Vis {L A} c k.

(** In this scope the notations of stdpp's monads stand for [prog_bind]. *)
Declare Scope prog_scope.
Delimit Scope prog_scope with prog.
Notation "x ← y ; z" := (prog_bind y (λ x, z))
  (at level 20, y at level 100, z at level 200, only parsing) : prog_scope.
Notation "' x ← y ; z" := (prog_bind y (λ x, z))
  (at level 20, x pattern, y at level 100, z at level 200, only parsing) : prog_scope.

Arguments call : simpl never.
Arguments unwrap : simpl never.
Arguments lift : simpl never.

Create HintDb effects.

(** [solve_only] walks through the structure of a program; what a definition uses is a hint. *)
Ltac only_step :=
  first
    [ done
    | solve [eauto 2 with effects nocore]
    | match goal with |- only _ (call ?c) => exact (only_call _ c eq_refl) end
    | solve [eapply (only_mono local_cmd); [by intros []|eauto 2 with effects nocore]]
    | solve [eapply (only_mono ly_cmd); [by intros []|eauto 2 with effects nocore]]
    | apply only_lift
    | apply only_unwrap
    | apply only_front
    | apply only_bind; [|intros ?]
    | apply only_try; [|intros ?]
    | apply only_foreach; intros ?
    | apply only_foldM; intros ? ?
    | case_match ].
Ltac solve_only := repeat (cbv beta; only_step).
