(* ===== verification/Responses.v ===== *)
(** * Responses: error responses and the mapping of exceptions ([restconf/Server.cpp])

    The headers, the three ways an error is reported (a RESTCONF error, and the status of a
    YANG patch or of one of its edits), and [withRestconfExceptions], which turns the exceptions
    of a handler into such a response. *)

From S2P Require Import Prelude Exceptions UriTypes X3 Libyang StableSort YangUtils UriRequest HttpUtils DataFormat Effects.

Open Scope prog_scope.

(** What the handlers use of the HTTP request *)
Record Request := mkReq {
  req_method : string;
  raw_path : string;
  uri_path : string;          (** percent-decoded *)
  raw_query : string;
  req_header : header_map
}.

(** [struct RequestContext]; the response and the session are where the commands go. *)
Record RequestContext := mkRequestContext {
  req : Request;
  rc_dataFormat : DataEncoding;
  restconfRequest : RestconfRequest;
  payload : string
}.

Definition CORS : string * string := ("access-control-allow-origin", "*").
Definition contentType (mimeType : string) : string * string := ("content-type", mimeType).
Definition contentTypeOf (dataFormat : DataFormat) : string * string := contentType (asMimeType dataFormat).
Definition TEXT_PLAIN : string * string := contentType "text/plain".
Definition ALLOW_GET_HEAD_OPTIONS : string * string := ("allow", "GET, HEAD, OPTIONS").

(** A [std::set] is iterated in the order of its elements. *)
Definition set_elements (s : gset string) : list string := stable_sort String.ltb (elements s).

Definition httpOptionsHeaders (allowedHttpMethods : gset string) : header_map :=
  let headers := mm_insert "allow" (join ", " (set_elements allowedHttpMethods)) [] in
  if bool_decide ("PATCH" ∈ allowedHttpMethods) then
    mm_insert "accept-patch"
      "application/yang-data+json, application/yang-data+xml, application/yang-patch+xml, application/yang-patch+json"
      headers
  else headers.

(** [headers.merge(other)] of two multimaps *)
Definition merge_headers (headers other : header_map) : header_map :=
  fold_left (λ m '(k, v), mm_insert k v m) other headers.

Section responses.
Context {X : X3} {L : Libyang}.
(** [sess.getContext()] *)
Context (ctx : Context).

Abbreviation prog := (prog L).

(** How an error is reported: the parameters of [rejectWithError] that depend on the error. *)
Definition Rejecter : Type :=
  DataFormat → Request → Z → string → string → string → option string → option ErrorInfo → prog unit.

Definition rejectWithErrorImpl (dataFormat : DataFormat) (parent errorContainer : DataNode) (req : Request)
    (code : Z) (errorType errorTag errorMessage : string) (errorPath : option string)
    (errorInfo : option ErrorInfo) : prog unit :=
  _ ← call (LyNodeNewPath errorContainer "error[1]/error-type" (Some errorType));
  _ ← call (LyNodeNewPath errorContainer "error[1]/error-tag" (Some errorTag));
  _ ← call (LyNodeNewPath errorContainer "error[1]/error-message" (Some errorMessage));
  _ ← match errorPath with
      | Some errorPath => _ ← call (LyNodeNewPath errorContainer "error[1]/error-path" (Some errorPath)); Ret tt
      | None => Ret tt
      end;
  _ ← match errorInfo with
      | Some errorInfo =>
          container ← call (LyNewPath ("/rousette:" +:+ containerName errorInfo) None);
          _ ← foreach (λ '(name, value), _ ← call (LyNodeNewPath container name (Some value)); Ret tt)
                (leafs errorInfo);
          call (LyNodeNewPathTree errorContainer "error[1]/error-info" container)
      | None => Ret tt
      end;
  let headers := mm_of_list [contentTypeOf dataFormat; CORS] in
  headers ← (if decide (code = 405%Z) then
               allowed ← lift (allowedHttpMethodsForUri ctx (uri_path req));
               Ret (merge_headers headers (httpOptionsHeaders allowed))
             else Ret headers);
  _ ← call (HttpWriteHead code headers);
  printed ← call (LyPrintStr parent dataFormat [PSiblings]);
  body ← unwrap printed;
  call (HttpEnd (Some body)).

Definition rejectWithError : Rejecter :=
  λ dataFormat req code errorType errorTag errorMessage errorPath errorInfo,
  errors ← call (LyNewPath "/ietf-restconf:errors" None);
  rejectWithErrorImpl dataFormat errors errors req code errorType errorTag errorMessage errorPath errorInfo.

(** [rejectYangPatch(patchId)]: no edit is known yet *)
Definition rejectYangPatch (patchId : string) : Rejecter :=
  λ dataFormat req code errorType errorTag errorMessage errorPath errorInfo,
  errorsTree ← call (LyNewPath "/ietf-yang-patch:yang-patch-status/errors" None);
  found ← call (LyFindXPath errorsTree "/ietf-yang-patch:yang-patch-status/errors");
  errorsContainer ← front found;
  _ ← call (LyNodeNewPath errorsTree "patch-id" (Some patchId));
  rejectWithErrorImpl dataFormat errorsTree errorsContainer req code errorType errorTag errorMessage errorPath errorInfo.

(** [rejectYangPatch(patchId, editId)] *)
Definition rejectYangPatchEdit (patchId editId : string) : Rejecter :=
  λ dataFormat req code errorType errorTag errorMessage errorPath errorInfo,
  let errorContainerXPath :=
    "/ietf-yang-patch:yang-patch-status/edit-status/edit[edit-id='" +:+ editId +:+ "']/errors" in
  errorsTree ← call (LyNewPath errorContainerXPath None);
  found ← call (LyFindXPath errorsTree errorContainerXPath);
  errorsContainer ← front found;
  _ ← call (LyNodeNewPath errorsTree "patch-id" (Some patchId));
  rejectWithErrorImpl dataFormat errorsTree errorsContainer req code errorType errorTag errorMessage errorPath errorInfo.

(** [ctx.findPath(path).nodeType() == Action], evaluated when the path is not [/] *)
Definition requestIsAction (path : string) : prog bool :=
  if decide (path = "/") then Ret false
  else node ← lift (findPath ctx path); Ret (bool_decide (nodeType node = Action)).

(** The [catch] clauses of [withRestconfExceptions].  Other exceptions pass. *)
Definition restconfExceptions (rejectWithError : Rejecter) (requestCtx : RequestContext) (e : exn) : prog unit :=
  let reject code errorType errorTag errorMessage :=
    rejectWithError (response (rc_dataFormat requestCtx)) (req requestCtx) code errorType errorTag errorMessage
      None None in
  match e with
  | EResponse e =>
      rejectWithError (response (rc_dataFormat requestCtx)) (req requestCtx) (code e) (errorType e) (errorTag e)
        (errorMessage e) (errorPath e) (errorInfo e)
  | ELibyang LyValidationFailure what =>
      reject 400%Z "protocol" "invalid-value" ("Validation failure: " +:+ what)
  | ELibyang _ what =>
      reject 500%Z "application" "operation-failed"
        ("Internal server error due to libyang exception: " +:+ what)
  | ESysrepo SrUnauthorized _ => reject 403%Z "application" "access-denied" "Access denied."
  | ESysrepo SrNotFound what => reject 400%Z "protocol" "invalid-value" what
  | ESysrepo SrItemAlreadyExists _ => reject 409%Z "application" "resource-denied" "Resource already exists."
  | ESysrepo SrValidationFailed _ =>
      isAction ← requestIsAction (path (restconfRequest requestCtx));
      reject 400%Z "application" "operation-failed"
        ("Validation failed. Invalid input data" +:+
         (if isAction : bool then " or the action node is not present" else "") +:+ ".")
  | ESysrepo _ what =>
      reject 500%Z "application" "operation-failed"
        ("Internal server error due to sysrepo exception: " +:+ what)
  | e => Raise e
  end.
(** [func] may update a variable: [old] is its value when [func] throws. *)
Definition withRestconfExceptions {A} (func : prog A) (old : A) (rejectWithError : Rejecter)
    (requestCtx : RequestContext) : prog A :=
  prog_try func (λ e, _ ← restconfExceptions rejectWithError requestCtx e; Ret old).
End responses.
