(* ===== verification/Edits.v ===== *)
(** * Edits: from a request body to a sysrepo edit ([restconf/Server.cpp])

    The checks of the data a client sends against the URI it sends them to, the [insert] and
    [point] attributes, the check for forbidden meta attributes, and the edit tree of PUT and of
    both kinds of PATCH. *)

From S2P Require Import Prelude Exceptions UriTypes X3 Libyang YangUtils UriRequest DataFormat Effects Responses.

Open Scope prog_scope.

Section edits.
Context {X : X3} {L : Libyang} {LM : LibyangMore L}.
Context (ctx : Context).

Abbreviation prog := (prog L).

Definition isSameNode (child : DataNode) (lastPathSegment : PathSegment) : prog bool :=
  prefix ← unwrap (prefix (apiIdent lastPathSegment));
  Ret (bool_decide (module_name (schema child) = prefix) &&
       bool_decide (node_name (schema child) = UriTypes.identifier (apiIdent lastPathSegment))).

(** Two paths compare the same after libyang has made the values canonical. *)
Definition compareKeyValue (pathA pathB : string) : prog bool :=
  '(_, nodeA) ← call (LyNewPath2 pathA false);
  '(_, nodeB) ← call (LyNewPath2 pathB false);
  nodeA ← unwrap nodeA;
  valueA ← call (LyValueStr nodeA);
  nodeB ← unwrap nodeB;
  valueB ← call (LyValueStr nodeB);
  Ret (bool_decide (valueA = valueB)).

Record KeyMismatch := mkMismatch { offendingNode : DataNode; uriKeyValue : option string }.

Definition message (m : KeyMismatch) : prog string :=
  match uriKeyValue m with
  | Some uriKeyValue =>
      value ← call (LyValueStr (offendingNode m));
      Ret ("List key mismatch between URI path ('" +:+ uriKeyValue +:+ "') and data ('" +:+ value +:+ "').")
  | None => Ret "List key mismatch (key missing in the data)."
  end.

(** [keys[i]], for reading and for writing: undefined past the end *)
Definition key_at (keys : list string) (i : nat) : M string :=
  match keys !! i with Some k => Ok k | None => undefined "vector index out of range" end.
Definition set_key (keys : list string) (i : nat) (v : string) : M (list string) :=
  match keys !! i with Some _ => Ok (<[i := v]> keys) | None => undefined "vector index out of range" end.

(** The loop over the keys of a list entry, from the [i]-th of [listKeys]; [todo] are the
    keys that have not been looked at. *)
Fixpoint checkListKeys (node : DataNode) (pathPrefix : string) (listKeys : list SchemaNode)
    (segmentKeys : list string) (i : nat) (todo : list SchemaNode) : prog (option KeyMismatch) :=
  match todo with
  | [] => Ret None
  | key :: todo =>
      keyNodeData ← call (LyFindPath node (module_name key +:+ ":" +:+ node_name key));
      match keyNodeData with
      | None => Ret (Some (mkMismatch node None))
      | Some keyNodeData =>
          value ← call (LyValueStr keyNodeData);
          keysWithValueFromData ← lift (set_key segmentKeys i value);
          let suffix := "/" +:+ node_name key in
          fromData ← lift (listKeyPredicate listKeys keysWithValueFromData);
          fromURI ← lift (listKeyPredicate listKeys segmentKeys);
          same ← compareKeyValue (pathPrefix +:+ fromData +:+ suffix) (pathPrefix +:+ fromURI +:+ suffix);
          if same : bool then checkListKeys node pathPrefix listKeys segmentKeys (S i) todo
          else uriKey ← lift (key_at segmentKeys i); Ret (Some (mkMismatch keyNodeData (Some uriKey)))
      end
  end.
Definition checkKeysMismatch (node : DataNode) (lyParentPath : string) (lastPathSegment : PathSegment)
    : prog (option KeyMismatch) :=
  let pathPrefix := lyParentPath +:+ "/" +:+ api_name (apiIdent lastPathSegment) in
  if decide (nodeType (schema node) = List) then
    let listKeys := list_keys (schema node) in
    checkListKeys node pathPrefix listKeys (keys lastPathSegment) 0 listKeys
  else if decide (nodeType (schema node) = Leaflist) then
    value ← call (LyValueStr node);
    fromData ← lift (leaflistKeyPredicate value);
    uriKey ← lift (key_at (keys lastPathSegment) 0);
    fromURI ← lift (leaflistKeyPredicate uriKey);
    same ← compareKeyValue (pathPrefix +:+ fromData) (pathPrefix +:+ fromURI);
    if same : bool then Ret None else Ret (Some (mkMismatch node (Some uriKey)))
  else Ret None.

Definition childLeafValue (node : DataNode) (childName : string) : prog string :=
  child ← call (LyFindPath node childName);
  isTerm ← match child with Some child => call (LyIsTerm child) | None => Ret false end;
  match child, isTerm with
  | Some child, true => call (LyValueStr child)
  | _, _ =>
      raiseResponse 400 "protocol" "invalid-value" ("Expected data node '" +:+ childName +:+ "' not found.") None
  end.

(** ** [yangInsert] *)

(** [*ctx.getModuleImplemented(name)], and of [getModuleLatest] *)
Definition implementedModule (name : string) : prog Module := unwrap (getModuleImplemented ctx name).
Definition latestModule (name : string) : prog Module := unwrap (getModuleLatest ctx name).

(** The position is given: [where], and the entry it refers to *)
Definition yangInsert (listEntryNode : DataNode) (where_ : string) (point : option (list PathSegment)) : prog unit :=
  modYang ← implementedModule "yang";
  if negb (isUserOrderedList listEntryNode) then
    raiseResponse 400 "protocol" "invalid-value"
      "Query parameter 'insert' is valid only for inserting into lists or leaf-lists that are 'ordered-by user'" None
  else
    _ ← call (LyNewMeta listEntryNode modYang "insert" where_);
    match point with
    | None => Ret tt
    | Some point =>
        let listEntrySchema := schema listEntryNode in
        pointNode ← lift (asLibyangSchemaNode ctx point);
        if decide (Some listEntrySchema = pointNode) then
          key ← (if decide (nodeType listEntrySchema = List) then
                   back ← unwrap (last point); lift (listKeyPredicate (list_keys listEntrySchema) (keys back))
                 else if decide (nodeType listEntrySchema = Leaflist) then
                   back ← unwrap (last point); lift (key_at (keys back) 0)
                 else Raise (ELogic "Node is neither a list nor a leaf-list"));
          call (LyNewMeta listEntryNode modYang
                  (if decide (nodeType listEntrySchema = List) then "key" else "value") key)
        else
          nodePath ← call (LyNodePath listEntryNode);
          raiseResponse 400 "protocol" "invalid-value" "Query parameter 'point' contains path to a different list"
            (Some nodePath)
    end.

(** The position is that of the query parameters.  [std::get] of another alternative throws
    [std::bad_variant_access]; dereferencing [end()] is undefined. *)
Definition getPoint (o : option QueryParamValue) : M (list PathSegment) :=
  match o with
  | Some (PointParsed p) => Ok p
  | Some _ => Throw (ELogic "std::bad_variant_access")
  | None => undefined "dereferencing end()"
  end.
Definition insertPosition (queryParams : QueryParams) (v : QueryParamValue) : M (string * option (list PathSegment)) :=
  match v with
  | First => Ok ("first", None)
  | Last => Ok ("last", None)
  | Before => (λ p, ("before", Some p)) <$> getPoint (mm_find "point" queryParams)
  | After => (λ p, ("after", Some p)) <$> getPoint (mm_find "point" queryParams)
  | _ => Ok ("", None)
  end.
Definition yangInsertQuery (requestCtx : RequestContext) (listEntryNode : DataNode) : prog unit :=
  let queryParams := queryParams (restconfRequest requestCtx) in
  match mm_find "insert" queryParams with
  | None => Ret tt
  | Some v =>
      '(where_, point) ← lift (insertPosition queryParams v);
      yangInsert listEntryNode where_ point
  end.

(** The position is that of an edit of a YANG patch. *)
Definition yangInsertEdit (listEntryNode : DataNode) (where_ : string) (point : option string) : prog unit :=
  pointParsed ← match point with
                | Some p => segments ← lift (asPathSegments p); Ret (Some segments)
                | None => Ret None
                end;
  yangInsert listEntryNode where_ pointParsed.

(** ** Meta attributes *)

Definition forbiddenMeta (modNetconf modYang modSysrepo : Module) (meta : Meta) : bool :=
  negb (isInternal meta) &&
  (bool_decide (meta_module meta = modNetconf) || bool_decide (meta_module meta = modYang) ||
   bool_decide (meta_module meta = modSysrepo)).

Definition validateInputMetaAttributes (tree : DataNode) : prog unit :=
  modNetconf ← latestModule "ietf-netconf";
  modYang ← latestModule "yang";
  modSysrepo ← latestModule "sysrepo";
  nodes ← call (LyChildrenDfs tree);
  foreach (λ node,
    metas ← call (LyMeta node);
    foreach (λ meta,
      if forbiddenMeta modNetconf modYang modSysrepo meta then
        nodePath ← call (LyNodePath node);
        raiseResponse 400 "application" "invalid-value"
          ("Meta attribute '" +:+ ly_module_name (meta_module meta) +:+ ":" +:+ meta_name meta +:+ "' not allowed.")
          (Some nodePath)
      else Ret tt) metas) nodes.

(** ** The edit tree *)

Definition rejectMismatch (m : option KeyMismatch) : prog unit :=
  match m with
  | None => Ret tt
  | Some m =>
      what ← message m;
      nodePath ← call (LyNodePath (offendingNode m));
      raiseResponse 400 "protocol" "invalid-value" what (Some nodePath)
  end.
Definition invalidNode {A} (node : DataNode) : prog A :=
  nodePath ← call (LyNodePath node);
  raiseResponse 400 "protocol" "invalid-value" "Data contains invalid node." (Some nodePath).

Definition createEditForPutAndPatch (uriPath : string) (valueStr : option string) (dataFormat : DataFormat)
    : prog (option DataNode * option DataNode) :=
  '(lyParentPath, lastPathSegment) ← lift (asLibyangPathSplit ctx uriPath);
  '(editNode, replacementNode) ←
    match valueStr with
    | None =>
        request ← lift (asRestconfRequest ctx "PATCH" uriPath "");
        call (LyNewPath2 (path request) false)
    | Some valueStr =>
        if decide (lyParentPath ≠ "") then
          '(parent, node) ← call (LyNewPath2 lyParentPath false);
          node ← unwrap node;
          _ ← call (LyParseSubtree node valueStr dataFormat);
          children ← call (LyImmediateChildren node);
          replacementNode ← foldM (λ replacementNode child,
            same ← isSameNode child lastPathSegment;
            if same : bool then
              mismatch ← checkKeysMismatch child lyParentPath lastPathSegment;
              _ ← rejectMismatch mismatch;
              Ret (Some child)
            else if isKeyNode node child then Ret replacementNode
            else invalidNode child) None children;
          Ret (parent, replacementNode)
        else
          parent ← call (LyParseData valueStr dataFormat);
          match parent with
          | None => Ret (None, None)
          | Some parent =>
              same ← isSameNode parent lastPathSegment;
              _ ← (if same : bool then Ret tt else invalidNode parent);
              mismatch ← checkKeysMismatch parent lyParentPath lastPathSegment;
              _ ← rejectMismatch mismatch;
              Ret (Some parent, Some parent)
          end
    end;
  match replacementNode with
  | None => raiseResponse 400 "protocol" "invalid-value" "Node indicated by URI is missing." None
  | Some _ => Ret (editNode, replacementNode)
  end.
End edits.
