(* ===== verification/Handlers.v ===== *)
(** * Handlers: what is done once the body of a request is complete ([restconf/Server.cpp])

    RPCs and actions, POST, PUT, PATCH and YANG patch, and the parts of the handler of GET
    that build trees.  The dynamic subscriptions are behind the interface [DynSubs], as the code
    calls them by [std::function]s; their state is threaded through. *)

From S2P Require Import Prelude Exceptions UriTypes X3 Libyang YangUtils UriRequest HttpUtils DataFormat Effects Responses Edits.

Open Scope prog_scope.

(** [sysrepo::Lock] is released when its scope is left. *)
Definition withLock {L : Libyang} {A} (locked : bool) (p : prog L A) : prog L A :=
  if locked then _ ← call SrLock; prog_finally p SrUnlock else p.

(** The handlers of internal RPCs: scheme and host, encoding, input and output *)
Class DynSubs (L : Libyang) : Type := {
  Subscriptions : Type;
  rpcEstablishSubscription :
    option string → DataFormat → @DataNode L → @DataNode L → Subscriptions → prog L Subscriptions;
  rpcDeleteSubscription :
    option string → DataFormat → @DataNode L → @DataNode L → Subscriptions → prog L Subscriptions
}.

Section handlers.
Context {X : X3} {L : Libyang} {LM : LibyangMore L} {D : DynSubs L}.
Context (ctx : Context) (timeout : N).

Abbreviation prog := (prog L).

(** ** RPCs and actions *)

Record InternalRPCHandler := mkRPCHandler {
  validationDataXPath : option string;
  rpcHandler : option string → DataFormat → DataNode → DataNode → Subscriptions → prog Subscriptions
}.
Definition rpcHandlers : list (string * InternalRPCHandler) :=
  [("/ietf-subscribed-notifications:establish-subscription",
    mkRPCHandler (Some "/ietf-subscribed-notifications:filters") rpcEstablishSubscription);
   ("/ietf-subscribed-notifications:kill-subscription", mkRPCHandler None rpcDeleteSubscription);
   ("/ietf-subscribed-notifications:delete-subscription", mkRPCHandler None rpcDeleteSubscription)].
Definition findHandler (rpcPath : string) : option InternalRPCHandler :=
  snd <$> List.find (λ h, bool_decide (h.1 = rpcPath)) rpcHandlers.

(** The [catch] clause of the validation *)
Definition inputInvalid (rpcInput : DataNode) : prog unit :=
  errors ← call LyGetErrors;
  match last errors with
  | Some (what, dataPath) =>
      errorPath ← match dataPath with Some p => Ret p | None => call (LyNodePath rpcInput) end;
      raiseResponse 400 "protocol" "invalid-value" what (Some errorPath)
  | None =>
      errorPath ← call (LyNodePath rpcInput);
      raiseResponse 400 "protocol" "invalid-value" "Input validation failed" (Some errorPath)
  end.

Definition processInternalRPC (rpcInput : DataNode) (schemeAndHost : option string) (requestEncoding : DataFormat)
    (subs : Subscriptions) : prog (option DataNode * Subscriptions) :=
  rpcPath ← call (LyNodePath rpcInput);
  '(_, createdNode) ← call (LyNewPath2 rpcPath false);
  createdNode ← unwrap createdNode;
  allowed ← call (SrCheckNacmOperation createdNode);
  _ ← (if allowed : bool then Ret tt
       else
         nodePath ← call (LyNodePath createdNode);
         raiseResponse 403 "application" "access-denied" "Access denied." (Some nodePath));
  match findHandler rpcPath with
  | None =>
      raiseResponse 501 "application" "operation-not-supported" ("Unsupported RPC call to " +:+ rpcPath) (Some rpcPath)
  | Some handler =>
      _ ← call (SrSwitchDatastore Operational);
      validationData ← match validationDataXPath handler with
                       | Some xpath => call (SrGetData xpath 0 GetDefault None)
                       | None => Ret None
                       end;
      _ ← prog_try (call (LyValidateOp rpcInput validationData))
            (λ e, match e with ELibyang _ _ => inputInvalid rpcInput | e => Raise e end);
      '(parent, rpcOutput) ← call (LyNewPath2 rpcPath false);
      rpcOutput ← unwrap rpcOutput;
      subs ← rpcHandler handler schemeAndHost requestEncoding rpcInput rpcOutput subs;
      parent ← unwrap parent;
      Ret (Some parent, subs)
  end.

(** [204], or the output wrapped in an envelope *)
Definition rpcResponse (requestCtx : RequestContext) (rpcNode : DataNode) (rpcReply : option DataNode) : prog unit :=
  children ← match rpcReply with Some r => call (LyImmediateChildren r) | None => Ret [] end;
  match rpcReply, children with
  | Some rpcReply, _ :: _ =>
      responseNode ← call (LyChild rpcReply);
      responseNode ← unwrap responseNode;
      _ ← call (LyUnlinkWithSiblings responseNode);
      let moduleName := module_name (schema rpcNode) in
      envelope ← call (LyNewOpaqueJSON moduleName moduleName "output" None);
      envelope ← unwrap envelope;
      _ ← call (LyInsertChild envelope responseNode);
      _ ← call (HttpWriteHead 200 (mm_of_list [contentTypeOf (response (rc_dataFormat requestCtx)); CORS]));
      printed ← call (LyPrintStr envelope (response (rc_dataFormat requestCtx)) [PSiblings; PEmptyContainers]);
      body ← unwrap printed;
      call (HttpEnd (Some body))
  | _, _ =>
      _ ← call (HttpWriteHead 204 (mm_of_list [CORS]));
      call (HttpEnd None)
  end.

(** The checks before the input is parsed *)
Definition checkActionOrRPC (requestCtx : RequestContext) : prog unit :=
  let path := path (restconfRequest requestCtx) in
  rpcSchemaNode ← lift (findPath ctx path);
  _ ← (if bool_decide (request (rc_dataFormat requestCtx) = None) && rpc_input_child rpcSchemaNode then
         raiseResponse 400 "protocol" "invalid-value" "Content-type header missing." None
       else Ret tt);
  if decide (nodeType rpcSchemaNode = Action) then
    '(pathToParent, _) ← lift (asLibyangPathSplit ctx (raw_path (req requestCtx)));
    data ← call (SrGetData pathToParent 0 GetDefault (Some timeout));
    match data with
    | None =>
        raiseResponse 400 "application" "operation-failed"
          ("Action data node '" +:+ path +:+ "' does not exist.") None
    | Some _ => Ret tt
    end
  else Ret tt.
Definition parseInput (requestCtx : RequestContext) (rpcNode : option DataNode) : prog unit :=
  if decide (payload requestCtx = "") then Ret tt
  else
    node ← unwrap rpcNode;
    encoding ← unwrap (request (rc_dataFormat requestCtx));
    call (LyParseOp node (payload requestCtx) encoding).
Definition executeRPC (requestCtx : RequestContext) (rpcNode : option DataNode) (subs : Subscriptions)
    : prog (option DataNode * Subscriptions) :=
  match type (restconfRequest requestCtx) with
  | Execute =>
      node ← unwrap rpcNode;
      reply ← call (SrSendRPC node timeout);
      Ret (reply : option DataNode, subs)
  | ExecuteInternal =>
      node ← unwrap rpcNode;
      encoding ← unwrap (request (rc_dataFormat requestCtx));
      processInternalRPC node (parseUrlPrefix (req_header (req requestCtx))) encoding subs
  | _ => Ret (None, subs)
  end.

Definition processActionOrRPC (requestCtx : RequestContext) (subs : Subscriptions) : prog Subscriptions :=
  _ ← call (SrSwitchDatastore Operational);
  _ ← checkActionOrRPC requestCtx;
  '(_, rpcNode) ← call (LyNewPath2 (path (restconfRequest requestCtx)) false);
  _ ← parseInput requestCtx rpcNode;
  '(rpcReply, subs) ← executeRPC requestCtx rpcNode subs;
  rpcNode ← unwrap rpcNode;
  _ ← rpcResponse requestCtx rpcNode rpcReply;
  Ret subs.

(** ** POST, PUT and PATCH *)

Definition isListKey (node child : DataNode) : bool :=
  bool_decide (nodeType (schema node) = List) && bool_decide (nodeType (schema child) = Leaf) &&
  leaf_isKey (schema child).

(** The edit tree, the node the body goes into, and the nodes that were created there *)
Definition postTrees (requestCtx : RequestContext) (encoding : DataFormat)
    : prog (option DataNode * option DataNode * list DataNode) :=
  if decide (path (restconfRequest requestCtx) = "/") then
    node ← call (LyParseData (payload requestCtx) encoding);
    match node with
    | Some n => siblings ← call (LySiblings n); Ret (node, node, siblings : list DataNode)
    | None => Ret (None, None, [])
    end
  else
    '(edit, node) ← call (LyNewPath2 (path (restconfRequest requestCtx)) false);
    n ← unwrap node;
    _ ← call (LyParseSubtree n (payload requestCtx) encoding);
    children ← call (LyImmediateChildren n);
    Ret (edit, node, children : list DataNode).

Definition processPost (requestCtx : RequestContext) : prog unit :=
  encoding ← unwrap (request (rc_dataFormat requestCtx));
  '(edit, node, createdNodes) ← postTrees requestCtx encoding;
  _ ← match edit with Some edit => validateInputMetaAttributes ctx edit | None => Ret tt end;
  let createdNodes := match node with
                      | Some node => List.filter (λ it, negb (isListKey node it)) createdNodes
                      | None => createdNodes
                      end in
  match createdNodes with
  | [created] =>
      modNetconf ← implementedModule ctx "ietf-netconf";
      _ ← call (LyNewMeta created modNetconf "operation" "create");
      _ ← yangInsertQuery ctx requestCtx created;
      edit ← unwrap edit;
      _ ← call (SrEditBatch edit);
      _ ← call (SrApplyChanges timeout);
      _ ← call (HttpWriteHead 201 (mm_of_list [contentTypeOf (response (rc_dataFormat requestCtx)); CORS]));
      call (HttpEnd None)
  | _ =>
      raiseResponse 400 "protocol" "invalid-value"
        "The message body MUST contain exactly one instance of the expected data resource." None
  end.

(** PUT and PATCH of [/]: replace or merge everything *)
Definition processPutOrPatchRoot (requestCtx : RequestContext) (encoding : DataFormat) : prog unit :=
  edit ← call (LyParseData (payload requestCtx) encoding);
  match edit with
  | None => raiseResponse 400 "protocol" "malformed-message" "Empty data tree received." None
  | Some n =>
      _ ← validateInputMetaAttributes ctx n;
      _ ← (if decide (req_method (req requestCtx) = "PUT") then
             _ ← call (SrReplaceConfig edit timeout);
             call (HttpWriteHead (match edit with Some _ => 201%Z | None => 204%Z end) (mm_of_list [CORS]))
           else
             _ ← call (SrEditBatch n);
             _ ← call (SrApplyChanges timeout);
             call (HttpWriteHead 204 (mm_of_list [CORS])));
      call (HttpEnd None)
  end.

Definition processPutOrPatchNode (requestCtx : RequestContext) : prog unit :=
  let isPut := bool_decide (req_method (req requestCtx) = "PUT") in
  data ← call (SrGetData (path (restconfRequest requestCtx)) 0 GetDefault (Some timeout));
  let nodeExisted := bool_decide (is_Some data) in
  _ ← (if bool_decide (req_method (req requestCtx) = "PATCH") && negb nodeExisted then
         raiseResponse 400 "protocol" "invalid-value" "Target resource does not exist" None
       else Ret tt);
  encoding ← unwrap (request (rc_dataFormat requestCtx));
  '(edit, replacementNode) ←
    createEditForPutAndPatch ctx (raw_path (req requestCtx)) (Some (payload requestCtx)) encoding;
  edit ← unwrap edit;
  _ ← validateInputMetaAttributes ctx edit;
  _ ← (if isPut then
         modNetconf ← implementedModule ctx "ietf-netconf";
         replacementNode ← unwrap replacementNode;
         _ ← call (LyNewMeta replacementNode modNetconf "operation" "replace");
         yangInsertQuery ctx requestCtx replacementNode
       else Ret tt);
  _ ← call (SrEditBatch edit);
  _ ← call (SrApplyChanges timeout);
  _ ← (if isPut then call (HttpWriteHead (if nodeExisted then 204 else 201) (mm_of_list [CORS]))
       else call (HttpWriteHead 204 (mm_of_list [CORS])));
  call (HttpEnd None).

Definition processPutOrPlainPatch (requestCtx : RequestContext) : prog unit :=
  if decide (path (restconfRequest requestCtx) = "/") then
    encoding ← unwrap (request (rc_dataFormat requestCtx));
    processPutOrPatchRoot requestCtx encoding
  else
    active ← call SrActiveDatastore;
    withLock (negb (bool_decide (active = Candidate))) (processPutOrPatchNode requestCtx).

(** ** YANG patch *)

Definition yangPatchValueAsJSON (editContainer : DataNode) : prog (option string) :=
  valueAnyNode ← call (LyFindPath editContainer "value");
  match valueAnyNode with
  | None => Ret None
  | Some valueAnyNode =>
      valueDataNode ← call (LyAnyNode valueAnyNode);
      match valueDataNode with
      | Some n => printed ← call (LyPrintStr n JSON [PShrink]); value ← unwrap printed; Ret (Some value)
      | None =>
          nodePath ← call (LyNodePath valueAnyNode);
          raiseResponse 400 "protocol" "invalid-value" "Not a data node" (Some nodePath)
      end
  end.

(** The [point] leaf of an insert or a move *)
Definition editPoint (requestCtx : RequestContext) (where_ : string) (pointNode : option DataNode)
    : prog (option string) :=
  if decide (where_ = "before" ∨ where_ = "after") then
    match pointNode with
    | None => raiseResponse 400 "protocol" "invalid-value" "Required leaf 'point' not set." None
    | Some pointNode => value ← call (LyValueStr pointNode); Ret (Some (uri_path (req requestCtx) +:+ value))
    end
  else match pointNode with
  | Some _ =>
      raiseResponse 400 "protocol" "invalid-value"
        "Leaf 'point' must always come with leaf 'where' set to 'before' or 'after'" None
  | None => Ret None
  end.

Definition processYangPatchEdit (requestCtx : RequestContext) (editContainer : DataNode)
    (mergedEdits : option DataNode) : prog (option DataNode) :=
  netconfMod ← implementedModule ctx "ietf-netconf";
  target ← childLeafValue editContainer "target";
  operation ← childLeafValue editContainer "operation";
  value ← yangPatchValueAsJSON editContainer;
  '(singleEdit, replacementNode) ←
    createEditForPutAndPatch ctx (uriJoin (raw_path (req requestCtx)) target) value JSON;
  singleEdit ← unwrap singleEdit;
  _ ← validateInputMetaAttributes ctx singleEdit;
  _ ← (if decide (operation = "insert" ∨ operation = "move") then
         where_ ← childLeafValue editContainer "where";
         pointNode ← call (LyFindPath editContainer "point");
         point ← editPoint requestCtx where_ pointNode;
         replacementNode ← unwrap replacementNode;
         _ ← call (LyNewMeta replacementNode netconfMod "operation"
                     (if decide (operation = "insert") then "create" else "merge"));
         yangInsertEdit ctx replacementNode where_ point
       else
         replacementNode ← unwrap replacementNode;
         call (LyNewMeta replacementNode netconfMod "operation" operation));
  match mergedEdits with
  | None => Ret (Some singleEdit)
  | Some merged => first ← call (LyInsertSibling merged singleEdit); Ret (Some (first : DataNode))
  end.

Definition processYangPatchImpl (requestCtx : RequestContext) (patch : DataNode) (patchId : string) : prog unit :=
  edits ← call (LyFindXPath patch "edit");
  mergedEdits ← foldM (λ mergedEdits editContainer,
    editId ← childLeafValue editContainer "edit-id";
    withRestconfExceptions ctx (processYangPatchEdit requestCtx editContainer mergedEdits) mergedEdits
      (rejectYangPatchEdit ctx patchId editId) requestCtx) None edits;
  match mergedEdits with
  | Some merged => _ ← call (SrEditBatch merged); call (SrApplyChanges timeout)
  | None => Ret tt
  end.

Definition processYangPatch (requestCtx : RequestContext) : prog unit :=
  encoding ← unwrap (request (rc_dataFormat requestCtx));
  patch ← call (LyParseData (payload requestCtx) encoding);
  match patch with
  | None => raiseResponse 400 "protocol" "invalid-value" "Empty patch." None
  | Some patch =>
      patchId ← childLeafValue patch "patch-id";
      _ ← withRestconfExceptions ctx (processYangPatchImpl requestCtx patch patchId) tt
            (rejectYangPatch ctx patchId) requestCtx;
      yangPatchStatus ← call (LyNewPath "/ietf-yang-patch:yang-patch-status" None);
      _ ← call (LyNodeNewPath yangPatchStatus "/ietf-yang-patch:yang-patch-status/patch-id" (Some patchId));
      _ ← call (LyNodeNewPath yangPatchStatus "/ietf-yang-patch:yang-patch-status/ok" None);
      _ ← call (HttpWriteHead 200 (mm_of_list [contentTypeOf (response (rc_dataFormat requestCtx)); CORS]));
      printed ← call (LyPrintStr yangPatchStatus (response (rc_dataFormat requestCtx)) [PSiblings]);
      body ← unwrap printed;
      call (HttpEnd (Some body))
  end.
End handlers.
