(* ===== verification/YangSchemaLocations.v ===== *)
(** * YangSchemaLocations: links to YANG modules in the data ([restconf/YangSchemaLocations.cpp])

    The URLs of the modules in [ietf-yang-library] data are replaced by ones that point to
    this server, and the handler of [/yang/] asks sysrepo whether the user may see them. *)

From S2P Require Import Prelude Exceptions UriTypes Libyang YangUtils Effects.

Open Scope prog_scope.

Definition moduleNodesXPath : string :=
  "/ietf-yang-library:yang-library/module-set/module |" +:+
  "/ietf-yang-library:yang-library/module-set/module/submodule |" +:+
  "/ietf-yang-library:yang-library/module-set/import-only-module |" +:+
  "/ietf-yang-library:yang-library/module-set/import-only-module/submodule |" +:+
  "/ietf-yang-library:modules-state/module |" +:+
  "/ietf-yang-library:modules-state/module/submodule".

Section locations.
Context {L : Libyang} {LM : LibyangMore L}.

Abbreviation prog := (prog L).

(** [findPath(p)->asTerm().valueStr()] *)
Definition leafValue (n : DataNode) (p : string) : prog string :=
  child ← call (LyFindPath n p);
  child ← unwrap child;
  call (LyValueStr child).

(** The [revision] leaf: absent and empty are the same. *)
Definition moduleRevision (n : DataNode) : prog (option string) :=
  revisionNode ← call (LyFindPath n "revision");
  match revisionNode with
  | Some revisionNode =>
      val ← call (LyValueStr revisionNode);
      Ret (if decide (val = "") then None else Some (val : string))
  | None => Ret None
  end.

Definition replaceModuleLocation (schemeAndHost : option string) (urlPrefix : string) (n : DataNode) : prog unit :=
  locationNodes ← call (LyFindXPath n "location | schema");
  _ ← foreach (λ child, call (LyUnlink child)) locationNodes;
  match locationNodes, schemeAndHost with
  | _ :: _, Some schemeAndHost =>
      moduleName ← leafValue n "name";
      revision ← moduleRevision n;
      nodePath ← call (LyNodePath n);
      let locationLeafName :=
        if starts_with "/ietf-yang-library:modules-state" nodePath then "schema" else "location" in
      let path := moduleName +:+ match revision with Some r => "@" +:+ r | None => "" end in
      _ ← call (LyNodeNewPath n locationLeafName (Some (schemeAndHost +:+ urlPrefix +:+ path)));
      Ret tt
  | _, _ => Ret tt
  end.
Definition replaceYangLibraryLocations (schemeAndHost : option string) (urlPrefix : string) (node : DataNode)
    : prog DataNode :=
  moduleNodes ← call (LyFindXPath node moduleNodesXPath);
  _ ← foreach (replaceModuleLocation schemeAndHost urlPrefix) moduleNodes;
  Ret node.

Definition accessXPath (module : Module + Submodule) : string :=
  let prefix := "/ietf-yang-library:yang-library/module-set[name='complete']/" in
  match module with
  | inl m =>
      prefix +:+ "module[name='" +:+ ly_module_name m +:+ "']/location | " +:+
      prefix +:+ "import-only-module[name='" +:+ ly_module_name m +:+ "']/location"
  | inr m =>
      prefix +:+ "module/submodule[name='" +:+ ly_submodule_name m +:+ "']/location | " +:+
      prefix +:+ "import-only-module/submodule[name='" +:+ ly_submodule_name m +:+ "']/location"
  end.
Definition hasAccessToYangSchema (module : Module + Submodule) : prog bool :=
  data ← call (SrGetData (accessXPath module) 0 GetDefault None);
  Ret (bool_decide (is_Some data)).
End locations.
