(* ===== verification/NotificationStream.v ===== *)
(** * NotificationStream: NETCONF notifications over HTTP ([restconf/NotificationStream.cpp])

    A stream subscribes to the notifications of every module and sends each in the envelope of
    [as_restconf_notification] ([restconf/utils/yang.cpp]).  The list of streams in the monitoring data has
    locations with a temporary scheme, replaced when they are sent to a client.  Time stamps are
    nanoseconds in [Z]. *)

From S2P Require Import Prelude Exceptions UriTypes Libyang YangUtils Effects.

Open Scope prog_scope.

Definition streamListXPath : string := "/ietf-restconf-monitoring:restconf-state/streams/stream".
Definition rousetteURIScheme : string := "x-cesnet-rousette:".

Inductive NotificationType := Realtime | Replay | OtherNotification.
#[export] Instance NotificationType_eq_dec : EqDecision NotificationType.
Proof. solve_decision. Defined.

Section notifications.
Context {L : Libyang} {LM : LibyangMore L}.
Context (ctx : Context) (yangTimeFormat : Z → string).

Abbreviation prog := (prog L).

(** ** The envelope *)

(** [while (n.parent()) n = *n.parent();] *)
Fixpoint rootOf (fuel : nat) (n : DataNode) : prog DataNode :=
  match fuel with
  | O => Raise (ELogic "out of fuel")
  | S fuel =>
      parent ← call (LyParent n);
      match parent with
      | None => Ret n
      | Some _ => parent ← call (LyParent n); n ← unwrap parent; rootOf fuel n
      end
  end.

Definition as_restconf_notification (fuel : nat) (dataFormat : DataFormat) (notification : DataNode) (time : Z)
    : prog string :=
  let jsonNamespace := "ietf-restconf" in
  let xmlNamespace := "urn:ietf:params:xml:ns:netconf:notification:1.0" in
  let xmlPrefix := "ietf-netconf-notifications" in
  let timeStr := yangTimeFormat time in
  envelope ← match dataFormat with
             | JSON => call (LyNewOpaqueJSON jsonNamespace jsonNamespace "notification" None)
             | XML => call (LyNewOpaqueXML xmlNamespace xmlPrefix "notification" None)
             end;
  eventTime ← match dataFormat with
              | JSON => call (LyNewOpaqueJSON jsonNamespace jsonNamespace "eventTime" (Some timeStr))
              | XML => call (LyNewOpaqueXML xmlNamespace xmlPrefix "eventTime" (Some timeStr))
              end;
  notification ← rootOf fuel notification;
  envelope ← unwrap envelope;
  eventTime ← unwrap eventTime;
  _ ← call (LyInsertChild envelope eventTime);
  _ ← call (LyInsertChild envelope notification);
  printed ← call (LyPrintStr envelope dataFormat [PSiblings; PEmptyContainers]);
  res ← unwrap printed;
  _ ← call (LyUnlink notification);
  Ret res.

(** The callback of a subscription: what is given to the signal of the stream, if anything *)
Definition notifCb (fuel : nat) (dataFormat : DataFormat) (type : NotificationType)
    (notificationTree : option DataNode) (time : Z) : prog (option string) :=
  if negb (bool_decide (type = Realtime)) && negb (bool_decide (type = Replay)) then Ret None
  else
    tree ← unwrap notificationTree;
    s ← as_restconf_notification fuel dataFormat tree time;
    Ret (Some s).

(** ** The stream *)

(** [subscribed]: the subscription object exists *)
Definition subscribe (subscribed : bool) (moduleName : string) (filter : option string)
    (startTime stopTime : option Z) : prog bool :=
  _ ← call (SrOnNotification (negb subscribed) moduleName filter startTime stopTime);
  Ret true.

Definition canBeSubscribed (m : Module) : bool :=
  ly_module_implemented m && negb (bool_decide (ly_module_name m = "sysrepo")).

Record SysrepoReplayInfo := mkReplayInfo { enabled : bool; earliestNotification : option Z }.
Definition sysrepoReplayInfo : prog SysrepoReplayInfo :=
  foldM (λ info module,
    if negb (canBeSubscribed module) then Ret info
    else
      '(replayEnabled, earliest) ← call (SrModuleReplaySupport (ly_module_name module));
      Ret (mkReplayInfo (enabled info || replayEnabled)
             match earliest, earliestNotification info with
             | Some e, Some g => Some (Z.min e g)
             | Some e, None => Some e
             | None, g => g
             end)) (mkReplayInfo false None) (ctx_modules ctx).

(** The constructor; [now] is the time it reads. *)
Definition checkTimes (now : Z) (startTime stopTime : option Z) : M unit :=
  match startTime, stopTime with
  | Some start, Some stop =>
      if decide (stop ≤ start)%Z then
        throwResponse 400 "application" "invalid-argument" "stop-time must be greater than start-time"
      else if decide (now < start)%Z then
        throwResponse 400 "application" "invalid-argument" "start-time is in the future"
      else Ok tt
  | Some start, None =>
      if decide (now < start)%Z then
        throwResponse 400 "application" "invalid-argument" "start-time is in the future"
      else Ok tt
  | None, Some _ => throwResponse 400 "application" "invalid-argument" "stop-time must be used with start-time"
  | None, None => Ok tt
  end.

(** [EventStream::activate]: the response is started; its body comes from the queue. *)
Definition activateEventStream : prog unit :=
  _ ← call (HttpWriteHead 200 (mm_of_list [("content-type", "text/event-stream"); ("access-control-allow-origin", "*")]));
  call HttpEndStream.

Definition activateStream (filter : option string) (startTime stopTime : option Z) : prog unit :=
  _ ← foldM (λ subscribed module,
        if negb (canBeSubscribed module) then Ret subscribed
        else
          prog_try (subscribe subscribed (ly_module_name module) filter startTime stopTime)
            (λ e, match e with
                  | ESysrepo SrInvalidArgument what =>
                      raiseResponse 400 "application" "invalid-argument" what None
                  | ESysrepo SrNotFound _ => Ret subscribed
                  | e => Raise e
                  end)) false (ctx_modules ctx);
  activateEventStream.

Definition createStream (filter : option string) (startTime stopTime : option Z) : prog unit :=
  now ← call ClockNow;
  _ ← lift (checkTimes now startTime stopTime);
  activateStream filter startTime stopTime.

(** ** The list of streams *)

Definition newPathOf (parent : DataNode) (path value : string) : prog unit :=
  _ ← call (LyNodeNewPath parent path (Some value)); Ret tt.
Definition notificationStreamList (parent : option DataNode) (streamsPrefix : string) : prog DataNode :=
  replayInfo ← sysrepoReplayInfo;
  let prefix := "/ietf-restconf-monitoring:restconf-state/streams/stream[name='NETCONF']" in
  parent ← match parent with
           | None => call (LyNewPath (prefix +:+ "/description") (Some "Default NETCONF notification stream"))
           | Some parent =>
               _ ← newPathOf parent (prefix +:+ "/description") "Default NETCONF notification stream";
               Ret parent
           end;
  _ ← newPathOf parent (prefix +:+ "/access[encoding='xml']/location")
        (rousetteURIScheme +:+ streamsPrefix +:+ "NETCONF/XML");
  _ ← newPathOf parent (prefix +:+ "/access[encoding='json']/location")
        (rousetteURIScheme +:+ streamsPrefix +:+ "NETCONF/JSON");
  _ ← (if enabled replayInfo then
         _ ← newPathOf parent (prefix +:+ "/replay-support") "true";
         match earliestNotification replayInfo with
         | Some t => newPathOf parent (prefix +:+ "/replay-log-creation-time") (yangTimeFormat t)
         | None => Ret tt
         end
       else Ret tt);
  Ret parent.

(** [val.erase(0, rousetteURIScheme.length())] *)
Definition eraseScheme (val : string) : string :=
  String.substring (String.length rousetteURIScheme) (String.length val) val.

Definition replaceStreamLocation (schemeAndHost : option string) (n : DataNode) : prog unit :=
  locationNode ← call (LyFindPath n "location");
  locationNode ← unwrap locationNode;
  match schemeAndHost with
  | None => call (LyUnlink locationNode)
  | Some schemeAndHost =>
      val ← call (LyValueStr locationNode);
      newPathOf n "location" (schemeAndHost +:+ eraseScheme val)
  end.
Definition replaceStreamLocations (schemeAndHost : option string) (node : DataNode) : prog DataNode :=
  streamAccessNodes ← call (LyFindXPath node (streamListXPath +:+ "/access"));
  _ ← foreach (replaceStreamLocation schemeAndHost) streamAccessNodes;
  Ret node.
End notifications.
