(* ===== verification/SubscriptionStream.v ===== *)
(** * SubscriptionStream: the stream of a dynamic subscription ([DynamicSubscriptionHttpStream])

    The notifications of a subscription come through a pipe of sysrepo ([restconf/utils/io.cpp]).  The
    stream waits for it, processes what is there, but not too much at once, and waits again.
    Connecting and disconnecting are part of [DynamicSubscriptions.v]. *)

From S2P Require Import Prelude Exceptions UriTypes Libyang YangUtils Effects NotificationStream.

Open Scope prog_scope.

Definition MAX_EVENTS : nat := 50.

Section stream.
Context {L : Libyang} {LM : LibyangMore L}.
Context (yangTimeFormat : Z → string) (fuel : nat) (dataFormat : DataFormat).

Abbreviation prog := (prog L).

Definition pipeHasData : prog bool :=
  '(n, (pollin, _)) ← call PollFd;
  Ret (bool_decide (n = 1%Z) && pollin).
Definition pipeIsClosedAndNoData : prog bool :=
  '(n, (pollin, pollhup)) ← call PollFd;
  Ret (bool_decide (n = 1%Z) && pollhup && negb pollin).

(** The callback given to [processEvent] *)
Definition onNotification (n : option DataNode * Z) : prog unit :=
  let '(notificationTree, time) := n in
  tree ← unwrap notificationTree;
  s ← as_restconf_notification yangTimeFormat fuel dataFormat tree time;
  call (SignalEvent s).

(** [while (++eventsProcessed < MAX_EVENTS && pipeHasData(fd))]; [room] is
    [MAX_EVENTS - 1 - eventsProcessed]. *)
Fixpoint processEvents (room : nat) : prog unit :=
  match room with
  | O => Ret tt
  | S room =>
      hasData ← pipeHasData;
      if hasData : bool then
        notifications ← call SrProcessEvent;
        _ ← foreach onNotification notifications;
        processEvents room
      else Ret tt
  end.

(** Waiting is asking to be called back: [onReadable]. *)
Definition awaitNextNotification : prog unit := call AsyncWait.
Definition onReadable (aborted : bool) : prog unit :=
  closed ← (if aborted then Ret true else pipeIsClosedAndNoData);
  if closed : bool then Ret tt
  else
    _ ← processEvents (MAX_EVENTS - 1);
    awaitNextNotification.

(** What nghttp2 and Asio throw is theirs.  They know neither [ErrorResponse] nor [auth::Error], so no catch clause of a
    handler is for it: it leaves the handler, and with it the event loop. *)
Definition foreign (e : exn) : exn :=
  match e with EResponse _ | EAuth _ _ => ERuntime "exception of the HTTP library" | e => e end.
(** [activate], after [clientConnected] *)
Definition activateSubscriptionStream : prog unit :=
  prog_try (_ ← activateEventStream; awaitNextNotification) (λ e, Raise (foreign e)).

(** ** What one wake-up does *)

(** The events taken from the pipe, the notifications they led to, the signals given to the
    stream, and how often the stream asked to be called back *)
Record Wakeup := mkWakeup { taken : nat; notified : nat; signalled : nat; waits : nat }.
Definition wakeup_next (s : Wakeup) (ev : Event L) : Wakeup :=
  match ev with
  | Ev SrProcessEvent (Ok l) => mkWakeup (S (taken s)) (notified s + length l) (signalled s) (waits s)
  | Ev SrProcessEvent (Throw _) => mkWakeup (S (taken s)) (notified s) (signalled s) (waits s)
  | Ev (SignalEvent _) _ => mkWakeup (taken s) (notified s) (S (signalled s)) (waits s)
  | Ev AsyncWait _ => mkWakeup (taken s) (notified s) (signalled s) (S (waits s))
  | _ => s
  end.
Definition wakeup_after (t : list (Event L)) : Wakeup := watch wakeup_next (mkWakeup 0 0 0 0) t.

Definition any_answer (s : Wakeup) (ev : Event L) : Prop := True.
(** It asks to be called back only at the end: nothing is taken afterwards. *)
Definition waits_last (s : Wakeup) (ev : Event L) : Prop := waits s = 0.
Abbreviation wwp := (wp wakeup_next any_answer waits_last).

(** Commands that touch neither the pipe nor the stream *)
Lemma quiet_ly s (c : Cmd L) x : waits s = 0 → ly_cmd c = true → wakeup_next s (Ev c x) = s ∧ waits_last s (Ev c x).
Proof. intros Hs. by destruct c. Qed.
Lemma only_notification n time :
  only ly_cmd (as_restconf_notification yangTimeFormat fuel dataFormat n time).
Proof.
  assert (∀ k m, only ly_cmd (rootOf k m)) as Hr.
  { induction k as [|k IH]; intros m; cbn [rootOf]; [done|]. solve_only. }
  unfold as_restconf_notification. cbv zeta. solve_only.
Qed.

(** Nothing was signalled that was not notified; all of it, if nothing was thrown *)
Definition balanced (s : Wakeup) {A} (r : M A) : Prop :=
  waits s = 0 ∧ signalled s ≤ notified s ∧ (is_ok r = true → signalled s = notified s).

Lemma onNotification_wp n s :
  waits s = 0 →
  wwp (onNotification n)
    (λ s' r, taken s' = taken s ∧ notified s' = notified s ∧ waits s' = 0 ∧
             signalled s ≤ signalled s' ≤ S (signalled s) ∧ (is_ok r = true → signalled s' = S (signalled s))) s.
Proof.
  intros Hs. destruct n as [[n|] time]; unfold onNotification, unwrap, YangUtils.deref, lift; cbn [prog_bind].
  2: { simpl. intuition lia. }
  apply (wp_bind_quiet _ _ _ ly_cmd); [by intros; apply quiet_ly|apply only_notification|intros e; simpl; intuition lia|].
  intros text. apply wp_call. intros x _. split; [done|]. simpl. intuition lia.
Qed.
Lemma notifications_wp l s :
  waits s = 0 → signalled s + length l = notified s →
  wwp (foreach onNotification l) (λ s' r, taken s' = taken s ∧ balanced s' r) s.
Proof.
  revert s. induction l as [|n l IH]; intros s Hs Hl; cbn [foreach]; simpl in Hl.
  - split; [done|]. repeat split; simpl; lia.
  - apply wp_bind. eapply wp_mono; [by apply onNotification_wp|].
    intros s1 [u|e] (Ht & Hn & Hw & Hle & Hok).
    + eapply wp_mono; [apply IH; [done|specialize (Hok eq_refl); lia]|]. intros s2 r [Ht2 H2]. split; [lia|done].
    + split; [done|]. repeat split; simpl; [done|lia|done].
Qed.
Lemma processEvents_wp room s :
  balanced s (Ok tt) →
  wwp (processEvents room) (λ s' r, taken s' ≤ taken s + room ∧ balanced s' r) s.
Proof.
  revert s. induction room as [|room IH]; intros s Hs; cbn [processEvents]; [split; [lia|done]|].
  unfold pipeHasData. apply wp_bind_assoc, wp_bind_call. intros x _. destruct Hs as (Hw & _ & Hs).
  specialize (Hs eq_refl). split; [done|].
  assert (∀ e : exn, taken s ≤ taken s + S room ∧ balanced s (Throw (A := unit) e)) as Hthrow.
  { intros e. split; [lia|]. repeat split; simpl; [done|lia|done]. }
  destruct x as [[n [pollin pollhup]]|e]; [|apply Hthrow]. cbn [prog_bind].
  destruct (bool_decide (n = 1%Z) && pollin); [|split; simpl; [lia|repeat split; simpl; lia]].
  apply wp_bind_call. intros x _. split; [done|]. destruct x as [l|e]; [|split; simpl; [lia|repeat split; simpl; [done|lia|done]]].
  apply wp_bind. eapply wp_mono; [apply notifications_wp; simpl; [done|lia]|].
  intros s1 [u|e] [Ht Hb]; simpl in Ht; [|split; [lia|done]].
  eapply wp_mono; [apply IH; destruct u; exact Hb|]. intros s2 r [Ht2 Hb2]. split; [lia|done].
Qed.

Lemma onReadable_wp aborted :
  wwp (onReadable aborted) (λ s r, taken s ≤ MAX_EVENTS - 1 ∧ signalled s ≤ notified s ∧ (is_ok r = true → signalled s = notified s))
    (mkWakeup 0 0 0 0).
Proof.
  unfold onReadable. destruct aborted; [simpl; lia|].
  unfold pipeIsClosedAndNoData. apply wp_bind_assoc, wp_bind_call. intros x _. split; [done|].
  destruct x as [[n [pollin pollhup]]|e]; [|simpl; lia]. cbn [prog_bind]. destruct (_ && _ && _); [simpl; lia|].
  apply wp_bind. eapply wp_mono; [apply (processEvents_wp (MAX_EVENTS - 1)); by repeat split|].
  intros s [u|e] (Ht & Hw & Hle & Hok); simpl in Ht; [|done].
  apply wp_call. intros x _. split; [done|]. simpl. auto.
Qed.
Lemma any_wakeup_answers (t : list (Event L)) s : all_lawful wakeup_next any_answer s t.
Proof. revert s. induction t; [done|]. intros s. split; [done|auto]. Qed.

(** C23: one wake-up takes at most [MAX_EVENTS - 1] events from the pipe, so the event loop gets
    its turn, gives at most as many signals to the stream as there were notifications, and
    asks to be called back only after that.  If nothing is thrown, every notification taken
    was signalled, and the stream has asked to be called back exactly once, unless the wait was
    aborted or the pipe was closed and empty; then it has done nothing at all. *)
Theorem onReadable_bounded (aborted : bool) (t : list (Event L)) (r : M unit) :
  runs (onReadable aborted) t r →
  let s := wakeup_after t in
  taken s ≤ MAX_EVENTS - 1 ∧ signalled s ≤ notified s ∧
  (∀ t1 ev t2, t = t1 ++ ev :: t2 → waits (wakeup_after t1) = 0) ∧
  (r = Ok tt →
     (aborted = true ∧ t = []) ∨
     (aborted = false ∧ t = [Ev PollFd (Ok (1%Z, (false, true)))]) ∨
     (aborted = false ∧ signalled s = notified s ∧ waits s = 1)).
Proof.
  intros Hr s. destruct (wp_runs _ _ _ _ _ _ _ _ (onReadable_wp aborted) Hr (any_wakeup_answers _ _)) as [Hg (Ht & Hle & Hok)].
  assert (∀ t1 ev t2, t = t1 ++ ev :: t2 → waits (wakeup_after t1) = 0) as Hlast.
  { intros t1 ev t2 ->. exact (all_good_at _ any_answer _ _ _ _ _ Hg). }
  split_and!; [done..|]. intros ->. specialize (Hok eq_refl).
  unfold onReadable in Hr. destruct aborted; [left; by destruct Hr|right].
  unfold pipeIsClosedAndNoData in Hr.
  apply runs_bind in Hr as [(closed & t1 & t2 & -> & (x & t' & -> & H1) & H2)|(e & [=] & _)].
  destruct x as [[n [pollin pollhup]]|e]; [|by destruct H1]. destruct H1 as [-> [= ->]].
  destruct (bool_decide (n = 1%Z) && pollhup && negb pollin) eqn:E.
  - left. destruct H2 as [-> _]. apply andb_true_iff in E as [[->%bool_decide_eq_true ->]%andb_true_iff ->%negb_true_iff].
    done.
  - right. split; [done|]. split; [done|].
    apply runs_bind in H2 as [(u & u1 & u2 & -> & _ & (x & t' & -> & H2))|(e & [=] & _)].
    destruct x as [a|e]; [|by destruct H2]. destruct H2 as [-> _].
    pose proof (Hlast _ (Ev AsyncWait (Ok a)) [] (app_assoc _ _ _)) as H0.
    unfold s, wakeup_after in *. rewrite app_assoc, watch_app. simpl in *. by rewrite H0.
Qed.
End stream.
