(* ===== verification/SubscriptionRpc.v ===== *)
(** * SubscriptionRpc: the RPCs of the dynamic subscriptions on data trees ([restconf/DynamicSubscriptions.cpp])

    How [establish-subscription], [delete-subscription] and [kill-subscription] read their
    input and write their output, and so the implementation of the interface [DynSubs] of the handlers
    by the registry of [DynamicSubscriptions.v], for one request: the session has a NACM
    user, and [makeUUID] and the allocator give a UUID and a location. *)

From S2P Require Import Prelude Exceptions UriTypes Uuid Libyang YangUtils DynamicSubscriptions Effects Handlers.

Open Scope prog_scope.

Section rpc.
Context {L : Libyang} {U : UuidLib} (recoveryUser : string).
Context {timestamp : Type} (fromYangTimeFormat : string → M timestamp) (yangTimeFormat : timestamp → string).
Context (subscribeNotifications : World → option (string + DataNode) → string → option timestamp → option timestamp →
           M (N * option timestamp)).
Context (restconfStreamUri : string) (nacmUser : option string) (u : uuid).

Abbreviation prog := (prog L).

(** [if (auto node = rpcInput.findPath(p))], and the value of the leaf *)
Definition inputLeaf (rpcInput : DataNode) (p : string) : prog (option string) :=
  node ← call (LyFindPath rpcInput p);
  match node with
  | Some node => value ← call (LyValueStr node); Ret (Some (value : string))
  | None => Ret None
  end.
Definition inputTime (rpcInput : DataNode) (p : string) : prog (option timestamp) :=
  value ← inputLeaf rpcInput p; lift (optionalTime fromYangTimeFormat value).
Definition inputFilter (rpcInput : DataNode) : prog (option (string + DataNode)) :=
  xpath ← inputLeaf rpcInput "stream-xpath-filter";
  match xpath with
  | Some xpath => Ret (Some (inl xpath))
  | None =>
      subtree ← call (LyFindPath rpcInput "stream-subtree-filter");
      Ret (inr <$> (subtree : option DataNode))
  end.

(** [rpcOutput.newPath(p, value, libyang::CreationOptions::Output)] *)
Definition outputLeaf (rpcOutput : DataNode) (p value : string) : prog unit :=
  _ ← call (LyNodeNewPath rpcOutput p (Some value)); Ret tt.

(** [makeStreamSubscription]: the subscription sysrepo made *)
Definition streamSubscription (rpcInput rpcOutput : DataNode) (w : World) : prog N :=
  streamNode ← call (LyFindPath rpcInput "stream");
  match streamNode with
  | None => raiseResponse 400 "application" "invalid-attribute" "Stream is required" None
  | Some streamNode =>
      filterName ← call (LyFindPath rpcInput "stream-filter-name");
      _ ← (if bool_decide (is_Some filterName) then
             raiseResponse 400 "application" "invalid-attribute"
               "Stream filtering with predefined filters is not supported" None
           else Ret tt);
      stopTime ← inputTime rpcInput "stop-time";
      filter ← inputFilter rpcInput;
      replayStartTime ← inputTime rpcInput "replay-start-time";
      stream ← call (LyValueStr streamNode);
      '(id, revision) ← lift (subscribeNotifications w filter stream stopTime replayStartTime);
      _ ← match revision, replayStartTime with
          | Some r, Some _ => outputLeaf rpcOutput "replay-start-time-revision" (yangTimeFormat r)
          | _, _ => Ret tt
          end;
      Ret id
  end.

(** The allocator gives a location no live object has. *)
Definition newLocation (w : World) : loc := fresh (dom (heap w)).

Definition establishRpc (requestSchemeAndHost : option string) (requestEncoding : DataFormat)
    (rpcInput rpcOutput : DataNode) (w : World) : prog World :=
  match requestSchemeAndHost with
  | None =>
      raiseResponse 400 "application" "invalid-value"
        "Request scheme and host information is required to establish subscription." None
  | Some schemeAndHost =>
      encoding ← inputLeaf rpcInput "encoding";
      format ← lift (getEncoding encoding requestEncoding);
      prog_try
        (id ← streamSubscription rpcInput rpcOutput w;
         _ ← outputLeaf rpcOutput "id" (pretty id);
         _ ← outputLeaf rpcOutput "ietf-restconf-subscribed-notifications:uri"
               (schemeAndHost +:+ restconfStreamUri +:+ "subscribed/" +:+ uuid_to_string u);
         usr ← unwrap nacmUser;
         Ret (register u (newLocation w) id format usr w))
        (λ e, match e with
              | ESysrepo _ what => raiseResponse 400 "application" "invalid-attribute" what None
              | e => Raise e
              end)
  end.

Definition deleteRpc (rpcInput : DataNode) (w : World) : prog World :=
  kill ← call (LyFindPath rpcInput "/ietf-subscribed-notifications:kill-subscription");
  let isKill := bool_decide (is_Some kill) in
  idNode ← call (LyFindPath rpcInput "id");
  idNode ← unwrap idNode;
  subId ← call (LyValueUInt32 idNode);
  match getSubscriptionForUserById recoveryUser subId nacmUser w with
  | None =>
      nodePath ← call (LyNodePath rpcInput);
      raiseResponse 404 "application" "invalid-value" "Subscription not found." (Some nodePath)
  | Some (l, d) =>
      _ ← (if negb isKill && bool_decide (nacmUser = Some recoveryUser) && negb (bool_decide (user d = recoveryUser)) then
             nodePath ← call (LyNodePath rpcInput);
             raiseResponse 400 "application" "invalid-attribute"
               "Trying to delete subscription not created by root. Use kill-subscription instead." (Some nodePath)
           else Ret tt);
      _ ← (if bool_decide (subscriptionId d ∈ sr_active w) then Ret tt
           else Raise (ESysrepo SrNotFound "subscription not found"));
      Ret (release l (mkSubs (delete (sub_uuid d) (m_subscriptions w)) (heap w) (streams w)
                        (sr_active w ∖ {[subscriptionId d]})))
  end.

(** The interface the handlers use *)
Definition dynamicSubscriptions : DynSubs L := {|
  Subscriptions := World;
  rpcEstablishSubscription := establishRpc;
  rpcDeleteSubscription _ _ rpcInput _ := deleteRpc rpcInput
|}.
End rpc.
