(* ===== verification/SrEvents.v ===== *)
(** * SrEvents: the sources of events ([sr/OpticalEvents.cpp], [sr/AllEvents.cpp])

    [OpticalEvents] follows one module of the operational datastore and keeps its last data, which a
    client of [/telemetry/optics] gets first.  [AllEvents] publishes the changes of every
    module, with the attributes of the nodes filtered.  Subscribing again replaces the
    subscription object, which ends the one before. *)

From S2P Require Import Prelude Exceptions UriTypes Libyang YangUtils DataFormat Effects NotificationStream.

Open Scope prog_scope.

(** [AllEvents::WithAttributes] *)
Inductive WithAttributes := All | RemoveEmptyOperationAndOrigin | NoAttributes.

Section events.
Context {L : Libyang} {LM : LibyangMore L}.
Context (ctx : Context).

Abbreviation prog := (prog L).

(** [sub = session.onModuleChange(...)]: the old subscription, if any, is destroyed. *)
Definition subscribeChanges (sub : option string) (moduleName : string) : prog (option string) :=
  _ ← call (SrOnModuleChange moduleName);
  _ ← match sub with Some old => call (SrUnsubscribe old) | None => Ret tt end;
  Ret (Some moduleName).

(** ** [OpticalEvents] *)

Definition dumpDataFrom (moduleName : string) : prog string :=
  data ← call (SrGetData ("/" +:+ moduleName +:+ ":*") 0 GetDefault None);
  data ← unwrap data;
  printed ← call (LyPrintStr data JSON [PSiblings; PEmptyContainers]);
  unwrap printed.

Record OpticalEvents := mkOptical { optical_sub : option string; lastData : string }.

Definition opticalModules : list string :=
  ["czechlight-roadm-device"; "czechlight-coherent-add-drop"; "czechlight-inline-amp"; "czechlight-bidi-amp"].

(** [catch (sysrepo::ErrorWithCode& e)]: go on with the next module if this one is not found. *)
Definition notFound {A} (p : prog A) : prog (option A) :=
  prog_try (a ← p; Ret (Some a))
    (λ e, match e with ESysrepo SrNotFound _ => Ret None | e => Raise e end).
Fixpoint followFirst (sub : option string) (modules : list string) : prog OpticalEvents :=
  match modules with
  | [] => Ret (mkOptical sub "")
  | m :: modules =>
      subscribed ← notFound (subscribeChanges sub m);
      match subscribed with
      | None => followFirst sub modules
      | Some sub =>
          data ← notFound (dumpDataFrom m);
          match data with
          | Some data => Ret (mkOptical sub data)
          | None => followFirst sub modules
          end
      end
  end.
Definition newOpticalEvents : prog OpticalEvents :=
  _ ← call (SrSwitchDatastore Operational);
  followFirst None opticalModules.

Definition opticalOnChange (ev : OpticalEvents) (moduleName : string) : prog OpticalEvents :=
  data ← dumpDataFrom moduleName;
  _ ← call (SignalEvent data);
  Ret (mkOptical (optical_sub ev) data).
Definition currentData (ev : OpticalEvents) : string := lastData ev.

(** ** [AllEvents] *)

Definition isEmptyOperationAndOrigin (meta : Meta) : bool :=
  let mod_ := ly_module_name (meta_module meta) in
  bool_decide (mod_ = "sysrepo" ∧ meta_name meta = "operation" ∧ meta_value meta = "none") ||
  bool_decide (mod_ = "ietf-origin" ∧ meta_name meta = "origin" ∧ meta_value meta = "ietf-origin:unknown").

Definition listenTo (sub : option string) (m : Module) : prog (option string) :=
  if decide (ly_module_name m = "sysrepo") then Ret sub
  else
    subscribed ← notFound (subscribeChanges sub (ly_module_name m));
    Ret (default sub subscribed).
Definition newAllEvents : prog (option string) :=
  _ ← call (SrSwitchDatastore Operational);
  foldM listenTo None (ctx_modules ctx).

(** The loop over the attributes of a node: [i] is the position of the iterator.  [erase] gives the
    position after the erased one; [attr = attr++] assigns the old position back. *)
Fixpoint removeEmpty (fuel : nat) (elem : DataNode) (metas : list Meta) (i : nat) : prog (list Meta) :=
  match fuel with
  | O => Raise (ELogic "out of fuel")
  | S fuel =>
      match metas !! i with
      | None => Ret metas
      | Some attr =>
          _ ← call (LyNodePath elem);
          if isEmptyOperationAndOrigin attr then
            _ ← call (LyEraseMeta elem i);
            removeEmpty fuel elem (delete i metas) i
          else removeEmpty fuel elem metas i
      end
  end.
(** [while (it != meta.end()) it = meta.erase(it);] *)
Fixpoint removeAll (elem : DataNode) (metas : list Meta) : prog (list Meta) :=
  match metas with
  | [] => Ret []
  | _ :: metas => _ ← call (LyEraseMeta elem 0); removeAll elem metas
  end.
Definition filterAttributes (fuel : nat) (attrBehavior : WithAttributes) (elem : DataNode) : prog unit :=
  metas ← call (LyMeta elem);
  match metas, attrBehavior with
  | [], _ | _, All => Ret tt
  | metas, RemoveEmptyOperationAndOrigin => _ ← removeEmpty fuel elem metas 0; Ret tt
  | metas, NoAttributes => _ ← removeAll elem metas; Ret tt
  end.

(** A change whose root has been seen is skipped. *)
Definition publishChange (fuel : nat) (attrBehavior : WithAttributes) (moduleName : string)
    (seen : list DataNode) (change : DataNode) : prog (list DataNode) :=
  node ← rootOf fuel change;
  if decide (node ∈ seen) then Ret seen
  else
    copy ← call (LyDuplicate node);
    elems ← call (LyChildrenDfs copy);
    _ ← foreach (filterAttributes fuel attrBehavior) elems;
    printed ← call (LyPrintStr copy JSON [PSiblings; PEmptyContainers]);
    json ← unwrap printed;
    data ← call (SrGetData ("/" +:+ moduleName +:+ ":*") 0 GetDefault None);
    data ← unwrap data;
    full ← call (LyPrintStr data JSON [PSiblings]);
    _ ← unwrap full;
    _ ← call (SignalChange moduleName json);
    Ret (node :: seen).
Definition onChange (fuel : nat) (attrBehavior : WithAttributes) (moduleName : string) : prog unit :=
  changes ← call (SrGetChanges ("/" +:+ moduleName +:+ ":*//."));
  _ ← foldM (publishChange fuel attrBehavior moduleName) [] changes;
  Ret tt.

(** ** When the loop over the attributes ends *)

(** libyang erases attributes and prints paths. *)
Definition erases (env : ∀ c : Cmd L, M (Answer c)) : Prop :=
  (∀ n i, env (LyEraseMeta n i) = Ok tt) ∧ ∀ n, ∃ p, env (LyNodePath n) = Ok p.

Lemma interp_bind_Ok {A B} env (p : prog A) (f : A → prog B) a :
  (interp env p).2 = Ok a → (interp env (prog_bind p f)).2 = (interp env (f a)).2.
Proof.
  induction p as [b|e|c k IH]; simpl; [by intros [= ->]|done|].
  specialize (IH (env c)). destruct (interp env (k (env c))) as [t r]. simpl in *. intros Hr.
  destruct (interp env (prog_bind (k (env c)) f)) as [t' r']. by apply IH.
Qed.
Lemma interp_call env c a : env c = Ok a → (interp env (call c)).2 = Ok a.
Proof. intros H. unfold call. cbn [interp]. by rewrite H. Qed.

Lemma removeEmpty_step env fuel elem metas i attr :
  erases env → metas !! i = Some attr →
  (interp env (removeEmpty (S fuel) elem metas i)).2 =
  (interp env (removeEmpty fuel elem (if isEmptyOperationAndOrigin attr then delete i metas else metas) i)).2.
Proof.
  intros [Herase Hpath] Hi. destruct (Hpath elem) as [p Hp]. cbn [removeEmpty]. rewrite Hi.
  rewrite (interp_bind_Ok env _ _ p (interp_call env (LyNodePath elem) p Hp)).
  destruct (isEmptyOperationAndOrigin attr); [|done].
  exact (interp_bind_Ok env _ _ tt (interp_call env (LyEraseMeta elem i) tt (Herase elem i))).
Qed.
(** A kept attribute is looked at for ever. *)
Lemma removeEmpty_stuck env fuel elem metas i attr :
  erases env → metas !! i = Some attr → isEmptyOperationAndOrigin attr = false →
  (interp env (removeEmpty fuel elem metas i)).2 = Throw (ELogic "out of fuel").
Proof.
  intros He Hi Ha. induction fuel as [|fuel IH]; [done|].
  rewrite (removeEmpty_step _ _ _ _ _ attr He Hi), Ha. exact IH.
Qed.

(** C24: with [RemoveEmptyOperationAndOrigin] the loop over the attributes of a node ends if and
    only if all of them are to be removed: then it has removed them all after as many rounds as there
    are attributes, but once it meets an attribute it should keep, it never ends, however long
    it runs. *)
Theorem removeEmpty_terminates (env : ∀ c : Cmd L, M (Answer c)) (elem : DataNode) (metas : list Meta) :
  erases env →
  (forallb isEmptyOperationAndOrigin metas = true →
     ∀ fuel, length metas < fuel → (interp env (removeEmpty fuel elem metas 0)).2 = Ok []) ∧
  (forallb isEmptyOperationAndOrigin metas = false →
     ∀ fuel, (interp env (removeEmpty fuel elem metas 0)).2 = Throw (ELogic "out of fuel")).
Proof.
  intros He. induction metas as [|attr metas [IHt IHf]]; simpl.
  - split; [|done]. intros _ [|fuel] Hf; [lia|done].
  - destruct (isEmptyOperationAndOrigin attr) eqn:Ha; simpl; (split; [|]); intros H; try done.
    + intros [|fuel] Hf; [lia|]. rewrite (removeEmpty_step _ fuel elem (attr :: metas) 0 attr He eq_refl), Ha.
      apply (IHt H). lia.
    + intros [|fuel]; [done|]. rewrite (removeEmpty_step _ fuel elem (attr :: metas) 0 attr He eq_refl), Ha. apply (IHf H).
    + intros fuel. by apply (removeEmpty_stuck _ _ _ _ _ attr).
Qed.

(** ** Who is listened to *)

(** The modules sysrepo reports changes of *)
Definition listened_next (s : list string) (ev : Event L) : list string :=
  match ev with
  | Ev (SrOnModuleChange m) (Ok _) => s ++ [m]
  | Ev (SrUnsubscribe m) (Ok _) => List.filter (λ m', negb (bool_decide (m' = m))) s
  | _ => s
  end.
Definition listened (t : list (Event L)) : list string := watch listened_next [] t.
(** A destructor does not throw. *)
Definition ends_quietly (s : list string) (ev : Event L) : Prop :=
  match ev with Ev (SrUnsubscribe _) x => x = Ok tt | _ => True end.
Definition no_demand (s : list string) (ev : Event L) : Prop := True.
Abbreviation lwp := (wp listened_next ends_quietly no_demand).
(** Whatever is listened to is the current subscription. *)
Definition only_current (s : list string) (sub : option string) : Prop :=
  match s with [] => True | [m] => sub = Some m | _ => False end.

Lemma subscribeChanges_wp sub m s :
  only_current s sub →
  lwp (subscribeChanges sub m)
    (λ s' r, match r with Ok sub => only_current s' sub | Throw _ => s' = s end) s.
Proof.
  intros Hs. unfold subscribeChanges. apply wp_bind_call. intros x _. split; [done|].
  destruct x as [u|e]; [|done]. cbn [listened_next]. destruct sub as [old|].
  - apply wp_bind, wp_call. intros x Hx. simpl in Hx. subst x. split; [done|]. simpl.
    rewrite List.filter_app. destruct s as [|m' [|]]; simpl in *; [|injection Hs as <-|done].
    + by destruct (negb _).
    + rewrite bool_decide_eq_true_2 by done. simpl. by destruct (negb _).
  - destruct s as [|m' [|]]; simpl in *; done.
Qed.
Lemma listenTo_wp sub m s :
  only_current s sub →
  lwp (listenTo sub m) (λ s' r, match r with Ok sub => only_current s' sub | Throw _ => True end) s.
Proof.
  intros Hs. unfold listenTo, notFound. destruct (decide _); [done|].
  apply wp_bind, wp_try, wp_bind. eapply wp_mono; [by apply subscribeChanges_wp|].
  intros s' [sub'|e] H; [exact H|]. subst s'. by destruct e as [| | |[]| | | | |].
Qed.

(** Although it goes through all the modules, [AllEvents] listens to one at most: each
    subscription replaces, and so ends, the one before. *)
Theorem allEvents_listens_to_one (t : list (Event L)) (sub : option string) :
  runs newAllEvents t (Ok sub) → all_lawful listened_next ends_quietly [] t →
  only_current (listened t) sub.
Proof.
  intros Hr Ht.
  assert (lwp newAllEvents (λ s r, match r with Ok sub => only_current s sub | Throw _ => True end) []) as H.
  { unfold newAllEvents. apply wp_bind_call. intros x _. split; [done|]. destruct x as [u|e]; [|done].
    apply (wp_foldM _ _ _ _ _ _ only_current); [|done..]. intros s b m _ Hs.
    eapply wp_mono; [by apply listenTo_wp|]. by intros s' []. }
  by destruct (wp_runs _ _ _ _ _ _ _ _ H Hr Ht).
Qed.
End events.
