(* ===== verification/NotificationFacts.v ===== *)
(** * NotificationFacts: notifications are wrapped and streams subscribed as intended *)

From S2P Require Import Prelude Exceptions UriTypes Libyang YangUtils Effects NotificationStream.

Open Scope prog_scope.

(** ** The envelope *)

Section envelope.
Context {L : Libyang} {LM : LibyangMore L} (yangTimeFormat : Z → string).

(** A forest: the parent of each node, the two nodes that are created for an envelope, and the
    text it is printed as *)
Record Forest := mkForest {
  parent_of : DataNode → option DataNode;
  envelope_node : DataNode;
  time_node : DataNode;
  envelope_text : string
}.
Context (F : Forest).

Definition forest_answers (s : list (Event L)) (ev : Event L) : Prop :=
  match ev with
  | Ev (LyParent n) x => x = Ok (parent_of F n)
  | Ev (LyNewOpaqueJSON _ _ name _) x | Ev (LyNewOpaqueXML _ _ name _) x =>
      x = Ok (Some (if decide (name = "notification") then envelope_node F else time_node F))
  | Ev (LyInsertChild _ _) x => x = Ok tt
  | Ev (LyUnlink _) x => x = Ok tt
  | Ev (LyPrintStr _ _ _) x => x = Ok (Some (envelope_text F))
  | _ => True
  end.
(** What is done to trees *)
Definition changes_next (s : list (Event L)) (ev : Event L) : list (Event L) :=
  match ev with
  | Ev (LyInsertChild _ _) _ | Ev (LyUnlink _) _ | Ev (LyPrintStr _ _ _) _ => s ++ [ev]
  | _ => s
  end.
Definition tree_changes (t : list (Event L)) : list (Event L) := watch changes_next [] t.
Abbreviation ends := (ends changes_next forest_answers).

Definition parent_step (n m : DataNode) : Prop := parent_of F n = Some m.

Lemma ends_rootOf n s :
  Acc (flip parent_step) n →
  ∃ root k, rtc parent_step n root ∧ parent_of F root = None ∧
    ∀ fuel, k < fuel → ends (rootOf fuel n) s s (Ok root).
Proof.
  assert (∀ n, ends (call (LyParent n)) s s (Ok (parent_of F n))) as Hp.
  { intros m. apply (ends_call _ _ (LyParent m)). intros x Hx. by split. }
  induction 1 as [n _ IH]. destruct (parent_of F n) as [m|] eqn:E.
  - destruct (IH m E) as (root & k & Hr & Hn & He). exists root, (S k). split; [by eapply rtc_l|]. split; [done|].
    intros [|fuel] Hk; [lia|]. cbn [rootOf].
    eapply ends_bind; [apply Hp|]. rewrite E. eapply ends_bind; [apply Hp|]. rewrite E.
    eapply ends_bind; [apply ends_Ret|]. apply He. lia.
  - exists n, 0. split; [done|]. split; [done|]. intros [|fuel] Hk; [lia|]. cbn [rootOf].
    eapply ends_bind; [apply Hp|]. rewrite E. done.
Qed.

(** C22: wrapping a notification ends and wraps the whole tree it is part of: if no node is its own
    ancestor, climbing to the root takes finitely many steps; the time and then the root, not
    the notification itself when it is nested, are put into the envelope, the envelope is
    printed, and the tree is taken out of it again, so that sysrepo can free it. *)
Theorem as_restconf_notification_terminates (n : DataNode) (dataFormat : DataFormat) (time : Z) :
  well_founded (flip parent_step) →
  ∃ root k, rtc parent_step n root ∧ parent_of F root = None ∧
    ∀ fuel t r, k < fuel →
      runs (as_restconf_notification yangTimeFormat fuel dataFormat n time) t r →
      all_lawful changes_next forest_answers [] t →
      r = Ok (envelope_text F) ∧
      tree_changes t =
        [Ev (LyInsertChild (envelope_node F) (time_node F)) (Ok tt);
         Ev (LyInsertChild (envelope_node F) root) (Ok tt);
         Ev (LyPrintStr (envelope_node F) dataFormat [PSiblings; PEmptyContainers]) (Ok (Some (envelope_text F)));
         Ev (LyUnlink root) (Ok tt)].
Proof.
  intros Hw. destruct (ends_rootOf n [] (Hw n)) as (root & k & Hr & Hn & He). exists root, k.
  split; [done|]. split; [done|]. intros fuel t r Hk Ht Hl. unfold tree_changes.
  assert (∀ s (c : Cmd L) (a : Answer c), (∀ s x, forest_answers s (Ev c x) → x = Ok a) →
    ends (call c) s (changes_next s (Ev c (Ok a))) (Ok a)) as Hcall.
  { intros s c a Hc. apply ends_call. intros x Hx. by rewrite (Hc s x Hx). }
  eapply and_comm, (ends_runs _ _ _ [] _ _ t r); [|done..].
  unfold as_restconf_notification. cbv zeta.
  eapply (ends_bind _ _ _ _ [] [] _ (Some (envelope_node F))).
  { destruct dataFormat;
      first [ apply (Hcall [] (LyNewOpaqueJSON _ _ "notification" _) (Some (envelope_node F)))
            | apply (Hcall [] (LyNewOpaqueXML _ _ "notification" _) (Some (envelope_node F))) ]; by intros. }
  eapply (ends_bind _ _ _ _ [] [] _ (Some (time_node F))).
  { destruct dataFormat;
      first [ apply (Hcall [] (LyNewOpaqueJSON _ _ "eventTime" _) (Some (time_node F)))
            | apply (Hcall [] (LyNewOpaqueXML _ _ "eventTime" _) (Some (time_node F))) ]; by intros. }
  eapply ends_bind; [by apply He|]. eapply ends_bind; [apply ends_Ret|]. eapply ends_bind; [apply ends_Ret|].
  eapply ends_bind; [eapply (Hcall _ (LyInsertChild _ _) tt); by intros|].
  eapply ends_bind; [eapply (Hcall _ (LyInsertChild _ _) tt); by intros|].
  eapply ends_bind; [eapply (Hcall _ (LyPrintStr _ _ _) (Some (envelope_text F))); by intros|].
  eapply ends_bind; [apply ends_Ret|].
  eapply ends_bind; [eapply (Hcall _ (LyUnlink _) tt); by intros|]. apply ends_Ret.
Qed.
End envelope.

(** ** Subscribing *)

Section subscribing.
Context {L : Libyang} {LM : LibyangMore L} (ctx : Context).
Context (filter : option string) (startTime stopTime : option Z).

(** The modules the stream covers *)
Definition subscribable : list string := ly_module_name <$> List.filter canBeSubscribed (ctx_modules ctx).

(** The modules asked for so far, with sysrepo's answers *)
Definition ask_next (s : list (string * M unit)) (ev : Event L) : list (string * M unit) :=
  match ev with
  | Ev (SrOnNotification _ m _ _ _) x => s ++ [(m, x)]
  | _ => s
  end.
Definition asked (t : list (Event L)) : list (string * M unit) := watch ask_next [] t.
Definition any_ok (s : list (string * M unit)) : bool := existsb (λ a, is_ok a.2) s.

(** The subscription object is created by the first call that succeeds, all the later ones add
    to it; the response is started when every module has been asked for. *)
Definition ask_good (s : list (string * M unit)) (ev : Event L) : Prop :=
  match ev with
  | Ev (SrOnNotification first m f a b) _ => first = negb (any_ok s) ∧ f = filter ∧ a = startTime ∧ b = stopTime
  | Ev (HttpWriteHead _ _) _ => s.*1 = subscribable
  | _ => True
  end.
Definition any_reply (s : list (string * M unit)) (ev : Event L) : Prop := True.
(** A module without notifications is passed over. *)
Definition passed (a : string * M unit) : Prop := a.2 = Ok tt ∨ ∃ what, a.2 = Throw (ESysrepo SrNotFound what).
Abbreviation awp := (wp ask_next any_reply ask_good).

Lemma any_ok_snoc s a : any_ok (s ++ [a]) = any_ok s || is_ok a.2.
Proof. unfold any_ok. rewrite existsb_app. simpl. by rewrite orb_false_r. Qed.

(** The body of the loop, for a module that can be subscribed *)
Lemma subscribe_wp m sub s :
  sub = any_ok s →
  awp (prog_try (subscribe sub m filter startTime stopTime)
         (λ e, match e with
               | ESysrepo SrInvalidArgument what => raiseResponse 400 "application" "invalid-argument" what None
               | ESysrepo SrNotFound _ => Ret sub
               | e => Raise e
               end))
    (λ s' r, match r with
             | Ok sub' => ∃ x, s' = s ++ [(m, x)] ∧ passed (m, x) ∧ sub' = any_ok s'
             | Throw _ => True
             end) s.
Proof.
  intros ->. apply wp_try. unfold subscribe. apply wp_bind_call. intros x _. split; [done|].
  destruct x as [[]|e]; cbn [ask_next].
  - simpl. exists (Ok tt). split; [done|]. split; [by left|]. by rewrite any_ok_snoc, orb_true_r.
  - destruct e as [| | |[] what| | | | |]; try exact I.
    exists (Throw (ESysrepo SrNotFound what)). split; [done|]. split; [right; by exists what|].
    by rewrite any_ok_snoc, orb_false_r.
Qed.

Lemma activateStream_wp :
  awp (activateStream ctx filter startTime stopTime)
    (λ s r, match r with Ok _ => s.*1 = subscribable ∧ Forall passed s | Throw _ => True end) [].
Proof.
  unfold activateStream, subscribable. apply wp_bind.
  apply (wp_mono _ _ _ _ (λ s r, match r with
    | Ok _ => s.*1 = ly_module_name <$> List.filter canBeSubscribed (ctx_modules ctx) ∧ Forall passed s
    | Throw _ => True end)).
  - assert (∀ mods sub s, sub = any_ok s →
      awp (foldM (λ subscribed module,
        if negb (canBeSubscribed module) then Ret subscribed
        else
          prog_try (subscribe subscribed (ly_module_name module) filter startTime stopTime)
            (λ e, match e with
                  | ESysrepo SrInvalidArgument what => raiseResponse 400 "application" "invalid-argument" what None
                  | ESysrepo SrNotFound _ => Ret subscribed
                  | e => Raise e
                  end)) sub mods)
        (λ s' r, match r with
                 | Ok _ => ∃ l, s' = s ++ l ∧ l.*1 = ly_module_name <$> List.filter canBeSubscribed mods ∧ Forall passed l
                 | Throw _ => True
                 end) s) as H.
    { induction mods as [|m mods IH]; intros sub s Hs; cbn [foldM].
      - exists []. by rewrite app_nil_r.
      - apply wp_bind. cbn [List.filter]. destruct (canBeSubscribed m); cbn [negb]; [|by apply IH].
        eapply wp_mono; [by apply subscribe_wp|]. intros s1 [sub1|e] H1; [|done].
        destruct H1 as (x & -> & Hx & Hsub). eapply wp_mono; [by apply IH|]. intros s2 [sub2|e] H2; [|done].
        destruct H2 as (l & -> & Hl & Hp). exists ((ly_module_name m, x) :: l).
        rewrite <- app_assoc. split; [done|]. rewrite !fmap_cons, Hl. split; [done|]. by constructor. }
    eapply wp_mono; [by apply H|]. intros s [sub|e] Hr; [|done]. by destruct Hr as (l & -> & ? & ?).
  - intros s [sub|e] Hs; [|done]. unfold activateEventStream.
    apply wp_bind_call. intros x _. destruct Hs as [Hs Hp]. split; [exact Hs|]. destruct x as [u|e]; [|done].
    apply wp_call. intros y _. split; [done|]. by destruct y.
Qed.

(** C19: opening a notification stream subscribes to every module that can be subscribed, once and in
    order, each with the filter and the times of the request; the first subscription that
    succeeds creates the subscription object and the others extend it; the response is started only
    when all the modules have been asked for.  A stream that is opened has times that are in
    order, starts in the past, and was refused by sysrepo for modules without notifications
    only. *)
Theorem createStream_subscribes (t : list (Event L)) (r : M unit) :
  runs (createStream ctx filter startTime stopTime) t r →
  (∀ t1 ev t2, t = t1 ++ ev :: t2 → ask_good (asked t1) ev) ∧
  (r = Ok tt →
     ((asked t).*1 = subscribable ∧ Forall passed (asked t)) ∧
     ∃ now t', t = Ev ClockNow (Ok now) :: t' ∧
       (∀ start, startTime = Some start → (start ≤ now)%Z) ∧
       (∀ stop, stopTime = Some stop → ∃ start, startTime = Some start ∧ (start < stop)%Z)).
Proof.
  intros Hr.
  assert (awp (createStream ctx filter startTime stopTime)
    (λ s r, match r with Ok _ => s.*1 = subscribable ∧ Forall passed s | Throw _ => True end) []) as Hw.
  { unfold createStream. apply wp_bind_call. intros x _. split; [done|]. destruct x as [now|e]; [|done].
    apply wp_bind, wp_lift. destruct (checkTimes now startTime stopTime); [|done]. apply activateStream_wp. }
  destruct (wp_runs _ _ _ _ _ _ _ _ Hw Hr) as [Hg Hq].
  { clear. generalize (@nil (string * M unit)). induction t; [done|]. intros s. split; [done|auto]. }
  split.
  - intros t1 ev t2 ->. exact (all_good_at _ any_reply _ _ _ _ _ Hg).
  - intros ->. split; [exact Hq|]. unfold createStream in Hr.
    apply runs_bind in Hr as [(now & u1 & u2 & -> & H1 & H2)|(e & [=] & _)].
    destruct H1 as (x & u & -> & H1). destruct x as [now'|e]; [|by destruct H1]. destruct H1 as [-> [= <-]].
    exists now, u2. split; [done|]. unfold checkTimes in H2.
    destruct startTime as [start|], stopTime as [stop|];
      repeat match goal with H : context [decide ?P] |- _ => destruct (decide P) end;
      first [ by destruct H2 as [_ [=]] | split; intros ? [= <-] | split; intros ? [=] ];
      try (eexists; split; [done|]); lia.
Qed.
End subscribing.
