(* ===== verification/Links.v ===== *)
(** * Links: the URLs the server publishes lead back to it

    The locations of YANG modules in the yang-library data and of the notification streams in the
    monitoring data are rewritten for each client.  The rewritten URL is the scheme and host of
    the request, and a path that the handlers of [/yang/] and [/streams/] understand: the one
    gives the module, the other opens the stream. *)

From S2P Require Import Prelude Exceptions UriTypes Uuid X3 UriGrammar UriPathFacts UriQuery UriQueryFacts Libyang YangUtils UriRequest Effects YangSchemaLocations NotificationStream.

Open Scope prog_scope.

(** ** The path of a module *)

Section modules.
Context {X : X3} {HX : X3Laws X}.

(** A YANG revision: [YYYY-MM-DD] *)
Inductive is_revision : string → Prop :=
| revision_intro y m d : digits_n 4 y → digits_n 2 m → digits_n 2 d → is_revision (y +:+ "-" +:+ m +:+ "-" +:+ d).

Lemma run_moduleName_app n r :
  is_identifier n = true → head_is ident_char r = false → run moduleName (n +:+ r) = PMatch n r.
Proof.
  intros Hn Hr. rewrite <- (run_identifier_app n r) by done.
  unfold moduleName, identifier. by rewrite !run_rule.
Qed.
Lemma consuming_digit : consuming digit.
Proof. apply consuming_char. Qed.
(** [repeat(n)[digit]], and [repeat(n, inf)[digit]] before a dash *)
Lemma run_repeat_digits s r :
  str_forall is_digit s = true →
  run (repeat_ (String.length s) digit) (s +:+ r) = PMatch (String.list_ascii_of_string s) r.
Proof.
  unfold digit. induction s as [|c s IH]; simpl; [by rewrite run_repeat_O|]. intros [Hc Hd]%andb_true_iff.
  rewrite str_app_cons, run_repeat_S, run_seq, run_char, Hc. cbn [pbind]. by rewrite IH.
Qed.
Lemma run_digits n s r : digits_n n s → run (digits n) (s +:+ r) = PMatch s r.
Proof.
  intros [<- Hd]. unfold digits, as_string. rewrite run_cast, run_repeat_digits by done. simpl.
  by rewrite String.string_of_list_ascii_of_string.
Qed.
Lemma run_digits_inf n s r : digits_n n s → run (as_string (repeat_inf n digit)) (s +:+ "-" +:+ r) = PMatch s ("-" +:+ r).
Proof.
  intros [<- Hd]. unfold as_string. rewrite run_cast, run_repeat_inf, run_seq, run_repeat_digits by done. cbn [pbind].
  rewrite run_kleene by apply consuming_digit. unfold digit. rewrite run_char. simpl.
  by rewrite app_nil_r, String.string_of_list_ascii_of_string.
Qed.
Lemma run_revision s r : is_revision s → run revision (s +:+ r) = PMatch s r.
Proof.
  intros [y m d Hy Hm Hd]. unfold revision, dash. rewrite run_rule, !str_app_assoc.
  replace (y +:+ "-" +:+ m +:+ "-" +:+ d) with ((((y +:+ "-") +:+ m) +:+ "-") +:+ d) by (by rewrite !str_app_assoc).
  apply run_then; [|by apply run_digits]. apply run_then; [|apply run_char_lit].
  apply run_then; [|by apply run_digits]. apply run_then; [|apply run_char_lit].
  by apply run_digits_inf.
Qed.

(** What is put after the prefix: the name, with the revision if there is one *)
Definition moduleFile (name : string) (revision : option string) : string :=
  name +:+ match revision with Some r => "@" +:+ r | None => "" end.

Lemma parse_module_path name rev :
  is_identifier name = true → (∀ r, rev = Some r → is_revision r) →
  parseModuleWithRevision ("/yang/" +:+ moduleFile name rev) = Ok (mkModule name rev).
Proof.
  intros Hn Hr. apply parse_match. unfold yangSchemaGrammar, moduleFile. rewrite run_rule, run_cast, run_expect.
  rewrite !run_expect_r, run_eps. cbn [pbind or_expect]. change ("/yang/" +:+ ?x) with ("/" +:+ "yang" +:+ String "/" x).
  rewrite run_lit_str_app. cbn [pbind or_expect]. rewrite run_lit_str_app. cbn [pbind or_expect].
  rewrite run_lit_same. cbn [pbind or_expect]. destruct rev as [r|].
  - rewrite run_moduleName_app by done. cbn [pbind or_expect]. rewrite run_opt, run_expect_l, run_expect_r.
    rewrite run_lit_str_app. cbn [pbind or_expect].
    pose proof (run_revision r "" (Hr r eq_refl)) as H. rewrite str_app_nil_r in H. rewrite H. cbn [pbind or_expect].
    by rewrite run_opt, run_lit_str_fail.
  - rewrite run_moduleName_app by done. cbn [pbind or_expect]. rewrite run_opt, run_expect_l, run_expect_r.
    by rewrite run_lit_str_fail.
Qed.
End modules.

(** The leaves that are created, as paths and values *)
Definition leaf_next {L : Libyang} (s : list (string * string)) (ev : Event L) : list (string * string) :=
  match ev with
  | Ev (LyNewPath p (Some v)) (Ok _) | Ev (LyNodeNewPath _ p (Some v)) (Ok _) => s ++ [(p, v)]
  | _ => s
  end.
Definition leaves_created {L : Libyang} (t : list (Event L)) : list (string * string) := watch leaf_next [] t.

(** ** Publishing the path *)

Section locations.
Context {X : X3} {HX : X3Laws X} {L : Libyang} {LM : LibyangMore L} (ctx : Context).

(** What an entry of the yang-library holds: its old locations, its name and its revision,
    which may be empty *)
Record ModuleEntry := mkEntry {
  entry_node : DataNode;
  entry_locations : list DataNode;
  entry_path : string;
  name_node : DataNode;
  entry_name : string;
  revision_leaf : option (DataNode * string)
}.
Context (E : ModuleEntry).
Definition entry_revision : option string :=
  match revision_leaf E with
  | Some (_, v) => if decide (v = "") then None else Some v
  | None => None
  end.

Definition entry_answers (s : list (string * string)) (ev : Event L) : Prop :=
  match ev with
  | Ev (LyFindXPath n _) x => n = entry_node E → x = Ok (entry_locations E)
  | Ev (LyFindPath n p) x =>
      n = entry_node E →
      (p = "name" → x = Ok (Some (name_node E))) ∧ (p = "revision" → x = Ok (fst <$> revision_leaf E))
  | Ev (LyValueStr n) x =>
      (n = name_node E → x = Ok (entry_name E)) ∧ (∀ v, revision_leaf E = Some (n, v) → x = Ok v)
  | Ev (LyNodePath n) x => x = Ok (entry_path E)
  | Ev (LyNodeNewPath n p v) x => x = Ok (Some n)
  | Ev (LyUnlink _) x => x = Ok tt
  | _ => True
  end.
Abbreviation ends := (ends leaf_next entry_answers).

Lemma ends_unlink l s : ends (foreach (λ child, call (LyUnlink child)) l) s s (Ok tt).
Proof.
  revert s. induction l as [|n l IH]; intros s; cbn [foreach]; [done|]. eapply ends_bind; [|apply IH].
  apply (ends_call _ _ (LyUnlink n)). intros x Hx. by split.
Qed.
Lemma ends_leafValue s : ends (leafValue (entry_node E) "name") s s (Ok (entry_name E)).
Proof.
  eapply ends_bind; [apply (ends_call _ _ (LyFindPath (entry_node E) "name") s s (Some (name_node E)));
    intros x Hx; by destruct (Hx eq_refl) as [-> _]|].
  eapply ends_bind; [apply ends_Ret|].
  apply (ends_call _ _ (LyValueStr (name_node E)) s s (entry_name E)). intros x [Hx _]. split; [by apply Hx|done].
Qed.
Lemma ends_revision s : ends (moduleRevision (entry_node E)) s s (Ok entry_revision).
Proof.
  eapply ends_bind; [apply (ends_call _ _ (LyFindPath (entry_node E) "revision") s s (fst <$> revision_leaf E));
    intros x Hx; by destruct (Hx eq_refl) as [_ ->]|].
  unfold entry_revision. destruct (revision_leaf E) as [[n v]|] eqn:Er; [|done]. cbn [fmap option_fmap option_map fst].
  eapply ends_bind; [apply (ends_call _ _ (LyValueStr n) s s v)|done].
  intros x [_ Hx]. split; [by apply Hx|done].
Qed.

Lemma ends_replaceModuleLocation host prefix s :
  entry_locations E ≠ [] →
  ∃ leaf, ends (replaceModuleLocation (Some host) prefix (entry_node E)) s
            (s ++ [(leaf, host +:+ prefix +:+ moduleFile (entry_name E) entry_revision)]) (Ok tt).
Proof.
  intros Hl. eexists. unfold replaceModuleLocation.
  eapply ends_bind; [apply (ends_call _ _ (LyFindXPath (entry_node E) "location | schema") s s (entry_locations E));
    intros x Hx; split; [by apply Hx|done]|].
  eapply ends_bind; [apply ends_unlink|]. destruct (entry_locations E) as [|l ls]; [done|].
  eapply ends_bind; [apply ends_leafValue|]. eapply ends_bind; [apply ends_revision|].
  eapply ends_bind; [apply (ends_call _ _ (LyNodePath (entry_node E)) s s (entry_path E)); intros x Hx; by split|].
  cbv zeta. eapply ends_bind; [|apply ends_Ret].
  apply (ends_call _ _ (LyNodeNewPath (entry_node E) _ (Some _)) _ _ (Some (entry_node E))).
  intros x Hx. simpl in Hx. rewrite Hx. by split.
Qed.

(** The location of a YANG module that is published leads back to the module: for an
    entry of the yang-library with a location and a client whose scheme and host are known, exactly one new
    location is written, and the handler of [/yang/] takes the part after scheme and host for the
    very module and revision of the entry. *)
Theorem schema_location_roundtrip (host : string) (t : list (Event L)) (r : M unit) :
  is_identifier (entry_name E) = true → (∀ v, entry_revision = Some v → is_revision v) → entry_locations E ≠ [] →
  runs (replaceModuleLocation (Some host) "/yang/" (entry_node E)) t r → all_lawful leaf_next entry_answers [] t →
  ∃ leaf p, r = Ok tt ∧ leaves_created t = [(leaf, host +:+ p)] ∧
    asYangModule ctx p = Ok (getModuleOrSubmodule ctx (entry_name E) entry_revision).
Proof.
  intros Hn Hrev Hl Hr Ht. destruct (ends_replaceModuleLocation host "/yang/" [] Hl) as [leaf He].
  destruct (ends_runs _ _ _ _ _ _ _ _ He Hr Ht) as [Hw ->].
  exists leaf, ("/yang/" +:+ moduleFile (entry_name E) entry_revision). split; [done|]. split; [exact Hw|].
  unfold asYangModule. by rewrite parse_module_path.
Qed.
End locations.

(** ** The notification streams *)

Section streams.
Context {X : X3} {HX : X3Laws X} {U : UuidLib}.

Definition formatName (f : DataFormat) : string := match f with XML => "XML" | JSON => "JSON" end.
(** The part of a location that the client gets after scheme and host *)
Definition streamPath (f : DataFormat) : string := "/streams/NETCONF/" +:+ formatName f.

Lemma eraseScheme_app p : eraseScheme (rousetteURIScheme +:+ p) = p.
Proof.
  unfold eraseScheme, rousetteURIScheme. simpl.
  assert (∀ n s, String.length s ≤ n → String.substring 0 n s = s) as H.
  { induction n as [|n IH]; intros [|c s]; simpl; intros Hn; [done|lia|done|]. by rewrite IH by lia. }
  apply H. rewrite str_app_nil_l. lia.
Qed.

Lemma parseStreamUri_netconf f : parseStreamUri (streamPath f) = Ok (NotificationStream (mkNotif "NETCONF" f [])).
Proof.
  apply parse_match. unfold streamGrammar, streamPath. rewrite run_rule, !run_expect_r.
  change ("/streams/NETCONF/" +:+ ?x) with ("/" +:+ "streams" +:+ "/" +:+ "NETCONF" +:+ "/" +:+ x).
  rewrite run_lit_str_app. cbn [pbind or_expect]. rewrite run_lit_str_app. cbn [pbind or_expect].
  rewrite run_lit_str_app. cbn [pbind or_expect].
  rewrite run_alt_fail.
  2: { unfold subscribedStream. rewrite run_cast, run_rule, !run_expect_r, run_lit_str_fail; done. }
  unfold notificationStream. rewrite run_cast, run_rule, run_cast, run_expect, run_expect_l.
  rewrite run_identifier_app by done. cbn [pbind or_expect]. rewrite run_lit_str_app. cbn [pbind or_expect pmap].
  unfold streamFormat, xmlStream, jsonStream. rewrite run_rule, run_alt, !run_rule, !run_expect_r.
  rewrite <- (str_app_nil_r (formatName f)). destruct f; cbn [formatName].
  - rewrite run_lit_str_fail by done. rewrite run_lit_str_app. cbn [pbind or_expect]. by rewrite run_attr.
  - rewrite run_lit_str_app. cbn [pbind or_expect]. by rewrite run_attr.
Qed.

(** What the handler of [/streams/] makes of the path *)
Lemma request_of_streamPath f :
  asRestconfStreamRequest "GET" (streamPath f) "" = Ok (NotificationStream (mkNotif "NETCONF" f [])).
Proof.
  unfold asRestconfStreamRequest. rewrite parseStreamUri_netconf. cbn [mbind result_bind throw_if negb bool_decide].
  assert (∀ n, parseQueryParams "" n = Ok []) as Hq
    by (intros n; exact (parse_match _ _ _ _ _ (run_queryParamGrammar_render [] (Forall_nil_2 _)))).
  by rewrite Hq.
Qed.
End streams.

Section stream_list.
Context {X : X3} {HX : X3Laws X} {U : UuidLib} {L : Libyang} {LM : LibyangMore L}.
Context (ctx : Context) (yangTimeFormat : Z → string).

(** What sysrepo knows about the replay of a module; the location of an access node and its value *)
Context (support : string → bool * option Z) (location : DataNode → DataNode) (value : DataNode → string).

Definition list_answers (s : list (string * string)) (ev : Event L) : Prop :=
  match ev with
  | Ev (SrModuleReplaySupport m) x => x = Ok (support m)
  | Ev (LyNewPath _ _) x => ∃ n, x = Ok n
  | Ev (LyNodeNewPath n _ _) x => x = Ok (Some n)
  | Ev (LyFindPath n p) x => p = "location" → x = Ok (Some (location n))
  | Ev (LyValueStr n) x => x = Ok (value n)
  | _ => True
  end.
Abbreviation ends := (ends leaf_next list_answers).

(** The modules whose notifications the stream has, and the times of their earliest ones *)
Definition streamed : list string := ly_module_name <$> List.filter canBeSubscribed (ctx_modules ctx).
Definition earliest_times : list Z := omap (λ m, (support m).2) streamed.
Definition least (o : option Z) (l : list Z) : Prop :=
  match o with
  | None => l = []
  | Some t => t ∈ l ∧ ∀ t', t' ∈ l → (t ≤ t')%Z
  end.
Definition replay_of (ms : list string) (info : SysrepoReplayInfo) : Prop :=
  enabled info = existsb (λ m, (support m).1) ms ∧ least (earliestNotification info) (omap (λ m, (support m).2) ms).

Lemma least_snoc o l e : least o l → least (match o with Some g => Some (Z.min e g) | None => Some e end) (l ++ [e]).
Proof.
  destruct o as [g|]; simpl.
  - intros [Hg Hl]. split.
    + apply elem_of_app. destruct (Z.min_spec e g) as [[_ ->]|[_ ->]]; [right; by left|by left].
    + intros t' [Ht|Ht]%elem_of_app; [specialize (Hl _ Ht); lia|]. apply list_elem_of_singleton in Ht. lia.
  - intros ->. simpl. split; [by left|]. intros t' Ht%list_elem_of_singleton. lia.
Qed.
Lemma replay_snoc ms m info :
  replay_of ms info →
  replay_of (ms ++ [m]) (mkReplayInfo (enabled info || (support m).1)
    match (support m).2, earliestNotification info with
    | Some e, Some g => Some (Z.min e g)
    | Some e, None => Some e
    | None, g => g
    end).
Proof.
  intros [He Hl]. unfold replay_of. cbn [enabled earliestNotification].
  rewrite existsb_app, omap_app, He. simpl. rewrite orb_false_r. split; [done|].
  destruct (support m) as [b [e|]]; simpl; [|by rewrite app_nil_r].
  apply (least_snoc _ _ e) in Hl. by destruct (earliestNotification info).
Qed.
Lemma ends_sysrepoReplayInfo s : ∃ info, replay_of streamed info ∧ ends (sysrepoReplayInfo ctx) s s (Ok info).
Proof.
  unfold sysrepoReplayInfo, streamed.
  assert (∀ mods ms info, replay_of ms info →
    ∃ info', replay_of (ms ++ (ly_module_name <$> List.filter canBeSubscribed mods)) info' ∧
      ends (foldM (λ info module,
        if negb (canBeSubscribed module) then Ret info
        else
          '(replayEnabled, earliest) ← call (SrModuleReplaySupport (ly_module_name module));
          Ret (mkReplayInfo (enabled info || replayEnabled)
                 match earliest, earliestNotification info with
                 | Some e, Some g => Some (Z.min e g)
                 | Some e, None => Some e
                 | None, g => g
                 end)) info mods) s s (Ok info')) as H.
  { induction mods as [|m mods IH]; intros ms info Hi; cbn [foldM].
    - exists info. simpl. by rewrite app_nil_r.
    - cbn [List.filter]. destruct (canBeSubscribed m) eqn:E; cbn [negb].
      + apply (replay_snoc _ (ly_module_name m)) in Hi. destruct (IH _ _ Hi) as (info' & Hi' & He).
        exists info'. rewrite fmap_cons, cons_middle, app_assoc. split; [exact Hi'|].
        eapply ends_bind; [|exact He].
        eapply ends_bind; [apply (ends_call _ _ (SrModuleReplaySupport (ly_module_name m)) s s (support (ly_module_name m)));
          intros x Hx; by split|].
        destruct (support (ly_module_name m)) as [b e]. apply ends_Ret.
      + destruct (IH _ _ Hi) as (info' & Hi' & He). exists info'. split; [exact Hi'|].
        eapply ends_bind; [apply ends_Ret|exact He]. }
  apply (H _ [] (mkReplayInfo false None)). done.
Qed.

Lemma ends_newPathOf n p v s : ends (newPathOf n p v) s (s ++ [(p, v)]) (Ok tt).
Proof.
  eapply ends_bind; [|apply ends_Ret]. apply (ends_call _ _ (LyNodeNewPath n p (Some v)) _ _ (Some n)).
  intros x Hx. simpl in Hx. rewrite Hx. done.
Qed.

Definition streamEntry : string := "/ietf-restconf-monitoring:restconf-state/streams/stream[name='NETCONF']".
(** What is kept in the data until a client asks *)
Definition storedLocation (f : DataFormat) : string := rousetteURIScheme +:+ streamPath f.
(** The leaves of the list of streams *)
Definition streamLeaves (info : SysrepoReplayInfo) : list (string * string) :=
  [(streamEntry +:+ "/description", "Default NETCONF notification stream");
   (streamEntry +:+ "/access[encoding='xml']/location", storedLocation XML);
   (streamEntry +:+ "/access[encoding='json']/location", storedLocation JSON)] ++
  (if enabled info then
     (streamEntry +:+ "/replay-support", "true") ::
     match earliestNotification info with
     | Some t => [(streamEntry +:+ "/replay-log-creation-time", yangTimeFormat t)]
     | None => []
     end
   else []).

Lemma ends_notificationStreamList root :
  ∃ info, replay_of streamed info ∧
    ends (notificationStreamList ctx yangTimeFormat (Some root) "/streams/") [] (streamLeaves info) (Ok root).
Proof.
  destruct (ends_sysrepoReplayInfo []) as (info & Hi & He). exists info. split; [exact Hi|].
  unfold notificationStreamList. eapply ends_bind; [exact He|]. cbv zeta.
  eapply ends_bind; [eapply ends_bind; [apply ends_newPathOf|apply ends_Ret]|].
  eapply ends_bind; [apply ends_newPathOf|]. eapply ends_bind; [apply ends_newPathOf|].
  eapply ends_bind; [|apply ends_Ret]. unfold streamLeaves. cbn [app].
  destruct (enabled info); [|apply ends_Ret]. eapply ends_bind; [apply ends_newPathOf|]. cbn [app].
  destruct (earliestNotification info); [|apply ends_Ret]. apply ends_newPathOf.
Qed.
Lemma ends_replaceStreamLocation host n f :
  value (location n) = storedLocation f →
  ends (replaceStreamLocation (Some host) n) [] [("location", host +:+ streamPath f)] (Ok tt).
Proof.
  intros Hv. unfold replaceStreamLocation.
  eapply ends_bind; [apply (ends_call _ _ (LyFindPath n "location") [] [] (Some (location n)));
    intros x Hx; split; [by apply Hx|done]|].
  eapply ends_bind; [apply ends_Ret|].
  eapply ends_bind; [apply (ends_call _ _ (LyValueStr (location n)) [] [] (value (location n))); intros x Hx; by split|].
  rewrite Hv. unfold storedLocation. rewrite eraseScheme_app. apply ends_newPathOf.
Qed.

(** C21: the published streams can be opened.  The list of streams has a location for each
    encoding, and says that replay is supported exactly if a module the stream covers replays, with the time of
    the earliest notification of all these modules; and when a location of the list is rewritten for a
    client, the result is the scheme and host of the request and a path for which the
    handler of [/streams/] opens the NETCONF stream in just that encoding. *)
Theorem published_streams_lead_back (root n : DataNode) (host : string) (t1 t2 : list (Event L)) (r1 : M DataNode) (r2 : M unit) :
  runs (notificationStreamList ctx yangTimeFormat (Some root) "/streams/") t1 r1 →
  all_lawful leaf_next list_answers [] t1 →
  runs (replaceStreamLocation (Some host) n) t2 r2 → all_lawful leaf_next list_answers [] t2 →
  (∃ info, replay_of streamed info ∧ leaves_created t1 = streamLeaves info) ∧
  ∀ f, value (location n) = storedLocation f →
    ∃ p, leaves_created t2 = [("location", host +:+ p)] ∧
      asRestconfStreamRequest "GET" p "" = Ok (NotificationStream (mkNotif "NETCONF" f [])).
Proof.
  intros Hr1 Ht1 Hr2 Ht2. split.
  - destruct (ends_notificationStreamList root) as (info & Hi & He). exists info. split; [exact Hi|].
    by destruct (ends_runs _ _ _ _ _ _ _ _ He Hr1 Ht1).
  - intros f Hv. exists (streamPath f). split; [|apply request_of_streamPath].
    by destruct (ends_runs _ _ _ _ _ _ _ _ (ends_replaceStreamLocation host n f Hv) Hr2 Ht2).
Qed.
End stream_list.
