(* ===== verification/Server.v ===== *)
(** * Server: the request handlers ([restconf/Server.cpp])

    What the constructor checks, and the handlers it installs for [/], [/.well-known/host-meta],
    [/yang/], [/streams/] and [/restconf/].  A handler answers at once, or waits for the body of the
    request, or, after an authentication error with a delay, for a timer ([Outcome]). *)

From S2P Require Import Prelude Exceptions UriTypes Uuid X3 Libyang YangUtils UriRequest HttpUtils DataFormat Nacm Pam HttpAuth DynamicSubscriptions Effects Responses Edits Handlers YangSchemaLocations NotificationStream SubscriptionStream.

Open Scope prog_scope.

Definition restconfRoot : string := "/restconf/".
Definition yangSchemaRoot : string := "/yang/".
Definition netconfStreamRoot : string := "/streams/".
Definition notifPrefix : string := "{'ietf-restconf:notification':{'eventTime':'".
Definition notifMid : string := "','ietf-yang-push:push-update':{'datastore-contents':".
Definition notifSuffix : string := "}}}".

(** The JSON text has double quotes where the constants above have single ones. *)
Definition double_quotes : string → string := str_map (λ c, if is_char squote_char c then dquote_char else c).
Definition as_restconf_push_update (yangTimeFormat : Z → string) (content : string) (time : Z) : string :=
  double_quotes notifPrefix +:+ yangTimeFormat time +:+ double_quotes notifMid +:+ content +:+ double_quotes notifSuffix.

Section server.
Context {X : X3} {L : Libyang} {LM : LibyangMore L} {D : DynSubs L} {U : UuidLib} {B : Base64}.
Context (ctx : Context) (timeout : N).
Context (ANONYMOUS_USER recoveryUser : string).
Context (pam : UserPass → list (PamCall * PamAnswer) → PamCall → PamAnswer) (pam_strerror : Z → string).
Context (fromYangTimeFormat : string → M Z).

Abbreviation prog := (prog L).

(** ** The constructor *)

Definition requiredModules : list (string * string * list string) :=
  [("ietf-restconf", "2017-01-26", []);
   ("ietf-restconf-monitoring", "2017-01-26", []);
   ("ietf-netconf", "", []);
   ("ietf-yang-library", "2019-01-04", []);
   ("ietf-yang-patch", "2017-02-22", []);
   ("ietf-subscribed-notifications", "2019-09-09", ["encode-xml"; "encode-json"; "xpath"; "subtree"; "replay"]);
   ("ietf-restconf-subscribed-notifications", "2019-11-17", []);
   ("rousette", "2026-04-20", [])].
Definition checkModule (required : string * string * list string) : M unit :=
  let '(module, version, features) := required in
  match getModuleImplemented ctx module with
  | Some mod_ =>
      for_each (λ feature,
        throw_if (negb (featureEnabled mod_ feature))
          (ERuntime ("Module " +:+ module +:+ "@" +:+ version +:+ " does not implement feature " +:+ feature))) features
  | None => Throw (ERuntime ("Module " +:+ module +:+ "@" +:+ version +:+ " is not implemented in sysrepo"))
  end.
Definition capabilities : list string :=
  ["urn:ietf:params:restconf:capability:defaults:1.0?basic-mode=explicit";
   "urn:ietf:params:restconf:capability:depth:1.0";
   "urn:ietf:params:restconf:capability:with-defaults:1.0";
   "urn:ietf:params:restconf:capability:filter:1.0";
   "urn:ietf:params:restconf:capability:fields:1.0"].
Definition setCapabilities : prog unit :=
  _ ← foldM (λ i capability,
        _ ← call (SrSetItem ("/ietf-restconf-monitoring:restconf-state/capabilities/capability[" +:+
                             pretty (N.succ i) +:+ "]") capability);
        Ret (N.succ i)) 0%N capabilities;
  call (SrApplyChanges 0).
Definition startServer : prog unit :=
  _ ← lift (for_each checkModule requiredModules);
  setCapabilities.

(** ** GET *)

Definition newMember (parent : DataNode) (path : string) (value : option string) : prog unit :=
  _ ← call (LyNodeNewPath parent path value); Ret tt.
(** One entry of the list of operations *)
Definition addOperation (dataFormat : DataFormat) (operations : DataNode) (rpc : SchemaNode) : prog unit :=
  let m := module_of rpc in
  node ← match dataFormat with
         | JSON => call (LyNewOpaqueJSON (ly_module_name m) (ly_module_name m) (node_name rpc) (Some "[null]"))
         | XML => call (LyNewOpaqueXML (ly_module_ns m) (ly_module_name m) (node_name rpc) None)
         end;
  node ← unwrap node;
  call (LyInsertChild operations node).
Definition apiResource (type : RequestType) (dataFormat : DataFormat) : prog DataNode :=
  yangLib ← latestModule ctx "ietf-yang-library";
  parent ← call (LyNewPath "/ietf-restconf:restconf" None);
  _ ← (if bool_decide (type = RestconfRootReq) || bool_decide (type = YangLibraryVersionReq) then
         newMember parent "yang-library-version" (ly_module_revision yangLib)
       else Ret tt);
  match type with
  | YangLibraryVersionReq => node ← call (LyFindPath parent "yang-library-version"); unwrap node
  | RestconfRootReq => _ ← newMember parent "data" None; _ ← newMember parent "operations" None; Ret parent
  | ListRPC =>
      operations ← call (LyNodeNewPath parent "operations" None);
      operations ← unwrap operations;
      _ ← foreach (λ module_,
            if ly_module_implemented module_ then foreach (addOperation dataFormat operations) (actionRpcs module_)
            else Ret tt) (ctx_modules ctx);
      Ret parent
  | _ => Raise (ELogic "Invalid restconf request type for handling within apiResource()")
  end.

Definition isLeafOrLeafList (n : DataNode) : bool :=
  bool_decide (nodeType (schema n) = Leaf) || bool_decide (nodeType (schema n) = Leaflist).
(** The flags for an explicit or absent [with-defaults] *)
Definition withDefaultsFlags (withDefaults : option QueryParamValue) : M (list PrintFlag) :=
  let ret := [PSiblings; PEmptyContainers] in
  match withDefaults with
  | None | Some Explicit => Ok ret
  | Some Trim => Ok (ret ++ [PWithDefaultsTrim])
  | Some ReportAll => Ok (ret ++ [PWithDefaultsAll])
  | Some ReportAllTagged => Ok (ret ++ [PWithDefaultsAllTag])
  | Some _ => Throw (ELogic "Invalid withDefaults query parameter value")
  end.
Definition libyangPrintFlags (dataNode : DataNode) (requestPath : string) (withDefaults : option QueryParamValue)
    : prog (list PrintFlag) :=
  node ← prog_try (call (LyFindPath dataNode requestPath))
           (λ e, match e with ELibyang _ _ => Ret None | e => Raise e end);
  isDefault ← match withDefaults, node with
              | None, Some node => if isLeafOrLeafList node then call (LyIsImplicitDefault node) else Ret false
              | _, _ => Ret false
              end;
  if isDefault : bool then Ret [PSiblings; PEmptyContainers; PWithDefaultsAll]
  else lift (withDefaultsFlags withDefaults).

(** What is asked of sysrepo: the depth ([0] is unlimited), the options and the XPath *)
Definition maxDepth (queryParams : QueryParams) : N :=
  match mm_find "depth" queryParams with Some (UnsignedInt n) => n | _ => 0 end.
Definition getOptions (queryParams : QueryParams) : GetOptions :=
  match mm_find "content" queryParams with
  | Some OnlyNonConfigNodes => OperNoConfig
  | Some OnlyConfigNodes => OperNoState
  | _ => GetDefault
  end.
Definition getXPath (restconfRequest : RestconfRequest) : M string :=
  match mm_find "fields" (queryParams restconfRequest) with
  | None => Ok (path restconfRequest)
  | Some (Fields e) =>
      fieldsToXPath ctx (if decide (path restconfRequest = "/*") then "" else path restconfRequest) e
  | Some _ => Throw (ELogic "std::bad_variant_access")
  end.
Definition processGet (req : Request) (dataFormat : DataEncoding) (restconfRequest : RestconfRequest) : prog unit :=
  _ ← call (SrSwitchDatastore (default Operational (datastore restconfRequest)));
  let params := queryParams restconfRequest in
  xpath ← lift (getXPath restconfRequest);
  data ← call (SrGetData xpath (maxDepth params) (getOptions params) (Some timeout));
  match data with
  | Some data =>
      _ ← call (HttpWriteHead 200 (mm_of_list [contentTypeOf (response dataFormat); CORS]));
      let urlPrefix := parseUrlPrefix (req_header req) in
      data ← replaceYangLibraryLocations urlPrefix yangSchemaRoot data;
      data ← replaceStreamLocations urlPrefix data;
      flags ← libyangPrintFlags data (path restconfRequest) (mm_find "with-defaults" params);
      printed ← call (LyPrintStr data (response dataFormat) flags);
      body ← unwrap printed;
      call (HttpEnd (Some body))
  | None => raiseResponse 404 "application" "invalid-value" "No data from sysrepo." None
  end.

(** ** Writing *)

Definition rejectReadOnly (restconfRequest : RestconfRequest) : prog unit :=
  if bool_decide (datastore restconfRequest = Some FactoryDefault) ||
     bool_decide (datastore restconfRequest = Some Operational) then
    raiseResponse 405 "application" "operation-not-supported" "Read-only datastore." None
  else Ret tt.

(** The switch of the datastore and the checks before the body is read *)
Definition prepareWrite (dataFormat : DataEncoding) (restconfRequest : RestconfRequest) : prog unit :=
  _ ← rejectReadOnly restconfRequest;
  _ ← call (SrSwitchDatastore (default Running (datastore restconfRequest)));
  match request dataFormat with
  | None => raiseResponse 400 "protocol" "invalid-value" "Content-type header missing." None
  | Some _ => Ret tt
  end.

Definition deleteEdit (restconfRequest : RestconfRequest) : prog unit :=
  '(edit, deletedNode) ← call (LyNewPath2 (path restconfRequest) true);
  edit ← unwrap edit;
  _ ← validateInputMetaAttributes ctx edit;
  deletedNode ← unwrap deletedNode;
  isOpaque ← call (LyIsOpaque deletedNode);
  _ ← (if isOpaque : bool then call (LyNewAttrOpaqueJSON deletedNode "ietf-netconf" "operation" "delete")
       else
         netconf ← latestModule ctx "ietf-netconf";
         call (LyNewMeta deletedNode netconf "operation" "delete"));
  _ ← call (SrEditBatch edit);
  call (SrApplyChanges timeout).
Definition processDelete (restconfRequest : RestconfRequest) : prog unit :=
  _ ← rejectReadOnly restconfRequest;
  _ ← call (SrSwitchDatastore (default Running (datastore restconfRequest)));
  _ ← prog_try (deleteEdit restconfRequest)
        (λ e, match e with
              | ESysrepo SrUnauthorized _ =>
                  raiseResponse 403 "application" "access-denied" "Access denied." (Some (path restconfRequest))
              | ESysrepo SrNotFound _ =>
                  raiseResponse 404 "application" "data-missing" "Data is missing." (Some (path restconfRequest))
              | e => Raise e
              end);
  _ ← call (HttpWriteHead 204 (mm_of_list [CORS]));
  call (HttpEnd None).

Definition processOptions (req : Request) : prog unit :=
  allowed ← lift (allowedHttpMethodsForUri ctx (uri_path req));
  let headers := mm_of_list [CORS] in
  _ ← (if decide (allowed = ∅) then call (HttpWriteHead 404 headers)
       else call (HttpWriteHead 200 (merge_headers headers (httpOptionsHeaders allowed))));
  call (HttpEnd None).

(** ** The handler of [/restconf/] *)

Inductive Outcome :=
| Done
| AwaitBody (requestCtx : RequestContext)
| AwaitTimer (delay : N) (reply : prog unit).

Definition done (p : prog unit) : prog Outcome := _ ← p; Ret Done.

(** [authorizeRequest], which sets the NACM user of the session *)
Definition authorizeSession (nacm : Nacm) (req : Request) : prog unit :=
  match authorizeRequest ANONYMOUS_USER pam pam_strerror nacm (mkSession None) (req_header req) with
  | (sess, Ok _) => match nacmUser sess with Some user => call (SrSetNacmUser user) | None => Ret tt end
  | (_, Throw e) => Raise e
  end.

Definition dispatch (req : Request) (dataFormat : DataEncoding) (restconfRequest : RestconfRequest) : prog Outcome :=
  match type restconfRequest with
  | RestconfRootReq | YangLibraryVersionReq | ListRPC =>
      done (_ ← call (HttpWriteHead 200 (mm_of_list [contentTypeOf (response dataFormat); CORS]));
            tree ← apiResource (type restconfRequest) (response dataFormat);
            printed ← call (LyPrintStr tree (response dataFormat) [PSiblings; PEmptyContainers]);
            body ← unwrap printed;
            call (HttpEnd (Some body)))
  | GetData => done (processGet req dataFormat restconfRequest)
  | CreateOrReplaceThisNode | CreateChildren | MergeData =>
      _ ← prepareWrite dataFormat restconfRequest;
      Ret (AwaitBody (mkRequestContext req dataFormat restconfRequest ""))
  | DeleteNode => done (processDelete restconfRequest)
  | Execute | ExecuteInternal => Ret (AwaitBody (mkRequestContext req dataFormat restconfRequest ""))
  | OptionsQuery => done (processOptions req)
  end.

(** [processAuthError]: the reply is sent now or after the delay. *)
Definition onAuthError (delay : option N) (reply : prog unit) : prog Outcome :=
  match delay with Some delay => Ret (AwaitTimer delay reply) | None => done reply end.

Definition restconfCatch (req : Request) (dataFormat : DataFormat) (e : exn) : prog Outcome :=
  match e with
  | EAuth _ delay =>
      onAuthError delay
        (rejectWithError ctx dataFormat req 401%Z "protocol" "access-denied" "Access denied." None None)
  | EResponse e =>
      done (rejectWithError ctx dataFormat req (code e) (errorType e) (errorTag e) (errorMessage e)
              (errorPath e) (errorInfo e))
  | ESysrepo _ _ =>
      done (rejectWithError ctx dataFormat req 500%Z "application" "operation-failed"
              "Internal server error due to sysrepo exception." None None)
  | e => Raise e
  end.

(** [dataFormat] is assigned when the negotiation succeeds; until then errors are in JSON. *)
Definition restconfHandler (nacm : Nacm) (req : Request) : prog Outcome :=
  _ ← call (SrSessionStart Operational);
  match chooseDataEncoding (req_header req) with
  | Throw e => restconfCatch req JSON e
  | Ok dataFormat =>
      prog_try
        (_ ← authorizeSession nacm req;
         restconfRequest ← lift (asRestconfRequest ctx (req_method req) (raw_path req) (raw_query req));
         dispatch req dataFormat restconfRequest)
        (restconfCatch req (response dataFormat))
  end.

Definition isYangPatch (req : Request) : bool :=
  match getHeaderValue (req_header req) "content-type" with
  | Some v => bool_decide (v = "application/yang-patch+xml") || bool_decide (v = "application/yang-patch+json")
  | None => false
  end.

(** The body is complete. *)
Definition onBody (requestCtx : RequestContext) (subs : Subscriptions) : prog Subscriptions :=
  let write func :=
    _ ← withRestconfExceptions ctx (func requestCtx) tt (rejectWithError ctx) requestCtx; Ret subs in
  match type (restconfRequest requestCtx) with
  | Execute | ExecuteInternal =>
      withRestconfExceptions ctx (processActionOrRPC ctx timeout requestCtx subs) subs (rejectWithError ctx) requestCtx
  | CreateChildren => write (processPost ctx timeout)
  | MergeData =>
      if isYangPatch (req requestCtx) then write (processYangPatch ctx timeout)
      else write (processPutOrPlainPatch ctx timeout)
  | _ => write (processPutOrPlainPatch ctx timeout)
  end.

(** The callback of [on_data]: an empty chunk is the end of the body. *)
Definition onData (requestCtx : RequestContext) (chunk : string) (subs : Subscriptions)
    : RequestContext * prog Subscriptions :=
  if decide (chunk = "") then (requestCtx, onBody requestCtx subs)
  else (mkRequestContext (req requestCtx) (rc_dataFormat requestCtx) (restconfRequest requestCtx)
          (payload requestCtx +:+ chunk), Ret subs).

(** A whole request: the handler, then the chunks of the body, or the delayed reply *)
Fixpoint receive (requestCtx : RequestContext) (chunks : list string) (subs : Subscriptions) : prog Subscriptions :=
  match chunks with
  | [] => (onData requestCtx "" subs).2
  | chunk :: chunks =>
      if decide (chunk = "") then (onData requestCtx "" subs).2
      else receive (onData requestCtx chunk subs).1 chunks subs
  end.
Definition serveRestconf (nacm : Nacm) (req : Request) (chunks : list string) (subs : Subscriptions)
    : prog Subscriptions :=
  outcome ← restconfHandler nacm req;
  match outcome with
  | Done => Ret subs
  | AwaitBody requestCtx => receive requestCtx chunks subs
  | AwaitTimer _ reply => _ ← reply; Ret subs
  end.

(** ** The other handlers *)

Definition notFoundHandler : prog unit :=
  _ ← call (HttpWriteHead 404 (mm_of_list [TEXT_PLAIN; CORS]));
  call (HttpEnd None).

Definition hostMetaHandler : prog unit :=
  _ ← call (HttpWriteHead 200 (mm_of_list [contentType "application/xrd+xml"; CORS]));
  call (HttpEnd (Some ("<XRD xmlns='http://docs.oasis-open.org/ns/xri/xrd-1.0'><Link rel='restconf' href='" +:+
                       restconfRoot +:+ "'/></XRD>"))).

(** The [catch] clauses of the handlers that report errors as plain text *)
Definition plainCatch (e : exn) : prog Outcome :=
  match e with
  | EAuth _ delay =>
      onAuthError delay
        (_ ← call (HttpWriteHead 401 (mm_of_list [TEXT_PLAIN; CORS])); call (HttpEnd (Some "Access denied.")))
  | EResponse e =>
      let headers := mm_of_list [TEXT_PLAIN; CORS] in
      let headers := if decide (code e = 405%Z) then mm_insert ALLOW_GET_HEAD_OPTIONS.1 ALLOW_GET_HEAD_OPTIONS.2 headers
                     else headers in
      done (_ ← call (HttpWriteHead (code e) headers); call (HttpEnd (Some (errorMessage e))))
  | e => Raise e
  end.

Definition yangSchemaHandler (nacm : Nacm) (req : Request) : prog Outcome :=
  if bool_decide (req_method req = "OPTIONS") ||
     negb (bool_decide (req_method req = "GET")) && negb (bool_decide (req_method req = "HEAD")) then
    done (_ ← call (HttpWriteHead (if decide (req_method req = "OPTIONS") then 200 else 405)
                      (mm_of_list [CORS; ALLOW_GET_HEAD_OPTIONS]));
          call (HttpEnd None))
  else
    prog_try
      (_ ← call (SrSessionStart Operational);
       _ ← authorizeSession nacm req;
       mod_ ← lift (asYangModule ctx (uri_path req));
       access ← match mod_ with Some m => hasAccessToYangSchema m | None => Ret false end;
       match mod_, access with
       | Some m, true =>
           done (_ ← call (HttpWriteHead 200 (mm_of_list [contentType "application/yang"; CORS]));
                 text ← call (LySchemaPrint m);
                 call (HttpEnd (Some text)))
       | _, _ =>
           done (_ ← call (HttpWriteHead 404 (mm_of_list [TEXT_PLAIN; CORS]));
                 call (HttpEnd (Some "YANG schema not found")))
       end)
      plainCatch.

(** [std::get<std::string>] of a query parameter, and a time in it *)
Definition stringParam (queryParams : QueryParams) (name : string) : M (option string) :=
  match mm_find name queryParams with
  | None => Ok None
  | Some (StdString s) => Ok (Some s)
  | Some _ => Throw (ELogic "std::bad_variant_access")
  end.
Definition timeParam (queryParams : QueryParams) (name : string) : M (option Z) :=
  match stringParam queryParams name with
  | Ok (Some s) => Some <$> fromYangTimeFormat s
  | Ok None => Ok None
  | Throw e => Throw e
  end.

(** The registry of subscriptions is that of [DynamicSubscriptions.v]. *)
Definition sessionUser (nacm : Nacm) (req : Request) : option string :=
  nacmUser (authorizeRequest ANONYMOUS_USER pam pam_strerror nacm (mkSession None) (req_header req)).1.
Definition streamsHandler (nacm : Nacm) (req : Request) (w : World) : prog (World * Outcome) :=
  if decide (req_method req = "OPTIONS") then
    _ ← call (HttpWriteHead 200 (mm_of_list [CORS; ALLOW_GET_HEAD_OPTIONS]));
    _ ← call (HttpEnd None);
    Ret (w, Done)
  else
    prog_try
      (_ ← call (SrSessionStart Running);
       _ ← authorizeSession nacm req;
       streamRequest ← lift (asRestconfStreamRequest (req_method req) (uri_path req) (raw_query req));
       match streamRequest with
       | UriGrammar.SubscribedStream u =>
           w ← lift (openStream recoveryUser u (sessionUser nacm req) w);
           _ ← activateSubscriptionStream;
           Ret (w, Done)
       | UriGrammar.NotificationStream request =>
           _ ← (if decide (stream request = "NETCONF") then Ret tt
                else raiseResponse 404 "application" "invalid-value" "Stream not found" None);
           xpathFilter ← lift (stringParam (notif_queryParams request) "filter");
           startTime ← lift (timeParam (notif_queryParams request) "start-time");
           stopTime ← lift (timeParam (notif_queryParams request) "stop-time");
           _ ← createStream ctx xpathFilter startTime stopTime;
           Ret (w, Done)
       end)
      (λ e, out ← plainCatch e; Ret (w, out)).
End server.
