(* ===== verification/RequestTypes.v ===== *)
(** * RequestTypes: the values of the query parameters have the types the handlers assume

    The parser keeps every query parameter as an alternative of one variant; the handlers take the
    alternative they expect with [std::get], or end a chain of conditions in a [logic_error].  For a
    request that [asRestconfRequest] or [asRestconfStreamRequest] accepts, none of this can fail. *)

From S2P Require Import Prelude Exceptions UriTypes Uuid X3 UriGrammar UriPathFacts UriQuery UriQueryFacts Libyang YangUtils UriRequest UriRequestFacts HttpUtils DataFormat Nacm Pam HttpAuth DynamicSubscriptions Effects Responses Edits Handlers Server.

(** The position an [insert] parameter stands for: a point exactly for before and after *)
Definition well_placed (position : string * option (list PathSegment)) : Prop :=
  match position.2 with
  | None => position.1 = "first" ∨ position.1 = "last"
  | Some point => (position.1 = "before" ∨ position.1 = "after") ∧ wf_segs point = true
  end.

Lemma typed_Forall params k v :
  Forall (λ kv : string * QueryParamValue, typed_param kv.1 kv.2) params → mm_find k params = Some v →
  typed_param k v.
Proof. rewrite Forall_forall. intros H Hf%mm_find_elem_of. exact (H (k, v) Hf). Qed.

Ltac typed_find H := let Ht := fresh "Ht" in
  pose proof (typed_Forall _ _ _ H ltac:(eassumption)) as Ht; inversion Ht; subst; clear Ht.

Section types.
Context {X : X3} {HX : X3Laws X}.

Lemma typed_depth params :
  Forall (λ kv : string * QueryParamValue, typed_param kv.1 kv.2) params → (maxDepth params < 65536)%N.
Proof. intros H. unfold maxDepth. destruct (mm_find "depth" params) as [v|] eqn:Hf; [typed_find H|]; lia. Qed.
Lemma typed_withDefaults params :
  Forall (λ kv : string * QueryParamValue, typed_param kv.1 kv.2) params →
  is_ok (withDefaultsFlags (mm_find "with-defaults" params)) = true.
Proof.
  intros H. destruct (mm_find "with-defaults" params) as [v|] eqn:Hf; [|done]. typed_find H.
  match goal with Hv : v ∈ _ |- _ => simpl in Hv; rewrite !elem_of_cons in Hv end.
  by intuition (subst; set_solver).
Qed.
Lemma typed_string params name :
  Forall (λ kv : string * QueryParamValue, typed_param kv.1 kv.2) params →
  name ∈ ["filter"; "start-time"; "stop-time"] → is_ok (stringParam params name) = true.
Proof.
  intros H Hn. unfold stringParam. destruct (mm_find name params) as [v|] eqn:Hf; [|done].
  typed_find H; rewrite ?elem_of_cons in Hn; done || by intuition (try discriminate; set_solver).
Qed.
Lemma typed_insert params m v :
  Forall (λ kv : string * QueryParamValue, typed_param kv.1 kv.2) params → valid_params params m →
  mm_find "insert" params = Some v → ∃ position, insertPosition params v = Ok position ∧ well_placed position.
Proof.
  intros H (_ & _ & _ & _ & Hp) Hf.
  assert (v = After ∨ v = Before →
          ∃ point, getPoint (mm_find "point" params) = Ok point ∧ wf_segs point = true) as Hpoint.
  { intros Hv. assert ("point" ∈ params.*1) as Hin.
    { apply Hp. apply mm_find_elem_of in Hf. destruct Hv; subst; auto. }
    destruct (mm_find "point" params) as [w|] eqn:Hw; [|by apply mm_find_None in Hw].
    typed_find H. simpl. eauto. }
  typed_find H. match goal with Hv : v ∈ _ |- _ => simpl in Hv; rewrite !elem_of_cons in Hv end.
  repeat match goal with Hv : _ ∨ _ |- _ => destruct Hv as [Hv|Hv] end; subst; simpl.
  1,2: eexists; split; [reflexivity|unfold well_placed; simpl; auto].
  1,2: destruct Hpoint as (point & -> & Hwf); [by auto|]; simpl; eexists; split; [reflexivity|];
    unfold well_placed; simpl; auto.
  by match goal with Hv : _ ∈ [] |- _ => apply elem_of_nil in Hv end.
Qed.

Context {L : Libyang} {HL : LibyangLaws L}.

Lemma typed_xpath ctx r :
  Forall (λ kv : string * QueryParamValue, typed_param kv.1 kv.2) (queryParams r) →
  only_responses (getXPath ctx r).
Proof.
  intros H. unfold getXPath. destruct (mm_find "fields" (queryParams r)) as [v|] eqn:Hf; [|done].
  typed_find H. apply fieldsToXPath_responses.
Qed.

(** What [asRestconfRequest] keeps of the query *)
Lemma request_query ctx m p q r :
  asRestconfRequest ctx m p q = Ok r →
  Forall (λ kv : string * QueryParamValue, typed_param kv.1 kv.2) (queryParams r) ∧ valid_params (queryParams r) m.
Proof.
  destruct (decide (m ∈ known_methods)) as [Hm|Hm]; [|by rewrite asRestconfRequest_unknown].
  rewrite asRestconfRequest_steps by done. intros H.
  apply bind_Ok_inv in H as (u & Hu & H). apply bind_Ok_inv in H as (params & Hq & H).
  apply bind_Ok_inv in H as ([] & Hp & H). apply bind_Ok_inv in H as ([lyPath node] & Hl & H).
  apply bind_Ok_inv in H as ([] & Hv & H).
  destruct (dispatchRequest_spec m p u params lyPath node Hm Hv) as (t & d & x & q' & He & _ & Hq' & _).
  rewrite He in H. apply newRestconfRequest_type in H as (_ & _ & ->).
  destruct Hq' as [->| ->].
  - split; [|by apply validateQueryParameters_Ok]. by eapply parse_ensures in Hq; [|apply ens_queryParamGrammar].
  - split; [constructor|]. by apply validateQueryParameters_Ok.
Qed.

Context {U : UuidLib}.

(** C4: the query parameters are well typed.  Of a request the parser accepts, [fields], if present,
    holds an expression, so that building the XPath throws no [bad_variant_access]; [with-defaults]
    has one of the values the printing flags know; the depth fits 16 bits; [insert] gives one of the
    four positions, with a well-formed point exactly for before and after, so the iterator to
    [point] that the code dereferences unchecked is never [end()]; and the filter and the times of an
    accepted stream request are strings. *)
Theorem query_parameters_typed (ctx : Context) (m p q : string) :
  (∀ r, asRestconfRequest ctx m p q = Ok r →
     only_responses (getXPath ctx r) ∧
     is_ok (withDefaultsFlags (mm_find "with-defaults" (queryParams r))) = true ∧
     (maxDepth (queryParams r) < 65536)%N ∧
     ∀ v, mm_find "insert" (queryParams r) = Some v →
       ∃ position, insertPosition (queryParams r) v = Ok position ∧ well_placed position) ∧
  (∀ request name, asRestconfStreamRequest m p q = Ok (NotificationStream request) →
     name ∈ ["filter"; "start-time"; "stop-time"] → is_ok (stringParam (notif_queryParams request) name) = true).
Proof.
  split.
  - intros r [Ht Hv]%request_query.
    split_and!; [by apply typed_xpath|by apply typed_withDefaults|by apply typed_depth|].
    intros v Hf. by eapply typed_insert.
  - intros request name H. unfold asRestconfStreamRequest in H.
    inv_result; case_match; inv_result; try done. apply typed_string.
    match goal with H : parseQueryParams _ _ = Ok _ |- _ => eapply parse_ensures in H; [|apply ens_queryParamGrammar] end.
    done.
Qed.
End types.
