(* ===== verification/Telemetry.v ===== *)
(** * Telemetry: the clients of [/telemetry/optics] ([restconf/Server.cpp])

    A client gets the data that were current when its request was handled, then every change.  The
    callback of sysrepo runs in a thread of its own, under the mutex of [OpticalEvents]; the handler
    takes the mutex to read the data, and connects the new stream to the signal after that.  So a
    request is two steps, between which the data may change. *)

From S2P Require Import Prelude Exceptions SrEvents Server EventStream.

Section telemetry.
Context (yangTimeFormat : Z → string).

(** Data with the time they were published at *)
Definition update (u : string * Z) : string := as_restconf_push_update yangTimeFormat u.1 u.2.

(** [read_at] and [since] say how many changes had been published when the data were read and when
    the stream was connected. *)
Record Client := mkClient { snapshot : string * Z; read_at : nat; since : nat; stream : World }.
Record Telemetry := mkTelemetry {
  optics : OpticalEvents;
  requests : list ((string * Z) * nat);   (** the data have been read, there is no stream yet *)
  clients : list Client;
  published : list (string * Z)           (** all the changes so far *)
}.

(** The signal [opticsChange]: the streams that are connected queue the message. *)
Definition notify (msg : string) (c : Client) : Client :=
  mkClient (snapshot c) (read_at c) (since c) (on_signal msg (stream c)).
(** [OpticalEvents::onChange] and the slot the constructor of the server connects *)
Definition opticsChange (content : string) (now : Z) (T : Telemetry) : Telemetry :=
  mkTelemetry (mkOptical (optical_sub (optics T)) content) (requests T)
    (notify (update (content, now)) <$> clients T) (published T ++ [(content, now)]).
(** The handler: the arguments of [EventStream::create], and the call *)
Definition opticsRequest (now : Z) (T : Telemetry) : Telemetry :=
  mkTelemetry (optics T) (requests T ++ [((currentData (optics T), now), length (published T))]) (clients T) (published T).
Definition opticsCreate (i : nat) (u : string * Z) (read : nat) (T : Telemetry) : Telemetry :=
  mkTelemetry (optics T) (delete i (requests T))
    (clients T ++ [mkClient u read (length (published T)) (initial (Some (update u)))]) (published T).

(** Whatever else happens to a stream: pings, termination, tasks, reads, closing *)
Inductive telemetry_step : Telemetry → Telemetry → Prop :=
| telemetry_change T content now : telemetry_step T (opticsChange content now T)
| telemetry_request T now : telemetry_step T (opticsRequest now T)
| telemetry_create T i u read : requests T !! i = Some (u, read) → telemetry_step T (opticsCreate i u read T)
| telemetry_stream T i c w :
    clients T !! i = Some c → step (stream c) w → messages w = messages (stream c) →
    telemetry_step T (mkTelemetry (optics T) (requests T)
      (<[i := mkClient (snapshot c) (read_at c) (since c) w]> (clients T)) (published T)).

(** After the constructor of [OpticalEvents] *)
Definition telemetry_start (ev : OpticalEvents) : Telemetry := mkTelemetry ev [] [] [].
Definition telemetry_reachable (ev : OpticalEvents) (T : Telemetry) : Prop := rtc telemetry_step (telemetry_start ev) T.

(** ** The invariant *)

Context (ev : OpticalEvents).

(** The data after so many changes *)
Definition data_after (T : Telemetry) (k : nat) : string :=
  match k with O => lastData ev | S k => default "" (fst <$> published T !! k) end.

Definition open_stream (c : Client) : bool := accepts (es (stream c)).
Record client_inv (T : Telemetry) (c : Client) : Prop := {
  ci_stream : reachable (stream c);
  ci_read : read_at c ≤ since c ∧ since c ≤ length (published T) ∧ (snapshot c).1 = data_after T (read_at c);
  ci_connected : open_stream c = true → eventSub (es (stream c)) = true;
  ci_open : open_stream c = true → messages (stream c) = update <$> (snapshot c :: drop (since c) (published T));
  ci_messages : ∃ k, messages (stream c) = update <$> (snapshot c :: take k (drop (since c) (published T)))
}.
Record telemetry_inv (T : Telemetry) : Prop := {
  ti_current : currentData (optics T) = data_after T (length (published T));
  ti_requests : Forall (λ r, r.2 ≤ length (published T) ∧ r.1.1 = data_after T r.2) (requests T);
  ti_clients : Forall (client_inv T) (clients T)
}.

Lemma data_after_app T T' u k :
  published T' = published T ++ [u] → k ≤ length (published T) → data_after T' k = data_after T k.
Proof. intros Hp Hk. destruct k as [|k]; [done|]. simpl. by rewrite Hp, lookup_app_l by lia. Qed.

Lemma data_after_last T x now l :
  published T = l ++ [(x, now)] → data_after T (length (published T)) = x.
Proof. intros Hp. unfold data_after. rewrite Hp, length_app. simpl. rewrite Nat.add_1_r. by rewrite list_lookup_middle. Qed.

(** A change reaches a client that is connected, and leaves the others as they were. *)
Lemma client_inv_notify T content now c :
  client_inv T c → client_inv (opticsChange content now T) (notify (update (content, now)) c).
Proof.
  intros [Hs (Hr & Hl & Hd) Hc Ho (k & Hm)].
  assert (since c ≤ length (published T ++ [(content, now)])) as Hl' by (rewrite length_app; simpl; lia).
  assert (drop (since c) (published T ++ [(content, now)]) = drop (since c) (published T) ++ [(content, now)]) as Hdrop
    by (by apply drop_app_le).
  assert ((snapshot c).1 = data_after (opticsChange content now T) (read_at c)) as Hd'
    by (rewrite Hd; symmetry; eapply data_after_app; [reflexivity|lia]).
  assert (∃ k, messages (stream c) = update <$> (snapshot c :: take k (drop (since c) (published T ++ [(content, now)])))) as Hm'.
  { exists (k `min` length (drop (since c) (published T))). by rewrite Hdrop, take_app_min, Hm. }
  unfold open_stream in *. unfold notify.
  split; unfold open_stream; cbn [snapshot read_at since stream];
    rewrite ?accepts_on_signal, ?eventSub_on_signal, ?messages_on_signal; [by apply reachable_on_signal|done|done| |].
  all: destruct (accepts (es (stream c))) eqn:Ea; rewrite ?andb_true_r, ?andb_false_r; try done.
  all: rewrite (Hc eq_refl), (Ho eq_refl), !fmap_cons.
  - intros _. cbn [opticsChange published]. by rewrite Hdrop, fmap_app.
  - exists (length (drop (since c) (published T ++ [(content, now)]))). cbn [opticsChange published].
    by rewrite take_ge, Hdrop, fmap_cons, fmap_app by lia.
Qed.
Lemma client_inv_step T T' c w :
  published T' = published T → client_inv T c → step (stream c) w → messages w = messages (stream c) →
  client_inv T' (mkClient (snapshot c) (read_at c) (since c) w).
Proof.
  intros Hp [Hs Hr Hc Ho Hm] Hstep He. unfold open_stream in *.
  assert (∀ k, data_after T' k = data_after T k) as Hd by (intros [|k]; simpl; by rewrite ?Hp).
  split; unfold open_stream; simpl; rewrite ?Hp, ?Hd, ?He; [|done| | |done].
  - destruct Hs as [e Hs]. exists e. by eapply rtc_r.
  - intros Ha. destruct (step_connected _ _ Hstep Ha) as [Ha' ->]. by apply Hc.
  - intros Ha. apply Ho. by destruct (step_connected _ _ Hstep Ha).
Qed.

Lemma telemetry_step_inv T T' : telemetry_inv T → telemetry_step T T' → telemetry_inv T'.
Proof.
  intros [Hc Hr Hcl] Hstep. destruct Hstep as [T content now|T now|T i u read Hi|T i c w Hi Hs Hm].
  - split; simpl.
    + symmetry. by eapply (data_after_last (opticsChange content now T)).
    + eapply Forall_impl; [exact Hr|]. intros [u k]. simpl. intros [Hk ->]. rewrite length_app. split; [lia|].
      symmetry. by eapply data_after_app.
    + apply Forall_fmap. eapply Forall_impl; [exact Hcl|]. intros c. apply client_inv_notify.
  - split; simpl; [done| |]. 
    + apply Forall_app. split; [exact Hr|]. constructor; [|done]. simpl. by rewrite Hc.
    + eapply Forall_impl; [exact Hcl|]. intros c [? ? ? ? ?]. by split.
  - rewrite Forall_lookup in Hr. destruct (Hr i _ Hi) as [Hk Hu]. simpl in *. split; simpl; [done| |].
    + apply Forall_delete. by apply Forall_lookup.
    + apply Forall_app. split; [eapply Forall_impl; [exact Hcl|]; intros c [? ? ? ? ?]; by split|].
      constructor; [|done]. split; simpl; [by eexists|done|done| |].
      * intros _. by rewrite drop_ge by lia.
      * exists 0. by rewrite take_0.
  - split; simpl; [done|done|]. apply Forall_insert.
    + eapply Forall_impl; [exact Hcl|]. intros c' [? ? ? ? ?]. by split.
    + rewrite Forall_lookup in Hcl. eapply client_inv_step; [|by apply (Hcl i)|done..]. done.
Qed.
Lemma telemetry_reachable_inv T : telemetry_reachable ev T → telemetry_inv T.
Proof.
  intros H. assert (telemetry_inv (telemetry_start ev)) as Hi by (split; simpl; [done|constructor..]).
  induction H; eauto using telemetry_step_inv.
Qed.

(** C31: telemetry.  The messages of a client are the data that were current when its request was
    read, then the changes since its stream was connected, in order and without a gap up to where it was
    closed; a stream that is open has all of them.  If the data did not change between reading
    them and connecting the stream, the last message of an open stream holds the current data; and
    the streams are in states that [EventStream] allows, so all that is queued is delivered. *)
Theorem telemetry_in_order (T : Telemetry) (c : Client) :
  telemetry_reachable ev T → c ∈ clients T →
  reachable (stream c) ∧
  (snapshot c).1 = data_after T (read_at c) ∧
  (∃ k, messages (stream c) = update <$> (snapshot c :: take k (drop (since c) (published T)))) ∧
  (open_stream c = true →
     messages (stream c) = update <$> (snapshot c :: drop (since c) (published T)) ∧
     (read_at c = since c → ∃ now, last (messages (stream c)) = Some (update (currentData (optics T), now)))).
Proof.
  intros [Hcur _ Hcl]%telemetry_reachable_inv Hin. rewrite Forall_forall in Hcl.
  destruct (Hcl c Hin) as [Hs (Hr & Hl & Hd) _ Ho Hm]. split_and!; [done..|].
  intros Ha. specialize (Ho Ha). split; [exact Ho|]. intros He. rewrite Ho, Hcur.
  destruct (decide (since c = length (published T))) as [Hlen|Hlen].
  - rewrite drop_ge by lia. exists (snapshot c).2. simpl. rewrite <- Hlen, <- He, <- Hd. by destruct (snapshot c).
  - destruct (last (published T)) as [[x now]|] eqn:El; [|apply last_None in El; rewrite El in Hlen, Hl; simpl in *; lia].
    exists now. apply last_Some in El as (l & Hp). rewrite (data_after_last T x now l Hp).
    rewrite Hp, length_app in *. simpl in *. rewrite drop_app_le by lia.
    rewrite fmap_app, app_comm_cons. apply last_snoc.
Qed.
End telemetry.

(** The data change after they have been read and before the stream is connected: the client waits, has got
    everything that was queued for it, and does not have the current data. *)
Definition missed_start : Telemetry := telemetry_start (mkOptical None "old").
Definition missed : Telemetry :=
  opticsCreate (λ _, "t") 0 ("old", 0%Z) 0 (opticsChange (λ _, "t") "new" 1 (opticsRequest 0 missed_start)).
Theorem telemetry_misses_change :
  telemetry_reachable (λ _, "t") (mkOptical None "old") missed ∧
  currentData (optics missed) = "new" ∧
  ∃ c, clients missed = [c] ∧ open_stream c = true ∧ messages (stream c) = [update (λ _, "t") ("old", 0%Z)].
Proof.
  split; [|split; [reflexivity|by eexists]].
  eapply rtc_l; [apply (telemetry_request _ _ 0)|]. eapply rtc_l; [apply (telemetry_change _ _ "new" 1)|].
  apply rtc_once. by apply telemetry_create.
Qed.

(** A client that is connected gets a change. *)
Definition told : Telemetry :=
  opticsChange (λ _, "t") "new" 1 (opticsCreate (λ _, "t") 0 ("old", 0%Z) 0 (opticsRequest 0 missed_start)).
Definition told_client : Client :=
  List.hd (mkClient ("", 0%Z) 0 0 (initial None)) (clients told).
Lemma told_reachable : telemetry_reachable (λ _, "t") (mkOptical None "old") told.
Proof.
  eapply rtc_l; [apply (telemetry_request _ _ 0)|]. eapply rtc_l; [by apply (telemetry_create _ _ 0 ("old", 0%Z) 0)|].
  apply rtc_once. apply (telemetry_change _ _ "new" 1).
Qed.
Lemma telemetry_in_order_witness :
  clients told = [told_client] ∧ open_stream told_client = true ∧
  ∃ now, last (messages (stream told_client)) = Some (update (λ _, "t") ("new", now)).
Proof.
  split; [reflexivity|]. split; [reflexivity|].
  destruct (telemetry_in_order (λ _, "t") (mkOptical None "old") told told_client told_reachable) as (_ & _ & _ & H).
  - apply list_elem_of_here.
  - exact (proj2 (H eq_refl) eq_refl).
Defined.
