(* ===== verification/ServerLife.v ===== *)
(** * ServerLife: stopping the server ([restconf/Server.cpp], [restconf/utils/sysrepo.cpp])

    [stop] may be called by a signal handler and is called again by the destructor: it asks the HTTP
    library to stop, tells every stream to end and shuts the subscriptions down.  The destructor waits
    for the HTTP library unless [join] has done so.  At the end, the guard that switches
    the datastore of a session for a scope. *)

From S2P Require Import Prelude Exceptions UriTypes Uuid Libyang YangUtils DynamicSubscriptions DynamicSubscriptionsFacts EventStream Effects.

Section life.
Context {U : UuidLib}.

(** The registry, all event streams, the tasks that stop the HTTP library, whether its threads have ended and
    been waited for.  A client of a subscription is an event stream as well as a stream of the registry. *)
Record Server := mkServer {
  subs : DynamicSubscriptions.World;
  event_streams : list EventStream.World;
  stop_tasks : nat;
  waits : nat;
  joined : bool
}.

(** The signal [shutdownRequested]: the streams that are connected to it call their callbacks and go
    on to end the response. *)
Definition shutdown_stream (w : EventStream.World) : EventStream.World :=
  if terminateSub (es w) then posted w (on_termination (es w)) None else w.
Definition terminate_streams (w : DynamicSubscriptions.World) : DynamicSubscriptions.World :=
  fold_left (λ w i, terminateStream i w) (seq 0 (length (streams w))) w.
Definition stopServer (s : Server) : Server :=
  mkServer (DynamicSubscriptions.stop (terminate_streams (subs s))) (shutdown_stream <$> event_streams s)
    (S (stop_tasks s)) (waits s) (joined s).
(** [http2::join] returns when a task has stopped the library. *)
Definition http_join (s : Server) : option Server :=
  if decide (stop_tasks s = 0) then None
  else Some (mkServer (subs s) (event_streams s) (stop_tasks s) (S (waits s)) (joined s)).
Definition join (s : Server) : option Server :=
  s ← http_join s; Some (mkServer (subs s) (event_streams s) (stop_tasks s) (waits s) true).
Definition destroyServer (s : Server) : option Server :=
  let s := stopServer s in
  if joined s then Some s else http_join s.

(** ** Stopping *)

Lemma terminateStream_streams i w : streams (terminateStream i w) = streams w.
Proof. unfold terminateStream. repeat case_match; done. Qed.
Lemma terminateStream_registry i w : m_subscriptions (terminateStream i w) = m_subscriptions w.
Proof. unfold terminateStream. repeat case_match; done. Qed.
Lemma terminateStream_kept i w l d :
  heap w !! l = Some d →
  ∃ d', heap (terminateStream i w) !! l = Some d' ∧ (sub_state d' = Terminating ∨ d' = d).
Proof.
  intros Hd. unfold terminateStream. destruct (streams w !! i) as [l'|]; [|eauto].
  destruct (heap w !! l') as [e|] eqn:He; [|eauto]. unfold terminate.
  destruct (decide (l = l')) as [->|Hl].
  - rewrite Hd in He. injection He as <-. case_decide; cbn [heap]; rewrite lookup_insert_eq; eauto.
  - case_decide; cbn [heap]; rewrite lookup_insert_ne by done; eauto.
Qed.
Lemma terminateStream_state i w l d :
  streams w !! i = Some l → heap w !! l = Some d →
  ∃ d', heap (terminateStream i w) !! l = Some d' ∧ sub_state d' = Terminating.
Proof.
  intros Hl Hd. unfold terminateStream, terminate. rewrite Hl, Hd.
  case_decide; cbn [heap]; rewrite lookup_insert_eq; eauto.
Qed.

Section fold.
Abbreviation run is_ w := (fold_left (λ w i, terminateStream i w) is_ w).
Lemma terminate_run_streams is_ w : streams (run is_ w) = streams w.
Proof. revert w. induction is_ as [|i is_ IH]; intros w; [done|]. simpl. by rewrite IH, terminateStream_streams. Qed.
Lemma terminate_run_registry is_ w : m_subscriptions (run is_ w) = m_subscriptions w.
Proof. revert w. induction is_ as [|i is_ IH]; intros w; [done|]. simpl. by rewrite IH, terminateStream_registry. Qed.
Lemma terminate_run_kept is_ w l d :
  heap w !! l = Some d → ∃ d', heap (run is_ w) !! l = Some d' ∧ (sub_state d' = Terminating ∨ d' = d).
Proof.
  revert w d. induction is_ as [|i is_ IH]; intros w d Hd; [simpl; eauto|]. simpl.
  destruct (terminateStream_kept i w l d Hd) as (d1 & H1 & Hs1). destruct (IH _ _ H1) as (d2 & H2 & Hs2).
  exists d2. split; [done|]. destruct Hs2 as [?| ->]; auto.
Qed.
Lemma terminate_run_state is_ w i l d :
  i ∈ is_ → streams w !! i = Some l → heap w !! l = Some d →
  ∃ d', heap (run is_ w) !! l = Some d' ∧ sub_state d' = Terminating.
Proof.
  revert w d. induction is_ as [|j is_ IH]; intros w d Hi Hl Hd; [by apply elem_of_nil in Hi|]. simpl.
  apply elem_of_cons in Hi as [<-|Hi].
  - destruct (terminateStream_state i w l d Hl Hd) as (d1 & H1 & Hs1).
    destruct (terminate_run_kept is_ _ l d1 H1) as (d2 & H2 & Hs2). exists d2. split; [done|]. by destruct Hs2; subst.
  - destruct (terminateStream_kept j w l d Hd) as (d1 & H1 & _). apply (IH _ d1); [done| |done].
    by rewrite terminateStream_streams.
Qed.
End fold.

(** Every object is terminating: the ones with a client by the callback of the stream, the registered ones by [stop]. *)
Lemma stop_terminates w l d :
  Inv None w → heap w !! l = Some d →
  ∃ d', heap (DynamicSubscriptions.stop (terminate_streams w)) !! l = Some d' ∧ sub_state d' = Terminating ∧
    (in_registry w l → timer d' = Idle).
Proof.
  intros Hi Hd. unfold terminate_streams. cbn [heap DynamicSubscriptions.stop]. rewrite map_lookup_imap, terminate_run_registry.
  destruct (terminate_run_kept (seq 0 (length (streams w))) w l d Hd) as (d1 & H1 & Hs1). rewrite H1.
  cbn [mbind option_bind]. eexists. split; [reflexivity|]. case_bool_decide as Hreg.
  - split; [done|]. done.
  - split.
    + destruct (inv_live _ _ Hi l d Hd) as [?|[Hl|[u Hu]]]; [done| |].
      * apply list_elem_of_lookup in Hl as [i Hl].
        assert (i ∈ seq 0 (length (streams w))) as Hin by (apply elem_of_seq; apply lookup_lt_Some in Hl; lia).
        destruct (terminate_run_state _ _ i l d Hin Hl Hd) as (d2 & H2 & Hs2). by simplify_eq.
      * destruct Hreg. exists u, l. by split.
    + intros [u Hu]. destruct Hreg. exists u, l. by split.
Qed.
(** A connected stream ends; a stream is connected as long as it is not closed. *)
Lemma shutdown_stream_reachable w : reachable w → reachable (shutdown_stream w).
Proof.
  intros [e H]. unfold shutdown_stream. destruct (terminateSub (es w)); [|by exists e]. exists e.
  eapply rtc_r; [exact H|apply step_terminate].
Qed.
Definition connected (w : EventStream.World) : Prop := state (es w) = Closed ∨ terminateSub (es w) = true.
Lemma connected_step w w' : connected w → EventStream.step w w' → connected w'.
Proof.
  unfold connected. intros Hc Hs. destruct Hs as [w msg|w|w|w t ts Ht|w len r s Hd He Hn Hp|w Hn]; simpl;
    unfold on_ping, on_termination, enqueue; try (by destruct (state (es w)) eqn:E; simpl; rewrite ?E; naive_solver).
  unfold process, send_chunk in Hp. destruct Hc as [|Hc]; [done|]. right.
  destruct (state (es w)) eqn:E; [|simplify_eq; done..].
  rewrite bool_decide_eq_true_2 in Hp by done. simpl in Hp. destruct (send_loop len (queue (es w))) as [out q].
  simpl in Hp. by simplify_eq.
Qed.
Lemma reachable_connected w : reachable w → connected w.
Proof.
  intros [e H]. assert (connected (initial e)) as Hi by (right; by destruct e). induction H; eauto using connected_step.
Qed.
Lemma shutdown_stream_state w :
  reachable w → state (es (shutdown_stream w)) = if decide (state (es w) = Closed) then Closed else WantToClose.
Proof.
  intros Hr. unfold shutdown_stream, on_termination. destruct (reachable_connected w Hr) as [Hs|Ht].
  - rewrite Hs. simpl. by destruct (terminateSub (es w)).
  - rewrite Ht. by destruct (state (es w)) eqn:E.
Qed.

(** Shutting down.  From any state of the server: after [stop], no subscription takes a client or
    has its timer running while it is registered, and every response that is open ends with
    the tasks that have been posted and one read of any size; the HTTP library has been asked
    to stop, so the destructor does not hang, and it waits for the library exactly if
    [join] did not. *)
Theorem stopServer_ends {timestamp anydata : Type} (fromYangTimeFormat : string → M timestamp) (yangTimeFormat : timestamp → string)
    (subscribeNotifications : DynamicSubscriptions.World → option (string + anydata) → string → option timestamp →
       option timestamp → M (N * option timestamp))
    (recoveryUser restconfStreamUri : string) (s : Server) :
  fresh_ids subscribeNotifications →
  DynamicSubscriptionsFacts.reachable recoveryUser fromYangTimeFormat yangTimeFormat subscribeNotifications restconfStreamUri (subs s) →
  Forall reachable (event_streams s) →
  (∀ l d, heap (subs (stopServer s)) !! l = Some d →
     isReadyToAcceptClient d = false ∧ (in_registry (subs (stopServer s)) l → timer d = Idle)) ∧
  Forall (λ w, reachable w ∧
            (state (es w) = Closed ∨ eof w = true ∨ ∀ len, eof (read_step (wake w) len) = true))
    (event_streams (stopServer s)) ∧
  ∃ s', destroyServer s = Some s' ∧ waits s' = (if joined s then waits s else S (waits s)).
Proof.
  intros Hf Hsubs Hst. pose proof (Inv_reachable _ _ _ _ _ _ Hf Hsubs) as Hi. split_and!.
  - intros l d Hd. cbn [subs stopServer] in Hd.
    assert (∃ d0, heap (subs s) !! l = Some d0) as [d0 Hd0].
    { apply (heap_stop (terminate_streams (subs s))) in Hd as (d1 & Hd1 & _). unfold terminate_streams in Hd1. revert Hd1.
      generalize (seq 0 (length (streams (subs s)))) as is_. generalize (subs s) as w. clear.
      intros w is_. revert w d1. induction is_ as [|i is_ IH]; intros w d1 H1; simpl in H1; [eauto|].
      apply IH in H1 as [d2 H2]. unfold terminateStream in H2. destruct (streams w !! i) as [l'|]; [|eauto].
      destruct (heap w !! l') as [e|] eqn:He; [|eauto]. destruct (terminate e (sr_active w)). simpl in H2.
      destruct (decide (l = l')) as [->|]; [eauto|]. rewrite lookup_insert_ne in H2 by done. eauto. }
    destruct (stop_terminates _ _ _ Hi Hd0) as (d' & Hd' & Hs & Ht). rewrite Hd in Hd'. injection Hd' as <-.
    split; [unfold isReadyToAcceptClient; by rewrite Hs|]. intros [u Hu]. apply Ht. exists u.
    cbn [subs stopServer DynamicSubscriptions.stop m_subscriptions] in Hu. unfold terminate_streams in Hu.
    by rewrite terminate_run_registry in Hu.
  - cbn [event_streams stopServer]. apply Forall_fmap. eapply Forall_impl; [exact Hst|]. intros w Hw.
    pose proof (shutdown_stream_reachable w Hw) as Hr. simpl. split; [exact Hr|].
    pose proof (shutdown_stream_state w Hw) as Hs. case_decide; [by left|]. right.
    destruct (eof (shutdown_stream w)) eqn:He; [by left|right]. intros len.
    by destruct (proj1 (stream_terminates _ Hr) Hs He len).
  - unfold destroyServer. cbn [joined stopServer]. destruct (joined s); [by eexists|]. by eexists.
Qed.
End life.

(** A subscription with its client, whose stream is asleep *)
#[local] Existing Instance uuid_ref.
Definition sample_server : Server := mkServer Sample.connected [sample_asleep] 0 0 false.
Lemma sample_asleep_reachable : EventStream.reachable sample_asleep.
Proof.
  destruct sample_reachable as [e H]. exists e. eapply rtc_r; [exact H|].
  refine (eq_ind _ (EventStream.step sample_world) (step_read sample_world 1 Deferred (es sample_world) _ _ _ _) _ _);
    vm_compute; reflexivity || discriminate.
Qed.
Lemma stopServer_ends_witness :
  (∃ l d, heap (subs sample_server) !! l = Some d ∧ sub_state d = ReceiverActive) ∧
  (∃ s', destroyServer sample_server = Some s' ∧ waits s' = 1) ∧
  Forall (λ w, EventStream.reachable w ∧
            (state (es w) = Closed ∨ eof w = true ∨ ∀ len, eof (read_step (wake w) len) = true))
    (event_streams (stopServer sample_server)).
Proof.
  split.
  { exists 0, (mkSub 1 XML nil_uuid "alice" ReceiverActive Idle []). split; [apply Sample.connected_lookup|reflexivity]. }
  destruct (stopServer_ends (timestamp := string) (anydata := unit) Ok id subscribe_example "root" "/streams/" sample_server)
    as (_ & Hs & Hd).
  - apply subscribe_example_fresh.
  - apply Sample.connected_reachable.
  - constructor; [apply sample_asleep_reachable|constructor].
  - split; [exact Hd|exact Hs].
Defined.

(** ** [ScopedDatastoreSwitch] *)

Section scoped.
Context {L : Libyang}.

Open Scope prog_scope.
Definition scopedDatastoreSwitch {A} (ds : Datastore) (body : prog L A) : prog L A :=
  oldDatastore ← call SrActiveDatastore;
  _ ← call (SrSwitchDatastore ds);
  prog_finally body (SrSwitchDatastore oldDatastore).

(** The datastore of the session *)
Definition datastore_next (ds : Datastore) (ev : Event L) : Datastore :=
  match ev with Ev (SrSwitchDatastore ds') (Ok _) => ds' | _ => ds end.
Definition datastore_answers (ds : Datastore) (ev : Event L) : Prop :=
  match ev with
  | Ev SrActiveDatastore x => x = Ok ds
  | Ev (SrSwitchDatastore _) x => x = Ok tt
  | _ => True
  end.
(** Whatever the body does, and however it ends, the datastore of before is active again. *)
Theorem scopedDatastoreSwitch_restores {A} (ds old : Datastore) (body : prog L A) (t : list (Event L)) (r : M A) :
  runs (scopedDatastoreSwitch ds body) t r → all_lawful datastore_next datastore_answers old t →
  watch datastore_next old t = old.
Proof.
  intros Hr Hl.
  assert (wp datastore_next datastore_answers (λ _ _, True) (scopedDatastoreSwitch ds body) (λ s _, s = old) old) as Hw.
  { unfold scopedDatastoreSwitch. apply wp_bind_call. intros x Hx. split; [done|]. simpl in Hx. subst x.
    apply wp_bind_call. intros x Hx. split; [done|]. simpl in Hx. subst x. apply wp_finally.
    eapply wp_mono; [|intros s r' _ x Hx; simpl in Hx; subst x; split; [done|reflexivity]].
    instantiate (1 := λ _ _, True). clear. generalize (datastore_next (datastore_next old (Ev SrActiveDatastore (Ok old))) (Ev (SrSwitchDatastore ds) (Ok tt))).
    induction body as [a|e|c k IH]; intros s; simpl; [done..|]. intros x _. split; [done|]. apply IH. }
  by destruct (wp_runs _ _ _ _ _ _ _ _ Hw Hr Hl) as [_ ?].
Qed.
End scoped.
