(* ===== verification/EditsFacts.v ===== *)
(** * EditsFacts: what the edits ask of libyang, and what they check

    The helpers of [Edits] only use libyang, which the facts about responses and accesses rest on. *)

From S2P Require Import Prelude Exceptions UriTypes X3 Libyang YangUtils UriRequest DataFormat Effects Responses Edits.

Open Scope prog_scope.

Section only.
Context {X : X3} {L : Libyang} {LM : LibyangMore L} (ctx : Context).

Lemma only_isSameNode n seg : only local_cmd (isSameNode n seg).
Proof. unfold isSameNode. solve_only. Qed.
Lemma only_compareKeyValue a b : only local_cmd (compareKeyValue a b).
Proof. unfold compareKeyValue. solve_only. Qed.
Lemma only_message m : only local_cmd (message m).
Proof. unfold message. solve_only. Qed.
Hint Resolve only_isSameNode only_compareKeyValue only_message : effects.
Lemma only_checkListKeys node pre listKeys segKeys i todo :
  only local_cmd (checkListKeys node pre listKeys segKeys i todo).
Proof. revert i. induction todo as [|key todo IH]; intros i; cbn [checkListKeys]; solve_only. Qed.
Hint Resolve only_checkListKeys : effects.
Lemma only_checkKeysMismatch node parentPath seg : only local_cmd (checkKeysMismatch node parentPath seg).
Proof. unfold checkKeysMismatch. solve_only. Qed.
Lemma only_childLeafValue n name : only local_cmd (childLeafValue n name).
Proof. unfold childLeafValue. solve_only. Qed.
Lemma only_implementedModule name : only local_cmd (implementedModule ctx name).
Proof. unfold implementedModule. solve_only. Qed.
Lemma only_latestModule name : only local_cmd (latestModule ctx name).
Proof. unfold latestModule. solve_only. Qed.
Hint Resolve only_checkKeysMismatch only_implementedModule only_latestModule : effects.
Lemma only_yangInsert n w p : only local_cmd (yangInsert ctx n w p).
Proof. unfold yangInsert. solve_only. Qed.
Hint Resolve only_yangInsert : effects.
Lemma only_yangInsertQuery rc n : only local_cmd (yangInsertQuery ctx rc n).
Proof. unfold yangInsertQuery. solve_only. Qed.
Lemma only_yangInsertEdit n w p : only local_cmd (yangInsertEdit ctx n w p).
Proof. unfold yangInsertEdit. solve_only. Qed.
Lemma only_validateInputMetaAttributes n : only local_cmd (validateInputMetaAttributes ctx n).
Proof. unfold validateInputMetaAttributes. solve_only. Qed.
Lemma only_rejectMismatch m : only local_cmd (rejectMismatch m).
Proof. unfold rejectMismatch. solve_only. Qed.
Lemma only_invalidNode {A} n : only local_cmd (@invalidNode L A n).
Proof. unfold invalidNode. solve_only. Qed.
Hint Resolve only_rejectMismatch only_invalidNode : effects.
Lemma only_createEdit uri value f : only ly_cmd (createEditForPutAndPatch ctx uri value f).
Proof. unfold createEditForPutAndPatch. solve_only. Qed.
End only.

#[export] Hint Resolve only_isSameNode only_compareKeyValue only_message only_checkListKeys only_checkKeysMismatch
  only_childLeafValue only_implementedModule only_latestModule only_yangInsert only_yangInsertQuery
  only_yangInsertEdit only_validateInputMetaAttributes only_rejectMismatch only_invalidNode only_createEdit : effects.
