(* ===== verification/PutTarget.v ===== *)
(** * PutTarget: a write changes the resource its URI names

    The data a client sends come as a tree; the URI says which node of it is to be written.  The
    code compares the name of the node, and its keys after libyang has made both values canonical by
    creating nodes for them.  Here the answers of libyang are those of a [Forest]: what
    nodes hold, which children they have, and what a value is in canonical form. *)

From S2P Require Import Prelude Exceptions UriTypes X3 Libyang YangUtils UriRequest UriRequestFacts HttpUtils DataFormat Effects Responses Edits EditsFacts Handlers.

Open Scope prog_scope.

(** ** What libyang holds *)

Section forest.
Context {X : X3} {L : Libyang}.

(** [canon pre name v]: the canonical form of [v] for the key [name] of the list whose path is [pre] without
    predicates; [.] is the value of a leaf-list.  [made n]: the path the node was created for, and the top of the new tree *)
Record Forest := mkForest {
  node_value : DataNode → string;
  node_children : DataNode → list DataNode;
  node_siblings : DataNode → list DataNode;
  node_at : DataNode → string → option DataNode;
  node_find : DataNode → string → list DataNode;
  canon : string → string → string → string;
  made : DataNode → option (string * option DataNode);
  node_opaque : DataNode → bool
}.

Fixpoint assoc (name : string) (l : list (string * string)) : option string :=
  match l with
  | [] => None
  | (k, v) :: l => if decide (k = name) then Some v else assoc name l
  end.
(** A path that is [pre], predicates and the name of a key, or [pre] and the predicate of a leaf-list: the node
    it ends at and the value its predicates give it *)
Definition pathValue (pre path : string) : option (string * string) :=
  match strip_prefix pre path with
  | None => None
  | Some rest =>
      match readPredicates (String.length rest) rest with
      | (predicates, "") => pair "." <$> assoc "." predicates
      | (predicates, String c name) =>
          if is_char "/" c then pair name <$> assoc name predicates else None
      end
  end.

Context (ctx : Context) (F : Forest).

(** The path of the last segment of a URI, without its keys *)
Definition uriPrefix (lyParentPath : string) (lastPathSegment : PathSegment) : string :=
  lyParentPath +:+ "/" +:+ api_name (apiIdent lastPathSegment).
Definition prefix_of_uri (pre : string) : Prop :=
  ∃ uriPath lyParentPath seg, asLibyangPathSplit ctx uriPath = Ok (lyParentPath, seg) ∧ pre = uriPrefix lyParentPath seg.

(** A call may fail; if it does not, the answer is what the forest says.  Creating a node with predicates gives its
    keys the values of the predicates. *)
Definition data_answers (ev : Event L) : Prop :=
  match ev with
  | Ev (LyValueStr n) x => ∀ v, x = Ok v → v = node_value F n
  | Ev (LyImmediateChildren n) x => ∀ l, x = Ok l → l = node_children F n
  | Ev (LySiblings n) x => ∀ l, x = Ok l → l = node_siblings F n
  | Ev (LyIsOpaque n) x => ∀ b, x = Ok b → b = node_opaque F n
  | Ev (LyFindPath n p) x => ∀ o, x = Ok o → o = node_at F n p
  | Ev (LyFindXPath n p) x => ∀ l, x = Ok l → l = node_find F n p
  | Ev (LyNewPath2 p _) x =>
      ∀ top n, x = Ok (top, Some n) →
        made F n = Some (p, top) ∧
        ∀ pre name v, prefix_of_uri pre → pathValue pre p = Some (name, v) → node_value F n = canon F pre name v
  | _ => True
  end.

(** The node has the name and module of the last segment of the URI, and its keys are the ones of the URI. *)
Definition same_key (pre name inData inUri : string) : Prop := canon F pre name inData = canon F pre name inUri.
Definition is_target (pre : string) (node : DataNode) (seg : PathSegment) : Prop :=
  prefix (apiIdent seg) = Some (module_name (schema node)) ∧
  UriTypes.identifier (apiIdent seg) = node_name (schema node) ∧
  (nodeType (schema node) = List → ∀ i key, list_keys (schema node) !! i = Some key →
     ∃ u d, keys seg !! i = Some u ∧ node_at F node (module_name key +:+ ":" +:+ node_name key) = Some d ∧
            same_key pre (node_name key) (node_value F d) u) ∧
  (nodeType (schema node) = Leaflist → ∃ u, keys seg !! 0 = Some u ∧ same_key pre "." (node_value F node) u).

(** ** Reading the paths of the comparison *)

Context {HL : LibyangLaws L}.

Lemma assoc_zip names vs i name v :
  NoDup names → names !! i = Some name → vs !! i = Some v → assoc name (zip names vs) = Some v.
Proof.
  revert vs i. induction names as [|n names IH]; intros [|w vs] i Hnd Hn Hv; try done.
  apply NoDup_cons in Hnd as [Hx Hnd]. destruct i as [|i]; simpl in *.
  - simplify_eq. by rewrite decide_True.
  - rewrite decide_False; [by eapply IH|]. intros ->. by apply Hx, (list_elem_of_lookup_2 _ i).
Qed.
Lemma pathValue_list pre leafs vs p i key v :
  listKeyPredicate leafs vs = Ok p → NoDup (node_name <$> leafs) →
  leafs !! i = Some key → vs !! i = Some v →
  pathValue pre (pre +:+ p +:+ ("/" +:+ node_name key)) = Some (node_name key, v).
Proof.
  intros Hp Hnd Hk Hv. unfold pathValue. rewrite strip_prefix_app.
  rewrite (readPredicates_list leafs vs) by
    (done || apply listKeyPredicate_length in Hp; rewrite str_length_app; simpl; lia).
  rewrite str_app_cons, is_char_refl, str_app_nil_l.
  rewrite (assoc_zip _ _ i (node_name key) v); [done|done| |done]. by rewrite list_lookup_fmap, Hk.
Qed.
Lemma pathValue_leaflist pre v p :
  leaflistKeyPredicate v = Ok p → pathValue pre (pre +:+ p) = Some (".", v).
Proof.
  intros Hp. unfold leaflistKeyPredicate in Hp. inv_result. unfold pathValue. rewrite strip_prefix_app.
  replace ("[.=" +:+ x +:+ "]") with ("[" +:+ "." +:+ "=" +:+ x +:+ "]" +:+ "") by (by rewrite str_app_nil_r).
  rewrite !str_length_app. cbn [String.length Nat.add readPredicates].
  rewrite (readPredicate_app "." v) by done.
  replace (String.length x + 1) with (S (String.length x)) by lia.
  cbn [readPredicates]. by rewrite readPredicate_end.
Qed.
End forest.

(** ** The checks

    [looks]: the commands that neither set an attribute nor join trees.  The monitor does not see them, and its answers are those of the forest. *)

Definition looks {L : Libyang} (c : Cmd L) : bool :=
  match c with LyNewMeta _ _ _ _ | LyNewAttrOpaqueJSON _ _ _ _ | LyInsertSibling _ _ => false | c => ly_cmd c end.

Section checks.
Context {X : X3} {L : Libyang} {LM : LibyangMore L} {HL : LibyangLaws L} (ctx : Context) (F : Forest (L := L)).
Context {S : Type} (next : S → Event L → S) (lawful good : S → Event L → Prop).
Hypothesis next_looks : ∀ s c x, looks c = true → next s (Ev c x) = s ∧ good s (Ev c x).
Hypothesis lawful_data : ∀ s ev, lawful s ev → data_answers ctx F ev.
Hypothesis keys_differ : ∀ n : SchemaNode, NoDup (node_name <$> list_keys n).
Abbreviation wp := (wp next lawful good).

Lemma wp_look {B} c (f : Answer c → prog L B) Q s :
  looks c = true → (∀ e, Q s (Throw e)) → (∀ a, data_answers ctx F (Ev c (Ok a)) → wp (f a) Q s) →
  wp (prog_bind (call c) f) Q s.
Proof.
  intros Hc He Hf. apply wp_bind_call. intros x Hx. destruct (next_looks s c x Hc) as [-> ?]. split; [done|].
  destruct x as [a|e]; [|done]. apply Hf. by apply (lawful_data s).
Qed.
Lemma wp_unwrap {A B} (o : option A) (f : A → prog L B) Q s :
  (∀ e, Q s (Throw e)) → (∀ a, o = Some a → wp (f a) Q s) → wp (prog_bind (unwrap o) f) Q s.
Proof. intros He Hf. destruct o as [a|]; [by apply Hf|apply He]. Qed.
Lemma wp_bind_lift {A B} (m : M A) (f : A → prog L B) Q s :
  (∀ e, m = Throw e → Q s (Throw e)) → (∀ a, m = Ok a → wp (f a) Q s) → wp (prog_bind (lift m) f) Q s.
Proof. intros He Hf. destruct m as [a|e]; [by apply Hf|by apply He]. Qed.

(** What is said of a value if the program returns one, the state of the monitor being the same *)
Definition returning {A} (P : A → Prop) (s : S) (s' : S) (r : M A) : Prop :=
  s' = s ∧ match r with Ok a => P a | Throw _ => True end.
Lemma returning_bind {A B} (P : A → Prop) (p : prog L A) (f : A → prog L B) Q s :
  wp p (returning P s) s → (∀ e, Q s (Throw e)) → (∀ a, P a → wp (f a) Q s) → wp (prog_bind p f) Q s.
Proof.
  intros Hp He Hf. apply wp_bind. eapply wp_mono; [exact Hp|]. intros s' [a|e] [-> Ha]; auto.
Qed.

Lemma isSameNode_wp child seg s :
  wp (isSameNode child seg) (returning (λ same, same = true →
        prefix (apiIdent seg) = Some (module_name (schema child)) ∧
        UriTypes.identifier (apiIdent seg) = node_name (schema child)) s) s.
Proof.
  unfold isSameNode. apply wp_unwrap; [done|]. intros m ->. split; [done|].
  intros [?%bool_decide_eq_true ?%bool_decide_eq_true]%andb_true_iff. by subst.
Qed.
Lemma compareKeyValue_wp pre name va vb a b s :
  prefix_of_uri ctx pre → pathValue pre a = Some (name, va) → pathValue pre b = Some (name, vb) →
  wp (compareKeyValue a b) (returning (λ same, same = true → same_key F pre name va vb) s) s.
Proof.
  intros Hpre Ha Hb. unfold compareKeyValue. apply wp_look; [done|done|]. intros [ta na] HA.
  apply wp_look; [done|done|]. intros [tb nb] HB. apply wp_unwrap; [done|]. intros xa ->.
  apply wp_look; [done|done|]. intros ua Hua. apply wp_unwrap; [done|]. intros xb ->.
  apply wp_look; [done|done|]. intros ub Hub. split; [done|]. intros ->%bool_decide_eq_true. simpl in *.
  pose proof (proj2 (HA _ _ eq_refl) _ _ _ Hpre Ha) as E1. pose proof (proj2 (HB _ _ eq_refl) _ _ _ Hpre Hb) as E2.
  unfold same_key. rewrite <- E1, <- E2, <- (Hua _ eq_refl), <- (Hub _ eq_refl). done.
Qed.

Lemma set_key_Ok ks i v ks' : set_key ks i v = Ok ks' → ks' !! i = Some v ∧ ∃ u, ks !! i = Some u.
Proof.
  unfold set_key. destruct (ks !! i) as [u|] eqn:E; [|done]. intros [= <-].
  split; [|eauto]. apply list_lookup_insert_eq. by eapply lookup_lt_Some.
Qed.
(** The keys from the [i]-th on agree. *)
Lemma checkListKeys_wp node pre segKeys i todo s :
  prefix_of_uri ctx pre → drop i (list_keys (schema node)) = todo →
  wp (checkListKeys node pre (list_keys (schema node)) segKeys i todo)
    (returning (λ mismatch, mismatch = None → ∀ j key, i ≤ j → list_keys (schema node) !! j = Some key →
       ∃ u d, segKeys !! j = Some u ∧ node_at F node (module_name key +:+ ":" +:+ node_name key) = Some d ∧
              same_key F pre (node_name key) (node_value F d) u) s) s.
Proof.
  intros Hpre. revert i. induction todo as [|key todo IH]; intros i Hi; cbn [checkListKeys].
  - split; [done|]. intros _ j key Hj Hk. apply lookup_lt_Some in Hk.
    assert (length (drop i (list_keys (schema node))) = 0) as Hl by (by rewrite Hi). rewrite length_drop in Hl. lia.
  - assert (list_keys (schema node) !! i = Some key) as Hkey.
    { rewrite <- (Nat.add_0_r i), <- lookup_drop, Hi. done. }
    apply wp_look; [done|done|]. intros [d|] Hd; [|by split]. simpl in Hd. specialize (Hd _ eq_refl).
    apply wp_look; [done|done|]. intros v Hv. simpl in Hv. specialize (Hv _ eq_refl).
    apply wp_bind_lift; [done|]. intros ks' (Hks' & u & Hu)%set_key_Ok. cbv zeta.
    apply wp_bind_lift; [done|]. intros fromData HfD. apply wp_bind_lift; [done|]. intros fromURI HfU.
    eapply returning_bind; [|done|].
    + eapply compareKeyValue_wp; [exact Hpre| |]; rewrite ?str_app_assoc;
        (eapply pathValue_list; [eassumption|apply keys_differ|exact Hkey|eassumption]).
    + intros same Hsame. destruct same.
      * eapply wp_mono; [apply (IH (Datatypes.S i))|].
        { by rewrite <- (Nat.add_1_r i), <- drop_drop, Hi. }
        intros s' r [-> Hr]. split; [done|]. destruct r as [m|]; [|done]. intros Hm j k Hj Hk.
        destruct (decide (j = i)) as [->|Hne]; [|apply Hr; [done|lia|done]].
        rewrite Hkey in Hk. injection Hk as <-. exists u, d. subst v. auto.
      * apply wp_bind_lift; [done|]. by intros uriKey _.
Qed.
Lemma checkKeysMismatch_wp node lyParentPath seg s :
  prefix_of_uri ctx (uriPrefix lyParentPath seg) →
  prefix (apiIdent seg) = Some (module_name (schema node)) → UriTypes.identifier (apiIdent seg) = node_name (schema node) →
  wp (checkKeysMismatch node lyParentPath seg)
    (returning (λ mismatch, mismatch = None → is_target F (uriPrefix lyParentPath seg) node seg) s) s.
Proof.
  intros Hpre Hm Hn. unfold checkKeysMismatch. cbv zeta.
  case_decide as Hlist; [|case_decide as Hleaf].
  - eapply wp_mono; [by apply checkListKeys_wp|]. intros s' r [-> Hr]. split; [done|]. destruct r as [m|]; [|done].
    intros Hnone. split_and!; [done|done| |by rewrite Hlist]. intros _ i key Hk. apply (Hr Hnone i key); [lia|done].
  - apply wp_look; [done|done|]. intros v Hv. simpl in Hv. specialize (Hv _ eq_refl).
    apply wp_bind_lift; [done|]. intros fromData HfD. apply wp_bind_lift; [done|]. intros u Hu.
    apply wp_bind_lift; [done|]. intros fromURI HfU. eapply returning_bind; [|done|].
    + eapply compareKeyValue_wp; [exact Hpre| |]; by apply pathValue_leaflist.
    + intros [|] Hsame; (split; [done|]); [|done]. intros _. split_and!; [done|done|by rewrite Hleaf|].
      intros _. exists u. unfold key_at in Hu. destruct (keys seg !! 0); [|done]. simplify_eq. auto.
  - split; [done|]. intros _. by split_and!.
Qed.

(** Where the node of the URI is in the edit: its top, or below the parent the URI names, next to nothing
    but the keys of the parent.  Without a value, it is the node created for the path of the URI. *)
Definition located (uriPath : string) (value : option string) (edit : option DataNode) (target : DataNode) : Prop :=
  match value with
  | Some _ =>
      ∃ lyParentPath seg, asLibyangPathSplit ctx uriPath = Ok (lyParentPath, seg) ∧
        let pre := uriPrefix lyParentPath seg in
        is_target F pre target seg ∧
        if decide (lyParentPath = "") then edit = Some target
        else ∃ parent, made F parent = Some (lyParentPath, edit) ∧ target ∈ node_children F parent ∧
               ∀ child, child ∈ node_children F parent → is_target F pre child seg ∨ isKeyNode parent child = true
  | None => ∃ request, asRestconfRequest ctx "PATCH" uriPath "" = Ok request ∧ made F target = Some (path request, edit)
  end.

Lemma rejectMismatch_wp {B} m (f : unit → prog L B) Q s :
  (∀ e, Q s (Throw e)) → (m = None → wp (f tt) Q s) → wp (prog_bind (rejectMismatch m) f) Q s.
Proof.
  intros He Hf. destruct m as [m|]; [|by apply Hf]. unfold rejectMismatch, message. apply wp_bind_assoc.
  destruct (uriKeyValue m); [apply wp_bind_assoc, wp_look; [done|done|]; intros ? _|]; cbn [prog_bind];
    (apply wp_bind_assoc, wp_look; [done|done|]; intros ? _; apply He).
Qed.
Lemma invalidNode_wp {A B} n (f : A → prog L B) Q s :
  (∀ e, Q s (Throw e)) → wp (prog_bind (invalidNode n) f) Q s.
Proof. intros He. unfold invalidNode. apply wp_bind_assoc, wp_look; [done|done|]. intros ? _. apply He. Qed.

(** The loop over the children of the parent: what has been seen is the target or a key. *)
Lemma children_wp node lyParentPath seg s seen children found :
  let pre := uriPrefix lyParentPath seg in
  let fits l := ∀ child, child ∈ l → is_target F pre child seg ∨ isKeyNode node child = true in
  let from l (o : option DataNode) := match o with Some t => t ∈ l ∧ is_target F pre t seg | None => True end in
  prefix_of_uri ctx pre → fits seen → from seen found →
  wp (foldM (λ replacementNode child,
        same ← isSameNode child seg;
        if same : bool then
          mismatch ← checkKeysMismatch child lyParentPath seg;
          _ ← rejectMismatch mismatch;
          Ret (Some child)
        else if isKeyNode node child then Ret replacementNode
        else invalidNode child) found children)
    (returning (λ o, fits (seen ++ children) ∧ from (seen ++ children) o) s) s.
Proof.
  intros pre fits from Hpre. revert seen found. induction children as [|child children IH]; intros seen found Hs Hf; cbn [foldM].
  { split; [done|]. by rewrite app_nil_r. }
  assert (∀ o, (is_target F pre child seg ∨ isKeyNode node child = true) →
               (match o with Some t => t ∈ seen ++ [child] ∧ is_target F pre t seg | None => True end) →
    wp (foldM (λ replacementNode child,
        same ← isSameNode child seg;
        if same : bool then
          mismatch ← checkKeysMismatch child lyParentPath seg;
          _ ← rejectMismatch mismatch;
          Ret (Some child)
        else if isKeyNode node child then Ret replacementNode
        else invalidNode child) o children)
    (returning (λ o, fits (seen ++ child :: children) ∧ from (seen ++ child :: children) o) s) s) as Hgo.
  { intros o Hc Ho. rewrite cons_middle, app_assoc. apply IH; [|exact Ho].
    intros c [?|Hx%list_elem_of_singleton]%elem_of_app; [auto|]. by subst. }
  apply wp_bind_assoc. eapply returning_bind; [apply isSameNode_wp|done|]. intros [|] Hsame.
  - destruct (Hsame eq_refl) as [Hm Hn]. apply wp_bind_assoc. eapply returning_bind; [by apply checkKeysMismatch_wp|done|].
    intros m Hm'. apply wp_bind_assoc, rejectMismatch_wp; [done|]. intros ->. apply (Hgo (Some child)); [auto|].
    split; [|auto]. rewrite elem_of_app, list_elem_of_singleton. auto.
  - destruct (isKeyNode node child) eqn:Hk; [|by apply invalidNode_wp]. apply (Hgo found); [auto|].
    destruct found as [t|]; [|done]. destruct Hf. rewrite elem_of_app. auto.
Qed.

Lemma createEdit_wp uriPath value f s :
  wp (createEditForPutAndPatch ctx uriPath value f)
    (returning (λ r, ∃ target, r.2 = Some target ∧ located uriPath value r.1 target) s) s.
Proof.
  unfold createEditForPutAndPatch. apply wp_bind_lift; [done|]. intros [lyParentPath seg] Hsplit.
  assert (prefix_of_uri ctx (uriPrefix lyParentPath seg)) as Hpre by (by exists uriPath, lyParentPath, seg).
  eapply (returning_bind (λ r, ∀ target, r.2 = Some target → located uriPath value r.1 target)); [|done|].
  - destruct value as [body|]; [destruct (decide (lyParentPath ≠ "")) as [Hne|He]|].
    + apply wp_look; [done|done|]. intros [parent node] Hmade. apply wp_unwrap; [done|]. intros n ->.
      apply wp_look; [done|done|]. intros _ _. apply wp_look; [done|done|]. intros children Hch.
      simpl in Hch. rewrite (Hch _ eq_refl). eapply returning_bind;
        [apply (children_wp n lyParentPath seg s [] (node_children F n) None); [done| |done]|done|].
      { intros c Hc. by apply elem_of_nil in Hc. }
      intros o [Hfits Ho]. split; [done|]. intros target Hot. simpl in Hot. subst o. destruct Ho as [Hin Ht].
      exists lyParentPath, seg. split; [done|]. split; [exact Ht|]. rewrite decide_False by done.
      destruct (Hmade parent n eq_refl) as [Hm _]. eauto.
    + apply dec_stable in He. apply wp_look; [done|done|]. intros [parent|] _; [|by split].
      eapply returning_bind; [apply isSameNode_wp|done|]. intros [|] Hsame; [|by apply invalidNode_wp].
      destruct (Hsame eq_refl) as [Hm Hn]. cbn [prog_bind]. eapply returning_bind; [by apply checkKeysMismatch_wp|done|].
      intros m Hm'. apply rejectMismatch_wp; [done|]. intros ->. split; [done|]. intros target [= <-].
      exists lyParentPath, seg. split; [done|]. split; [by apply Hm'|]. by rewrite decide_True.
    + apply wp_bind_lift; [done|]. intros request Hreq. refine (wp_call _ _ _ (LyNewPath2 (path request) false) _ s _). intros x Hx.
      destruct (next_looks s (LyNewPath2 (path request) false) x eq_refl) as [-> ?]. split; [done|].
      split; [done|]. destruct x as [[top node]|]; [|done]. intros target Ht. simpl in Ht. subst node. exists request.
      split; [done|]. by apply (lawful_data _ _ Hx).
  - intros [edit [target|]] Hr; [|done]. split; [done|]. exists target. split; [done|]. by apply Hr.
Qed.
End checks.
