(* ===== verification/ServerFacts.v ===== *)
(** * ServerFacts: one response for every request

    The monitor of this file watches the response, and whether the last write or RPC was
    applied.  The theorems are about every trace whose answers are [lawful]: writing a response
    and waiting for a descriptor do not throw, printing a tree succeeds, and libyang and sysrepo throw neither the exceptions of
    the server nor each other's. *)

From S2P Require Import Prelude Exceptions UriTypes Uuid X3 Libyang YangUtils UriRequest HttpUtils DataFormat Nacm Pam HttpAuth DynamicSubscriptions Effects Responses Edits EditsFacts Handlers YangSchemaLocations NotificationStream Server.

Open Scope prog_scope.

(** What libyang and sysrepo may throw. *)
Definition ly_exn (e : exn) : bool :=
  match e with EResponse _ | EAuth _ _ | ESysrepo _ _ | EUndefined _ => false | _ => true end.
Definition sr_exn (e : exn) : bool :=
  match e with EResponse _ | EAuth _ _ | ELibyang _ _ | EUndefined _ => false | _ => true end.

Section laws.
Context {L : Libyang}.

Definition lawful_answer (c : Cmd L) : M (Answer c) → Prop :=
  match c return M (Answer c) → Prop with
  | HttpWriteHead _ _ | HttpEnd _ | HttpEndStream | AsyncWait => λ x, x = Ok tt
  | LyPrintStr _ _ _ => λ x, ∃ s, x = Ok (Some s)
  | c => λ x, ∀ e, x = Throw e → (if ly_cmd c then ly_exn e else sr_exn e) = true
  end.
Definition lawful (ev : Event L) : Prop := let 'Ev c x := ev in lawful_answer c x.

(** ** The monitor *)

Inductive Reply := Head (code : Z) | Body.
#[export] Instance Reply_eq_dec : EqDecision Reply.
Proof. solve_decision. Defined.

(** [applied]: the last write or RPC returned; [found]: what the last query found *)
Record Response := mkResponse { replies : list Reply; applied : bool; found : option bool }.
Definition noResponse : Response := mkResponse [] false None.
Definition reply (r : Reply) (s : Response) : Response := mkResponse (replies s ++ [r]) (applied s) (found s).
Definition with_applied (b : bool) (s : Response) : Response := mkResponse (replies s) b (found s).
Definition with_found (b : option bool) (s : Response) : Response := mkResponse (replies s) (applied s) b.

Definition respond (s : Response) (ev : Event L) : Response :=
  let 'Ev c x := ev in
  match c return M (Answer c) → Response with
  | HttpWriteHead code _ => λ _, reply (Head code) s
  | HttpEnd _ | HttpEndStream => λ _, reply Body s
  | SrEditBatch _ => λ _, with_applied false s
  | SrApplyChanges _ => λ x, with_applied (is_ok x) s
  | SrReplaceConfig _ _ => λ x, with_applied (is_ok x) s
  | SrSendRPC _ _ => λ x, with_applied (is_ok x) s
  | SrGetData _ _ _ _ => λ x, with_found (match x with Ok d => Some (bool_decide (is_Some d)) | Throw _ => None end) s
  | _ => λ _, s
  end x.
Definition responses (t : list (Event L)) : Response := watch respond noResponse t.

Definition no_demand (s : Response) (ev : Event L) : Prop := True.
Definition lawful_in (s : Response) (ev : Event L) : Prop := lawful ev.
Definition answered (t : list (Event L)) : Prop := Forall lawful t.
Lemma answered_all s t : answered t → all_lawful respond lawful_in s t.
Proof. intros H. revert s. induction H; simpl; [done|]. split; [done|auto]. Qed.
End laws.

Abbreviation rwp := (wp respond lawful_in no_demand).

(** One head with this status, and a body. *)
Definition one_reply (code : Z) : list Reply := [Head code; Body].

Section quiet.
Context {L : Libyang}.

Lemma ly_ignored s (c : Cmd L) x : ly_cmd c = true → respond s (Ev c x) = s ∧ no_demand s (Ev c x).
Proof. by destruct c. Qed.
Lemma rwp_ly {A B} (p : prog L A) (f : A → prog L B) Q s :
  only ly_cmd p → (∀ e, Q s (Throw e)) → (∀ a, rwp (f a) Q s) → rwp (prog_bind p f) Q s.
Proof. intros. by apply (wp_bind_quiet _ _ _ ly_cmd); [apply ly_ignored|..]. Qed.
Lemma rwp_ly_end {A} (p : prog L A) (Q : Response → M A → Prop) s :
  only ly_cmd p → (∀ r, Q s r) → rwp p Q s.
Proof. intros. by apply (wp_quiet _ _ _ ly_cmd); [apply ly_ignored|..]. Qed.
Lemma rwp_head {B} code h (f : unit → prog L B) Q s :
  rwp (f tt) Q (reply (Head code) s) → rwp (prog_bind (A := unit) (call (HttpWriteHead code h)) f) Q s.
Proof. intros H. apply wp_bind_call. intros x Hx. simpl in Hx. by subst x. Qed.
Lemma rwp_head_end code h (Q : Response → M unit → Prop) s :
  Q (reply (Head code) s) (Ok tt) → rwp (call (HttpWriteHead code h)) Q s.
Proof. intros H. apply wp_call. intros x Hx. simpl in Hx. by subst x. Qed.
Lemma rwp_body {B} b (f : unit → prog L B) Q s :
  rwp (f tt) Q (reply Body s) → rwp (prog_bind (A := unit) (call (HttpEnd b)) f) Q s.
Proof. intros H. apply wp_bind_call. intros x Hx. simpl in Hx. by subst x. Qed.
Lemma rwp_body_end b (Q : Response → M unit → Prop) s :
  Q (reply Body s) (Ok tt) → rwp (call (HttpEnd b)) Q s.
Proof. intros H. apply wp_call. intros x Hx. simpl in Hx. by subst x. Qed.
Lemma rwp_stream_end (Q : Response → M unit → Prop) s :
  Q (reply Body s) (Ok tt) → rwp (call HttpEndStream) Q s.
Proof. intros H. apply wp_call. intros x Hx. simpl in Hx. by subst x. Qed.
Lemma rwp_print {B} n df flags (f : option string → prog L B) Q s :
  (∀ b, rwp (f (Some b)) Q s) → rwp (prog_bind (call (LyPrintStr n df flags)) f) Q s.
Proof. intros H. apply wp_bind_call. intros x [b Hx]. subst x. split; [done|]. apply H. Qed.
End quiet.

(** [rwp_go]: steps through a program; what throws before the response must satisfy the
    postcondition by computation. *)
Ltac rwp_step :=
  cbv beta;
  match goal with
  | |- wp _ _ _ (prog_bind (prog_bind _ _) _) _ _ => apply wp_bind_assoc
  | |- wp _ _ _ (prog_bind (Ret ?a) ?f) ?Q ?s => change (rwp (f a) Q s)
  | |- wp _ _ _ (prog_bind (Raise ?e) _) ?Q ?s => change (Q s (Throw e))
  | |- wp _ _ _ (prog_bind (raiseResponse _ _ _ _ _) _) ?Q ?s => unfold raiseResponse
  | |- wp _ _ _ (raiseResponse _ _ _ _ _) ?Q ?s => unfold raiseResponse
  | |- wp _ _ _ (prog_bind (match ?x with _ => _ end) _) _ _ => destruct x eqn:?
  | |- wp _ _ _ (Ret ?a) ?Q ?s => change (Q s (Ok a))
  | |- wp _ _ _ (Raise ?e) ?Q ?s => change (Q s (Throw e))
  | |- wp _ _ _ (match ?x with _ => _ end) _ _ => destruct x eqn:?
  | |- wp _ _ _ (prog_bind (call (HttpWriteHead _ _)) _) _ _ => apply rwp_head
  | |- wp _ _ _ (call (HttpWriteHead _ _)) _ _ => apply rwp_head_end
  | |- wp _ _ _ (prog_bind (call (HttpEnd _)) _) _ _ => apply rwp_body
  | |- wp _ _ _ (call (HttpEnd _)) _ _ => apply rwp_body_end
  | |- wp _ _ _ (call HttpEndStream) _ _ => apply rwp_stream_end
  | |- wp _ _ _ (prog_bind (call (LyPrintStr _ _ _)) _) _ _ => apply rwp_print; intros ?
  | |- wp _ _ _ (prog_bind (unwrap (Some ?a)) ?f) ?Q ?s => change (rwp (f a) Q s)
  | |- wp _ _ _ (prog_bind _ _) _ _ => apply rwp_ly; [solve [solve_only]|intros ?|intros ?]
  | |- wp _ _ _ (prog_bind (call ?c) ?f) ?Q ?s =>
      apply (wp_bind_call respond lawful_in no_demand c f Q s); intros [?|?] ?; (split; [done|])
  | |- wp _ _ _ _ _ _ => apply rwp_ly_end; [solve [solve_only]|intros ?]
  | |- wp _ _ _ (call ?c) ?Q ?s =>
      apply (wp_call respond lawful_in no_demand c Q s); intros [?|?] ?; (split; [done|])
  end.
Ltac rwp_go := repeat rwp_step.

(** ** Errors *)

Definition errorStatus (e : exn) : option Z :=
  match e with
  | EResponse e => Some (code e)
  | ELibyang LyValidationFailure _ => Some 400
  | ELibyang _ _ => Some 500
  | ESysrepo SrUnauthorized _ => Some 403
  | ESysrepo SrNotFound _ => Some 400
  | ESysrepo SrItemAlreadyExists _ => Some 409
  | ESysrepo SrValidationFailed _ => Some 400
  | ESysrepo _ _ => Some 500
  | _ => None
  end%Z.

Section errors.
Context {X : X3} {L : Libyang} (ctx : Context).

(** The state after a reply with this status, or after an exception that left no reply *)
Definition replied (code : Z) (s s' : Response) {A} (r : M A) : Prop :=
  match r with Ok _ => s' = reply Body (reply (Head code) s) | Throw _ => s' = s end.

Lemma rejectWithErrorImpl_replies df parent container req code ty tag msg path info s :
  rwp (rejectWithErrorImpl ctx df parent container req code ty tag msg path info)
    (λ s' r, replied code s s' r) s.
Proof. unfold rejectWithErrorImpl. rwp_go; done. Qed.

Definition rejecter_replies (rej : Rejecter (L := L)) : Prop :=
  ∀ df req code ty tag msg path info s,
    rwp (rej df req code ty tag msg path info) (λ s' r, replied code s s' r) s.
Lemma rejectWithError_replies : rejecter_replies (rejectWithError ctx).
Proof.
  intros df req code ty tag msg path info s. unfold rejectWithError. rwp_step; [done|].
  apply rejectWithErrorImpl_replies.
Qed.
End errors.
