(* ===== verification/StatusFacts.v ===== *)
(** * StatusFacts: which exceptions a program may raise

    [raises P p]: against lawful answers, every exception that leaves [p] satisfies [P].  The
    two instances: the errors of the server have a status of at least 400, and what is thrown
    while a response is being written is not one of the exceptions that are answered. *)

From S2P Require Import Prelude Exceptions UriTypes Uuid X3 UriGrammar UriQuery Libyang YangUtils UriRequest HttpUtils DataFormat Effects Responses Edits Handlers YangSchemaLocations NotificationStream Server ServerFacts.

Open Scope prog_scope.

Section throws.
Context (P : exn → bool).

Definition throws {A} (m : M A) : Prop := ∀ e, m = Throw e → P e = true.
Lemma throws_Ok {A} (a : A) : throws (Ok a).
Proof. by intros e. Qed.
Lemma throws_Throw {A} e : P e = true → throws (Throw (A := A) e).
Proof. by intros H e' [= <-]. Qed.
Lemma throws_bind {A B} (m : M A) (f : A → M B) : throws m → (∀ a, throws (f a)) → throws (m ≫= f).
Proof. intros Hm Hf e [H|(a & _ & H)]%bind_Throw_inv; [by apply Hm|by eapply Hf]. Qed.
Lemma throws_fmap {A B} (m : M A) (f : A → B) : throws m → throws (f <$> m).
Proof. intros Hm e H. destruct m as [a|e']; simpl in H; simplify_eq. by apply Hm. Qed.
Lemma throws_if b e : P e = true → throws (throw_if b e).
Proof. intros H e' [_ ->]%throw_if_Throw_inv. done. Qed.
Lemma throws_for_each {A} (f : A → M unit) l : (∀ x, throws (f x)) → throws (for_each f l).
Proof. intros Hf e (x & _ & H)%for_each_Throw. by eapply Hf. Qed.
Lemma throws_catch_as {A} (m : M A) h :
  throws m → (∀ e r, h e = Some r → P (EResponse r) = true) → throws (catch_as m h).
Proof.
  intros Hm Hh e (e' & He & H)%try_catch_Throw_inv. destruct (h e') as [r|] eqn:E; simplify_eq; eauto.
Qed.
End throws.

Section raises.
Context {L : Libyang} (P : exn → bool).

Fixpoint raises {A} (p : prog L A) : Prop :=
  match p with
  | Ret _ => True
  | Raise e => P e = true
  | Vis c k => ∀ x, lawful (Ev c x) → raises (k x)
  end.

Lemma raises_bind {A B} (p : prog L A) (f : A → prog L B) :
  raises p → (∀ a, raises (f a)) → raises (prog_bind p f).
Proof. intros Hp Hf. induction p as [a|e|c k IH]; simpl in *; auto. Qed.
Lemma raises_try {A} (p : prog L A) h :
  raises p → (∀ e, P e = true → raises (h e)) → raises (prog_try p h).
Proof. intros Hp Hf. induction p as [a|e|c k IH]; simpl in *; auto. Qed.
Lemma raises_finally {A} (p : prog L A) d : raises p → raises (prog_finally p d).
Proof. intros Hp. induction p as [a|e|c k IH]; simpl in *; auto. Qed.
Lemma raises_lift {A} (m : M A) : throws P m → raises (lift m).
Proof. intros H. destruct m as [a|e]; simpl; auto. Qed.
Lemma raises_call c :
  (∀ x e, lawful (Ev c x) → x = Throw e → P e = true) → raises (call c).
Proof. intros H x Hx. apply raises_lift. intros e ->. by eapply H. Qed.
Lemma raises_unwrap {A} (o : option A) : (∀ w, P (EUndefined w) = true) → raises (unwrap o).
Proof. intros H. by destruct o; simpl; [|apply H]. Qed.
Lemma raises_foreach {A} (g : A → prog L unit) l : (∀ x, raises (g x)) → raises (foreach g l).
Proof. intros Hg. induction l as [|x l IH]; simpl; [done|]. by apply raises_bind. Qed.
Lemma raises_foldM {A S} (g : S → A → prog L S) s l : (∀ s x, raises (g s x)) → raises (foldM g s l).
Proof. intros Hg. revert s. induction l as [|x l IH]; intros s; simpl; [done|]. by apply raises_bind. Qed.

(** In a run, and as a part of a postcondition *)
Lemma raises_runs {A} (p : prog L A) t e : raises p → runs p t (Throw e) → answered t → P e = true.
Proof.
  revert t. induction p as [a|e'|c k IH]; simpl; intros t Hp Hr Ht.
  - by destruct Hr.
  - by destruct Hr as [_ [= ->]].
  - destruct Hr as (x & t' & -> & Hr). apply Forall_cons in Ht as [Hx Ht]. eauto.
Qed.
Lemma rwp_raises {A} (p : prog L A) Q s :
  raises p → rwp p Q s → rwp p (λ s' r, Q s' r ∧ ∀ e, r = Throw e → P e = true) s.
Proof.
  revert s. induction p as [a|e|c k IH]; intros s Hp Hw; simpl in *.
  - done.
  - split; [done|]. by intros e' [= <-].
  - intros x Hx. destruct (Hw x Hx). auto.
Qed.
End raises.

(** What libyang and sysrepo throw when they obey the law *)
Lemma lawful_throws {L : Libyang} (c : Cmd L) x e :
  lawful (Ev c x) → x = Throw e → (if ly_cmd c then ly_exn e else sr_exn e) = true.
Proof.
  destruct c; simpl; intros Hx ->; try (by apply Hx); try done.
  by destruct Hx as [s Hx].
Qed.

(** Errors that are answered have a status that says so. *)
Definition is_error (e : exn) : bool :=
  match errorStatus e with Some c => (400 <=? c)%Z | None => true end.
(** Exceptions that no handler answers *)
Definition unanswered (e : exn) : bool :=
  match e with EResponse _ | EAuth _ _ | ESysrepo _ _ => false | _ => true end.

Lemma error_ly e : ly_exn e = true → is_error e = true.
Proof. by destruct e as [| |[]|[]| | | | |]. Qed.
Lemma error_sr e : sr_exn e = true → is_error e = true.
Proof. by destruct e as [| |[]|[]| | | | |]. Qed.
Lemma unanswered_ly e : ly_exn e = true → unanswered e = true.
Proof. by destruct e. Qed.

Section instances.
Context {L : Libyang}.
Lemma error_call (c : Cmd L) : raises is_error (call c).
Proof.
  apply raises_call. intros x e Hx He. pose proof (lawful_throws _ _ _ Hx He) as H.
  destruct (ly_cmd c); [by apply error_ly|by apply error_sr].
Qed.
Lemma unanswered_call (c : Cmd L) : ly_cmd c = true → raises unanswered (call c).
Proof.
  intros Hc. apply raises_call. intros x e Hx He. pose proof (lawful_throws _ _ _ Hx He) as H.
  rewrite Hc in H. by apply unanswered_ly.
Qed.
End instances.

Create HintDb throws.
Ltac throws_step :=
  first
    [ done
    | solve [eauto 2 with throws nocore]
    | apply throws_Ok
    | apply throws_Throw; reflexivity
    | apply throws_bind; [|intros ?]
    | apply throws_fmap
    | apply throws_if; reflexivity
    | apply throws_for_each; intros ?
    | apply throws_catch_as; [|intros ? ? ?; repeat case_match; simplify_eq; reflexivity]
    | case_match ].
Ltac solve_throws := repeat (cbv beta; throws_step).
Ltac raises_step :=
  first
    [ done
    | solve [eauto 2 with throws nocore]
    | match goal with |- raises is_error (call ?c) => exact (error_call c) end
    | match goal with |- raises unanswered (call ?c) => exact (unanswered_call c eq_refl) end
    | apply raises_lift; solve [solve_throws]
    | apply raises_unwrap; reflexivity
    | apply raises_bind; [|intros ?]
    | apply raises_try; [|intros ? ?]
    | apply raises_finally
    | apply raises_foreach; intros ?
    | apply raises_foldM; intros ? ?
    | case_match ].
Ltac solve_raises := repeat (cbv beta; raises_step).

(** ** The functions of the URI *)

Section uri.
Context {X : X3} {L : Libyang} {HL : LibyangLaws L}.
Abbreviation te := (throws is_error).

Lemma te_parsePath {A} s (g : parser A) off : te (parse PathSyntax s g off).
Proof. unfold parse. destruct (run _ _); [apply throws_Ok|by apply throws_Throw..]. Qed.
Lemma te_parseQuery {A} s (g : parser A) off : te (parse QuerySyntax s g off).
Proof. unfold parse. destruct (run _ _); [apply throws_Ok|by apply throws_Throw..]. Qed.
Lemma te_asPathSegments s : te (asPathSegments s).
Proof. apply throws_fmap, te_parsePath. Qed.
Lemma te_findPath ctx p : te (findPath ctx p).
Proof. intros e (c & w & ->)%findPath_throws. by destruct c. Qed.
Lemma te_escape s : te (escapeListKey s).
Proof. by intros e (w & ->)%escapeListKey_Throw. Qed.
Hint Resolve te_parsePath te_parseQuery te_asPathSegments te_findPath te_escape : throws.
Lemma te_listKeyPredicate l ks : te (listKeyPredicate l ks).
Proof. revert ks. induction l as [|n l IH]; intros [|k ks]; cbn [listKeyPredicate]; solve_throws. Qed.
Lemma te_leaflistKeyPredicate k : te (leaflistKeyPredicate k).
Proof. unfold leaflistKeyPredicate. solve_throws. Qed.
Hint Resolve te_listKeyPredicate te_leaflistKeyPredicate : throws.
Lemma te_deref {A} (o : option A) : te (deref o).
Proof. destruct o; [apply throws_Ok|by apply throws_Throw]. Qed.
Lemma te_datastoreFromString s : te (datastoreFromString s).
Proof. unfold datastoreFromString. solve_throws. Qed.
Hint Resolve te_deref te_datastoreFromString : throws.
Lemma te_segmentPredicate n ks : te (segmentPredicate n ks).
Proof. unfold segmentPredicate, escapeError. cbv zeta. solve_throws. Qed.
Lemma te_nextNode ctx o a : te (nextNode ctx o a).
Proof. unfold nextNode. solve_throws. Qed.
Hint Resolve te_segmentPredicate te_nextNode : throws.
Lemma te_asLibyangPath_go ctx o res segs : te (asLibyangPath_go ctx o res segs).
Proof. revert o res. induction segs as [|seg segs IH]; intros o res; cbn [asLibyangPath_go]; solve_throws. Qed.
Hint Resolve te_asLibyangPath_go : throws.
Lemma te_asLibyangPath ctx segs : te (asLibyangPath ctx segs).
Proof. unfold asLibyangPath. solve_throws. Qed.
Hint Resolve te_asLibyangPath : throws.
Lemma te_asLibyangSchemaNode ctx segs : te (asLibyangSchemaNode ctx segs).
Proof. unfold asLibyangSchemaNode. solve_throws. Qed.
Lemma te_unique check l m : (∀ k, te (check k)) → te (uniqueParams check l m).
Proof. intros Hc. revert m. induction l as [|[k v] l IH]; intros m; cbn [uniqueParams]; solve_throws. Qed.
Lemma te_validateQueryParameters ps m : te (validateQueryParameters ps m).
Proof.
  unfold validateQueryParameters. cbv zeta. apply throws_bind; [by apply te_unique|intros params].
  solve_throws.
Qed.
Lemma te_checkValidDataResource n p : te (checkValidDataResource n p).
Proof. unfold checkValidDataResource. solve_throws. Qed.
Hint Resolve te_asLibyangSchemaNode te_validateQueryParameters te_checkValidDataResource : throws.
Lemma te_validateMethodForNode m p n : te (validateMethodForNode m p n).
Proof. unfold validateMethodForNode. solve_throws. Qed.
Lemma te_newRestconfRequest t d p q : te (newRestconfRequest t d p q).
Proof. unfold newRestconfRequest, datastoreFromApiIdentifier. solve_throws. Qed.
Hint Resolve te_validateMethodForNode te_newRestconfRequest : throws.
Lemma te_dispatchRequest m u uri q p n : te (dispatchRequest m u uri q p n).
Proof. unfold dispatchRequest. cbv zeta. solve_throws. Qed.
Hint Resolve te_dispatchRequest : throws.
Lemma te_asRestconfRequest ctx m p q : te (asRestconfRequest ctx m p q).
Proof. unfold asRestconfRequest, parseUriPath, parseQueryParams, methodNotAllowed. cbv zeta. solve_throws. Qed.
Lemma te_asLibyangPathSplit ctx p : te (asLibyangPathSplit ctx p).
Proof. unfold asLibyangPathSplit, parseUriPath. solve_throws. Qed.
Lemma te_insertPosition q v : te (insertPosition q v).
Proof. unfold insertPosition, getPoint. destruct v; solve_throws. Qed.
Lemma te_key_at ks i : te (key_at ks i).
Proof. unfold key_at, undefined. solve_throws. Qed.
Lemma te_set_key ks i v : te (set_key ks i v).
Proof. unfold set_key, undefined. solve_throws. Qed.
End uri.

#[export] Hint Resolve te_findPath te_listKeyPredicate te_leaflistKeyPredicate te_asLibyangSchemaNode
  te_asPathSegments te_asRestconfRequest te_asLibyangPathSplit te_insertPosition te_key_at te_set_key : throws.

(** ** The edits and the handlers *)

Section edits.
Context {X : X3} {L : Libyang} {LM : LibyangMore L} {HL : LibyangLaws L} (ctx : Context).
Abbreviation re := (raises is_error).

Lemma re_isSameNode n seg : re (isSameNode n seg).
Proof. unfold isSameNode. solve_raises. Qed.
Lemma re_compareKeyValue a b : re (compareKeyValue a b).
Proof. unfold compareKeyValue. solve_raises. Qed.
Lemma re_message m : re (message m).
Proof. unfold message. solve_raises. Qed.
Hint Resolve re_isSameNode re_compareKeyValue re_message : throws.
Lemma re_checkListKeys node pre listKeys segKeys i todo : re (checkListKeys node pre listKeys segKeys i todo).
Proof. revert i. induction todo as [|key todo IH]; intros i; cbn [checkListKeys]; solve_raises. Qed.
Hint Resolve re_checkListKeys : throws.
Lemma re_checkKeysMismatch node parentPath seg : re (checkKeysMismatch node parentPath seg).
Proof. unfold checkKeysMismatch. cbv zeta. solve_raises. Qed.
Lemma re_childLeafValue n name : re (childLeafValue n name).
Proof. unfold childLeafValue. solve_raises. Qed.
Lemma re_implementedModule name : re (implementedModule ctx name).
Proof. unfold implementedModule. solve_raises. Qed.
Lemma re_latestModule name : re (latestModule ctx name).
Proof. unfold latestModule. solve_raises. Qed.
Hint Resolve re_checkKeysMismatch re_childLeafValue re_implementedModule re_latestModule : throws.
Lemma re_yangInsert n w p : re (yangInsert ctx n w p).
Proof. unfold yangInsert. cbv zeta. solve_raises. Qed.
Hint Resolve re_yangInsert : throws.
Lemma re_yangInsertQuery rc n : re (yangInsertQuery ctx rc n).
Proof. unfold yangInsertQuery. cbv zeta. solve_raises. Qed.
Lemma re_validateInputMetaAttributes n : re (validateInputMetaAttributes ctx n).
Proof. unfold validateInputMetaAttributes. solve_raises. Qed.
Lemma re_rejectMismatch m : re (rejectMismatch m).
Proof. unfold rejectMismatch. solve_raises. Qed.
Lemma re_invalidNode {A} n : re (@invalidNode L A n).
Proof. unfold invalidNode. solve_raises. Qed.
Hint Resolve re_rejectMismatch re_invalidNode re_yangInsertQuery re_validateInputMetaAttributes : throws.
Lemma re_createEdit uri value f : re (createEditForPutAndPatch ctx uri value f).
Proof. unfold createEditForPutAndPatch. solve_raises. Qed.
Hint Resolve re_createEdit : throws.

Context (timeout : N).
Lemma re_processPost rc : re (processPost ctx timeout rc).
Proof. unfold processPost, postTrees. cbv zeta. solve_raises. Qed.
Lemma re_processPutOrPatchRoot rc f : re (processPutOrPatchRoot ctx timeout rc f).
Proof. unfold processPutOrPatchRoot. solve_raises. Qed.
Lemma re_processPutOrPatchNode rc : re (processPutOrPatchNode ctx timeout rc).
Proof. unfold processPutOrPatchNode. cbv zeta. solve_raises. Qed.
Hint Resolve re_processPutOrPatchRoot re_processPutOrPatchNode : throws.
Lemma re_processPutOrPlainPatch rc : re (processPutOrPlainPatch ctx timeout rc).
Proof. unfold processPutOrPlainPatch, withLock. solve_raises. Qed.

Lemma re_checkActionOrRPC rc : re (checkActionOrRPC ctx timeout rc).
Proof. unfold checkActionOrRPC. cbv zeta. solve_raises. Qed.
Lemma re_parseInput rc n : re (parseInput rc n).
Proof. unfold parseInput. solve_raises. Qed.
Lemma re_rpcResponse rc n o : re (rpcResponse rc n o).
Proof. unfold rpcResponse. cbv zeta. solve_raises. Qed.
Lemma re_inputInvalid n : re (inputInvalid n).
Proof. unfold inputInvalid. solve_raises. Qed.
End edits.

#[export] Hint Resolve re_processPost re_processPutOrPlainPatch re_checkActionOrRPC re_parseInput re_rpcResponse
  re_inputInvalid : throws.
