(* ===== verification/HandlersFacts.v ===== *)
(** * HandlersFacts: the outcome of the handlers that read a body

    For the monitor of [ServerFacts]: a handler that returns has written one response, with a status
    that says what was done, and one that throws has written none. *)

From S2P Require Import Prelude Exceptions UriTypes Uuid X3 Libyang YangUtils UriRequest HttpUtils DataFormat Effects Responses Edits EditsFacts Handlers YangSchemaLocations NotificationStream Server ServerFacts StatusFacts.

Open Scope prog_scope.

(** The handlers of dynamic subscriptions only look at the input and fill in the output, and their
    errors have the status of an error. *)
Class DynSubsLaws {L : Libyang} (D : DynSubs L) : Prop := {
  rpcEstablish_only h f i o s : only ly_cmd (rpcEstablishSubscription h f i o s);
  rpcDelete_only h f i o s : only ly_cmd (rpcDeleteSubscription h f i o s);
  rpcEstablish_raises h f i o s : raises is_error (rpcEstablishSubscription h f i o s);
  rpcDelete_raises h f i o s : raises is_error (rpcDeleteSubscription h f i o s)
}.

Section only.
Context {X : X3} {L : Libyang} {LM : LibyangMore L} (ctx : Context).

Lemma only_inputInvalid n : only ly_cmd (inputInvalid n).
Proof. unfold inputInvalid. solve_only. Qed.
Lemma only_postTrees rc f : only ly_cmd (postTrees rc f).
Proof. unfold postTrees. solve_only. Qed.
Lemma only_yangPatchValueAsJSON n : only local_cmd (yangPatchValueAsJSON n).
Proof. unfold yangPatchValueAsJSON. solve_only. Qed.
Lemma only_editPoint rc w p : only local_cmd (editPoint rc w p).
Proof. unfold editPoint. solve_only. Qed.
Hint Resolve only_yangPatchValueAsJSON only_editPoint : effects.
Lemma only_processYangPatchEdit rc n m : only ly_cmd (processYangPatchEdit ctx rc n m).
Proof. unfold processYangPatchEdit. solve_only. Qed.
Lemma only_addOperation f o r : only ly_cmd (addOperation f o r).
Proof. unfold addOperation. solve_only. Qed.
Lemma only_newMember n p v : only ly_cmd (newMember n p v).
Proof. unfold newMember. solve_only. Qed.
Hint Resolve only_addOperation only_newMember : effects.
Lemma only_apiResource t f : only ly_cmd (apiResource ctx t f).
Proof. unfold apiResource. solve_only. Qed.
Lemma only_libyangPrintFlags n p w : only ly_cmd (libyangPrintFlags n p w).
Proof. unfold libyangPrintFlags. solve_only. Qed.
Lemma only_leafValue n p : only ly_cmd (leafValue n p).
Proof. unfold leafValue. solve_only. Qed.
Lemma only_moduleRevision n : only ly_cmd (moduleRevision n).
Proof. unfold moduleRevision. solve_only. Qed.
Hint Resolve only_leafValue only_moduleRevision : effects.
Lemma only_replaceModuleLocation h u n : only ly_cmd (replaceModuleLocation h u n).
Proof. unfold replaceModuleLocation. solve_only. Qed.
Hint Resolve only_replaceModuleLocation : effects.
Lemma only_replaceYangLibraryLocations h u n : only ly_cmd (replaceYangLibraryLocations h u n).
Proof. unfold replaceYangLibraryLocations. solve_only. Qed.
Lemma only_newPathOf n p v : only ly_cmd (newPathOf n p v).
Proof. unfold newPathOf. solve_only. Qed.
Hint Resolve only_newPathOf : effects.
Lemma only_replaceStreamLocation h n : only ly_cmd (replaceStreamLocation h n).
Proof. unfold replaceStreamLocation. solve_only. Qed.
Hint Resolve only_replaceStreamLocation : effects.
Lemma only_replaceStreamLocations h n : only ly_cmd (replaceStreamLocations h n).
Proof. unfold replaceStreamLocations. solve_only. Qed.
Lemma only_rpcHandler {D : DynSubs L} {HD : DynSubsLaws D} p h s f i o w :
  findHandler p = Some h → only ly_cmd (rpcHandler h s f i o w).
Proof.
  unfold findHandler, rpcHandlers. intros H. simpl in H.
  repeat (case_bool_decide; [simplify_eq/=; by apply rpcEstablish_only || by apply rpcDelete_only|]). done.
Qed.
Lemma re_rpcHandler {D : DynSubs L} {HD : DynSubsLaws D} p h s f i o w :
  findHandler p = Some h → raises is_error (rpcHandler h s f i o w).
Proof.
  unfold findHandler, rpcHandlers. intros H. simpl in H.
  repeat (case_bool_decide; [simplify_eq/=; by apply rpcEstablish_raises || by apply rpcDelete_raises|]). done.
Qed.
End only.

#[export] Hint Resolve only_inputInvalid only_postTrees only_yangPatchValueAsJSON only_editPoint
  only_processYangPatchEdit only_apiResource only_libyangPrintFlags only_replaceYangLibraryLocations
  only_replaceStreamLocations only_newMember only_addOperation : effects.

Section handlers.
Context {X : X3} {L : Libyang} {LM : LibyangMore L} {D : DynSubs L} {HD : DynSubsLaws D}.
Context (ctx : Context) (timeout : N).

(** Returned after one response with a status that satisfies [P], or threw before any *)
Definition answers (P : Response → Z → Prop) (s s' : Response) {A} (r : M A) : Prop :=
  match r with
  | Ok _ => ∃ c, replies s' = replies s ++ one_reply c ∧ P s' c
  | Throw _ => replies s' = replies s
  end.
Lemma answers_one c (P : Response → Z → Prop) s s' :
  replies s' = (replies s ++ [Head c]) ++ [Body] → P s' c → answers P s s' (Ok tt).
Proof. intros H HP. exists c. by rewrite H, <- app_assoc. Qed.

Lemma processPost_answers rc s :
  rwp (processPost ctx timeout rc) (λ s' r, answers (λ s' c, c = 201%Z ∧ applied s' = true) s s' r) s.
Proof. unfold processPost. rwp_go; try done. all: by apply (answers_one 201). Qed.

(** For PUT, [201] if nothing was there before *)
Definition put_status (isPut : bool) (found : option bool) : Z :=
  match isPut, found with
  | true, Some false => 201
  | _, _ => 204
  end.
(** At the root always, as the code does *)
Definition edit_status (rc : RequestContext) (found : option bool) : Z :=
  let isPut := bool_decide (req_method (req rc) = "PUT") in
  if decide (path (restconfRequest rc) = "/") then (if isPut then 201 else 204)%Z else put_status isPut found.
Lemma processPutOrPatchRoot_answers rc f s :
  rwp (processPutOrPatchRoot ctx timeout rc f)
    (λ s' r, answers (λ s' c, c = (if decide (req_method (req rc) = "PUT") then 201%Z else 204%Z) ∧ applied s' = true)
               s s' r) s.
Proof. unfold processPutOrPatchRoot. rwp_go; try done. all: by eapply answers_one. Qed.
Lemma processPutOrPatchNode_answers rc s :
  rwp (processPutOrPatchNode ctx timeout rc)
    (λ s' r, answers (λ s' c, c = put_status (bool_decide (req_method (req rc) = "PUT")) (found s') ∧ applied s' = true)
               s s' r) s.
Proof.
  unfold processPutOrPatchNode. destruct (bool_decide (req_method (req rc) = "PUT")); rwp_go; try done.
  all: eapply answers_one; [done|split; [|done]]; simpl. all: by repeat case_bool_decide.
Qed.
Lemma rwp_lock {A} b (p : prog L A) (P : Response → Z → Prop) s :
  rwp p (λ s' r, answers P s s' r) s → rwp (withLock b p) (λ s' r, answers P s s' r) s.
Proof.
  intros Hp. unfold withLock. destruct b; [|done].
  apply wp_bind_call. intros [a|e] Ha; (split; [done|]); [|done]. apply wp_finally. eapply wp_mono; [exact Hp|]. intros s' r H x _. split; done.
Qed.
Lemma processPutOrPlainPatch_answers rc s :
  rwp (processPutOrPlainPatch ctx timeout rc)
    (λ s' r, answers (λ s' c, applied s' = true ∧ c = edit_status rc (found s')) s s' r) s.
Proof.
  unfold processPutOrPlainPatch, edit_status. rwp_go; try done.
  - eapply wp_mono; [apply processPutOrPatchRoot_answers|]. intros s' [] Hr; [|done].
    destruct Hr as (c & ? & Hc & ?). exists c. split; [done|]. split; [done|].
    rewrite Hc. by case_decide; case_bool_decide.
  - eapply (rwp_lock _ _ _ s). eapply wp_mono; [apply processPutOrPatchNode_answers|]. intros s' [] Hr; [|done].
    destruct Hr as (c & ? & ? & ?). by exists c.
Qed.

Lemma rpcResponse_answers rc n o s :
  rwp (rpcResponse rc n o)
    (λ s' r, answers (λ s' c, (c = 200 ∨ c = 204)%Z ∧ applied s' = applied s) s s' r) s.
Proof. unfold rpcResponse. rwp_go; try done. all: eapply answers_one; naive_solver. Qed.

Lemma processInternalRPC_replies n h f w s :
  rwp (processInternalRPC n h f w) (λ s' r, replies s' = replies s) s.
Proof.
  unfold processInternalRPC. rwp_go; try done.
  all: apply rwp_ly; [by eapply only_rpcHandler|done|intros ?]; rwp_go; done.
Qed.
(** The end of an RPC: [b] says whether it was sent to sysrepo. *)
Lemma rpc_end rc n o w (b : bool) s s1 :
  replies s1 = replies s → (b = true → applied s1 = true) →
  rwp (prog_bind (rpcResponse rc n o) (λ _, Ret (w : Subscriptions)))
    (λ s' r, answers (λ s' c, (c = 200 ∨ c = 204)%Z ∧ (b = true → applied s' = true)) s s' r) s1.
Proof.
  intros Hs Hb. apply wp_bind. eapply wp_mono; [apply rpcResponse_answers|].
  intros s' [u|e] H; simpl in *; [|congruence]. destruct H as (c & Hr & Hc & Ha). exists c.
  rewrite Hr, Hs, Ha. done.
Qed.
Lemma checkActionOrRPC_replies rc s :
  rwp (checkActionOrRPC ctx timeout rc) (λ s' r, replies s' = replies s) s.
Proof. unfold checkActionOrRPC. rwp_go; done. Qed.
Lemma parseInput_only rc n : only ly_cmd (parseInput rc n).
Proof. unfold parseInput. solve_only. Qed.
Lemma executeRPC_replies rc n w s :
  rwp (executeRPC timeout rc n w)
    (λ s' r, replies s' = replies s ∧
       (bool_decide (type (restconfRequest rc) = Execute) = true → is_ok r = true → applied s' = true)) s.
Proof.
  unfold executeRPC. destruct (type (restconfRequest rc)) eqn:Et; rwp_go; try done.
  eapply wp_mono; [apply processInternalRPC_replies|]. done.
Qed.
Hint Resolve parseInput_only : effects.
Lemma processActionOrRPC_answers rc w s :
  rwp (processActionOrRPC ctx timeout rc w)
    (λ s' r, answers (λ s' c, (c = 200 ∨ c = 204)%Z ∧
       (bool_decide (type (restconfRequest rc) = Execute) = true → applied s' = true)) s s' r) s.
Proof.
  unfold processActionOrRPC. rwp_step; [|done]. apply wp_bind.
  eapply wp_mono; [apply checkActionOrRPC_replies|]. intros s1 [u|e] H1; [|done].
  rwp_step; [done|]. rwp_step. rwp_step; [done|]. apply wp_bind.
  eapply wp_mono; [apply executeRPC_replies|]. intros s2 [[o' w']|e] [H2 Ha]; [|simpl in *; congruence].
  rwp_step; [simpl in *; congruence|]. apply (rpc_end _ _ _ _ _ s).
  - simpl in *. congruence.
  - intros. by apply Ha.
Qed.

Context {HL : LibyangLaws L}.
Hint Resolve re_rpcHandler : throws.
Lemma re_processInternalRPC n h f w : raises is_error (processInternalRPC n h f w).
Proof. unfold processInternalRPC. solve_raises. Qed.
Hint Resolve re_processInternalRPC : throws.
Lemma re_executeRPC rc n w : raises is_error (executeRPC timeout rc n w).
Proof. unfold executeRPC. solve_raises. Qed.
Hint Resolve re_executeRPC : throws.
Lemma re_processActionOrRPC rc w : raises is_error (processActionOrRPC ctx timeout rc w).
Proof. unfold processActionOrRPC. solve_raises. Qed.
End handlers.

#[export] Hint Resolve re_processActionOrRPC : throws.
