(* ===== verification/SubscriptionRpcFacts.v ===== *)
(** * SubscriptionRpcFacts: the RPCs implement the registry operations

    Against data trees that hold an input, the programs of [SubscriptionRpc] return what the functions
    of [DynamicSubscriptions] specify, and write the output these specify.  Whatever the
    data trees answer, a request changes the registry by one of its steps at most, so every request served
    keeps the registry reachable, and leaves the subscriptions of other users alone. *)

From S2P Require Import Prelude Exceptions UriTypes Uuid X3 Libyang YangUtils UriRequest HttpUtils DataFormat Nacm Pam HttpAuth DynamicSubscriptions DynamicSubscriptionsFacts Effects Responses Edits Handlers YangSchemaLocations NotificationStream Server ServerFacts StatusFacts HandlersFacts SubscriptionRpc.

Open Scope prog_scope.

(** ** The implementation of the registry operations *)

Section refinement.
Context {L : Libyang} {U : UuidLib} (recoveryUser : string).
Context {timestamp : Type} (fromYangTimeFormat : string → M timestamp) (yangTimeFormat : timestamp → string).
Context (subscribeNotifications : World → option (string + DataNode) → string → option timestamp → option timestamp →
           M (N * option timestamp)).
Context (restconfStreamUri : string) (nacmUser : option string) (u : uuid).
Context (rpcInput rpcOutput : DataNode).

(** What the input tree holds: the nodes at the paths, the values of its leaves *)
Record InputTree := mkInputTree {
  input_node : string → option DataNode;
  leaf_value : DataNode → string;
  id_value : N;
  input_path : string
}.
Context (T : InputTree).

Definition input_leaf (p : string) : option string := leaf_value T <$> input_node T p.
Definition input_of : RpcInput :=
  mkInput (input_path T) (input_leaf "encoding") (input_leaf "stream")
    (bool_decide (is_Some (input_node T "stream-filter-name"))) (input_leaf "stop-time")
    match input_leaf "stream-xpath-filter" with
    | Some xpath => Some (inl xpath)
    | None => inr <$> input_node T "stream-subtree-filter"
    end
    (input_leaf "replay-start-time") (id_value T)
    (bool_decide (is_Some (input_node T "/ietf-subscribed-notifications:kill-subscription"))).

(** libyang answers from the tree, and lets the output be written. *)
Definition tree_answers (s : list (string * string)) (ev : Event L) : Prop :=
  match ev with
  | Ev (LyFindPath n p) x => n = rpcInput → x = Ok (input_node T p)
  | Ev (LyValueStr n) x => x = Ok (leaf_value T n)
  | Ev (LyValueUInt32 n) x => x = Ok (id_value T)
  | Ev (LyNodePath n) x => x = Ok (input_path T)
  | Ev (LyNodeNewPath n p v) x => x = Ok (Some n)
  | _ => True
  end.
(** The leaves written to the output *)
Definition output_next (s : list (string * string)) (ev : Event L) : list (string * string) :=
  match ev with
  | Ev (LyNodeNewPath n p (Some v)) (Ok _) => s ++ [(p, v)]
  | _ => s
  end.
Definition output_after (t : list (Event L)) : list (string * string) := watch output_next [] t.
Definition tree_run (t : list (Event L)) : Prop := all_lawful output_next tree_answers [] t.

Abbreviation ends := (ends output_next tree_answers).

Lemma ends_findPath p s : ends (call (LyFindPath rpcInput p)) s s (Ok (input_node T p)).
Proof. apply (ends_call _ _ (LyFindPath rpcInput p)). intros x Hx. split; [by apply Hx|done]. Qed.
Lemma ends_value n s : ends (call (LyValueStr n)) s s (Ok (leaf_value T n)).
Proof. apply (ends_call _ _ (LyValueStr n)). intros x Hx. split; [exact Hx|done]. Qed.
Lemma ends_path n s : ends (call (LyNodePath n)) s s (Ok (input_path T)).
Proof. apply (ends_call _ _ (LyNodePath n)). intros x Hx. split; [exact Hx|done]. Qed.
Lemma ends_outputLeaf p v s : ends (outputLeaf rpcOutput p v) s (s ++ [(p, v)]) (Ok tt).
Proof.
  eapply ends_bind; [|apply ends_Ret]. apply (ends_call _ _ (LyNodeNewPath rpcOutput p (Some v)) _ _ (Some rpcOutput)). intros x Hx. simpl in Hx. rewrite Hx. done.
Qed.
Lemma ends_inputLeaf p s : ends (inputLeaf rpcInput p) s s (Ok (input_leaf p)).
Proof.
  eapply ends_bind; [apply ends_findPath|]. unfold input_leaf.
  destruct (input_node T p) as [n|]; [|done]. eapply ends_bind; [apply ends_value|]. done.
Qed.
Lemma ends_inputTime p s :
  ends (inputTime fromYangTimeFormat rpcInput p) s s (optionalTime fromYangTimeFormat (input_leaf p)).
Proof. eapply ends_bind; [apply ends_inputLeaf|apply ends_lift]. Qed.
Lemma ends_inputFilter s : ends (inputFilter rpcInput) s s (Ok (in_filter input_of)).
Proof.
  eapply ends_bind; [apply ends_inputLeaf|]. unfold input_of. cbn [in_filter].
  destruct (input_leaf "stream-xpath-filter") as [x|]; [done|].
  eapply ends_bind; [apply ends_findPath|]. done.
Qed.

(** [produces p s m]: [p] does what [m] says, the value and the leaves written.  A program that
    throws may have written some of them before. *)
Definition produces {A} (p : prog L A) (s : list (string * string)) (m : M (A * list (string * string))) : Prop :=
  match m with
  | Ok (a, out) => ends p s (s ++ out) (Ok a)
  | Throw e => ∃ s', ends p s s' (Throw e)
  end.
Lemma produces_bind {A B} (p : prog L A) (f : A → prog L B) s m g :
  ends p s s m → (∀ a, m = Ok a → produces (f a) s (g a)) → produces (prog_bind p f) s (m ≫= g).
Proof.
  intros Hp Hf. destruct m as [a|e]; simpl.
  - specialize (Hf a eq_refl). unfold produces in *. destruct (g a) as [[b out]|e].
    + by eapply ends_bind.
    + destruct Hf as [s' Hf]. exists s'. by eapply ends_bind.
  - exists s. by apply ends_bind_Throw.
Qed.
Lemma produces_if {A} (b : bool) e (f : unit → prog L A) s g :
  produces (f tt) s (g tt) →
  produces (prog_bind (if b then Raise e else Ret tt) f) s (throw_if b e ≫= g).
Proof. intros Hf. destruct b; simpl; [|exact Hf]. exists s. done. Qed.
Lemma produces_step {A B} (p : prog L A) (f : A → prog L B) s a m :
  ends p s s (Ok a) → produces (f a) s m → produces (prog_bind p f) s m.
Proof.
  intros Hp Hf. unfold produces in *. destruct m as [[b out]|e]; [by eapply ends_bind|].
  destruct Hf as [s' Hf]. exists s'. by eapply ends_bind.
Qed.

Abbreviation stream_spec :=
  (makeStreamSubscription fromYangTimeFormat yangTimeFormat subscribeNotifications input_of).
Abbreviation establish_spec :=
  (establishSubscription fromYangTimeFormat yangTimeFormat subscribeNotifications restconfStreamUri).

Lemma streamSubscription_produces w s :
  produces (streamSubscription fromYangTimeFormat yangTimeFormat subscribeNotifications rpcInput rpcOutput w) s
    (stream_spec w).
Proof.
  unfold makeStreamSubscription, streamSubscription.
  eapply produces_step; [apply ends_findPath|].
  cbn [in_stream in_stream_filter_name in_stop_time in_replay_start_time input_of]. unfold input_leaf at 1.
  destruct (input_node T "stream") as [n|]; cbn [fmap option_fmap option_map]; [|by exists s].
  eapply produces_step; [apply ends_findPath|]. apply produces_if.
  apply produces_bind; [apply ends_inputTime|]. intros stop _.
  eapply produces_step; [apply ends_inputFilter|].
  apply produces_bind; [apply ends_inputTime|]. intros start _.
  eapply produces_step; [apply ends_value|].
  apply produces_bind; [apply ends_lift|]. intros [id revision] _.
  unfold produces. destruct revision as [r|], start; rewrite ?app_nil_r;
    (eapply ends_bind; [apply ends_outputLeaf || apply ends_Ret|apply ends_Ret]).
Qed.

Abbreviation establish :=
  (establishRpc fromYangTimeFormat yangTimeFormat subscribeNotifications restconfStreamUri nacmUser u).
Lemma establishRpc_produces host format w s :
  produces (establish host format rpcInput rpcOutput w) s
    (establish_spec u (newLocation w) nacmUser host format input_of w).
Proof.
  unfold establishRpc, establishSubscription. destruct host as [host|]; [|unfold produces; cbv beta iota delta [throwResponse]; by exists s].
  eapply produces_step; [apply ends_inputLeaf|].
  apply produces_bind; [apply ends_lift|]. intros fmt _.
  pose proof (streamSubscription_produces w s) as H. unfold produces in H.
  destruct (stream_spec w) as [[id out]|e]; cbn [mbind result_bind try_catch].
  - destruct nacmUser as [usr|]; cbn [YangUtils.deref mbind result_bind try_catch].
    + unfold produces. apply ends_try_Ok.
      eapply ends_bind; [exact H|]. eapply ends_bind; [apply ends_outputLeaf|].
      eapply ends_bind; [apply ends_outputLeaf|]. rewrite <- !app_assoc. apply ends_Ret.
    + eexists. eapply (ends_try_Throw _ _ _ _ _ _ _ (EUndefined "empty optional")); [|apply ends_Raise].
      eapply ends_bind; [exact H|]. eapply ends_bind; [apply ends_outputLeaf|].
      eapply ends_bind; [apply ends_outputLeaf|]. apply ends_bind_Throw. apply ends_Raise.
  - destruct H as [s' H]. unfold produces.
    destruct e; cbv beta iota delta [throwResponse]; exists s'; (eapply ends_try_Throw; [by apply ends_bind_Throw|]); apply ends_Raise.
Qed.

Abbreviation delete := (deleteRpc recoveryUser nacmUser).
Lemma deleteRpc_ends w s :
  is_Some (input_node T "id") →
  ends (delete rpcInput w) s s (deleteSubscription recoveryUser nacmUser input_of w).
Proof.
  intros [idNode Hid]. unfold deleteRpc, deleteSubscription.
  eapply ends_bind; [apply ends_findPath|]. cbv zeta.
  eapply ends_bind; [apply ends_findPath|]. rewrite Hid.
  eapply ends_bind; [apply ends_Ret|].
  eapply ends_bind; [apply (ends_call _ _ (LyValueUInt32 idNode) s s (id_value T)); intros x Hx; by split|].
  cbn [in_id in_is_kill in_path input_of].
  destruct (getSubscriptionForUserById recoveryUser (id_value T) nacmUser w) as [[l d]|].
  2: { eapply ends_bind; [apply ends_path|]. apply ends_Raise. }
  destruct (negb _ && _ && _); cbn [throw_if mbind result_bind].
  { apply ends_bind_Throw. eapply ends_bind; [apply ends_path|]. apply ends_Raise. }
  eapply ends_bind; [apply ends_Ret|]. destruct (bool_decide _); cbn [negb throw_if mbind result_bind].
  - eapply ends_bind; [apply ends_Ret|]. apply ends_Ret.
  - apply ends_bind_Throw. apply ends_Raise.
Qed.

(** C10: the RPC programs implement the operations of the registry: against data trees that hold
    the input, [establish-subscription] returns what [establishSubscription] specifies, errors
    included, and when it succeeds it has written exactly the specified leaves to the output, in order;
    [delete-subscription] and [kill-subscription] return what [deleteSubscription]
    specifies and write nothing. *)
Theorem subscription_rpcs_refine (host : option string) (format : DataFormat) (w : World) (t : list (Event L)) :
  tree_run t →
  (∀ r, runs (establish host format rpcInput rpcOutput w) t r →
     let spec := establish_spec u (newLocation w) nacmUser host format input_of w in
     r = fst <$> spec ∧ ∀ w' out, spec = Ok (w', out) → output_after t = out) ∧
  (∀ r, is_Some (input_node T "id") → runs (delete rpcInput w) t r →
     r = deleteSubscription recoveryUser nacmUser input_of w ∧ output_after t = []).
Proof.
  intros Ht. split.
  - intros r Hr spec. pose proof (establishRpc_produces host format w []) as H. fold spec in H.
    unfold produces in H. destruct spec as [[w' out]|e].
    + destruct (ends_runs _ _ _ _ _ _ _ _ H Hr Ht) as [Ho ->]. split; [done|]. by intros ? ? [= <- <-].
    + destruct H as [s' H]. destruct (ends_runs _ _ _ _ _ _ _ _ H Hr Ht) as [_ ->]. done.
  - intros r Hi Hr. destruct (ends_runs _ _ _ _ _ _ _ _ (deleteRpc_ends w [] Hi) Hr Ht). done.
Qed.
End refinement.

(** ** The laws of the interface

    The RPCs only use data trees, and what they throw has an error status, if sysrepo's call and
    the parser of times throw nothing else. *)
Section laws.
Context {L : Libyang} {U : UuidLib} (recoveryUser : string).
Context {timestamp : Type} (fromYangTimeFormat : string → M timestamp) (yangTimeFormat : timestamp → string).
Context (subscribeNotifications : World → option (string + DataNode) → string → option timestamp → option timestamp →
           M (N * option timestamp)).
Context (restconfStreamUri : string) (nacmUser : option string) (u : uuid).
Hypothesis te_subscribe : ∀ w f s a b, throws is_error (subscribeNotifications w f s a b).
Hypothesis te_time : ∀ s, throws is_error (fromYangTimeFormat s).

Lemma only_inputLeaf (i : @DataNode L) p : only ly_cmd (inputLeaf i p).
Proof. unfold inputLeaf. solve_only. Qed.
Hint Resolve only_inputLeaf : effects.
Lemma only_inputFilter (i : @DataNode L) : only ly_cmd (inputFilter i).
Proof. unfold inputFilter. solve_only. Qed.
Hint Resolve only_inputFilter : effects.
Lemma te_optionalTime o : throws is_error (optionalTime fromYangTimeFormat o).
Proof. unfold optionalTime. destruct o; [by apply throws_fmap|apply throws_Ok]. Qed.
Lemma te_getEncoding e f : throws is_error (getEncoding e f).
Proof. unfold getEncoding. solve_throws. Qed.
Hint Resolve te_optionalTime te_getEncoding : throws.
Lemma re_inputLeaf (i : @DataNode L) p : raises is_error (inputLeaf i p).
Proof. unfold inputLeaf. solve_raises. Qed.
Hint Resolve re_inputLeaf : throws.
Lemma re_inputFilter (i : @DataNode L) : raises is_error (inputFilter i).
Proof. unfold inputFilter. solve_raises. Qed.
Hint Resolve re_inputFilter : throws.
Lemma re_streamSubscription (i o : @DataNode L) w :
  raises is_error (streamSubscription fromYangTimeFormat yangTimeFormat subscribeNotifications i o w).
Proof. unfold streamSubscription, inputTime, outputLeaf. solve_raises. Qed.
Hint Resolve re_streamSubscription : throws.

Lemma dynamicSubscriptions_laws :
  DynSubsLaws (dynamicSubscriptions recoveryUser fromYangTimeFormat yangTimeFormat subscribeNotifications
                 restconfStreamUri nacmUser u).
Proof.
  split; intros; cbn [rpcEstablishSubscription rpcDeleteSubscription dynamicSubscriptions];
    unfold establishRpc, deleteRpc, outputLeaf; cbv zeta.
  - unfold streamSubscription, inputTime, outputLeaf. solve_only.
  - solve_only.
  - solve_raises.
  - solve_raises.
Qed.
End laws.

(** ** Serving requests with the registry *)

Section serve.
Context {X : X3} {L : Libyang} {LM : LibyangMore L} {D : DynSubs L} {B : Base64}.
Context (ctx : Context) (timeout : N) (ANONYMOUS_USER : string).
Context (pam : UserPass → list (PamCall * PamAnswer) → PamCall → PamAnswer) (pam_strerror : Z → string).

(** The registry is what it was, or what an RPC that got it returned. *)
Context (P : Subscriptions → Prop) (w : Subscriptions).
Hypothesis same : P w.
Hypothesis establish_ok : ∀ host format i o, returns P (rpcEstablishSubscription host format i o w).
Hypothesis delete_ok : ∀ host format i o, returns P (rpcDeleteSubscription host format i o w).

Lemma rpcHandler_returns p h host format i o :
  findHandler p = Some h → returns P (rpcHandler h host format i o w).
Proof.
  unfold findHandler, rpcHandlers. intros H. simpl in H.
  repeat (case_bool_decide; [simplify_eq/=; by apply establish_ok || by apply delete_ok|]). done.
Qed.
Lemma processInternalRPC_returns i host format :
  returns (λ r, P r.2) (processInternalRPC i host format w).
Proof.
  unfold processInternalRPC. apply returns_seq. intros p. apply returns_seq. intros [? n]. apply returns_seq. intros n'.
  apply returns_seq. intros allowed. apply returns_seq. intros _.
  destruct (findHandler p) as [h|] eqn:E; [|done].
  apply returns_seq. intros _. apply returns_seq. intros d. apply returns_seq. intros _.
  apply returns_seq. intros [parent out]. apply returns_seq. intros out'. apply returns_bind.
  eapply returns_mono; [by eapply rpcHandler_returns|]. intros w' Hw. by apply returns_seq.
Qed.
Lemma processActionOrRPC_returns rc : returns P (processActionOrRPC ctx timeout rc w).
Proof.
  unfold processActionOrRPC. apply returns_seq. intros _. apply returns_seq. intros _.
  apply returns_seq. intros [? n]. apply returns_seq. intros _. apply returns_bind.
  assert (returns (λ r, P r.2) (executeRPC timeout rc n w)) as H.
  { unfold executeRPC. destruct (type (restconfRequest rc)); try done.
    - apply returns_seq. intros i. by apply returns_seq.
    - apply returns_seq. intros i. apply returns_seq. intros f. apply processInternalRPC_returns. }
  eapply returns_mono; [exact H|]. intros [reply w'] Hw. apply returns_seq. intros i. by apply returns_seq.
Qed.
Lemma onBody_returns rc : returns P (onBody ctx timeout rc w).
Proof.
  assert (returns P (withRestconfExceptions ctx (processActionOrRPC ctx timeout rc w) w (rejectWithError ctx) rc)) as H.
  { apply returns_try; [apply processActionOrRPC_returns|]. intros e. by apply returns_seq. }
  unfold onBody. cbv zeta. destruct (type (restconfRequest rc)); try exact H; try (by apply returns_seq).
  destruct (isYangPatch (req rc)); by apply returns_seq.
Qed.
Lemma receive_returns rc chunks : returns P (receive ctx timeout rc chunks w).
Proof.
  revert rc. induction chunks as [|chunk chunks IH]; intros rc; cbn [receive]; unfold onData.
  - apply onBody_returns.
  - destruct (decide (chunk = "")); [apply onBody_returns|apply IH].
Qed.
Lemma serveRestconf_returns nacm rq chunks :
  returns P (serveRestconf ctx timeout ANONYMOUS_USER pam pam_strerror nacm rq chunks w).
Proof.
  unfold serveRestconf. apply returns_seq. intros [|rc|d reply]; [done|apply receive_returns|].
  by apply returns_seq.
Qed.
End serve.

Section registry.
Context {X : X3} {L : Libyang} {LM : LibyangMore L} {U : UuidLib} {B : Base64}.
Context (ctx : Context) (timeout : N) (ANONYMOUS_USER recoveryUser : string).
Context (pam : UserPass → list (PamCall * PamAnswer) → PamCall → PamAnswer) (pam_strerror : Z → string).
Context {timestamp : Type} (fromYangTimeFormat : string → M timestamp) (yangTimeFormat : timestamp → string).
Context (subscribeNotifications : World → option (string + DataNode) → string → option timestamp → option timestamp →
           M (N * option timestamp)).
Context (restconfStreamUri : string) (nacmUser : option string) (u : uuid).

Abbreviation establish_spec :=
  (establishSubscription fromYangTimeFormat yangTimeFormat subscribeNotifications restconfStreamUri).
Abbreviation reachable :=
  (reachable recoveryUser fromYangTimeFormat yangTimeFormat subscribeNotifications restconfStreamUri).

(** An RPC that returns has done a registry operation on some input. *)
Definition rpc_step (w w' : World) : Prop :=
  (∃ host format input out, establish_spec u (newLocation w) nacmUser host format input w = Ok (w', out)) ∨
  (∃ input, deleteSubscription (anydata := @DataNode L) recoveryUser nacmUser input w = Ok w').

Lemma newLocation_fresh w : heap w !! newLocation w = None.
Proof. apply not_elem_of_dom, is_fresh. Qed.
Lemma establishRpc_returns host format i o w :
  returns (rpc_step w)
    (establishRpc fromYangTimeFormat yangTimeFormat subscribeNotifications restconfStreamUri nacmUser u host format i o w).
Proof.
  unfold establishRpc. destruct host as [host|]; [|done].
  apply returns_seq. intros encoding. apply returns_bind, returns_lift. intros fmt Hfmt.
  apply returns_try; [|by intros []]. apply returns_bind.
  apply (returns_mono (λ id, ∃ filter stream (stop start : option timestamp) rev (ss st : option string),
    optionalTime fromYangTimeFormat ss = Ok stop ∧ optionalTime fromYangTimeFormat st = Ok start ∧
    subscribeNotifications w filter stream stop start = Ok (id, rev))).
  - unfold streamSubscription. apply returns_seq. intros [n|]; [|done].
    apply returns_seq. intros ?. apply returns_seq. intros _.
    apply (returns_bind _ (inputTime _ _ _)). unfold inputTime at 1. apply returns_seq. intros ss.
    apply returns_lift. intros stop Hstop. apply returns_seq. intros filter.
    apply returns_bind. unfold inputTime. apply returns_seq. intros st. apply returns_lift. intros start Hstart.
    apply returns_seq. intros stream. apply returns_bind, returns_lift. intros [id rev] Hid.
    apply returns_seq. intros _. simpl. exists filter, stream, stop, start, rev, ss, st. done.
  - intros id (filter & stream & stop & start & rev & ss & st & Hss & Hst & Hid).
    apply returns_seq. intros _. apply returns_seq. intros _. destruct nacmUser as [usr|] eqn:Eu; [|done].
    left. eexists (Some host), format, (mkInput "" encoding (Some stream) false ss filter st 0 false), _.
    unfold establishSubscription, makeStreamSubscription. cbn [in_encoding in_stream in_stream_filter_name in_stop_time
      in_filter in_replay_start_time]. rewrite Hfmt. cbn [mbind result_bind throw_if]. rewrite Hss. cbn [mbind result_bind].
    rewrite Hst. cbn [mbind result_bind]. rewrite Hid. cbn [mbind result_bind]. rewrite Eu. reflexivity.
Qed.
Lemma deleteRpc_returns i w : returns (rpc_step w) (deleteRpc recoveryUser nacmUser i w).
Proof.
  unfold deleteRpc. apply returns_seq. intros kill. cbv zeta. apply returns_seq. intros n.
  apply returns_seq. intros n'. apply returns_seq. intros id.
  destruct (getSubscriptionForUserById recoveryUser id nacmUser w) as [[l d]|] eqn:E; [|by apply returns_seq].
  destruct (negb _ && _ && _) eqn:E2; [apply returns_bind; apply returns_seq; intros p; exact I|]. apply returns_seq. intros _.
  destruct (bool_decide (subscriptionId d ∈ sr_active w)) eqn:E3; [|done]. right.
  exists (mkInput "" None None false None None None id (bool_decide (is_Some kill))).
  unfold deleteSubscription. cbn [in_id in_is_kill in_path]. rewrite E, E2. cbn [throw_if mbind result_bind]. rewrite E3.
  reflexivity.
Qed.

(** What an RPC keeps: the registry is reachable, and other users' subscriptions are as before. *)
Definition others_kept (w w' : World) : Prop :=
  ∀ v l d, v ≠ u → m_subscriptions w !! v = Some l → heap w !! l = Some d →
    nacmUser ≠ Some (user d) → nacmUser ≠ Some recoveryUser →
    m_subscriptions w' !! v = Some l ∧ heap w' !! l = Some d.
Lemma rpc_step_reachable w w' : rpc_step w w' → reachable w → reachable w'.
Proof.
  intros Hs Hr. eapply rtc_r; [exact Hr|]. destruct Hs as [(host & format & input & out & H)|(input & H)].
  - eapply step_establish; [apply newLocation_fresh|exact H].
  - eapply step_delete. exact H.
Qed.
Lemma rpc_step_others w w' : Inv None w → rpc_step w w' → others_kept w w'.
Proof.
  intros Hi Hs v l d Hv Hl Hd Hu Hrec. destruct (inv_registry _ _ Hi v l Hl) as (d0 & Hd0 & Hid).
  rewrite Hd in Hd0. injection Hd0 as <-. destruct Hs as [(host & format & input & out & H)|(input & H)].
  - apply establish_registers in H as (id & fmt & us & ->).
    assert (newLocation w ≠ l) as Hne by (intros <-; by rewrite newLocation_fresh in Hd).
    unfold register. destruct (m_subscriptions w !! u) as [l'|] eqn:Eu.
    + destruct (inv_registry _ _ Hi u l' Eu) as (d' & Hd' & Hid').
      rewrite release_registry, release_heap by congruence. simpl. by rewrite !lookup_insert_ne.
    + simpl. by rewrite !lookup_insert_ne.
  - apply deleteSubscription_Ok in H as (u' & l' & d' & Hu' & Hd' & Hid' & _ & Hm & ->); [|done].
    assert (l' ≠ l) as Hne.
    { intros ->. rewrite Hd in Hd'. injection Hd' as <-. unfold mayUse in Hm.
      apply orb_true_iff in Hm as [Hm%bool_decide_eq_true|Hm%bool_decide_eq_true]; congruence. }
    rewrite release_registry, release_heap by done. simpl. rewrite lookup_delete_ne; [done|]. congruence.
Qed.

End registry.

Section handlers.
Context {X : X3} {L : Libyang} {LM : LibyangMore L} {U : UuidLib} {B : Base64}.
Context (ctx : Context) (timeout : N) (ANONYMOUS_USER recoveryUser : string).
Context (pam : UserPass → list (PamCall * PamAnswer) → PamCall → PamAnswer) (pam_strerror : Z → string).
Context {timestamp : Type} (fromYangTimeFormat : string → M timestamp) (yangTimeFormat : timestamp → string).
Context (subscribeNotifications : World → option (string + DataNode) → string → option timestamp → option timestamp →
           M (N * option timestamp)).

(** The server with the registry behind the interface of the handlers: the user of the
    session is the one the request was authorized for. *)
Definition serve (u : uuid) (nacm : Nacm) (rq : Request) (chunks : list string) (w : World) : prog L World :=
  serveRestconf
    (D := dynamicSubscriptions recoveryUser fromYangTimeFormat yangTimeFormat subscribeNotifications netconfStreamRoot
            (sessionUser ANONYMOUS_USER pam pam_strerror nacm rq) u)
    ctx timeout ANONYMOUS_USER pam pam_strerror nacm rq chunks w.

Abbreviation reachable :=
  (reachable recoveryUser fromYangTimeFormat yangTimeFormat subscribeNotifications netconfStreamRoot).

(** C11: whatever a request is and whatever libyang and sysrepo answer, serving it leaves the
    registry of subscriptions in a reachable state, so that its invariant holds after every request, and
    every subscription that is neither the user's own nor, for the recovery user, anybody's, is still
    registered, with its state, under its UUID: no HTTP request can
    disturb the subscriptions of other users. *)
Theorem serveRestconf_subscriptions (u : uuid) (nacm : Nacm) (rq : Request) (chunks : list string) (w w' : World)
    (t : list (Event L)) :
  fresh_ids subscribeNotifications → reachable w → runs (serve u nacm rq chunks w) t (Ok w') →
  reachable w' ∧ others_kept recoveryUser (sessionUser ANONYMOUS_USER pam pam_strerror nacm rq) u w w'.
Proof.
  intros Hf Hr Ht. pose proof (Inv_reachable _ _ _ _ _ w Hf Hr) as Hi.
  set (usr := sessionUser ANONYMOUS_USER pam pam_strerror nacm rq).
  set (P := λ w1 : World, reachable w1 ∧ others_kept recoveryUser usr u w w1).
  apply (returns_runs P (serve u nacm rq chunks w) t w'); [|exact Ht]. unfold serve.
  assert (∀ w1, rpc_step recoveryUser fromYangTimeFormat yangTimeFormat subscribeNotifications netconfStreamRoot usr u w w1 →
    P w1) as Hs.
  { intros w1 H1. split; [by eapply rpc_step_reachable|by eapply rpc_step_others]. }
  apply (serveRestconf_returns (D := dynamicSubscriptions _ _ _ _ _ _ _) _ _ _ _ _ P).
  - split; [done|]. by intros v l d.
  - intros host format i o. eapply returns_mono; [apply establishRpc_returns|exact Hs].
  - intros host format i o. eapply returns_mono; [apply deleteRpc_returns|exact Hs].
Qed.
End handlers.
