(* ===== verification/ServerResponses.v ===== *)
(** * ServerResponses: every request gets one response

    The theorems about the response of the handlers of [Server], for every trace of answers of
    libyang and sysrepo that is lawful. *)

From S2P Require Import Prelude Exceptions UriTypes Uuid X3 Libyang YangUtils UriRequest HttpUtils DataFormat Nacm Pam HttpAuth DynamicSubscriptions Effects Responses Edits EditsFacts Handlers YangSchemaLocations NotificationStream SubscriptionStream Server ServerFacts StatusFacts HandlersFacts.

Open Scope prog_scope.

Section exceptions.
Context {X : X3} {L : Libyang} (ctx : Context).

(** The catch clauses: one response with the status of the exception, or the exception passes. *)
Lemma restconfExceptions_replies rej rc e s :
  rejecter_replies rej →
  rwp (restconfExceptions ctx rej rc e)
    (λ s' r, match r with
             | Ok _ => ∃ c, errorStatus e = Some c ∧ s' = reply Body (reply (Head c) s)
             | Throw e' => s' = s ∧ (errorStatus e = None → e' = e)
             end) s.
Proof.
  intros Hrej.
  assert (∀ c df rq ty tag msg p i, errorStatus e = Some c →
    rwp (rej df rq c ty tag msg p i)
      (λ s' r, match r with
               | Ok _ => ∃ c, errorStatus e = Some c ∧ s' = reply Body (reply (Head c) s)
               | Throw e' => s' = s ∧ (errorStatus e = None → e' = e)
               end) s) as Hr.
  { intros c df rq ty tag msg p i Hc. eapply wp_mono; [apply Hrej|].
    intros s' [u|e'] H; simpl in H; [eauto|]. split; [done|]. by rewrite Hc. }
  destruct e as [r|what d|[|n] what|[| | | | |n] what|what|what|what|what|what]; simpl; try by apply Hr.
  all: try done.
  apply rwp_ly; [|done|].
  - unfold requestIsAction. solve_only.
  - intros b. by apply Hr.
Qed.
End exceptions.

Section body.
Context {X : X3} {L : Libyang} {LM : LibyangMore L} {HL : LibyangLaws L} {D : DynSubs L} {HD : DynSubsLaws D}.
Context (ctx : Context) (timeout : N).

(** A run of a handler under [withRestconfExceptions]: the handler returned, or it threw an
    exception that was answered or that passed. *)
Lemma withRestconfExceptions_runs {A} (func : prog L A) old rc P t r :
  (∀ s, rwp func (λ s' r, answers P s s' r) s) →
  runs (withRestconfExceptions ctx func old (rejectWithError ctx) rc) t r → answered t →
  match r with
  | Ok a =>
      ∃ c, replies (responses t) = one_reply c ∧
        ((runs func t (Ok a) ∧ P (responses t) c) ∨
         (∃ e t1 t2, t = t1 ++ t2 ∧ runs func t1 (Throw e) ∧ errorStatus e = Some c ∧ a = old))
  | Throw e' => replies (responses t) = [] ∧
      ∃ e t1 t2, t = t1 ++ t2 ∧ runs func t1 (Throw e) ∧ (errorStatus e = None → e' = e)
  end.
Proof.
  intros Hf Hr Ht. unfold withRestconfExceptions in Hr. apply runs_try in Hr as [(a & -> & Hr)|(e & t1 & t2 & -> & H1 & H2)].
  - destruct (wp_runs _ _ _ _ _ _ _ _ (Hf noResponse) Hr (answered_all _ _ Ht)) as [_ (c & Hc & HP)].
    exists c. simpl in Hc. split; [done|]. left. done.
  - apply Forall_app in Ht as [Ht1 Ht2].
    destruct (wp_runs _ _ _ _ _ _ _ _ (Hf noResponse) H1 (answered_all _ _ Ht1)) as [_ Hs1]. simpl in Hs1.
    assert (rwp (prog_bind (restconfExceptions ctx (rejectWithError ctx) rc e) (λ _, Ret old))
      (λ s' r, match r with
               | Ok a => ∃ c, errorStatus e = Some c ∧ replies s' = one_reply c ∧ a = old
               | Throw e' => replies s' = [] ∧ (errorStatus e = None → e' = e)
               end) (responses t1)) as Hw.
    { apply wp_bind. eapply wp_mono; [apply restconfExceptions_replies, rejectWithError_replies|].
      intros s' [u|e'] H; simpl in H.
      - destruct H as (c & ? & ->). simpl. exists c. unfold responses. rewrite Hs1. done.
      - destruct H as [-> ?]. done. }
    destruct (wp_runs _ _ _ _ _ _ _ _ Hw H2 (answered_all _ _ Ht2)) as [_ Hs2].
    unfold responses. rewrite watch_app. destruct r as [a|e'].
    + destruct Hs2 as (c & Hc & Hrep & ->). exists c. split; [done|]. right. exists e, t1, t2. done.
    + destruct Hs2 as [Hrep He]. split; [done|]. exists e, t1, t2. done.
Qed.

(** What the handler of a complete body has done when it returns with status [c] *)
Definition handled (rc : RequestContext) (s : Response) (c : Z) : Prop :=
  match type (restconfRequest rc) with
  | Execute => (c = 200 ∨ c = 204)%Z ∧ applied s = true
  | ExecuteInternal => (c = 200 ∨ c = 204)%Z
  | CreateChildren => c = 201%Z ∧ applied s = true
  | _ => applied s = true ∧ c = edit_status rc (found s)
  end.
Definition processBody (rc : RequestContext) (subs : Subscriptions) : prog L Subscriptions :=
  match type (restconfRequest rc) with
  | Execute | ExecuteInternal => processActionOrRPC ctx timeout rc subs
  | CreateChildren => _ ← processPost ctx timeout rc; Ret subs
  | _ => _ ← processPutOrPlainPatch ctx timeout rc; Ret subs
  end.
Definition plain (rc : RequestContext) : bool :=
  negb (bool_decide (type (restconfRequest rc) = MergeData) && isYangPatch (req rc)).

Lemma processBody_answers rc subs s :
  rwp (processBody rc subs) (λ s' r, answers (handled rc) s s' r) s.
Proof.
  assert (∀ (p : prog L unit) P, (∀ s' c, P s' c → handled rc s' c) →
    rwp p (λ s' r, answers P s s' r) s →
    rwp (prog_bind p (λ _, Ret subs)) (λ s' r, answers (handled rc) s s' r) s) as Hw.
  { intros p P HP Hp. apply wp_bind. eapply wp_mono; [exact Hp|]. intros s' [u|e] H; [|done].
    destruct H as (c & ? & ?). exists c. eauto. }
  unfold processBody. destruct (type (restconfRequest rc)) eqn:Et;
    try (eapply Hw; [|apply processPutOrPlainPatch_answers]; unfold handled; rewrite Et; done).
  - eapply wp_mono; [apply processActionOrRPC_answers|]. intros s' [w|e] H; [|done].
    destruct H as (c & ? & ? & Ha). exists c. unfold handled. rewrite Et in *. split; [done|].
    split; [done|]. by apply Ha.
  - eapply wp_mono; [apply processActionOrRPC_answers|]. intros s' [w|e] H; [|done].
    destruct H as (c & ? & ? & Ha). exists c. unfold handled. by rewrite Et.
  - eapply Hw; [|apply processPost_answers]. unfold handled. by rewrite Et.
Qed.

(** What is known of a handled body: it was handled with this status, or the exception that
    stopped it is the one the status stands for. *)
Definition body_outcome (rc : RequestContext) (subs : Subscriptions) (t : list (Event L)) (r : M Subscriptions) : Prop :=
  match r with
  | Ok _ =>
      ∃ c, replies (responses t) = one_reply c ∧
        (handled rc (responses t) c ∨
         ∃ e t1 t2, t = t1 ++ t2 ∧ runs (processBody rc subs) t1 (Throw e) ∧ errorStatus e = Some c ∧ (400 ≤ c)%Z)
  | Throw e' => replies (responses t) = [] ∧
      ∃ e t1 t2, t = t1 ++ t2 ∧ runs (processBody rc subs) t1 (Throw e) ∧ (errorStatus e = None → e' = e)
  end.

Lemma re_processBody rc subs : raises is_error (processBody rc subs).
Proof. unfold processBody. solve_raises. Qed.
Lemma processBody_error rc subs t e c :
  runs (processBody rc subs) t (Throw e) → answered t → errorStatus e = Some c → (400 ≤ c)%Z.
Proof.
  intros Hr Ht He. pose proof (raises_runs _ _ _ _ (re_processBody rc subs) Hr Ht) as H.
  unfold is_error in H. rewrite He in H. by apply Z.leb_le in H.
Qed.

Lemma write_outcome rc subs (func : prog L unit) P t r :
  processBody rc subs = prog_bind func (λ _, Ret subs) →
  (∀ s, rwp func (λ s' r, answers P s s' r) s) → (∀ s c, P s c → handled rc s c) →
  runs (prog_bind (withRestconfExceptions ctx func tt (rejectWithError ctx) rc) (λ _, Ret subs)) t r →
  answered t → body_outcome rc subs t r.
Proof.
  intros Hb Hf HP Hr Ht.
  apply runs_bind in Hr as [(u & t1 & t2 & -> & Hr & [-> ->])|(e & -> & Hr)].
  - rewrite app_nil_r in *. eapply withRestconfExceptions_runs in Hr; [|done..].
    destruct Hr as (c & Hc & [[_ H]|(e & t1' & t2 & -> & H & He & _)]); exists c; (split; [done|]).
    + left. auto.
    + apply Forall_app in Ht as [Ht _]. right. exists e, t1', t2.
      assert (runs (processBody rc subs) t1' (Throw e)) by (rewrite Hb; by apply runs_bind_Throw).
      eauto 10 using processBody_error.
  - eapply withRestconfExceptions_runs in Hr; [|done..].
    destruct Hr as (Hc & e' & t1' & t2 & -> & H & He). split; [done|].
    exists e', t1', t2. rewrite Hb. eauto using runs_bind_Throw.
Qed.

Lemma rpc_outcome rc subs t r :
  processBody rc subs = processActionOrRPC ctx timeout rc subs →
  runs (withRestconfExceptions ctx (processActionOrRPC ctx timeout rc subs) subs (rejectWithError ctx) rc) t r →
  answered t → body_outcome rc subs t r.
Proof.
  intros Hb Hr Ht. rewrite <- Hb in Hr.
  eapply withRestconfExceptions_runs in Hr; [|intros; apply processBody_answers|done].
  unfold body_outcome. destruct r as [w|e'].
  - destruct Hr as (c & Hc & [[_ ?]|(e & t1 & t2 & -> & ? & ? & _)]); exists c; [eauto|].
    apply Forall_app in Ht as [Ht _]. eauto 12 using processBody_error.
  - destruct Hr as (Hc & e & t1 & t2 & -> & ? & ?). eauto 10.
Qed.

(** C15: the handler of a complete body other than a YANG patch (for which see [yang_patch_answers]) that returns has sent exactly
    one response.  Its status tells what happened: a success status is sent only after sysrepo
    has applied the edit or executed the RPC; it is [201] for PUT of a data resource exactly if nothing was there before, and for PUT of
    the whole datastore always; and any other response has the status, at
    least 400, of the exception that stopped the handler.  An exception leaves
    the handler only without a response, and is then the one that stopped it or comes from
    building the error response. *)
Theorem onBody_responds_once (rc : RequestContext) (subs : Subscriptions) (t : list (Event L)) (r : M Subscriptions) :
  plain rc = true → runs (onBody ctx timeout rc subs) t r → answered t → body_outcome rc subs t r.
Proof.
  intros Hp Hr Ht. unfold onBody in Hr. unfold plain in Hp.
  destruct (type (restconfRequest rc)) eqn:Et;
    try (eapply write_outcome; [unfold processBody; by rewrite Et
        |intros; apply processPutOrPlainPatch_answers|unfold handled; by rewrite Et|done|done]).
  - eapply rpc_outcome; [|done..]. unfold processBody. by rewrite Et.
  - eapply rpc_outcome; [|done..]. unfold processBody. by rewrite Et.
  - eapply write_outcome; [unfold processBody; by rewrite Et|intros; apply processPost_answers
      |unfold handled; by rewrite Et|done|done].
  - case_bool_decide; [|done]. simpl in Hp. apply negb_true_iff in Hp. rewrite Hp in Hr.
    eapply write_outcome; [unfold processBody; by rewrite Et
        |intros; apply processPutOrPlainPatch_answers|unfold handled; by rewrite Et|done|done].
Qed.
End body.

(** ** The handlers of [/restconf/] and [/yang/] *)

Section late.
Context {L : Libyang}.
(** A part that runs after the head has been written *)
Lemma rwp_late {A B} (p : prog L A) (f : A → prog L B) Q s :
  only ly_cmd p → raises unanswered p → (∀ e, unanswered e = true → Q s (Throw e)) → (∀ a, rwp (f a) Q s) →
  rwp (prog_bind p f) Q s.
Proof.
  intros Ho Hr He Hf. apply wp_bind. eapply wp_mono.
  - apply (rwp_raises unanswered p (λ s' _, s' = s)); [done|]. by apply rwp_ly_end.
  - intros s' [a|e] [-> H]; auto.
Qed.
End late.

(** [rwp_go] up to the head of the response, and from there on *)
Ltac rwp_early :=
  repeat (cbv beta; lazymatch goal with
                    | |- wp _ _ _ (prog_bind (call (HttpWriteHead _ _)) _) _ _ => fail
                    | _ => rwp_step
                    end).
Ltac late_step :=
  cbv beta;
  lazymatch goal with
  | |- wp _ _ _ (prog_bind (prog_bind _ _) _) _ _ => apply wp_bind_assoc
  | |- wp _ _ _ (prog_bind (call (LyPrintStr _ _ _)) _) _ _ => apply rwp_print; intros ?
  | |- wp _ _ _ (prog_bind (call (HttpEnd _)) _) _ _ => apply rwp_body
  | |- wp _ _ _ (prog_bind (unwrap (Some ?a)) ?f) ?Q ?s => change (rwp (f a) Q s)
  | |- wp _ _ _ (prog_bind _ _) _ _ => apply rwp_late; [solve [solve_only]|solve [solve_raises]|intros ? ?|intros ?]
  | |- wp _ _ _ (Ret ?a) ?Q ?s => change (Q s (Ok a))
  end.

Section unanswered.
Context {X : X3} {L : Libyang} {LM : LibyangMore L} (ctx : Context).
Abbreviation ru := (raises unanswered).

Lemma ru_leafValue n p : ru (leafValue n p).
Proof. unfold leafValue. solve_raises. Qed.
Lemma ru_moduleRevision n : ru (moduleRevision n).
Proof. unfold moduleRevision. solve_raises. Qed.
Hint Resolve ru_leafValue ru_moduleRevision : throws.
Lemma ru_replaceModuleLocation h u n : ru (replaceModuleLocation h u n).
Proof. unfold replaceModuleLocation. cbv zeta. solve_raises. Qed.
Hint Resolve ru_replaceModuleLocation : throws.
Lemma ru_replaceYangLibraryLocations h u n : ru (replaceYangLibraryLocations h u n).
Proof. unfold replaceYangLibraryLocations. solve_raises. Qed.
Lemma ru_newPathOf n p v : ru (newPathOf n p v).
Proof. unfold newPathOf. solve_raises. Qed.
Hint Resolve ru_newPathOf : throws.
Lemma ru_replaceStreamLocation h n : ru (replaceStreamLocation h n).
Proof. unfold replaceStreamLocation. solve_raises. Qed.
Hint Resolve ru_replaceStreamLocation : throws.
Lemma ru_replaceStreamLocations h n : ru (replaceStreamLocations h n).
Proof. unfold replaceStreamLocations. solve_raises. Qed.
Lemma tu_withDefaultsFlags w : throws unanswered (withDefaultsFlags w).
Proof. unfold withDefaultsFlags. solve_throws. Qed.
Hint Resolve tu_withDefaultsFlags : throws.
Lemma ru_libyangPrintFlags n p w : ru (libyangPrintFlags n p w).
Proof. unfold libyangPrintFlags. solve_raises. Qed.
Lemma ru_newMember n p v : ru (newMember n p v).
Proof. unfold newMember. solve_raises. Qed.
Lemma ru_addOperation f o r : ru (addOperation f o r).
Proof. unfold addOperation. cbv zeta. solve_raises. Qed.
Lemma ru_latestModule n : ru (latestModule ctx n).
Proof. unfold latestModule. solve_raises. Qed.
Hint Resolve ru_newMember ru_addOperation ru_latestModule : throws.
Lemma ru_apiResource t f : ru (apiResource ctx t f).
Proof. unfold apiResource. solve_raises. Qed.
End unanswered.

#[export] Hint Resolve ru_replaceYangLibraryLocations ru_replaceStreamLocations ru_libyangPrintFlags ru_apiResource
  : throws.

Section server.
Context {X : X3} {L : Libyang} {LM : LibyangMore L} {U : UuidLib} {B : Base64}.
Context (ctx : Context) (timeout : N) (ANONYMOUS_USER recoveryUser : string).
Context (pam : UserPass → list (PamCall * PamAnswer) → PamCall → PamAnswer) (pam_strerror : Z → string).

(** One response if it returns, none if it throws *)
Definition one_response (s s' : Response) {A} (r : M A) : Prop := answers (λ _ _, True) s s' r.
Definition outcome_ok (s s' : Response) (o : Outcome) : Prop :=
  match o with
  | Done => ∃ c, replies s' = replies s ++ one_reply c
  | AwaitBody _ => replies s' = replies s
  | AwaitTimer _ p => replies s' = replies s ∧ ∀ s1, rwp p (λ s2 r, one_response s1 s2 r) s1
  end.
(** What is thrown after a part of the response is not answered. *)
Definition inner_ok (s s' : Response) (r : M Outcome) : Prop :=
  match r with Ok o => outcome_ok s s' o | Throw e => replies s' = replies s ∨ unanswered e = true end.
Definition handler_ok (s s' : Response) (r : M Outcome) : Prop :=
  match r with Ok o => outcome_ok s s' o | Throw e => True end.

Lemma one_response_done p s :
  rwp p (λ s' r, one_response s s' r) s → rwp (done p) (λ s' r, handler_ok s s' r) s.
Proof.
  intros Hp. unfold done. apply wp_bind. eapply wp_mono; [exact Hp|]. intros s' [u|e] H; [|done].
  destruct H as (c & ? & _). by exists c.
Qed.
Lemma rejectWithError_one df rq c ty tag msg p i s s0 :
  replies s = replies s0 →
  rwp (rejectWithError ctx df rq c ty tag msg p i) (λ s' r, one_response s0 s' r) s.
Proof.
  intros Hs. eapply wp_mono; [apply rejectWithError_replies|]. intros s' [u|e] H; simpl in H; subst s'.
  - exists c. simpl. by rewrite <- app_assoc, Hs.
  - done.
Qed.

Lemma onAuthError_ok delay p s s0 :
  replies s = replies s0 → (∀ s1, rwp p (λ s2 r, one_response s1 s2 r) s1) →
  rwp (onAuthError delay p) (λ s' r, handler_ok s0 s' r) s.
Proof.
  intros Hs Hp. unfold onAuthError. destruct delay; [by simpl|]. eapply wp_mono; [by apply one_response_done|].
  intros s' [[| |]|] H; simpl in *; rewrite ?Hs in H; done.
Qed.
Lemma restconfCatch_ok rq df e s s0 :
  replies s = replies s0 ∨ unanswered e = true →
  rwp (restconfCatch ctx rq df e) (λ s' r, handler_ok s0 s' r) s.
Proof.
  assert (∀ df rq c ty tag msg p i, replies s = replies s0 →
    rwp (done (rejectWithError ctx df rq c ty tag msg p i)) (λ s' r, handler_ok s0 s' r) s) as Hd.
  { intros. eapply wp_mono; [apply one_response_done, rejectWithError_one; done|].
    intros s' [[| |]|] Hr; simpl in *; try done; by rewrite <- H. }
  intros He. destruct e; simpl in *; try done; destruct He as [He|He]; try done; try by apply Hd.
  apply onAuthError_ok; [done|]. intros. by apply rejectWithError_one.
Qed.

Lemma inner_late s s' e : unanswered e = true → inner_ok s s' (Throw e).
Proof. by right. Qed.
Lemma inner_done c s s' : replies s' = (replies s ++ [Head c]) ++ [Body] → inner_ok s s' (Ok Done).
Proof. intros H. exists c. by rewrite H, <- app_assoc. Qed.

Lemma processGet_ok rq df rr s : rwp (done (processGet ctx timeout rq df rr)) (λ s' r, inner_ok s s' r) s.
Proof.
  unfold done, processGet. rwp_early; try (by left). apply rwp_head. repeat late_step; cbv beta; first [by apply inner_late|by eapply inner_done].
Qed.
Lemma processRoot_ok rq df rr s t :
  type rr = t → t = RestconfRootReq ∨ t = YangLibraryVersionReq ∨ t = ListRPC →
  rwp (dispatch ctx timeout rq df rr) (λ s' r, inner_ok s s' r) s.
Proof.
  intros Ht H. unfold dispatch.
  destruct H as [->|[->| ->]]; rewrite Ht; unfold done; rwp_early; apply rwp_head; repeat late_step; cbv beta; first [by apply inner_late|by eapply inner_done].
Qed.
Lemma rwp_done_one p s : rwp p (λ s' r, one_response s s' r) s → rwp (done p) (λ s' r, inner_ok s s' r) s.
Proof.
  intros Hp. unfold done. apply wp_bind. eapply wp_mono; [exact Hp|].
  intros s' [u|e] H; [|by left]. destruct H as (c & ? & _). by exists c.
Qed.
Lemma deleteEdit_replies rr s : rwp (deleteEdit ctx timeout rr) (λ s' r, replies s' = replies s) s.
Proof. unfold deleteEdit. rwp_go; done. Qed.
Lemma processDelete_one rr s : rwp (processDelete ctx timeout rr) (λ s' r, one_response s s' r) s.
Proof.
  unfold processDelete, rejectReadOnly. rwp_go; try done. apply wp_bind, wp_try.
  eapply wp_mono; [apply deleteEdit_replies|]. intros s' [u|e] Hs; simpl in Hs.
  - rwp_go. exists 204%Z. simpl. by rewrite Hs, <- app_assoc.
  - destruct e as [| | |[]| | | | |]; exact Hs.
Qed.
Lemma processOptions_one rq s : rwp (processOptions ctx rq) (λ s' r, one_response s s' r) s.
Proof. unfold processOptions. rwp_go; try done; by eapply answers_one. Qed.
Lemma prepareWrite_replies df rr s : rwp (prepareWrite df rr) (λ s' r, replies s' = replies s) s.
Proof. unfold prepareWrite, rejectReadOnly. rwp_go; done. Qed.

Lemma dispatch_ok rq df rr s : rwp (dispatch ctx timeout rq df rr) (λ s' r, inner_ok s s' r) s.
Proof.
  destruct (type rr) eqn:Et; try (eapply processRoot_ok; [exact Et|tauto]); unfold dispatch; rewrite Et;
    try by simpl.
  - apply processGet_ok.
  - apply wp_bind. eapply wp_mono; [apply prepareWrite_replies|]. intros s' [u|e] H; [done|by left].
  - apply rwp_done_one, processDelete_one.
  - apply wp_bind. eapply wp_mono; [apply prepareWrite_replies|]. intros s' [u|e] H; [done|by left].
  - apply rwp_done_one, processOptions_one.
  - apply wp_bind. eapply wp_mono; [apply prepareWrite_replies|]. intros s' [u|e] H; [done|by left].
Qed.
Lemma authorizeSession_replies nacm rq s :
  rwp (authorizeSession (L := L) ANONYMOUS_USER pam pam_strerror nacm rq) (λ s' r, replies s' = replies s) s.
Proof. unfold authorizeSession. rwp_go; try done. Qed.

Lemma restconfHandler_ok nacm rq s :
  rwp (restconfHandler ctx timeout ANONYMOUS_USER pam pam_strerror nacm rq) (λ s' r, handler_ok s s' r) s.
Proof.
  unfold restconfHandler. rwp_step; [|done].
  destruct (chooseDataEncoding (req_header rq)) as [df|e]; [|apply restconfCatch_ok; by left].
  apply wp_try. apply wp_bind. eapply wp_mono; [apply authorizeSession_replies|].
  intros s1 [u|e] H1; [|apply restconfCatch_ok; by left].
  apply wp_bind, wp_lift. destruct (asRestconfRequest _ _ _ _) as [rr|e]; [|apply restconfCatch_ok; by left].
  eapply wp_mono; [apply dispatch_ok|]. intros s2 [o|e] H2.
  - destruct o; simpl in *; by rewrite <- H1.
  - apply restconfCatch_ok. simpl in *. by rewrite <- H1.
Qed.

(** What a trace of a handler shows, by its outcome *)
Definition outcome_of (t : list (Event L)) (o : Outcome) : Prop :=
  match o with
  | Done => ∃ c, replies (responses t) = one_reply c
  | AwaitBody _ => replies (responses t) = []
  | AwaitTimer _ p => replies (responses t) = [] ∧
      ∀ t' u, runs p t' (Ok u) → answered t' → ∃ c, replies (responses (t ++ t')) = one_reply c
  end.
Lemma outcome_ok_of t o : outcome_ok noResponse (responses t) o → outcome_of t o.
Proof.
  destruct o as [|rc|d p]; simpl; try done. intros [Ht Hp]. split; [done|]. intros t' u Hr Ha.
  destruct (wp_runs _ _ _ _ _ _ _ _ (Hp (responses t)) Hr (answered_all _ _ Ha)) as [_ (c & Hc & _)].
  exists c. unfold responses in *. by rewrite watch_app, Hc, Ht.
Qed.

(** C17: a run of the handler of [/restconf/] that returns has sent exactly one response, or none
    yet if it waits for the body of the request or for the delay of an authentication
    error; the reply after that delay is then the only one. *)
Theorem restconfHandler_responds_once (nacm : Nacm) (rq : Request) (t : list (Event L)) (o : Outcome) :
  runs (restconfHandler ctx timeout ANONYMOUS_USER pam pam_strerror nacm rq) t (Ok o) → answered t → outcome_of t o.
Proof.
  intros Hr Ht.
  destruct (wp_runs _ _ _ _ _ _ _ _ (restconfHandler_ok nacm rq noResponse) Hr (answered_all _ _ Ht)) as [_ H].
  by apply outcome_ok_of.
Qed.

(** ** The other handlers *)

Lemma plain_one p s s0 :
  replies s = replies s0 → (∀ s1, rwp p (λ s2 r, one_response s1 s2 r) s1) →
  rwp (done p) (λ s' r, handler_ok s0 s' r) s.
Proof.
  intros Hs Hp. eapply wp_mono; [by apply one_response_done|].
  intros s' [[| |]|] Hr; simpl in *; try done; by rewrite <- Hs.
Qed.
Lemma plainCatch_ok e s s0 :
  replies s = replies s0 ∨ unanswered e = true →
  rwp (plainCatch (L := L) e) (λ s' r, handler_ok s0 s' r) s.
Proof.
  intros He. destruct e; cbn [plainCatch unanswered] in *; try done; destruct He as [He|He]; try done.
  - apply plain_one; [done|]. intros s1. rwp_go. by eapply answers_one.
  - apply onAuthError_ok; [done|]. intros s1. rwp_go. by eapply answers_one.
Qed.

Lemma yangSchemaHandler_ok nacm rq s :
  rwp (yangSchemaHandler ctx ANONYMOUS_USER pam pam_strerror nacm rq) (λ s' r, handler_ok s s' r) s.
Proof.
  unfold yangSchemaHandler. destruct (_ || _).
  { apply plain_one; [done|]. intros s1. rwp_go. by eapply answers_one. }
  apply wp_try. rwp_step; [|apply plainCatch_ok; by left].
  apply wp_bind. eapply wp_mono; [apply authorizeSession_replies|].
  intros s1 [u|e] H1; [|apply plainCatch_ok; by left].
  apply wp_bind, wp_lift. destruct (asYangModule _ _) as [m|e]; [|apply plainCatch_ok; by left].
  unfold hasAccessToYangSchema, done.
  rwp_early; try (apply plainCatch_ok; by left); apply rwp_head; repeat late_step; simpl.
  all: try (eexists; rewrite H1, <- app_assoc; done).
  apply plainCatch_ok. by right.
Qed.

Lemma activateStream_ok f st sp s :
  rwp (activateStream ctx f st sp) (λ s' r, one_response s s' r) s.
Proof.
  unfold activateStream. apply wp_bind.
  apply (wp_foldM _ _ _ _ _ _ (λ s' _, replies s' = replies s)).
  - intros s1 b m _ Hs. unfold subscribe. destruct (negb _); [by simpl|]. apply wp_try.
    rwp_go; done.
  - intros s1 b Hs. unfold activateEventStream. rwp_go. eexists. simpl. by rewrite Hs, <- app_assoc.
  - done.
Qed.
Context (fromYangTimeFormat : string → M Z).

Definition stream_ok (s s' : Response) (r : M (World * Outcome)) : Prop :=
  match r with Ok (_, o) => outcome_ok s s' o | Throw e => replies s' = replies s end.
Lemma streamsHandler_ok nacm rq w s :
  rwp (streamsHandler ctx ANONYMOUS_USER recoveryUser pam pam_strerror fromYangTimeFormat nacm rq w)
    (λ s' r, match r with Ok (_, o) => outcome_ok s s' o | Throw _ => True end) s.
Proof.
  unfold streamsHandler. destruct (decide _).
  { rwp_go. eexists. simpl. by rewrite <- app_assoc. }
  apply wp_try.
  apply (wp_mono _ _ _ _ (λ s' r, stream_ok s s' r)); [|
    intros s' [[w' o]|e] H; [done|]; apply wp_bind; eapply wp_mono; [apply plainCatch_ok; by left|];
    intros s2 [o|e'] H2; [exact H2|done]].
  rwp_step; [|done]. apply wp_bind. eapply wp_mono; [apply authorizeSession_replies|].
  intros s1 [u|e] H1; [|done].
  apply wp_bind, wp_lift. destruct (asRestconfStreamRequest _ _ _) as [[u'|rq']|e]; [| |done].
  - rwp_early; try done. unfold createStream. rwp_go; try done. apply wp_bind.
    eapply wp_mono; [apply activateStream_ok|].
    intros s2 [u''|e'] H2; simpl in *; [|congruence]. destruct H2 as (c & Hc & _). exists c. by rewrite Hc, H1.
  - rwp_step; [done|]. apply wp_bind, wp_try.
    unfold awaitNextNotification, activateEventStream. rwp_go; try done.
    eexists. simpl. by rewrite H1, <- app_assoc.
Qed.

(** C18: the handlers of [/yang/] and [/streams/] that return have sent exactly one response, or
    none before the delay of an authentication error has passed; an event stream counts as one whose
    body follows. *)
Theorem plain_handlers_respond_once (nacm : Nacm) (rq : Request) (w : World) (t : list (Event L)) :
  answered t →
  (∀ o, runs (yangSchemaHandler ctx ANONYMOUS_USER pam pam_strerror nacm rq) t (Ok o) → outcome_of t o) ∧
  (∀ w' o, runs (streamsHandler ctx ANONYMOUS_USER recoveryUser pam pam_strerror fromYangTimeFormat nacm rq w) t
             (Ok (w', o)) → outcome_of t o).
Proof.
  intros Ht. split.
  - intros o Hr. apply outcome_ok_of.
    by destruct (wp_runs _ _ _ _ _ _ _ _ (yangSchemaHandler_ok nacm rq noResponse) Hr (answered_all _ _ Ht)).
  - intros w' o Hr. apply outcome_ok_of.
    by destruct (wp_runs _ _ _ _ _ _ _ _ (streamsHandler_ok nacm rq w noResponse) Hr (answered_all _ _ Ht)).
Qed.
End server.
