(* ===== verification/ServerAccess.v ===== *)
(** * ServerAccess: who accesses the datastore, and which one is written

    The monitor follows the user and the datastore of the session.  The theorems hold for
    every trace, whatever libyang and sysrepo answer. *)

From S2P Require Import Prelude Exceptions UriTypes Uuid X3 Libyang YangUtils UriRequest HttpUtils DataFormat Nacm Pam HttpAuth DynamicSubscriptions Effects Responses Edits EditsFacts Handlers YangSchemaLocations NotificationStream SubscriptionStream Server ServerFacts StatusFacts HandlersFacts.

Open Scope prog_scope.

Record SessionView := mkView { view_user : option string; view_ds : option Datastore }.
Definition noSession : SessionView := mkView None None.

Definition writable (d : Datastore) : bool :=
  match d with Operational | FactoryDefault => false | _ => true end.

Section access.
Context {L : Libyang}.

Definition view_next (s : SessionView) (ev : Event L) : SessionView :=
  let 'Ev c x := ev in
  match c return M (Answer c) → SessionView with
  | SrSessionStart d => λ _, mkView None (Some d)
  | SrSetNacmUser u => λ _, mkView (Some u) (view_ds s)
  | SrSwitchDatastore d => λ _, mkView (view_user s) (Some d)
  | _ => λ _, s
  end x.

(** Commands that access data on behalf of the user, and those that write *)
Definition accesses (c : Cmd L) : bool :=
  match c with
  | SrGetData _ _ _ _ | SrEditBatch _ | SrApplyChanges _ | SrReplaceConfig _ _ | SrSendRPC _ _ | SrLock
  | SrCheckNacmOperation _ | SrOnNotification _ _ _ _ _ | SrGetChanges _ => true
  | _ => false
  end.
Definition writes (c : Cmd L) : bool :=
  match c with SrEditBatch _ | SrApplyChanges _ | SrReplaceConfig _ _ | SrSetItem _ _ => true | _ => false end.

Context (user_ok : string → Prop).
Definition access_good (s : SessionView) (ev : Event L) : Prop :=
  let 'Ev c _ := ev in
  (accesses c = true → ∃ u, view_user s = Some u ∧ user_ok u) ∧
  (writes c = true → ∃ d, view_ds s = Some d ∧ writable d = true).
Definition any_answer (s : SessionView) (ev : Event L) : Prop := True.

Definition can_read (s : SessionView) : Prop := ∃ u, view_user s = Some u ∧ user_ok u.
Definition can_write (s : SessionView) : Prop := can_read s ∧ ∃ d, view_ds s = Some d ∧ writable d = true.

(** What a program may do: nothing, use the session of an authorized user, or write too *)
Definition idle_cmd (c : Cmd L) : bool := ly_cmd c || http_cmd c.
Definition write_cmd (c : Cmd L) : bool :=
  match c with SrSessionStart _ | SrSetNacmUser _ | SrSwitchDatastore _ | SrSetItem _ _ => false | _ => true end.
Definition read_cmd (c : Cmd L) : bool :=
  match c with SrSessionStart _ | SrSetNacmUser _ => false | c => negb (writes c) end.

Abbreviation awp := (wp view_next any_answer access_good).

Lemma idle_wp {A} (p : prog L A) s : only idle_cmd p → awp p (λ s' _, s' = s) s.
Proof. intros Hp. apply (wp_only idle_cmd); [|done]. by intros []. Qed.
Lemma read_wp {A} (p : prog L A) s : only read_cmd p → can_read s → awp p (λ s' _, can_read s') s.
Proof.
  apply (wp_inv _ _ _ read_cmd can_read). intros s' c x Hc Hs.
  destruct c; simpl in *; try done; repeat split; try done.
Qed.
Lemma write_wp {A} (p : prog L A) s : only write_cmd p → can_write s → awp p (λ s' _, can_write s') s.
Proof.
  apply (wp_inv _ _ _ write_cmd can_write). intros s' c x Hc [Hr Hw].
  destruct c; simpl in *; try done; repeat split; try done.
Qed.
End access.

(** ** The handlers *)

Section only.
Context {X : X3} {L : Libyang} {LM : LibyangMore L} (ctx : Context).

Lemma idle_rejectImpl df parent container rq c ty tag msg p i :
  only idle_cmd (rejectWithErrorImpl ctx df parent container rq c ty tag msg p i).
Proof. unfold rejectWithErrorImpl. cbv zeta. solve_only. Qed.
Hint Resolve idle_rejectImpl : effects.
Lemma idle_reject df rq c ty tag msg p i : only idle_cmd (rejectWithError ctx df rq c ty tag msg p i).
Proof. unfold rejectWithError. solve_only. Qed.
Lemma idle_rejectPatch id df rq c ty tag msg p i : only idle_cmd (rejectYangPatch ctx id df rq c ty tag msg p i).
Proof. unfold rejectYangPatch. solve_only. Qed.
Lemma idle_rejectPatchEdit id eid df rq c ty tag msg p i :
  only idle_cmd (rejectYangPatchEdit ctx id eid df rq c ty tag msg p i).
Proof. unfold rejectYangPatchEdit. cbv zeta. solve_only. Qed.
Lemma idle_exceptions rej rc e :
  (∀ df rq c ty tag msg p i, only idle_cmd (rej df rq c ty tag msg p i)) →
  only idle_cmd (restconfExceptions ctx rej rc e).
Proof.
  intros Hr. unfold restconfExceptions, requestIsAction. cbv zeta. destruct e; try done; repeat case_match; try done; solve_only.
Qed.
Lemma idle_mono f {A} (p : prog L A) :
  (∀ c, idle_cmd c = true → f c = true) → only idle_cmd p → only f p.
Proof. intros H. by apply only_mono. Qed.
(** A handler whose errors are answered does what the handler does. *)
Lemma only_exceptions (f : Cmd L → bool) {A} (func : prog L A) old rej rc :
  (∀ c, idle_cmd c = true → f c = true) → only f func →
  (∀ df rq c ty tag msg p i, only idle_cmd (rej df rq c ty tag msg p i)) →
  only f (withRestconfExceptions ctx func old rej rc).
Proof.
  intros Hf Hp Hr. unfold withRestconfExceptions. apply only_try; [done|]. intros e.
  apply only_bind; [|done]. apply (only_mono idle_cmd); [done|]. by apply idle_exceptions.
Qed.

Context (timeout : N) {D : DynSubs L} {HD : DynSubsLaws D}.
Lemma idle_write (c : Cmd L) : idle_cmd c = true → write_cmd c = true.
Proof. by destruct c. Qed.
Lemma idle_read (c : Cmd L) : idle_cmd c = true → read_cmd c = true.
Proof. by destruct c. Qed.

Lemma write_processPost rc : only write_cmd (processPost ctx timeout rc).
Proof. unfold processPost. solve_only. Qed.
Lemma write_root rc f : only write_cmd (processPutOrPatchRoot ctx timeout rc f).
Proof. unfold processPutOrPatchRoot. solve_only. Qed.
Lemma write_node rc : only write_cmd (processPutOrPatchNode ctx timeout rc).
Proof. unfold processPutOrPatchNode. cbv zeta. solve_only. Qed.
Hint Resolve write_root write_node : effects.
Lemma write_put rc : only write_cmd (processPutOrPlainPatch ctx timeout rc).
Proof. unfold processPutOrPlainPatch, withLock. solve_only. apply only_finally; [apply write_node|done]. Qed.
Lemma write_patchImpl rc n id : only write_cmd (processYangPatchImpl ctx timeout rc n id).
Proof.
  unfold processYangPatchImpl. apply only_bind; [solve_only|intros edits].
  apply only_bind; [apply only_foldM; intros m e|intros merged; solve_only].
  apply only_bind; [solve_only|intros eid].
  apply only_exceptions; [apply idle_write|solve_only|apply idle_rejectPatchEdit].
Qed.
Lemma write_patch rc : only write_cmd (processYangPatch ctx timeout rc).
Proof.
  unfold processYangPatch. do 2 (apply only_bind; [solve_only|intros ?]). case_match; [|done].
  apply only_bind; [solve_only|intros id]. apply only_bind; [|intros ?; solve_only].
  apply only_exceptions; [apply idle_write|apply write_patchImpl|apply idle_rejectPatch].
Qed.

Lemma read_internalRPC n h f w : only read_cmd (processInternalRPC n h f w).
Proof.
  unfold processInternalRPC. solve_only.
  all: apply (only_mono ly_cmd); [by intros []|by eapply only_rpcHandler].
Qed.
Hint Resolve read_internalRPC : effects.
Lemma read_rpc rc w : only read_cmd (processActionOrRPC ctx timeout rc w).
Proof.
  unfold processActionOrRPC, checkActionOrRPC, parseInput, executeRPC, rpcResponse. cbv zeta. solve_only.
Qed.
Lemma read_get rq df rr : only read_cmd (processGet ctx timeout rq df rr).
Proof. unfold processGet. cbv zeta. solve_only. Qed.

Definition is_write (t : RequestType) : bool :=
  match t with Execute | ExecuteInternal => false | _ => true end.
Lemma onBody_only rc w : only (if is_write (type (restconfRequest rc)) then write_cmd else read_cmd) (onBody ctx timeout rc w).
Proof.
  unfold onBody. cbv beta zeta.
  assert (∀ func : RequestContext → prog L unit, only write_cmd (func rc) → only write_cmd
    (prog_bind (withRestconfExceptions ctx (func rc) tt (rejectWithError ctx) rc) (λ _, Ret w))) as Hw.
  { intros func Hf. apply only_bind; [|done]. apply only_exceptions; [apply idle_write|done|apply idle_reject]. }
  destruct (type (restconfRequest rc)); cbn [is_write];
    first [ apply Hw, write_put | apply Hw, write_processPost
          | apply only_exceptions; [apply idle_read|apply read_rpc|apply idle_reject]
          | destruct (isYangPatch _); apply Hw; [apply write_patch|apply write_put] ].
Qed.
Lemma receive_only rc chunks w :
  only (if is_write (type (restconfRequest rc)) then write_cmd else read_cmd) (receive ctx timeout rc chunks w).
Proof.
  revert rc. induction chunks as [|chunk chunks IH]; intros rc; cbn [receive].
  - unfold onData. apply onBody_only.
  - unfold onData. destruct (decide (chunk = "")); [apply onBody_only|]. apply (IH (mkRequestContext _ _ _ _)).
Qed.
End only.

Section theorems.
Context {X : X3} {L : Libyang} {LM : LibyangMore L} {D : DynSubs L} {HD : DynSubsLaws D} {B : Base64}.
Context (ctx : Context) (timeout : N) (ANONYMOUS_USER : string).
Context (pam : UserPass → list (PamCall * PamAnswer) → PamCall → PamAnswer) (pam_strerror : Z → string).

(** The user the request runs as: verified by PAM, or the anonymous one while its rules are valid *)
Definition authorized (nacm : Nacm) (rq : Request) (u : string) : Prop :=
  (u = ANONYMOUS_USER → m_anonymousEnabled nacm = true) ∧
  (pam_verified pam pam_strerror (req_header rq) u ∨
   getHeaderValue (req_header rq) "authorization" = None ∧ u = ANONYMOUS_USER).

Section request.
Context (nacm : Nacm) (rq : Request).
Abbreviation ok := (authorized nacm rq).
Abbreviation awp := (wp view_next any_answer (access_good ok)).

Lemma authorize_wp s :
  awp (authorizeSession (L := L) ANONYMOUS_USER pam pam_strerror nacm rq)
    (λ s' r, match r with Ok _ => can_read ok s' | Throw _ => True end) s.
Proof.
  unfold authorizeSession.
  pose proof (authorizeRequest_sound ANONYMOUS_USER pam pam_strerror nacm (mkSession None) (req_header rq)) as H.
  destruct (authorizeRequest _ _ _ _ _ _) as [sess [u|e]]; [|done].
  destruct H as (user & Hu & Ha). rewrite Hu. apply wp_call. intros x _. split; [done|].
  destruct x; [|done]. by exists user.
Qed.

(** The state the rest of a request needs *)
Definition ready (s : SessionView) (o : Outcome (L := L)) : Prop :=
  match o with
  | Done => True
  | AwaitBody rc => if is_write (type (restconfRequest rc)) then can_write ok s else can_read ok s
  | AwaitTimer _ p => only idle_cmd p
  end.
Definition ready_result (s : SessionView) (r : M (Outcome (L := L))) : Prop :=
  match r with Ok o => ready s o | Throw _ => True end.

Lemma done_idle (p : prog L unit) s : only idle_cmd p → awp (done p) ready_result s.
Proof.
  intros Hp. unfold done. apply wp_bind. eapply wp_mono; [by apply idle_wp|]. by intros s' [].
Qed.
Lemma done_read (p : prog L unit) s : only read_cmd p → can_read ok s → awp (done p) ready_result s.
Proof.
  intros Hp Hs. unfold done. apply wp_bind. eapply wp_mono; [by apply read_wp|]. by intros s' [].
Qed.

Lemma restconfCatch_ready df e s : awp (restconfCatch ctx rq df e) ready_result s.
Proof.
  destruct e; cbn [restconfCatch]; try done; try (apply done_idle, idle_reject).
  destruct delay; cbn [onAuthError]; [|apply done_idle, idle_reject]. apply idle_reject.
Qed.

(** The switch before a write: only writable datastores are let through. *)
Lemma switch_wp rr (k : Answer (SrSwitchDatastore (L := L) (default Running (datastore rr))) → prog L unit) (Q : SessionView → M unit → Prop) s :
  can_read ok s → (∀ e s', Q s' (Throw e)) →
  (∀ x s', can_write ok s' → awp (k x) Q s') →
  awp (_ ← rejectReadOnly rr; x ← call (SrSwitchDatastore (default Running (datastore rr))); k x) Q s.
Proof.
  intros Hs He Hk. unfold rejectReadOnly. destruct (_ || _) eqn:Er; [apply He|].
  apply orb_false_iff in Er as [Hf%bool_decide_eq_false Ho%bool_decide_eq_false].
  refine (wp_bind_call view_next any_answer (access_good ok) (SrSwitchDatastore (default Running (datastore rr))) k Q s _).
  intros x _. split; [done|]. destruct x as [x|e]; [|apply He].
  apply Hk. split; [done|]. eexists. split; [done|]. destruct (datastore rr) as [[]|]; done.
Qed.

Lemma idle_options : only idle_cmd (processOptions ctx rq).
Proof. unfold processOptions. cbv zeta. solve_only. Qed.
Lemma idle_root df t :
  only idle_cmd (_ ← call (HttpWriteHead 200 (mm_of_list [contentTypeOf (response df); CORS]));
                 tree ← apiResource ctx t (response df);
                 printed ← call (LyPrintStr tree (response df) [PSiblings; PEmptyContainers]);
                 body ← unwrap printed;
                 call (HttpEnd (Some body))).
Proof. solve_only. Qed.
Lemma write_delete rr : only write_cmd (deleteEdit ctx timeout rr).
Proof. unfold deleteEdit. solve_only. Qed.
Lemma processDelete_wp rr s : can_read ok s → awp (processDelete ctx timeout rr) (λ _ _, True) s.
Proof.
  intros Hs. unfold processDelete.
  apply (switch_wp rr (λ _, _)); [done|done|]. intros _ s' Hw.
  eapply wp_mono; [apply write_wp; [|exact Hw]|done].
  apply only_bind; [|intros ?; solve_only]. apply only_try; [apply write_delete|]. intros e.
  destruct e as [| | |[]| | | | |]; done.
Qed.
Lemma prepareWrite_wp df rr s :
  can_read ok s → awp (prepareWrite df rr) (λ s' r, match r with Ok _ => can_write ok s' | Throw _ => True end) s.
Proof.
  intros Hs. unfold prepareWrite. apply (switch_wp rr (λ _, _)); [done|done|]. intros _ s' Hw.
  by destruct (request df).
Qed.
Lemma dispatch_ready df rr s : can_read ok s → awp (dispatch ctx timeout rq df rr) ready_result s.
Proof.
  intros Hs. unfold dispatch.
  assert (∀ rc, type (restconfRequest rc) = type rr → is_write (type rr) = true →
    awp (_ ← prepareWrite df rr; Ret (AwaitBody rc)) ready_result s) as Hw.
  { intros rc Ht Hi. apply wp_bind. eapply wp_mono; [by apply prepareWrite_wp|]. intros s' [u|e] H; [|done].
    simpl. by rewrite Ht, Hi. }
  destruct (type rr) eqn:Et;
    first [ apply done_idle, idle_root | apply done_idle, idle_options
          | apply done_read; [apply read_get|done]
          | apply Hw; [done|by rewrite ?Et]
          | by simpl; rewrite Et | idtac ].
  unfold done. apply wp_bind. eapply wp_mono; [by apply processDelete_wp|]. by intros s' [].
Qed.
Lemma restconfHandler_ready s :
  awp (restconfHandler ctx timeout ANONYMOUS_USER pam pam_strerror nacm rq) ready_result s.
Proof.
  unfold restconfHandler. apply wp_bind_call. intros x _. split; [done|]. destruct x; [|done].
  destruct (chooseDataEncoding (req_header rq)) as [df|e]; [|apply restconfCatch_ready].
  apply wp_try, wp_bind. eapply wp_mono; [apply authorize_wp|]. intros s1 [u|e] H1; [|apply restconfCatch_ready].
  apply wp_bind, wp_lift. destruct (asRestconfRequest _ _ _ _) as [rr|e]; [|apply restconfCatch_ready].
  eapply wp_mono; [by apply dispatch_ready|]. intros s2 [o|e] H2; [done|apply restconfCatch_ready].
Qed.
Lemma serve_wp chunks subs s :
  awp (serveRestconf ctx timeout ANONYMOUS_USER pam pam_strerror nacm rq chunks subs) (λ _ _, True) s.
Proof.
  unfold serveRestconf. apply wp_bind. eapply wp_mono; [apply restconfHandler_ready|].
  intros s' [[|rc|d p]|e] H; [done| | |done]; simpl in H.
  - pose proof (receive_only ctx timeout rc chunks subs) as Ho. destruct (is_write _).
    + eapply wp_mono; [by apply write_wp|done].
    + eapply wp_mono; [by apply read_wp|done].
  - apply wp_bind. eapply wp_mono; [by apply idle_wp|]. by intros s2 [].
Qed.
End request.

(** The user and the datastore of the session after a trace *)
Definition session_after (t : list (Event L)) : SessionView := watch view_next noSession t.

Lemma any_answers s (t : list (Event L)) : all_lawful view_next any_answer s t.
Proof. revert s. induction t; simpl; [done|]. intros s. by split. Qed.
Lemma serve_good nacm rq chunks subs t r t1 c x t2 :
  runs (serveRestconf ctx timeout ANONYMOUS_USER pam pam_strerror nacm rq chunks subs) t r → t = t1 ++ Ev c x :: t2 →
  access_good (authorized nacm rq) (session_after t1) (Ev c x).
Proof.
  intros Hr ->.
  destruct (wp_runs _ _ _ _ _ _ _ _ (serve_wp nacm rq chunks subs noSession) Hr) as [H _].
  { apply any_answers. }
  eapply (all_good_at view_next any_answer), H.
Qed.

(** C8: no data is read, written or executed on behalf of a request unless the session has been
    given the user PAM verified for it, or the anonymous user while the NACM rules for
    anonymous access are valid and the request has no credentials: whatever the request, its body and the
    answers of libyang and sysrepo are. *)
Theorem serveRestconf_authorized (nacm : Nacm) (rq : Request) (chunks : list string) (subs : Subscriptions)
    (t : list (Event L)) (r : M Subscriptions) (t1 t2 : list (Event L)) (c : Cmd L) (x : M (Answer c)) :
  runs (serveRestconf ctx timeout ANONYMOUS_USER pam pam_strerror nacm rq chunks subs) t r →
  t = t1 ++ Ev c x :: t2 → accesses c = true →
  ∃ u, view_user (session_after t1) = Some u ∧ authorized nacm rq u.
Proof. intros Hr Ht Hc. by apply (serve_good _ _ _ _ _ _ _ _ _ _ Hr Ht). Qed.

(** No request writes to the operational or the factory-default datastore: whenever an edit is
    stored or applied or the configuration is replaced, the session is switched to another one. *)
Theorem serveRestconf_writes (nacm : Nacm) (rq : Request) (chunks : list string) (subs : Subscriptions)
    (t : list (Event L)) (r : M Subscriptions) (t1 t2 : list (Event L)) (c : Cmd L) (x : M (Answer c)) :
  runs (serveRestconf ctx timeout ANONYMOUS_USER pam pam_strerror nacm rq chunks subs) t r →
  t = t1 ++ Ev c x :: t2 → writes c = true →
  ∃ d, view_ds (session_after t1) = Some d ∧ d ≠ Operational ∧ d ≠ FactoryDefault.
Proof.
  intros Hr Ht Hc. destruct (serve_good _ _ _ _ _ _ _ _ _ _ Hr Ht) as [_ H].
  destruct (H Hc) as (d & ? & Hd). exists d. by destruct d.
Qed.
End theorems.
