(* ===== verification/ServerEdits.v ===== *)
(** * ServerEdits: only validated trees reach sysrepo

    The monitor records the nodes a traversal listed, the meta attributes that were read and how trees
    were joined; a traversal counts until something is parsed into one of its nodes.  A tree is clean when every node
    its traversal listed has been looked at and had no attribute that could change what sysrepo does, or when
    it was joined from clean trees.  [childrenDfs] lists one tree, not its siblings. *)

From S2P Require Import Prelude Exceptions UriTypes X3 Libyang YangUtils UriRequest HttpUtils DataFormat Nacm Pam HttpAuth Effects Responses Edits EditsFacts Handlers YangSchemaLocations NotificationStream SubscriptionStream Server ServerFacts StatusFacts HandlersFacts ServerResponses ServerAccess.

Open Scope prog_scope.

Section clean.
Context {X : X3} {L : Libyang} {LM : LibyangMore L} (ctx : Context).

Record TreeView := mkTrees {
  listed : list (DataNode * list DataNode);
  looked : list (DataNode * list Meta);
  joined : list (DataNode * DataNode * DataNode)
}.
Definition noTrees : TreeView := mkTrees [] [] [].

(** [n] is in none of the trees that have been traversed. *)
Definition apart (n : DataNode) (e : DataNode * list DataNode) : Prop := n ≠ e.1 ∧ n ∉ e.2.
#[local] Instance apart_dec n e : Decision (apart n e).
Proof. unfold apart. apply _. Defined.
Definition trees_next (s : TreeView) (ev : Event L) : TreeView :=
  let 'Ev c x := ev in
  match c return M (Answer c) → TreeView with
  | LyChildrenDfs n => λ x, match x with Ok ns => mkTrees ((n, ns) :: listed s) (looked s) (joined s) | Throw _ => s end
  | LyParseSubtree n _ _ => λ _, mkTrees (filter (apart n) (listed s)) (looked s) (joined s)
  | LyMeta n => λ x, match x with Ok ms => mkTrees (listed s) ((n, ms) :: looked s) (joined s) | Throw _ => s end
  | LyInsertSibling a b => λ x,
      match x with Ok m => mkTrees (listed s) (looked s) ((a, b, m) :: joined s) | Throw _ => s end
  | _ => λ _, s
  end x.

(** An attribute that steers sysrepo: one of [ietf-netconf], [yang] or [sysrepo] that did not come from libyang itself *)
Definition forbidden (m : Meta) : Prop :=
  isInternal m = false ∧
  ∃ name, name ∈ ["ietf-netconf"; "yang"; "sysrepo"] ∧ getModuleLatest ctx name = Some (meta_module m).
Definition inspected (s : TreeView) (n : DataNode) : Prop :=
  ∃ ms, (n, ms) ∈ looked s ∧ ∀ m, m ∈ ms → ¬ forbidden m.
Inductive clean (s : TreeView) : DataNode → Prop :=
| clean_tree n ns : (n, ns) ∈ listed s → (∀ m, m ∈ ns → inspected s m) → clean s n
| clean_joined a b m : (a, b, m) ∈ joined s → clean s a → clean s b → clean s m.

Definition trees_good (s : TreeView) (ev : Event L) : Prop :=
  let 'Ev c _ := ev in
  match c with
  | SrEditBatch n => clean s n
  | SrReplaceConfig o _ => match o with Some n => clean s n | None => True end
  | _ => True
  end.
(** What is known of libyang: [newPath2] makes new nodes, which are in none of the trees that were there before. *)
Definition new_nodes (s : TreeView) (ev : Event L) : Prop :=
  match ev with
  | Ev (LyNewPath2 _ _) (Ok (_, Some n)) => Forall (apart n) (listed s)
  | _ => True
  end.

(** More is known. *)
Definition grows (s s' : TreeView) : Prop :=
  listed s ⊆ listed s' ∧ looked s ⊆ looked s' ∧ joined s ⊆ joined s'.
#[global] Instance grows_preorder : PreOrder grows.
Proof. split; [done|]. intros s1 s2 s3 (? & ? & ?) (? & ? & ?). split; [|split]; by etransitivity. Qed.
(** All commands but those that give a tree to sysrepo, and all but these and the one that adds to a tree *)
Definition no_edit (c : Cmd L) : bool :=
  match c with SrEditBatch _ | SrReplaceConfig _ _ => false | _ => true end.
Definition no_fill (c : Cmd L) : bool :=
  no_edit c && match c with LyParseSubtree _ _ _ => false | _ => true end.
Lemma trees_next_grows s c x : no_fill c = true → grows s (trees_next s (Ev c x)).
Proof.
  intros Hc. unfold grows.
  destruct c; try discriminate Hc; simpl; try done; destruct x; simpl; repeat split; try done; intros y Hy; by right.
Qed.
(** Parsing into a new node *)
Lemma fill_grows s n v f x : Forall (apart n) (listed s) → grows s (trees_next s (Ev (LyParseSubtree n v f) x)).
Proof.
  intros Hn. cbn [trees_next]. unfold grows. cbn [listed looked joined]. split; [|done].
  intros e He. apply list_elem_of_filter. split; [|done]. rewrite Forall_forall in Hn. by apply Hn.
Qed.
Lemma inspected_grows s s' n : grows s s' → inspected s n → inspected s' n.
Proof. intros (? & Hl & ?) (ms & ? & ?). exists ms. auto. Qed.
Lemma clean_grows s s' n : grows s s' → clean s n → clean s' n.
Proof.
  intros Hg Hc. pose proof Hg as (? & ? & ?). induction Hc as [n ns ? Hn|a b m ? _ ? _ ?].
  - apply (clean_tree _ _ ns); [auto|]. eauto using inspected_grows.
  - apply (clean_joined _ a b); auto.
Qed.

Abbreviation twp := (wp trees_next new_nodes trees_good).
Definition trivial {A} (s : TreeView) (r : M A) : Prop := True.

Lemma ly_grows s0 {A} (p : prog L A) s :
  only no_fill p → grows s0 s → twp p (λ s' _, grows s0 s') s.
Proof.
  apply (wp_inv _ _ _ no_fill (grows s0)). intros s' c x Hc Hs. split; [by destruct c|].
  etransitivity; [done|by apply trees_next_grows].
Qed.
Lemma twp_ly {A B} (p : prog L A) (f : A → prog L B) Q s :
  only no_fill p → (∀ e s', grows s s' → Q s' (Throw e)) → (∀ a s', grows s s' → twp (f a) Q s') →
  twp (prog_bind p f) Q s.
Proof.
  intros Hp He Hf. apply wp_bind. eapply wp_mono; [by apply (ly_grows s)|]. intros s' [a|e] Hg; auto.
Qed.
Lemma twp_ly_end {A} (p : prog L A) s : only no_edit p → twp p trivial s.
Proof.
  intros Hp. eapply wp_mono; [apply (wp_inv _ _ _ no_edit (λ _, True)); [|exact Hp|done]|done].
  intros s' c x Hc _. split; [by destruct c|done].
Qed.
(** Nothing is known before, and nothing needs to be known after. *)
Lemma twp_any {A B} (p : prog L A) (f : A → prog L B) Q s :
  only no_edit p → (∀ e s', Q s' (Throw e)) → (∀ a s', twp (f a) Q s') → twp (prog_bind p f) Q s.
Proof.
  intros Hp He Hf. apply wp_bind. eapply wp_mono; [by apply twp_ly_end|]. intros s' [a|e] _; auto.
Qed.
Lemma twp_edit {B} n (f : unit → prog L B) s :
  clean s n → twp (f tt) trivial s → twp (prog_bind (A := unit) (call (SrEditBatch n)) f) trivial s.
Proof. intros Hc Hf. apply wp_bind_call. intros x _. split; [done|]. by destruct x as [[]|]. Qed.
Lemma twp_replace {B} n t (f : unit → prog L B) s :
  clean s n → twp (f tt) trivial s → twp (prog_bind (A := unit) (call (SrReplaceConfig (Some n) t)) f) trivial s.
Proof. intros Hc Hf. apply wp_bind_call. intros x _. split; [done|]. by destruct x as [[]|]. Qed.

(** The loop over the attributes of one node, and over the nodes *)
Lemma metas_wp node metas netconf yang sysrepo s :
  getModuleLatest ctx "ietf-netconf" = Some netconf → getModuleLatest ctx "yang" = Some yang →
  getModuleLatest ctx "sysrepo" = Some sysrepo →
  twp (foreach (λ meta,
         if forbiddenMeta netconf yang sysrepo meta then
           nodePath ← call (LyNodePath node);
           raiseResponse 400 "application" "invalid-value"
             ("Meta attribute '" +:+ ly_module_name (meta_module meta) +:+ ":" +:+ meta_name meta +:+ "' not allowed.")
             (Some nodePath)
         else Ret tt) metas)
    (λ s' r, grows s s' ∧ match r with Ok _ => ∀ m, m ∈ metas → ¬ forbidden m | Throw _ => True end) s.
Proof.
  intros H1 H2 H3. induction metas as [|m ms IH]; cbn [foreach].
  - split; [done|]. intros m Hm. by apply not_elem_of_nil in Hm.
  - destruct (forbiddenMeta netconf yang sysrepo m) eqn:E.
    + apply wp_bind. apply wp_bind_call. intros x _. split; [done|]. by destruct x.
    + eapply wp_mono; [exact IH|]. intros s' r [? Hr]. split; [done|]. destruct r; [|done].
      intros m' [->|?]%elem_of_cons; [|auto]. intros (Hint & name & Hname & Hmod). unfold forbiddenMeta in E.
      rewrite Hint in E. simpl in E. rewrite !orb_false_iff, !bool_decide_eq_false in E.
      rewrite !elem_of_cons, elem_of_nil in Hname. destruct Hname as [->|[->|[->|[]]]]; simplify_eq; tauto.
Qed.

Lemma twp_validate {B} n (f : unit → prog L B) Q s :
  (∀ e s', grows s s' → Q s' (Throw e)) → (∀ s', grows s s' → clean s' n → twp (f tt) Q s') →
  twp (prog_bind (validateInputMetaAttributes ctx n) f) Q s.
Proof.
  intros He Hf. unfold validateInputMetaAttributes, latestModule.
  destruct (getModuleLatest ctx "ietf-netconf") as [netconf|] eqn:H1; [|by apply He].
  destruct (getModuleLatest ctx "yang") as [yang|] eqn:H2; [|by apply He].
  destruct (getModuleLatest ctx "sysrepo") as [sysrepo|] eqn:H3; [|by apply He].
  unfold unwrap, YangUtils.deref, lift. cbn [prog_bind]. apply wp_bind_assoc, wp_bind_call. intros x _. split; [done|].
  destruct x as [nodes|e]; [|by apply He, trees_next_grows].
  set (s1 := trees_next s (Ev (LyChildrenDfs n) (Ok nodes))).
  assert (grows s s1) as Hg1 by (by apply trees_next_grows).
  assert ((n, nodes) ∈ listed s1) as Hin by (left).
  assert (∀ ns s2, grows s1 s2 →
    twp (foreach (λ node, metas ← call (LyMeta node); foreach (λ meta,
         if forbiddenMeta netconf yang sysrepo meta then
           nodePath ← call (LyNodePath node);
           raiseResponse 400 "application" "invalid-value"
             ("Meta attribute '" +:+ ly_module_name (meta_module meta) +:+ ":" +:+ meta_name meta +:+ "' not allowed.")
             (Some nodePath)
         else Ret tt) metas) ns)
      (λ s' r, grows s2 s' ∧ match r with Ok _ => ∀ m, m ∈ ns → inspected s' m | Throw _ => True end) s2) as Hloop.
  { induction ns as [|m ns IH]; intros s2 Hg2; cbn [foreach].
    - split; [done|]. intros m Hm. by apply not_elem_of_nil in Hm.
    - apply wp_bind, wp_bind_call. intros x _. split; [done|]. destruct x as [ms|e]; [|done].
      set (s3 := trees_next s2 (Ev (LyMeta m) (Ok ms))). assert (grows s2 s3) as Hg3 by (by apply trees_next_grows).
      eapply wp_mono; [by apply metas_wp|]. intros s4 [u|e] [Hg4 Hm]; [|split; [by etransitivity|done]].
      eapply wp_mono; [apply IH; by do 2 (etransitivity; [done|])|].
      intros s5 r [Hg5 Hr]. split; [by do 2 (etransitivity; [done|])|]. destruct r; [|done].
      intros m' [->|?]%elem_of_cons; [|auto]. apply (inspected_grows s4); [done|].
      exists ms. split; [|done]. destruct Hg4 as (? & Hl & ?). apply Hl. left. }
  apply wp_bind. eapply wp_mono; [by apply Hloop|]. intros s' [[]|e] [Hg' Hn]; [|apply He; by etransitivity].
  apply Hf; [by etransitivity|]. apply (clean_tree _ _ nodes); [by apply Hg'|exact Hn].
Qed.
End clean.

(** ** What adds nothing to a tree that has been traversed *)

Section no_fill.
Context {X : X3} {L : Libyang} {LM : LibyangMore L} (ctx : Context).

Lemma fill_rejectImpl df parent container rq c ty tag msg p i :
  only no_fill (rejectWithErrorImpl ctx df parent container rq c ty tag msg p i).
Proof. unfold rejectWithErrorImpl. cbv zeta. solve_only. Qed.
Hint Resolve fill_rejectImpl : effects.
Lemma fill_rejectPatchEdit id eid df rq c ty tag msg p i :
  only no_fill (rejectYangPatchEdit ctx id eid df rq c ty tag msg p i).
Proof. unfold rejectYangPatchEdit. cbv zeta. solve_only. Qed.
Lemma fill_exceptions rej rc e :
  (∀ df rq c ty tag msg p i, only no_fill (rej df rq c ty tag msg p i)) →
  only no_fill (restconfExceptions ctx rej rc e).
Proof.
  intros Hr. unfold restconfExceptions, requestIsAction. cbv zeta. destruct e; try done; repeat case_match; try done; solve_only.
Qed.

(** The tree of an edit is made of new nodes, and what has been seen of other trees stays true. *)
Lemma createEdit_grows uri value f s :
  wp trees_next new_nodes (trees_good ctx) (createEditForPutAndPatch ctx uri value f) (λ s' _, grows s s') s.
Proof.
  unfold createEditForPutAndPatch. apply wp_bind, wp_lift. destruct (asLibyangPathSplit ctx uri) as [[parentPath seg]|e]; [|done].
  apply wp_bind. destruct value as [v|]; [destruct (decide (parentPath ≠ "")) as [Hp|Hp]|].
  - apply wp_bind_call. intros x Hx. split; [done|]. destruct x as [[parent [n|]]|e]; [|done..]. simpl in Hx.
    change (unwrap (Some n)) with (Ret n : prog L DataNode). cbn [prog_bind].
    apply wp_bind_call. intros x _. split; [done|].
    assert (grows s (trees_next s (Ev (LyParseSubtree n v f) x))) as Hg by (by apply fill_grows).
    destruct x as [[]|e]; [|done]. eapply wp_mono; [apply (ly_grows ctx s); [|exact Hg]|].
    + unfold invalidNode. solve_only.
    + intros s' [[o r]|e] H; [|done]. destruct r; done.
  - eapply wp_mono; [apply (ly_grows ctx s); [unfold invalidNode; solve_only|done]|].
    intros s' [[o r]|e] H; [|done]. destruct r; done.
  - eapply wp_mono; [apply (ly_grows ctx s); [solve_only|done]|].
    intros s' [[o r]|e] H; [|done]. destruct r; done.
Qed.
End no_fill.

(** [twp_go] steps through a handler and carries over what is known to be clean. *)
Ltac carry_clean Hg :=
  repeat match goal with
         | H : clean ?ctx ?s ?n |- _ =>
             match type of Hg with grows s ?s' => apply (clean_grows ctx s s' n Hg) in H end
         end;
  clear Hg.
Ltac twp_step :=
  cbv beta;
  lazymatch goal with
  | |- wp _ _ _ (prog_bind (prog_bind _ _) _) _ _ => apply wp_bind_assoc
  | |- wp ?n ?l ?g (prog_bind (Ret ?a) ?f) ?Q ?s => change (wp n l g (f a) Q s)
  | |- wp _ _ _ (prog_bind (Raise ?e) _) ?Q ?s => change (Q s (Throw e))
  | |- wp _ _ _ (prog_bind (raiseResponse _ _ _ _ _) _) ?Q ?s => unfold raiseResponse
  | |- wp _ _ _ (prog_bind (validateInputMetaAttributes _ _) _) _ _ =>
      apply twp_validate; [done|let Hg := fresh in let Hc := fresh "Hclean" in intros ? Hg Hc; carry_clean Hg]
  | |- wp _ _ _ (prog_bind (call (SrEditBatch _)) _) _ _ => apply twp_edit; [assumption|]
  | |- wp _ _ _ (prog_bind (call (SrReplaceConfig _ _)) _) _ _ => apply twp_replace; [assumption|]
  | |- wp _ _ _ (prog_bind (match ?x with _ => _ end) _) _ _ => destruct x eqn:?
  | |- wp _ _ _ (match ?x with _ => _ end) _ _ => destruct x eqn:?
  | |- wp ?n ?l ?g (prog_bind (unwrap (Some ?a)) ?f) ?Q ?s => change (wp n l g (f a) Q s)
  | |- wp _ _ _ (prog_bind (unwrap None) _) _ _ => exact I
  | |- wp _ _ _ (prog_bind (unwrap ?o) _) _ _ => destruct o eqn:?
  | |- wp _ _ _ (prog_bind _ _) _ _ =>
      first [ apply twp_ly; [solve [solve_only]|done|let Hg := fresh in intros ? ? Hg; carry_clean Hg]
            | apply twp_any; [solve [solve_only]|done|intros ? ?] ]
  | |- wp _ _ _ _ _ _ => apply twp_ly_end; solve [solve_only]
  | |- trivial _ _ => exact I
  end.
Ltac twp_go := repeat twp_step.

Section handlers.
Context {X : X3} {L : Libyang} {LM : LibyangMore L} (ctx : Context) (timeout : N).
Abbreviation twp := (wp trees_next new_nodes (trees_good ctx)).

Lemma processPost_clean rc s : twp (processPost ctx timeout rc) trivial s.
Proof. unfold processPost. twp_go; done. Qed.
Lemma processPutOrPatchRoot_clean rc f s : twp (processPutOrPatchRoot ctx timeout rc f) trivial s.
Proof. unfold processPutOrPatchRoot. twp_go; done. Qed.
Lemma processPutOrPatchNode_clean rc s : twp (processPutOrPatchNode ctx timeout rc) trivial s.
Proof. unfold processPutOrPatchNode. cbv zeta. twp_go; done. Qed.
Lemma deleteEdit_clean rr s : twp (deleteEdit ctx timeout rr) trivial s.
Proof. unfold deleteEdit. twp_go; done. Qed.
Lemma processPutOrPlainPatch_clean rc s : twp (processPutOrPlainPatch ctx timeout rc) trivial s.
Proof.
  unfold processPutOrPlainPatch. destruct (decide _).
  - twp_step; twp_step; try done. apply processPutOrPatchRoot_clean.
  - twp_step. unfold withLock. destruct (negb _); [|apply processPutOrPatchNode_clean].
    twp_step. apply wp_finally. eapply wp_mono; [apply processPutOrPatchNode_clean|]. done.
Qed.

(** ** YANG patch: the merged edit is joined from clean ones *)

Definition clean_opt (s : TreeView) (o : option DataNode) : Prop :=
  match o with Some n => clean ctx s n | None => True end.
Definition merged_ok (s s' : TreeView) (r : M (option DataNode)) : Prop :=
  grows s s' ∧ match r with Ok o => clean_opt s' o | Throw _ => True end.
Lemma clean_opt_grows s s' o : grows s s' → clean_opt s o → clean_opt s' o.
Proof. intros Hg. destruct o; [|done]. by apply clean_grows. Qed.

(** As [twp_ly] and [twp_validate], for a postcondition about the growth since [s0] *)
Lemma merged_ly s0 {A} (p : prog L A) (f : A → prog L (option DataNode)) s :
  only no_fill p → grows s0 s → (∀ a s', grows s s' → grows s0 s' → twp (f a) (merged_ok s0) s') →
  twp (prog_bind p f) (merged_ok s0) s.
Proof.
  intros Hp Hg Hf. apply twp_ly; [done| |].
  - intros e s' H. split; [by etransitivity|done].
  - intros a s' H. apply Hf; [done|by etransitivity].
Qed.
Lemma merged_validate s0 n (f : unit → prog L (option DataNode)) s :
  grows s0 s → (∀ s', grows s s' → grows s0 s' → clean ctx s' n → twp (f tt) (merged_ok s0) s') →
  twp (prog_bind (validateInputMetaAttributes ctx n) f) (merged_ok s0) s.
Proof.
  intros Hg Hf. apply twp_validate.
  - intros e s' H. split; [by etransitivity|done].
  - intros s' H Hc. apply Hf; [done|by etransitivity|done].
Qed.

Lemma processYangPatchEdit_clean rc n m s :
  clean_opt s m → twp (processYangPatchEdit ctx rc n m) (merged_ok s) s.
Proof.
  intros Hm. unfold processYangPatchEdit.
  do 4 (apply merged_ly; [solve [solve_only]|done|intros ? ? _ ?]).
  apply wp_bind. eapply wp_mono; [apply createEdit_grows|]. intros s5 r Hs5.
  assert (grows s s5) by (by etransitivity). destruct r as [[single repl]|e]; [|by split]. apply merged_ly; [solve [solve_only]|done|intros tree ? _ ?].
  apply merged_validate; [done|]. intros s1 _ Hg Hc.
  apply merged_ly; [solve [solve_only]|done|]. intros _ s2 Hg2 Hg'.
  apply (clean_grows _ _ _ _ Hg2) in Hc. apply (clean_opt_grows _ _ _ Hg') in Hm.
  destruct m as [m|]; [|by split].
  apply wp_bind_call. intros x _. split; [done|].
  pose proof (trees_next_grows (L := L) s2 (LyInsertSibling m tree) x eq_refl) as Hg3.
  destruct x as [first|e]; simpl; [|by split]. split; [by etransitivity|].
  apply (clean_joined _ _ m tree); [by left|by apply (clean_grows _ s2)..].
Qed.
Lemma only_exn_no_edit rej rc e :
  (∀ df rq c ty tag msg p i, only idle_cmd (rej df rq c ty tag msg p i)) →
  only no_edit (restconfExceptions ctx rej rc e).
Proof. intros Hr. apply (only_mono idle_cmd); [by intros []|]. by apply idle_exceptions. Qed.
Lemma patchEdit_wp rc n m id eid s :
  clean_opt s m →
  twp (withRestconfExceptions ctx (processYangPatchEdit ctx rc n m) m (rejectYangPatchEdit ctx id eid) rc)
    (λ s' r, match r with Ok o => clean_opt s' o | Throw _ => True end) s.
Proof.
  intros Hm. apply wp_try. eapply wp_mono; [by apply processYangPatchEdit_clean|].
  intros s' [o|e] [Hg Ho]; [done|]. apply twp_ly; [apply fill_exceptions, fill_rejectPatchEdit|done|].
  intros [] s'' H. simpl. eapply clean_opt_grows; [|exact Hm]. by etransitivity.
Qed.
Lemma processYangPatchImpl_clean rc patch id s : twp (processYangPatchImpl ctx timeout rc patch id) trivial s.
Proof.
  unfold processYangPatchImpl. twp_step. apply wp_bind.
  apply (wp_foldM _ _ _ _ _ _ clean_opt).
  - intros s1 m e _ Hm. apply twp_ly; [solve [solve_only]|done|]. intros eid s2 Hg.
    apply (clean_opt_grows _ _ _ Hg) in Hm. eapply wp_mono; [by apply patchEdit_wp|]. by intros s3 [].
  - intros s1 [m|] Hm; [|done]. simpl in Hm. twp_go.
  - done.
Qed.
Lemma processYangPatch_clean rc s : twp (processYangPatch ctx timeout rc) trivial s.
Proof.
  unfold processYangPatch.
  repeat (lazymatch goal with |- wp _ _ _ (prog_bind (withRestconfExceptions _ _ _ _ _) _) _ _ => fail | _ => twp_step end).
  apply wp_bind. apply wp_try. eapply wp_mono; [apply processYangPatchImpl_clean|].
  intros s1 [u|e] _.
  - twp_go.
  - apply twp_any; [apply only_exn_no_edit, idle_rejectPatch|done|]. intros [] s2. cbn [prog_bind]. twp_go.
Qed.
End handlers.

Section serve.
Context {X : X3} {L : Libyang} {LM : LibyangMore L} {D : DynSubs L} {HD : DynSubsLaws D} {B : Base64}.
Context (ctx : Context) (timeout : N) (ANONYMOUS_USER : string).
Context (pam : UserPass → list (PamCall * PamAnswer) → PamCall → PamAnswer) (pam_strerror : Z → string).
Abbreviation twp := (wp trees_next new_nodes (trees_good ctx)).

Lemma exceptions_clean {A} (func : prog L A) old rc s :
  (∀ s, twp func trivial s) →
  twp (withRestconfExceptions ctx func old (rejectWithError ctx) rc) trivial s.
Proof.
  intros Hf. apply wp_try. eapply wp_mono; [apply Hf|]. intros s' [a|e] _; [done|].
  by apply twp_any; [apply only_exn_no_edit, idle_reject|..].
Qed.
Lemma rpc_no_edit rc w : only no_edit (processActionOrRPC ctx timeout rc w).
Proof. apply (only_mono read_cmd); [by intros []|exact (read_rpc ctx timeout rc w)]. Qed.
Lemma onBody_clean rc w s : twp (onBody ctx timeout rc w) trivial s.
Proof.
  assert (∀ func : RequestContext → prog L unit, (∀ s, twp (func rc) trivial s) →
    twp (prog_bind (withRestconfExceptions ctx (func rc) tt (rejectWithError ctx) rc) (λ _, Ret w)) trivial s) as Hw.
  { intros func Hf. apply wp_bind. eapply wp_mono; [by apply exceptions_clean|]. by intros s' []. }
  unfold onBody. cbv beta zeta.
  destruct (type (restconfRequest rc));
    first [ apply Hw; intros; apply processPutOrPlainPatch_clean
          | apply Hw; intros; apply processPost_clean
          | apply exceptions_clean; intros; apply twp_ly_end, rpc_no_edit
          | destruct (isYangPatch _); apply Hw; intros;
              [apply processYangPatch_clean|apply processPutOrPlainPatch_clean] ].
Qed.
Lemma receive_clean rc chunks w s : twp (receive ctx timeout rc chunks w) trivial s.
Proof.
  revert rc. induction chunks as [|chunk chunks IH]; intros rc; cbn [receive]; unfold onData.
  - apply onBody_clean.
  - destruct (decide (chunk = "")); [apply onBody_clean|apply IH].
Qed.

Definition calm (s : TreeView) (r : M (Outcome (L := L))) : Prop :=
  match r with Ok (AwaitTimer _ p) => only idle_cmd p | _ => True end.
Lemma calm_done (p : prog L unit) s : twp p trivial s → twp (done p) calm s.
Proof. intros Hp. apply wp_bind. eapply wp_mono; [exact Hp|]. by intros s' []. Qed.
Lemma calm_idle (p : prog L unit) s : only idle_cmd p → twp (done p) calm s.
Proof. intros Hp. apply calm_done, twp_ly_end. apply (only_mono idle_cmd); [by intros []|done]. Qed.
Lemma restconfCatch_calm rq df e s : twp (restconfCatch ctx rq df e) calm s.
Proof.
  destruct e; cbn [restconfCatch]; try done; try (apply calm_idle, idle_reject).
  destruct delay; cbn [onAuthError]; [apply idle_reject|apply calm_idle, idle_reject].
Qed.
Lemma dispatch_calm rq df rr s : twp (dispatch ctx timeout rq df rr) calm s.
Proof.
  assert (∀ rc, twp (_ ← prepareWrite df rr; Ret (AwaitBody rc)) calm s) as Hw.
  { intros rc. apply twp_any; [|done|done]. unfold prepareWrite, rejectReadOnly. solve_only. }
  unfold dispatch. destruct (type rr);
    first [ apply calm_idle, idle_root | apply calm_idle, idle_options | apply Hw | done
          | apply calm_done, twp_ly_end, (only_mono read_cmd); [by intros []|apply read_get] | idtac ].
  apply calm_done. unfold processDelete.
  apply twp_any; [unfold rejectReadOnly; solve_only|done|intros ? ?].
  apply twp_any; [solve_only|done|intros ? ?].
  apply wp_bind, wp_try. eapply wp_mono; [apply deleteEdit_clean|]. intros s2 [u|e] _; [|by destruct e as [| | |[]| | | | |]].
  apply twp_ly_end. solve_only.
Qed.
Lemma restconfHandler_calm nacm rq s :
  twp (restconfHandler ctx timeout ANONYMOUS_USER pam pam_strerror nacm rq) calm s.
Proof.
  unfold restconfHandler. apply twp_any; [solve_only|done|intros ? s0].
  destruct (chooseDataEncoding (req_header rq)) as [df|e]; [|apply restconfCatch_calm].
  apply wp_try. apply (twp_any ctx).
  - unfold authorizeSession. solve_only.
  - intros e s'. apply restconfCatch_calm.
  - intros ? s'. apply wp_bind, wp_lift. destruct (asRestconfRequest _ _ _ _); [|apply restconfCatch_calm].
    eapply wp_mono; [apply dispatch_calm|]. intros s2 [o|e] H; [exact H|apply restconfCatch_calm].
Qed.
Lemma serve_clean nacm rq chunks subs s :
  twp (serveRestconf ctx timeout ANONYMOUS_USER pam pam_strerror nacm rq chunks subs) trivial s.
Proof.
  unfold serveRestconf. apply wp_bind. eapply wp_mono; [apply restconfHandler_calm|].
  intros s' [[|rc|d p]|e] H; [done|apply receive_clean| |done].
  apply twp_any; [|done|done]. apply (only_mono idle_cmd); [by intros []|exact H].
Qed.

(** What a trace has shown of the trees *)
Definition trees_after (t : list (Event L)) : TreeView := watch trees_next noTrees t.

(** C9: an edit that is given to sysrepo, to be stored or to replace the configuration, is
    clean: it was traversed, after everything the client sent had been parsed into it, every node below its root has been
    looked at, and none had a meta attribute of [ietf-netconf], [yang] or [sysrepo], the modules that steer sysrepo; the edit of a YANG
    patch is joined from clean edits.  All that is used of libyang is that [newPath2] makes new nodes.  (The siblings of
    the root are not looked at, see [ServerSample].) *)
Theorem serveRestconf_edits_clean (nacm : Nacm) (rq : Request) (chunks : list string) (subs : Subscriptions)
    (t : list (Event L)) (r : M Subscriptions) (t1 t2 : list (Event L)) (c : Cmd L) (x : M (Answer c)) (n : DataNode) :
  runs (serveRestconf ctx timeout ANONYMOUS_USER pam pam_strerror nacm rq chunks subs) t r →
  all_lawful trees_next new_nodes noTrees t →
  t = t1 ++ Ev c x :: t2 → (c = SrEditBatch n ∨ ∃ d, c = SrReplaceConfig (Some n) d) →
  clean ctx (trees_after t1) n.
Proof.
  intros Hr Hn -> Hc.
  destruct (wp_runs _ _ _ _ _ _ _ _ (serve_clean nacm rq chunks subs noTrees) Hr Hn) as [H _].
  apply (all_good_at trees_next new_nodes) in H. by destruct Hc as [->|[d ->]].
Qed.
End serve.
