(* ===== verification/WriteEdits.v ===== *)
(** * WriteEdits: sysrepo is asked what the client asked for

    What a write changes is decided by the netconf operation attached to a node of the edit, and by the attributes
    that give an entry its position.  The monitor keeps the attributes that were set and the trees that were
    joined, in order.  When an edit is given to sysrepo, they are exactly those of the request: one
    operation, on the node the URI names; for a YANG patch, the operations of the edits that were accepted.
    DELETE attaches "delete" to the node of the URI, as an attribute when the node is opaque. *)

From S2P Require Import Prelude Exceptions UriTypes X3 Libyang YangUtils UriRequest HttpUtils DataFormat Effects Responses Edits EditsFacts PutTarget Handlers HandlersFacts Server.

Open Scope prog_scope.

Section ops.
Context {X : X3} {L : Libyang} {LM : LibyangMore L} {HL : LibyangLaws L} {D : DynSubs L} (ctx : Context) (timeout : N).
Context (F : Forest (L := L)).
Hypothesis keys_differ : ∀ n : SchemaNode, NoDup (node_name <$> list_keys n).

Inductive Op :=
| SetMeta (n : DataNode) (m : Module) (name value : string)
| SetAttr (n : DataNode) (module name value : string)   (** of a node that is not in the schema *)
| Joined (a b first : DataNode).

Definition ops_next (s : list Op) (ev : Event L) : list Op :=
  let 'Ev c x := ev in
  match c return M (Answer c) → list Op with
  | LyNewMeta n m name value => λ x, match x with Ok _ => s ++ [SetMeta n m name value] | Throw _ => s end
  | LyNewAttrOpaqueJSON n module name value => λ x,
      match x with Ok _ => s ++ [SetAttr n module name value] | Throw _ => s end
  | LyInsertSibling a b => λ x, match x with Ok first => s ++ [Joined a b first] | Throw _ => s end
  | _ => λ _, s
  end x.
Definition ops_lawful (s : list Op) (ev : Event L) : Prop := data_answers ctx F ev.

(** ** What a request asks for *)

(** The attributes that place an entry of a list the user orders: at an end, or next to an entry of the same list *)
Definition placed (target : DataNode) (where_ : string) (point : option (list PathSegment)) (ops : list Op) : Prop :=
  ∃ yang, getModuleImplemented ctx "yang" = Some yang ∧ isUserOrderedList target = true ∧
    match point with
    | None => ops = [SetMeta target yang "insert" where_]
    | Some point =>
        ∃ back entry, asLibyangSchemaNode ctx point = Ok (Some (schema target)) ∧ last point = Some back ∧
          (if decide (nodeType (schema target) = List)
           then listKeyPredicate (list_keys (schema target)) (keys back) = Ok entry ∧
                ops = [SetMeta target yang "insert" where_; SetMeta target yang "key" entry]
           else keys back !! 0 = Some entry ∧
                ops = [SetMeta target yang "insert" where_; SetMeta target yang "value" entry])
    end.
Definition placed_by_query (params : QueryParams) (target : DataNode) (ops : list Op) : Prop :=
  match mm_find "insert" params with
  | None => ops = []
  | Some v => ∃ where_ point, insertPosition params v = Ok (where_, point) ∧ placed target where_ point ops
  end.
Definition operation_of (target : DataNode) (operation : string) (rest ops : list Op) : Prop :=
  ∃ netconf, getModuleImplemented ctx "ietf-netconf" = Some netconf ∧
    ops = SetMeta target netconf "operation" operation :: rest.

(** PUT and PATCH of a resource *)
Definition put_asked (rc : RequestContext) (e : DataNode) (ops : list Op) : Prop :=
  ∃ target, located ctx F (raw_path (req rc)) (Some (payload rc)) (Some e) target ∧
    if decide (req_method (req rc) = "PUT") then
      ∃ rest, operation_of target "replace" rest ops ∧ placed_by_query (queryParams (restconfRequest rc)) target rest
    else ops = [].
(** POST: the only new child of the node the URI names, or the only new tree *)
Definition post_asked (rc : RequestContext) (e : DataNode) (ops : list Op) : Prop :=
  ∃ created rest, operation_of created "create" rest ops ∧ placed_by_query (queryParams (restconfRequest rc)) created rest ∧
    ∃ node, (if decide (path (restconfRequest rc) = "/") then node = e
             else made F node = Some (path (restconfRequest rc), Some e)) ∧
      List.filter (λ it, negb (isListKey node it))
        (if decide (path (restconfRequest rc) = "/") then node_siblings F node else node_children F node) = [created].
(** DELETE of a resource; the node is opaque if its keys do not fit the schema. *)
Definition delete_asked (rr : RestconfRequest) (e : DataNode) (ops : list Op) : Prop :=
  ∃ target, made F target = Some (path rr, Some e) ∧
    if node_opaque F target then ops = [SetAttr target "ietf-netconf" "operation" "delete"]
    else ∃ netconf, getModuleLatest ctx "ietf-netconf" = Some netconf ∧ ops = [SetMeta target netconf "operation" "delete"].
(** A leaf of an edit of a YANG patch *)
Definition leaf_is (n : DataNode) (name value : string) : Prop :=
  ∃ child, node_at F n name = Some child ∧ value = node_value F child.
Definition point_asked (rc : RequestContext) (c : DataNode) (where_ : string) (point : option (list PathSegment)) : Prop :=
  if decide (where_ = "before" ∨ where_ = "after") then
    ∃ p segments, leaf_is c "point" p ∧ asPathSegments (uri_path (req rc) +:+ p) = Ok segments ∧ point = Some segments
  else point = None.
Definition operation_asked (rc : RequestContext) (c target : DataNode) (operation : string) (ops : list Op) : Prop :=
  if decide (operation = "insert" ∨ operation = "move") then
    ∃ where_ point rest, leaf_is c "where" where_ ∧ point_asked rc c where_ point ∧ placed target where_ point rest ∧
      operation_of target (if decide (operation = "insert") then "create" else "merge") rest ops
  else operation_of target operation [] ops.
Definition edit_asked (rc : RequestContext) (c e : DataNode) (ops : list Op) : Prop :=
  ∃ path operation value target, leaf_is c "target" path ∧ leaf_is c "operation" operation ∧
    (is_Some value ↔ is_Some (node_at F c "value")) ∧
    located ctx F (uriJoin (raw_path (req rc)) path) value (Some e) target ∧
    operation_asked rc c target operation ops.
(** The edits of a YANG patch in order: an accepted one is joined to the ones before, a rejected one is left out. *)
Inductive patch_asked (rc : RequestContext) : list DataNode → list Op → option DataNode → Prop :=
| asked_none : patch_asked rc [] [] None
| asked_first cs ops c e ops' :
    patch_asked rc cs ops None → edit_asked rc c e ops' → patch_asked rc (cs ++ [c]) (ops ++ ops') (Some e)
| asked_next cs ops m c e ops' first :
    patch_asked rc cs ops (Some m) → edit_asked rc c e ops' →
    patch_asked rc (cs ++ [c]) (ops ++ ops' ++ [Joined m e first]) (Some first)
| asked_rejected cs ops m c ops' :
    patch_asked rc cs ops m → patch_asked rc (cs ++ [c]) (ops ++ ops') m.

(** ** Stepping *)

Context (spec : DataNode → list Op → Prop).
Definition ops_good (s : list Op) (ev : Event L) : Prop :=
  let 'Ev c _ := ev in match c with SrEditBatch e => spec e s | _ => True end.
Abbreviation owp := (wp ops_next ops_lawful ops_good).

(** What the monitor does not see *)
Definition unseen (c : Cmd L) : bool :=
  match c with
  | LyNewMeta _ _ _ _ | LyNewAttrOpaqueJSON _ _ _ _ | LyInsertSibling _ _ | SrEditBatch _ => false
  | _ => true
  end.
Lemma unseen_next s c x : unseen c = true → ops_next s (Ev c x) = s ∧ ops_good s (Ev c x).
Proof. by destruct c. Qed.
Lemma looks_unseen s c x : looks c = true → ops_next s (Ev c x) = s ∧ ops_good s (Ev c x).
Proof. intros H. apply unseen_next. by destruct c. Qed.
Lemma ops_data s ev : ops_lawful s ev → data_answers ctx F ev.
Proof. done. Qed.

Lemma owp_unseen {A B} (p : prog L A) (f : A → prog L B) Q s :
  only unseen p → (∀ e, Q s (Throw e)) → (∀ a, owp (f a) Q s) → owp (prog_bind p f) Q s.
Proof. apply wp_bind_quiet. intros. by apply unseen_next. Qed.
Lemma owp_unseen_end {A} (p : prog L A) (Q : list Op → M A → Prop) s : only unseen p → (∀ r, Q s r) → owp p Q s.
Proof. apply wp_quiet. intros. by apply unseen_next. Qed.
Lemma owp_meta {B} n m name v (f : unit → prog L B) Q s :
  (∀ e, Q s (Throw e)) → owp (f tt) Q (s ++ [SetMeta n m name v]) →
  owp (prog_bind (A := unit) (call (LyNewMeta n m name v)) f) Q s.
Proof. intros He Hf. apply wp_bind_call. intros x _. split; [done|]. destruct x as [[]|e]; [exact Hf|apply He]. Qed.
Lemma owp_meta_end n m name v (Q : list Op → M unit → Prop) s :
  (∀ e, Q s (Throw e)) → Q (s ++ [SetMeta n m name v]) (Ok tt) → owp (call (LyNewMeta n m name v) : prog L unit) Q s.
Proof.
  intros He Hf. refine (wp_call _ _ _ (LyNewMeta n m name v) _ s _). intros x _. split; [done|].
  destruct x as [[]|e]; [exact Hf|apply He].
Qed.
Definition owp_look {B} := wp_look (B := B) ctx F ops_next ops_lawful ops_good looks_unseen ops_data.
Definition owp_create := createEdit_wp ctx F ops_next ops_lawful ops_good looks_unseen ops_data keys_differ.

(** ** Parts that set nothing *)

Lemma unseen_implementedModule name : only unseen (implementedModule ctx name).
Proof. unfold implementedModule. solve_only. Qed.
Lemma unseen_validate n : only unseen (validateInputMetaAttributes ctx n).
Proof. unfold validateInputMetaAttributes, latestModule. solve_only. Qed.
Lemma unseen_rejectImpl df p c rq code ty tag msg path info :
  only unseen (rejectWithErrorImpl ctx df p c rq code ty tag msg path info).
Proof. unfold rejectWithErrorImpl. solve_only. Qed.
Hint Resolve unseen_rejectImpl : effects.
Lemma unseen_exceptions rej rc e :
  (∀ df rq c ty tag msg p i, only unseen (rej df rq c ty tag msg p i)) →
  only unseen (restconfExceptions ctx rej rc e).
Proof. intros Hr. unfold restconfExceptions, requestIsAction. destruct e; solve_only; apply Hr. Qed.
Lemma unseen_reject df rq c ty tag msg p i : only unseen (rejectWithError ctx df rq c ty tag msg p i).
Proof. unfold rejectWithError. solve_only. Qed.
Lemma unseen_rejectPatch id df rq c ty tag msg p i : only unseen (rejectYangPatch ctx id df rq c ty tag msg p i).
Proof. unfold rejectYangPatch. solve_only. Qed.
Lemma unseen_rejectPatchEdit id eid df rq c ty tag msg p i :
  only unseen (rejectYangPatchEdit ctx id eid df rq c ty tag msg p i).
Proof. unfold rejectYangPatchEdit. solve_only. Qed.

(** ** Parts that do *)

(** The attributes that have been set, and what a result says of them *)
Definition sets {A} (P : A → list Op → Prop) (s s' : list Op) (r : M A) : Prop :=
  ∃ ops, s' = s ++ ops ∧ match r with Ok a => P a ops | Throw _ => True end.
Lemma sets_Throw {A} (P : A → list Op → Prop) s e : sets P s s (Throw e).
Proof. exists []. by rewrite app_nil_r. Qed.

Lemma yangInsert_wp target where_ point s :
  owp (yangInsert ctx target where_ point) (sets (λ _, placed target where_ point) s) s.
Proof.
  unfold yangInsert, implementedModule. apply wp_unwrap; [intros; apply sets_Throw|]. intros yang Hy.
  destruct (isUserOrderedList target) eqn:Ho; [|apply sets_Throw]. cbn [negb].
  apply owp_meta; [intros; apply sets_Throw|]. set (s1 := s ++ [_]).
  destruct point as [point|].
  2: { exists [SetMeta target yang "insert" where_]. split; [done|]. by exists yang. }
  assert (∀ e, sets (λ _ : unit, placed target where_ (Some point)) s s1 (Throw e)) as Hthrow by (intros e; by eexists).
  cbv zeta. apply wp_bind_lift; [auto|]. intros pointNode Hp. case_decide as Hsame.
  2: { apply owp_look; [done|auto|]. intros nodePath _. apply Hthrow. }
  subst pointNode.
  assert (∀ entry, (∃ back, last point = Some back ∧
      if decide (nodeType (schema target) = List) then listKeyPredicate (list_keys (schema target)) (keys back) = Ok entry
      else keys back !! 0 = Some entry) →
    owp (call (LyNewMeta target yang (if decide (nodeType (schema target) = List) then "key" else "value") entry))
      (sets (λ _, placed target where_ (Some point)) s) s1) as Hend.
  { intros entry (back & Hb & He). apply owp_meta_end; [auto|]. eexists. split; [unfold s1; by rewrite <- app_assoc|].
    exists yang. split_and!; [done|done|]. exists back, entry. split_and!; [done|done|].
    destruct (decide (nodeType (schema target) = List)); (split; [exact He|reflexivity]). }
  destruct (decide (nodeType (schema target) = List)) as [Hl|Hl].
  - apply wp_bind_assoc, wp_unwrap; [auto|]. intros back Hb. apply wp_bind_lift; [auto|]. eauto.
  - case_decide; [|apply Hthrow]. apply wp_bind_assoc, wp_unwrap; [auto|]. intros back Hb.
    apply wp_bind_lift; [auto|]. intros entry He. apply Hend. exists back. split; [done|].
    unfold key_at in He. destruct (keys back !! 0); [by simplify_eq|done].
Qed.
Lemma yangInsertQuery_wp rc target s :
  owp (yangInsertQuery ctx rc target) (sets (λ _, placed_by_query (queryParams (restconfRequest rc)) target) s) s.
Proof.
  unfold yangInsertQuery, placed_by_query. cbv zeta. destruct (mm_find "insert" _) as [v|].
  - apply wp_bind_lift; [intros; apply sets_Throw|]. intros [where_ point] Hv.
    eapply wp_mono; [apply yangInsert_wp|]. intros s' r (ops & -> & H). exists ops. split; [done|].
    destruct r; [|done]. eauto.
  - exists []. by rewrite app_nil_r.
Qed.
End ops.

(** ** The handlers *)

Section handlers.
Context {X : X3} {L : Libyang} {LM : LibyangMore L} {HL : LibyangLaws L} {D : DynSubs L} (ctx : Context) (timeout : N).
Context (F : Forest (L := L)).
Hypothesis keys_differ : ∀ n : SchemaNode, NoDup (node_name <$> list_keys n).
Abbreviation owp spec := (wp ops_next (ops_lawful ctx F) (ops_good spec)).
Definition anything {A} (s : list (Op (L := L))) (r : M A) : Prop := True.

Lemma owp_edit {B} spec e (f : unit → prog L B) s :
  spec e s → owp spec (f tt) anything s → owp spec (prog_bind (A := unit) (call (SrEditBatch e)) f) anything s.
Proof. intros He Hf. apply wp_bind_call. intros x _. split; [exact He|]. by destruct x as [[]|]. Qed.
(** What follows the edit *)
Lemma owp_rest {A} spec (p : prog L A) s : only unseen p → owp spec p anything s.
Proof. intros Hp. by apply owp_unseen_end. Qed.
Lemma owp_sets {A B} spec (P : A → list Op → Prop) (p : prog L A) (f : A → prog L B) s :
  owp spec p (sets P s) s → (∀ a ops, P a ops → owp spec (f a) anything (s ++ ops)) →
  owp spec (prog_bind p f) anything s.
Proof. intros Hp Hf. apply wp_bind. eapply wp_mono; [exact Hp|]. intros s' [a|e] (ops & -> & Ha); [by apply Hf|done]. Qed.

Lemma put_node_wp rc : owp (put_asked ctx F rc) (processPutOrPatchNode ctx timeout rc) anything [].
Proof.
  unfold processPutOrPatchNode. cbv zeta. apply owp_unseen; [by apply only_call|done|]. intros data.
  apply owp_unseen; [solve_only|done|]. intros _. apply owp_unseen; [apply only_unwrap|done|]. intros encoding.
  eapply returning_bind; [by apply (owp_create ctx F)|done|]. intros [edit target'] (target & Ht & Hl). simpl in Ht, Hl.
  subst target'. apply wp_unwrap; [done|]. intros e ->. apply owp_unseen; [apply unseen_validate|done|]. intros _.
  assert (∀ (b : bool) ops, put_asked ctx F rc e ops → owp (put_asked ctx F rc)
    (_ ← call (SrEditBatch e); _ ← call (SrApplyChanges timeout);
     _ ← (if b then call (HttpWriteHead (if bool_decide (is_Some data) then 204 else 201) (mm_of_list [CORS]))
          else call (HttpWriteHead 204 (mm_of_list [CORS])));
     call (HttpEnd None)) anything ops) as Hend.
  { intros b ops Hops. apply owp_edit; [done|]. apply owp_rest. solve_only. }
  destruct (bool_decide (req_method (req rc) = "PUT")) eqn:Hput.
  - apply bool_decide_eq_true in Hput. apply wp_bind_assoc. unfold implementedModule. apply wp_unwrap; [done|]. intros netconf Hn.
    apply wp_bind_assoc, wp_unwrap; [done|]. intros ? [= <-]. apply wp_bind_assoc, owp_meta; [done|].
    eapply owp_sets; [apply yangInsertQuery_wp|]. intros [] rest Hrest. apply (Hend true). exists target. split; [done|].
    rewrite decide_True by done. exists rest. split; [by exists netconf|done].
  - apply bool_decide_eq_false in Hput. apply (Hend false). exists target. split; [done|]. by rewrite decide_False.
Qed.

Lemma post_wp rc : owp (post_asked ctx F rc) (processPost ctx timeout rc) anything [].
Proof.
  unfold processPost. apply wp_unwrap; [done|]. intros encoding _.
  eapply returning_bind with (P := λ r : option DataNode * option DataNode * list DataNode, match r.1.2 with
    | Some node =>
        (if decide (path (restconfRequest rc) = "/") then r.1.1 = Some node
         else made F node = Some (path (restconfRequest rc), r.1.1)) ∧
        r.2 = (if decide (path (restconfRequest rc) = "/") then node_siblings F node else node_children F node)
    | None => r.2 = []
    end); [|done|].
  - unfold postTrees. case_decide as Hp.
    + apply (owp_look ctx F); [done|done|]. intros [n|] _; [|by split]. apply (owp_look ctx F); [done|done|].
      intros l Hs. split; [done|]. split; [done|]. by apply Hs.
    + apply (owp_look ctx F); [done|done|]. intros [top o] Hm. apply wp_unwrap; [done|]. intros n ->.
      apply (owp_look ctx F); [done|done|]. intros _ _. apply (owp_look ctx F); [done|done|]. intros l Hc. split; [done|].
      split; [by apply Hm|]. by apply Hc.
  - intros [[edit node] created] Htrees. cbn [fst snd] in Htrees.
    apply owp_unseen; [destruct edit; [apply unseen_validate|done]|done|].
    intros _. cbv zeta. destruct node as [node|]; [|by rewrite Htrees].
    destruct Htrees as [Hedit ->]. destruct (List.filter _ _) as [|c [|]] eqn:Hc; [done| |done].
    unfold implementedModule. apply wp_unwrap; [done|]. intros netconf Hn. apply owp_meta; [done|].
    eapply owp_sets; [apply yangInsertQuery_wp|]. intros [] rest Hrest. apply wp_unwrap; [done|]. intros e ->.
    apply owp_edit; [|apply owp_rest; solve_only]. exists c, rest. split; [by exists netconf|]. split; [done|].
    exists node. split; [|exact Hc]. destruct (decide _); [by injection Hedit|done].
Qed.

(** ** YANG patch *)

Lemma childLeafValue_wp spec n name s : owp spec (childLeafValue n name) (returning (leaf_is F n name) s) s.
Proof.
  unfold childLeafValue. apply (owp_look ctx F); [done|done|]. intros child Hc. specialize (Hc _ eq_refl).
  destruct child as [child|]; [|by split]. apply (owp_look ctx F); [done|done|]. intros [] _; [|by split].
  refine (wp_call _ _ _ (LyValueStr child) _ s _). intros x Hx. split; [done|]. split; [done|].
  destruct x as [v|]; [|done]. exists child. split; [done|]. by apply Hx.
Qed.
Lemma patchValue_wp spec c s :
  owp spec (yangPatchValueAsJSON c) (returning (λ v, is_Some v ↔ is_Some (node_at F c "value")) s) s.
Proof.
  unfold yangPatchValueAsJSON. apply (owp_look ctx F); [done|done|]. intros v Hv. rewrite <- (Hv _ eq_refl).
  destruct v as [v|]; [|by split]. apply (owp_look ctx F); [done|done|]. intros [n|] _.
  - apply (owp_look ctx F); [done|done|]. intros printed _. apply wp_unwrap; [done|]. intros value _. split; [done|].
    split; intros _; eauto.
  - apply (owp_look ctx F); [done|done|]. intros nodePath _. by split.
Qed.
Lemma editPoint_wp {B} spec rc c where_ (f : option string → prog L B) Q s :
  (∀ e, Q s (Throw e)) →
  (∀ point, (if decide (where_ = "before" ∨ where_ = "after") then
               ∃ p, leaf_is F c "point" p ∧ point = Some (uri_path (req rc) +:+ p)
             else point = None) → owp spec (f point) Q s) →
  owp spec (pointNode ← call (LyFindPath c "point"); point ← editPoint rc where_ pointNode; f point) Q s.
Proof.
  intros He Hf. apply (owp_look ctx F); [done|done|]. intros pointNode Hp. specialize (Hp _ eq_refl). unfold editPoint.
  case_decide; destruct pointNode as [pointNode|]; [|apply He|apply He|by apply Hf].
  apply wp_bind_assoc, (owp_look ctx F); [done|done|]. intros v Hv. apply Hf. exists v. split; [|done].
  exists pointNode. split; [done|]. by apply Hv.
Qed.
Lemma yangInsertEdit_wp spec target where_ point s :
  owp spec (yangInsertEdit ctx target where_ point)
    (sets (λ _ ops, ∃ segments, match point with
                                | Some p => ∃ l, asPathSegments p = Ok l ∧ segments = Some l
                                | None => segments = None
                                end ∧ placed ctx target where_ segments ops) s) s.
Proof.
  unfold yangInsertEdit. destruct point as [p|].
  - apply wp_bind_assoc, wp_bind_lift; [intros; apply sets_Throw|]. intros l Hl. cbn [prog_bind].
    eapply wp_mono; [apply yangInsert_wp|]. intros s' r (ops & -> & H). exists ops. split; [done|].
    destruct r; [|done]. eauto.
  - cbn [prog_bind]. eapply wp_mono; [apply yangInsert_wp|]. intros s' r (ops & -> & H). exists ops. split; [done|].
    destruct r; [|done]. eauto.
Qed.

(** The operation and the position of one edit *)
Definition joins (m : option DataNode) (e : DataNode) (o : option DataNode) (ops all : list Op) : Prop :=
  match m with
  | None => all = ops ∧ o = Some e
  | Some m => ∃ first, all = ops ++ [Joined m e first] ∧ o = Some first
  end.
Lemma join_wp spec m e ops s0 (P : list Op → Prop) :
  P ops →
  owp spec (match m with
            | None => Ret (Some e)
            | Some merged => first ← call (LyInsertSibling merged e); Ret (Some (first : DataNode))
            end) (sets (λ o all, ∃ ops, P ops ∧ joins m e o ops all) s0) (s0 ++ ops).
Proof.
  intros HP. destruct m as [m|].
  - apply wp_bind_call. intros x _. split; [done|]. destruct x as [first|]; [|by exists ops].
    eexists. split; [simpl; by rewrite <- app_assoc|]. exists ops. split; [done|]. exists first. done.
  - exists ops. split; [done|]. exists ops. done.
Qed.
Lemma edit_operation_wp spec rc c target operation netconf s :
  getModuleImplemented ctx "ietf-netconf" = Some netconf →
  owp spec (if decide (operation = "insert" ∨ operation = "move") then
         where_ ← childLeafValue c "where";
         pointNode ← call (LyFindPath c "point");
         point ← editPoint rc where_ pointNode;
         replacementNode ← unwrap (Some target);
         _ ← call (LyNewMeta replacementNode netconf "operation"
                     (if decide (operation = "insert") then "create" else "merge"));
         yangInsertEdit ctx replacementNode where_ point
     else
         replacementNode ← unwrap (Some target);
         call (LyNewMeta replacementNode netconf "operation" operation))
    (sets (λ _, operation_asked ctx F rc c target operation) s) s.
Proof.
  intros Hn. unfold operation_asked. destruct (decide (operation = "insert" ∨ operation = "move")) as [Hop|Hop].
  - eapply returning_bind; [apply childLeafValue_wp|intros; apply sets_Throw|]. intros where_ Hw.
    apply editPoint_wp; [intros; apply sets_Throw|]. intros point Hpoint.
    apply wp_unwrap; [intros; apply sets_Throw|]. intros ? [= <-]. apply owp_meta; [intros; apply sets_Throw|].
    eapply wp_mono; [apply yangInsertEdit_wp|]. intros s' r (ops & -> & H). eexists. split; [by rewrite <- app_assoc|].
    destruct r as [[]|]; [|done]. destruct H as (segments & Hs & Hpl). exists where_, segments, ops.
    split_and!; [done| |done|by exists netconf]. unfold point_asked. case_decide.
    + destruct Hpoint as (p & Hp & ->). destruct Hs as (l & Hl & ->). eauto.
    + by subst.
  - apply wp_unwrap; [intros; apply sets_Throw|]. intros ? [= <-]. apply owp_meta_end; [intros; apply sets_Throw|].
    eexists. split; [done|]. by exists netconf.
Qed.
Lemma patch_edit_wp spec rc c m s :
  owp spec (processYangPatchEdit ctx rc c m) (sets (λ o all, ∃ e ops, edit_asked ctx F rc c e ops ∧ joins m e o ops all) s) s.
Proof.
  unfold processYangPatchEdit, implementedModule. apply wp_unwrap; [intros; apply sets_Throw|]. intros netconf Hn.
  eapply returning_bind; [apply childLeafValue_wp|intros; apply sets_Throw|]. intros path Hpath.
  eapply returning_bind; [apply childLeafValue_wp|intros; apply sets_Throw|]. intros operation Hop.
  eapply returning_bind; [apply patchValue_wp|intros; apply sets_Throw|]. intros value Hv.
  eapply returning_bind; [by apply (owp_create ctx F)|intros; apply sets_Throw|].
  intros [edit target'] (target & Ht & Hl). simpl in Ht, Hl. subst target'.
  apply wp_unwrap; [intros; apply sets_Throw|]. intros e ->.
  apply owp_unseen; [apply unseen_validate|intros; apply sets_Throw|]. intros _.
  apply wp_bind. eapply wp_mono; [by apply (edit_operation_wp spec rc c target operation netconf)|].
  intros s' [[]|x] (ops & -> & Ho); [|by exists ops].
  eapply wp_mono; [apply (join_wp spec m e ops s (edit_asked ctx F rc c e))|].
  - exists path, operation, value, target. done.
  - intros s' r (all & -> & H). exists all. split; [done|]. destruct r as [o|]; [|done].
    destruct H as (ops' & ? & ?). by exists e, ops'.
Qed.

(** One edit whose errors are answered: it is accepted, or left out. *)
Lemma patch_edit_caught_wp spec rc id eid c m s :
  owp spec (withRestconfExceptions ctx (processYangPatchEdit ctx rc c m) m (rejectYangPatchEdit ctx id eid) rc)
    (sets (λ o all, o = m ∨ ∃ e ops, edit_asked ctx F rc c e ops ∧ joins m e o ops all) s) s.
Proof.
  apply wp_try. eapply wp_mono; [apply patch_edit_wp|]. intros s' [o|x] (all & -> & H); [exists all; auto|].
  apply owp_unseen; [apply unseen_exceptions, unseen_rejectPatchEdit|by intros e; exists all|].
  intros []. exists all. auto.
Qed.
Lemma patch_edits_wp spec rc id seen edits m s :
  patch_asked ctx F rc seen s m →
  owp spec (foldM (λ mergedEdits editContainer,
      editId ← childLeafValue editContainer "edit-id";
      withRestconfExceptions ctx (processYangPatchEdit ctx rc editContainer mergedEdits) mergedEdits
        (rejectYangPatchEdit ctx id editId) rc) m edits)
    (λ s' r, match r with Ok o => patch_asked ctx F rc (seen ++ edits) s' o | Throw _ => True end) s.
Proof.
  revert seen m s. induction edits as [|c edits IH]; intros seen m s Hm; cbn [foldM]; [by rewrite app_nil_r|].
  apply wp_bind_assoc. eapply returning_bind; [apply childLeafValue_wp|done|]. intros eid _.
  apply wp_bind. eapply wp_mono; [apply patch_edit_caught_wp|]. intros s' [o|x] (all & -> & H); [|done].
  rewrite cons_middle, app_assoc. apply IH. destruct H as [->|(e & ops & He & Hj)]; [by constructor|].
  destruct m as [m|].
  - destruct Hj as (first & -> & ->). by apply asked_next.
  - destruct Hj as [-> ->]. by apply asked_first.
Qed.

Definition yang_patch_asked (rc : RequestContext) (e : DataNode) (ops : list Op) : Prop :=
  ∃ patch, patch_asked ctx F rc (node_find F patch "edit") ops (Some e).
Lemma patch_impl_wp rc patch id :
  owp (yang_patch_asked rc) (processYangPatchImpl ctx timeout rc patch id) anything [].
Proof.
  unfold processYangPatchImpl. apply (owp_look ctx F); [done|done|]. intros edits Hes. rewrite (Hes _ eq_refl).
  apply wp_bind. eapply wp_mono; [apply (patch_edits_wp _ rc id []); constructor|].
  intros s' [[merged|]|x] H; [|done..]. apply owp_edit; [by exists patch|]. apply owp_rest. solve_only.
Qed.
Lemma yang_patch_wp rc : owp (yang_patch_asked rc) (processYangPatch ctx timeout rc) anything [].
Proof.
  unfold processYangPatch. apply wp_unwrap; [done|]. intros encoding _. apply (owp_look ctx F); [done|done|].
  intros [patch|] _; [|done]. eapply returning_bind; [apply childLeafValue_wp|done|]. intros id _.
  apply wp_bind, wp_try. eapply wp_mono; [apply patch_impl_wp|]. intros s' [[]|x] _.
  - apply owp_rest. solve_only.
  - apply owp_unseen; [apply unseen_exceptions, unseen_rejectPatch|done|]. intros []. apply owp_rest. solve_only.
Qed.

(** ** A complete body *)

Definition put_or_patch_asked (rc : RequestContext) (e : DataNode) (ops : list Op) : Prop :=
  if decide (path (restconfRequest rc) = "/") then ops = [] else put_asked ctx F rc e ops.
Definition write_asked (rc : RequestContext) (e : DataNode) (ops : list Op) : Prop :=
  match type (restconfRequest rc) with
  | CreateChildren => post_asked ctx F rc e ops
  | MergeData => if isYangPatch (req rc) then yang_patch_asked rc e ops else put_or_patch_asked rc e ops
  | _ => put_or_patch_asked rc e ops
  end.
Lemma put_or_patch_wp rc : owp (put_or_patch_asked rc) (processPutOrPlainPatch ctx timeout rc) anything [].
Proof.
  unfold processPutOrPlainPatch, put_or_patch_asked. case_decide.
  - apply wp_unwrap; [done|]. intros encoding _. unfold processPutOrPatchRoot. apply owp_unseen; [by apply only_call|done|].
    intros [n|]; [|done]. apply owp_unseen; [apply unseen_validate|done|]. intros _. case_decide.
    + apply owp_rest. solve_only.
    + apply wp_bind_assoc, owp_edit; [done|]. apply owp_rest. solve_only.
  - apply owp_unseen; [by apply only_call|done|]. intros active. unfold withLock. destruct (negb _); [|apply put_node_wp].
    apply owp_unseen; [by apply only_call|done|]. intros _. apply wp_finally.
    eapply wp_mono; [apply put_node_wp|]. by intros s r _ x _.
Qed.
Definition writes (type : RequestType) : bool :=
  match type with Execute | ExecuteInternal => false | _ => true end.
Lemma onBody_wp rc subs :
  writes (type (restconfRequest rc)) = true → owp (write_asked rc) (onBody ctx timeout rc subs) anything [].
Proof.
  assert (∀ spec (func : RequestContext → prog L unit), owp spec (func rc) anything [] →
    owp spec (prog_bind (withRestconfExceptions ctx (func rc) tt (rejectWithError ctx) rc) (λ _, Ret subs)) anything []) as Hw.
  { intros spec func Hf. apply wp_bind, wp_try. eapply wp_mono; [exact Hf|]. intros s' [[]|x] _; [done|].
    apply owp_unseen; [apply unseen_exceptions, unseen_reject|done|]. by intros []. }
  unfold onBody, write_asked, writes. cbv beta zeta. intros Ht.
  destruct (type (restconfRequest rc)); try discriminate Ht; try (apply Hw, put_or_patch_wp); [apply Hw, post_wp|].
  destruct (isYangPatch (req rc)); apply Hw; [apply yang_patch_wp|apply put_or_patch_wp].
Qed.

Lemma data_lawful t : Forall (data_answers ctx F) t → ∀ s, all_lawful ops_next (ops_lawful ctx F) s t.
Proof. induction 1 as [|ev t Hev _ IH]; intros s; simpl; [done|]. split; [exact Hev|apply IH]. Qed.

(** C16: the edit sysrepo gets says what the request says.  Let the answers of libyang be those of some forest.
    Whenever an edit is given to sysrepo for a complete POST, PUT or PATCH body, the attributes attached and the
    trees joined so far are exactly: for POST, create on the only new node below the one the URI
    names; for PUT, replace on the node with the name, module and canonical keys of the
    URI, next to nothing but keys of its parent; for PATCH none; and for a YANG patch, in the order of its
    edits, the operation of every accepted edit on the node its target names.  An [insert] or a [where] adds
    the attributes of the position asked for, and nothing else is attached. *)
Theorem writes_as_asked (rc : RequestContext) (subs : Subscriptions) (t t1 t2 : list (Event L)) (r : M Subscriptions)
    (e : DataNode) (x : M (Answer (SrEditBatch e))) :
  writes (type (restconfRequest rc)) = true →
  runs (onBody ctx timeout rc subs) t r → Forall (data_answers ctx F) t → t = t1 ++ Ev (SrEditBatch e) x :: t2 →
  write_asked rc e (watch ops_next [] t1).
Proof.
  intros Ht Hr Hl ->. pose proof (data_lawful _ Hl []) as Hall.
  destruct (wp_runs _ _ _ _ _ _ _ _ (onBody_wp rc subs Ht) Hr Hall) as [H _].
  by apply (all_good_at ops_next (ops_lawful ctx F)) in H.
Qed.

(** DELETE: the operation is on the node of the URI, and nothing else is attached. *)
Lemma delete_wp rr : owp (delete_asked ctx F rr) (deleteEdit ctx timeout rr) anything [].
Proof.
  unfold deleteEdit, latestModule. apply (owp_look ctx F); [done|done|]. intros [edit o] Hm.
  apply wp_unwrap; [done|]. intros e ->. apply owp_unseen; [apply unseen_validate|done|]. intros _.
  apply wp_unwrap; [done|]. intros target ->. destruct (Hm _ _ eq_refl) as [Hmade _].
  apply (owp_look ctx F); [done|done|]. intros b Hb. specialize (Hb _ eq_refl). destruct b.
  - apply wp_bind_call. intros x _. split; [done|]. destruct x as [[]|]; [|done].
    apply owp_edit; [|apply owp_rest; solve_only]. exists target. split; [done|]. by rewrite <- Hb.
  - apply wp_bind_assoc, wp_unwrap; [done|]. intros netconf Hn. apply owp_meta; [done|].
    apply owp_edit; [|apply owp_rest; solve_only]. exists target. split; [done|]. rewrite <- Hb. by exists netconf.
Qed.
Theorem delete_as_asked (rr : RestconfRequest) (t t1 t2 : list (Event L)) (r : M unit) (e : DataNode) (x : M (Answer (SrEditBatch e))) :
  runs (deleteEdit ctx timeout rr) t r → Forall (data_answers ctx F) t → t = t1 ++ Ev (SrEditBatch e) x :: t2 →
  delete_asked ctx F rr e (watch ops_next [] t1).
Proof.
  intros Hr Hl ->. destruct (wp_runs _ _ _ _ _ _ _ _ (delete_wp rr) Hr (data_lawful _ Hl [])) as [H _].
  by apply (all_good_at ops_next (ops_lawful ctx F)) in H.
Qed.

(** PUT of [/] always answers 201: the tree that was parsed, and not what was there before, decides the status, and an
    empty one has been refused. *)
Definition not_status (code : Z) (c : Cmd L) : bool :=
  match c with HttpWriteHead code' _ => negb (bool_decide (code' = code)) | _ => true end.
Lemma put_root_never_204 rc f :
  req_method (req rc) = "PUT" → only (not_status 204) (processPutOrPatchRoot ctx timeout rc f).
Proof.
  intros Hput. unfold processPutOrPatchRoot. apply only_bind; [by apply only_call|]. intros [n|]; [|done].
  rewrite decide_True by done. unfold validateInputMetaAttributes, latestModule. solve_only.
Qed.
End handlers.
