(* ===== verification/ServerSample.v ===== *)
(** * ServerSample: the handlers run on concrete requests

    The sample schema of [Libyang], with one data node for each schema node, and environments
    that answer a command always in the same way.  The runs are the witnesses of the theorems,
    and show what the code does where it does not do what it means to. *)

From S2P Require Import Prelude Exceptions UriTypes Uuid X3 Libyang YangUtils UriRequest HttpUtils DataFormat Nacm Pam PamFacts HttpAuth DynamicSubscriptions Effects Responses Edits EditsFacts Handlers YangSchemaLocations NotificationStream SubscriptionStream Server ServerFacts StatusFacts HandlersFacts ServerResponses ServerAccess ServerEdits.

Open Scope prog_scope.

Module ServerSample.
Import Example.

#[export] Instance ly_more : LibyangMore ly_ref := {|
  LyModule_eq_dec := (String.eq_dec : EqDecision (@Module ly_ref));
  DataNode_eq_dec := snode_eq_dec;
  ly_module_name := id;
  ly_module_ns := λ m, "urn:" +:+ m;
  ly_module_revision := λ _, Some "2019-01-04";
  ly_module_implemented := λ _, true;
  ly_submodule_name := id;
  getModuleImplemented := λ _ n, Some n;
  getModuleLatest := λ _ n, Some n;
  featureEnabled := λ _ _, true;
  ctx_modules := λ _, ["example"; "aug"];
  actionRpcs := λ m, if decide (m = "example") then [Reset] else [];
  rpc_input_child := λ n, bool_decide (n ∈ [Act; Establish]);
  leaf_isKey := λ n, bool_decide (n ∈ [LstName; LstId]);
  module_of := module
|}.

(** A registry that counts its subscriptions *)
#[export] Instance counting : DynSubs ly_ref := {|
  Subscriptions := nat;
  rpcEstablishSubscription h f i o n :=
    _ ← call (L := ly_ref) (LyNodeNewPath (L := ly_ref) o "id" (Some (pretty (N.of_nat n)))); Ret (S n);
  rpcDeleteSubscription h f i o n := Ret (pred n)
|}.
#[export] Instance counting_laws : DynSubsLaws counting.
Proof.
  split; intros.
  - cbn [rpcEstablishSubscription counting]. solve_only.
  - done.
  - cbn [rpcEstablishSubscription counting]. solve_raises.
  - done.
Qed.

(** The answers: what a query finds, the tree a body is parsed to, and the rest *)
Definition env (found : option snode) (tree : snode) (c : Cmd ly_ref) : M (Answer c) :=
  match c return M (Answer c) with
  | SrGetData _ _ _ _ => Ok found
  | LyParseData _ _ => Ok (Some tree)
  | LyNewPath _ _ | LyDuplicate _ => Ok tree
  | LyInsertSibling n _ => Ok n
  | LyNewPath2 _ _ => Ok (Some tree, Some tree)
  | LyNodeNewPath n _ _ => Ok (Some n)
  | LyNewOpaqueJSON _ _ _ _ | LyNewOpaqueXML _ _ _ _ => Ok (Some tree)
  | LyChild _ | LyAnyNode _ | SrSendRPC _ _ => Ok (Some tree)
  | LyParent _ => Ok None
  | LyFindPath n _ => Ok (Some n)
  | LyGetErrors => Ok []
  | LyImmediateChildren _ | LySiblings _ => Ok [tree]
  | LyChildrenDfs n => Ok [n]
  | LyFindXPath n _ => Ok [n]
  | LyMeta _ => Ok []
  | LyNodePath n => Ok (full n)
  | LyValueStr _ => Ok "v"
  | LySchemaPrint _ => Ok "module"
  | LyPrintStr _ _ _ => Ok (Some "text")
  | LyIsTerm _ | LyIsOpaque _ | LyIsImplicitDefault _ | SrCheckNacmOperation _ => Ok true
  | SrActiveDatastore => Ok Running
  | SrModuleReplaySupport _ => Ok (true, None)
  | SrGetChanges _ => Ok []
  | SrProcessEvent => Ok []
  | PollFd => Ok (0%Z, (false, false))
  | LyValueUInt32 _ => Ok 0%N
  | ClockNow => Ok 0%Z
  | _ => Ok tt
  end.

Lemma env_lawful found tree c : lawful_answer c (env found tree c).
Proof. destruct c; simpl; first [reflexivity|eexists; reflexivity|intros ? [=]]. Qed.
Lemma interp_answered {A} (e : ∀ c : Cmd ly_ref, M (Answer c)) (p : prog ly_ref A) :
  (∀ c, lawful_answer c (e c)) → answered (interp e p).1.
Proof.
  intros He. induction p as [a|x|c k IH]; simpl; [constructor..|].
  specialize (IH (e c)). destruct (interp e (k (e c))). simpl in *. constructor; [apply He|done].
Qed.

Definition put (path body : string) : RequestContext :=
  mkRequestContext (mkReq "PUT" path path "" [("content-type", "application/yang-data+json")])
    (mkDataEncoding (Some JSON) JSON) (mkRequest CreateOrReplaceThisNode (Some Running) "/example:top" []) body.
Abbreviation onBody_ref := (onBody (X := x3_ref) (L := ly_ref) (tt : @Context ly_ref) 0).

Lemma onBody_responds_once_witness :
  let p := onBody_ref (put "/restconf/data/example:top" "{}") 0 in
  replies (responses (interp (env None Top) p).1) = [Head 201; Body] ∧
  body_outcome (X := x3_ref) (L := ly_ref) (tt : @Context ly_ref) 0 (put "/restconf/data/example:top" "{}") 0 (interp (env None Top) p).1 (interp (env None Top) p).2.
Proof.
  split; [vm_compute; reflexivity|].
  apply (onBody_responds_once (X := x3_ref) (L := ly_ref) (HL := ly_ref_laws) (tt : @Context ly_ref) 0).
  - reflexivity.
  - apply interp_runs.
  - apply interp_answered, env_lawful.
Defined.

(** ** Whole requests *)

Definition pam_ref : UserPass → list (PamCall * PamAnswer) → PamCall → PamAnswer := PamSample.pam.
Definition serve_ref (nacm : Nacm) (rq : Request) (chunks : list string) : prog ly_ref nat :=
  serveRestconf (X := x3_ref) (L := ly_ref) (D := counting) (B := base64_ref) (tt : @Context ly_ref) 0 "yangnobody" pam_ref
    PamSample.strerror nacm rq chunks (0 : @Subscriptions ly_ref counting).
Definition handler_ref (nacm : Nacm) (rq : Request) : prog ly_ref (Outcome (L := ly_ref)) :=
  restconfHandler (X := x3_ref) (L := ly_ref) (B := base64_ref) (tt : @Context ly_ref) 0 "yangnobody" pam_ref
    PamSample.strerror nacm rq.
(** PUT of [example:top] without credentials, while anonymous access is enabled *)
Definition put_request : Request :=
  mkReq "PUT" "/restconf/data/example:top" "/restconf/data/example:top" ""
    [("content-type", "application/yang-data+json")].
Definition get_request : Request :=
  mkReq "GET" "/restconf/data/example:top" "/restconf/data/example:top" "depth=2" [].
Definition served : list (Event ly_ref) := (interp (env None Top) (serve_ref (mkNacm true) put_request ["{"; "}"])).1.

(** The eleventh command gives the edit to sysrepo. *)
Lemma served_edit : served = take 10 served ++ Ev (SrEditBatch (L := ly_ref) Top) (Ok tt) :: drop 11 served.
Proof. vm_cast_no_check (eq_refl served). Qed.
Lemma get_done : (interp (env (Some Top) Top) (handler_ref (mkNacm true) get_request)).2 = Ok Done.
Proof. vm_cast_no_check (eq_refl (Ok Done : M (Outcome (L := ly_ref)))). Qed.

Lemma restconfHandler_responds_once_witness :
  replies (responses (interp (env (Some Top) Top) (handler_ref (mkNacm true) get_request)).1) = [Head 200; Body] ∧
  outcome_of (interp (env (Some Top) Top) (handler_ref (mkNacm true) get_request)).1 Done.
Proof.
  split; [vm_compute; reflexivity|].
  eapply (restconfHandler_responds_once (X := x3_ref) (L := ly_ref) (B := base64_ref) (tt : @Context ly_ref) 0
           "yangnobody" pam_ref PamSample.strerror (mkNacm true) get_request).
  - rewrite <- get_done. apply interp_runs.
  - apply interp_answered, env_lawful.
Defined.

Lemma serveRestconf_authorized_witness :
  ∃ u, view_user (session_after (take 10 served)) = Some u ∧
       authorized (X := x3_ref) (B := base64_ref) "yangnobody" pam_ref PamSample.strerror (mkNacm true) put_request u.
Proof.
  eapply (serveRestconf_authorized (X := x3_ref) (L := ly_ref) (D := counting) (B := base64_ref) (tt : @Context ly_ref) 0
            "yangnobody" pam_ref PamSample.strerror (mkNacm true) put_request ["{"; "}"] (0 : @Subscriptions ly_ref counting) served
            _ (take 10 served) (drop 11 served) (SrEditBatch (L := ly_ref) Top) (Ok tt)).
  - apply interp_runs.
  - exact served_edit.
  - reflexivity.
Defined.
Lemma serveRestconf_writes_witness :
  ∃ d, view_ds (session_after (take 10 served)) = Some d ∧ d ≠ Operational ∧ d ≠ FactoryDefault.
Proof.
  eapply (serveRestconf_writes (X := x3_ref) (L := ly_ref) (D := counting) (B := base64_ref) (tt : @Context ly_ref) 0
            "yangnobody" pam_ref PamSample.strerror (mkNacm true) put_request ["{"; "}"] (0 : @Subscriptions ly_ref counting) served
            _ (take 10 served) (drop 11 served) (SrEditBatch (L := ly_ref) Top) (Ok tt)).
  - apply interp_runs.
  - exact served_edit.
  - reflexivity.
Defined.
Lemma served_new_nodes : all_lawful (L := ly_ref) trees_next new_nodes noTrees served.
Proof. vm_compute. repeat constructor. Qed.
Lemma serveRestconf_edits_clean_witness :
  clean (L := ly_ref) (tt : @Context ly_ref) (trees_after (take 10 served)) Top.
Proof.
  eapply (serveRestconf_edits_clean (X := x3_ref) (L := ly_ref) (D := counting) (B := base64_ref) (tt : @Context ly_ref) 0
            "yangnobody" pam_ref PamSample.strerror (mkNacm true) put_request ["{"; "}"] (0 : @Subscriptions ly_ref counting) served
            _ (take 10 served) (drop 11 served) (SrEditBatch (L := ly_ref) Top) (Ok tt)).
  - apply interp_runs.
  - exact served_new_nodes.
  - exact served_edit.
  - left. reflexivity.
Defined.

(** ** What the code does not mean to do *)

Definition yang_patch (path : string) : RequestContext :=
  mkRequestContext (mkReq "PATCH" path path "" [("content-type", "application/yang-patch+json")])
    (mkDataEncoding (Some JSON) JSON) (mkRequest MergeData (Some Running) "/example:top" []) "{}".

(** sysrepo refuses to apply the changes. *)
Definition env_refused (c : Cmd ly_ref) : M (Answer c) :=
  match c return M (Answer c) with
  | SrApplyChanges _ => Throw (ESysrepo SrUnauthorized "denied")
  | LyValueStr _ => Ok "example:top"
  | c => env None Top c
  end.
(** A patch with two edits: [Lst], which has no target, and [Top] *)
Definition env_two_edits (c : Cmd ly_ref) : M (Answer c) :=
  match c return M (Answer c) with
  | LyFindXPath _ "edit" => Ok [Lst; Top]
  | LyFindPath Lst "target" => Ok None
  | LyValueStr _ => Ok "example:top"
  | c => env None Top c
  end.
Definition run_patch (e : ∀ c : Cmd ly_ref, M (Answer c)) : list (Event ly_ref) * M nat :=
  interp e (onBody_ref (yang_patch "/restconf/data") (0 : @Subscriptions ly_ref counting)).

(** A value with both kinds of quotes, for every leaf *)
Definition env_quotes (c : Cmd ly_ref) : M (Answer c) :=
  match c return M (Answer c) with
  | LyValueStr _ => Ok (squote +:+ dquote)
  | c => env None Lst c
  end.
Definition env_lst (c : Cmd ly_ref) : M (Answer c) :=
  match c return M (Answer c) with
  | LyValueStr Top => Ok "example:top/example:lst"
  | c => env None Lst c
  end.

(** Exceptions that no catch clause knows leave the handler, and end the server: the value of a list
    key in the body has both kinds of quotes; and two ways to undefined behaviour: the target of
    a YANG patch whose last segment has a prefix and no keys, although the list has keys; and
    an RPC without input that is called with a body and no content type. *)
Theorem body_stops_server :
  (interp env_quotes (onBody_ref (put "/restconf/data/example:top/lst=x,y" "{}") (0 : @Subscriptions ly_ref counting))).2 =
    Throw (EInvalidArgument "Encountered mixed single and double quotes in XPath. Can't properly escape.") ∧
  (interp env_lst (processYangPatchEdit (X := x3_ref) (L := ly_ref) (tt : @Context ly_ref)
     (yang_patch "/restconf/data") Top None)).2 =
    Throw (EUndefined "vector index out of range") ∧
  (interp (env None Reset) (onBody_ref (mkRequestContext (mkReq "POST" "/restconf/operations/example:reset"
       "/restconf/operations/example:reset" "" []) (mkDataEncoding None JSON)
       (mkRequest Execute None "/example:reset" []) "{}") (0 : @Subscriptions ly_ref counting))).2 =
    Throw (EUndefined "empty optional").
Proof. vm_compute. auto. Qed.

(** Two top-level trees in the body of a PATCH of [/]; the second is to be removed. *)
Definition env_siblings (c : Cmd ly_ref) : M (Answer c) :=
  match c return M (Answer c) with
  | LySiblings _ => Ok [Top; Reset]
  | LyMeta Reset => Ok [mkMeta (L := ly_ref) false "ietf-netconf" "operation" "remove"]
  | c => env None Top c
  end.
Definition patch_root : RequestContext :=
  mkRequestContext (mkReq "PATCH" "/restconf/data" "/restconf/data" "" [("content-type", "application/yang-data+json")])
    (mkDataEncoding (Some JSON) JSON) (mkRequest MergeData (Some Running) "/" []) "{}".
Definition looks_at (n : snode) (ev : Event ly_ref) : bool :=
  match ev with Ev (LyMeta m) _ => bool_decide (m = n) | _ => false end.

(** The meta attributes of the siblings of the first tree are not looked at, although sysrepo
    takes the siblings as part of the edit: an attribute that is refused elsewhere gets through. *)
Theorem sibling_meta_unchecked :
  let t := (interp env_siblings (onBody_ref patch_root (0 : @Subscriptions ly_ref counting))).1 in
  replies (responses t) = [Head 204; Body] ∧ applied (responses t) = true ∧
  existsb (looks_at Top) t = true ∧ existsb (looks_at Reset) t = false ∧
  forbidden (L := ly_ref) (tt : @Context ly_ref) (mkMeta (L := ly_ref) false "ietf-netconf" "operation" "remove").
Proof.
  intros t. split_and!; [vm_compute; reflexivity..|]. split; [reflexivity|]. exists "ietf-netconf". split; [left|reflexivity].
Qed.

(** The edit-id of the client is part of an XPath as it came. *)
Example edit_id_unescaped :
  hd_error (interp (env None Top) (rejectYangPatchEdit (X := x3_ref) (L := ly_ref) (tt : @Context ly_ref) "1" "a' or 'b'='b"
    JSON put_request 400%Z "protocol" "invalid-value" "message" None None)).1 =
  Some (Ev (LyNewPath (L := ly_ref) "/ietf-yang-patch:yang-patch-status/edit-status/edit[edit-id='a' or 'b'='b']/errors" None) (Ok Top)).
Proof. vm_compute. reflexivity. Qed.

Definition yang_ref : prog ly_ref (Outcome (L := ly_ref)) :=
  yangSchemaHandler (X := x3_ref) (L := ly_ref) (B := base64_ref) (tt : @Context ly_ref) "yangnobody" pam_ref
    PamSample.strerror (mkNacm true) (mkReq "GET" "/yang/example" "/yang/example" "" []).
Lemma plain_handlers_respond_once_witness :
  replies (responses (interp (env (Some Top) Top) yang_ref).1) = [Head 200; Body] ∧
  outcome_of (L := ly_ref) (interp (env (Some Top) Top) yang_ref).1 Done.
Proof.
  split; [vm_compute; reflexivity|].
  apply (plain_handlers_respond_once (X := x3_ref) (L := ly_ref) (U := uuid_ref) (B := base64_ref) (tt : @Context ly_ref)
           "yangnobody" "root" pam_ref PamSample.strerror (λ _, Ok 0%Z) (mkNacm true)
           (mkReq "GET" "/yang/example" "/yang/example" "" []) (mkSubs (U := uuid_ref) ∅ ∅ [] ∅)).
  - apply interp_answered, env_lawful.
  - assert ((interp (env (Some Top) Top) yang_ref).2 = Ok Done) as <-
      by (vm_cast_no_check (eq_refl (Ok Done : M (Outcome (L := ly_ref))))).
    apply interp_runs.
Defined.
End ServerSample.
