(* ===== verification/PatchResponses.v ===== *)
(** * PatchResponses: what a client is told about a YANG patch

    The monitor of this file watches the replies, how many edits the patch has, how many trees were
    joined to the edit that is given to sysrepo, and whether sysrepo applied it.  A rejected edit, or a patch that is
    not applied, is answered at once, and the handler goes on to report success. *)

From S2P Require Import Prelude Exceptions UriTypes Uuid X3 Libyang YangUtils UriRequest HttpUtils DataFormat Effects Responses Edits EditsFacts Handlers Server ServerFacts StatusFacts HandlersFacts ServerSample.

Open Scope prog_scope.

Section monitor.
Context {L : Libyang}.

Record PatchView := mkPatch {
  sent : list Reply;
  asked : option nat;      (** how many nodes the query for the edits found *)
  joined : nat;            (** how many trees were joined to another *)
  given : bool;            (** sysrepo took the edit, *)
  taken : bool             (** and applied it. *)
}.
Definition nothing : PatchView := mkPatch [] None 0 false false.
Definition patch_next (s : PatchView) (ev : Event L) : PatchView :=
  match ev with
  | Ev (HttpWriteHead code _) _ => mkPatch (sent s ++ [Head code]) (asked s) (joined s) (given s) (taken s)
  | Ev (HttpEnd _) _ | Ev HttpEndStream _ => mkPatch (sent s ++ [Body]) (asked s) (joined s) (given s) (taken s)
  | Ev (LyFindXPath _ p) (Ok l) =>
      if String.eqb p "edit" then mkPatch (sent s) (Some (length l)) (joined s) (given s) (taken s) else s
  | Ev (LyInsertSibling _ _) (Ok _) => mkPatch (sent s) (asked s) (S (joined s)) (given s) (taken s)
  | Ev (SrEditBatch _) x => mkPatch (sent s) (asked s) (joined s) (is_ok x) (taken s)
  | Ev (SrApplyChanges _) x => mkPatch (sent s) (asked s) (joined s) (given s) (given s && is_ok x)
  | _ => s
  end.
Definition patch_view (t : list (Event L)) : PatchView := watch patch_next nothing t.
Definition told (code : Z) (s : PatchView) : PatchView :=
  mkPatch (sent s ++ one_reply code) (asked s) (joined s) (given s) (taken s).

Definition patch_lawful (s : PatchView) (ev : Event L) : Prop := lawful ev.
Definition patch_demand (s : PatchView) (ev : Event L) : Prop := True.
Lemma answered_patch s t : answered t → all_lawful patch_next patch_lawful s t.
Proof. intros H. revert s. induction H; simpl; [done|]. split; [done|auto]. Qed.

(** Commands that the monitor does not see *)
Definition quiet (c : Cmd L) : bool :=
  match c with
  | HttpWriteHead _ _ | HttpEnd _ | HttpEndStream | LyInsertSibling _ _ | SrEditBatch _ | SrApplyChanges _ => false
  | LyFindXPath _ p => negb (String.eqb p "edit")
  | _ => true
  end.
Lemma quiet_next s c x : quiet c = true → patch_next s (Ev c x) = s ∧ patch_demand s (Ev c x).
Proof.
  intros Hc. split; [|done]. destruct c; try discriminate Hc; try done; simpl in *; destruct x; try done.
  by destruct (String.eqb p "edit").
Qed.
Lemma local_quiet (c : Cmd L) : local_cmd c = true → quiet c = true.
Proof. by destruct c. Qed.
End monitor.

Abbreviation pwp := (wp patch_next patch_lawful patch_demand).

Section rules.
Context {L : Libyang}.

Lemma pwp_quiet {A B} (p : prog L A) (f : A → prog L B) Q s :
  only quiet p → (∀ e, Q s (Throw e)) → (∀ a, pwp (f a) Q s) → pwp (prog_bind p f) Q s.
Proof. intros. by apply (wp_bind_quiet _ _ _ quiet); [apply quiet_next|..]. Qed.
Lemma pwp_reply code h n df flags (Q : PatchView → M unit → Prop) s :
  Q (told code s) (Ok tt) →
  pwp (_ ← call (HttpWriteHead code h) : prog L unit; printed ← call (LyPrintStr n df flags);
       body ← unwrap printed; call (HttpEnd (Some body)) : prog L unit) Q s.
Proof.
  intros H. apply wp_bind_call. intros x Hx. simpl in Hx. subst x. split; [done|].
  apply wp_bind_call. intros x [b Hx]. subst x. split; [done|].
  change (unwrap (Some b)) with (Ret b : prog L string). cbn [prog_bind].
  apply (wp_call _ _ _ (HttpEnd (Some b))). intros x Hx. simpl in Hx. subst x. split; [done|].
  unfold told, one_reply in H. simpl. by rewrite <- app_assoc.
Qed.
Lemma pwp_raises P {A} (p : prog L A) Q s :
  raises P p → pwp p Q s → pwp p (λ s' r, Q s' r ∧ ∀ e, r = Throw e → P e = true) s.
Proof.
  revert s. induction p as [a|e|c k IH]; intros s Hp Hw; simpl in *.
  - done.
  - split; [done|]. by intros e' [= <-].
  - intros x Hx. destruct (Hw x Hx). auto.
Qed.
End rules.

(** ** The replies to errors *)

Section errors.
Context {X : X3} {L : Libyang} {LM : LibyangMore L} {HL : LibyangLaws L} (ctx : Context).

Definition rejection (code : Z) (s s' : PatchView) {A} (r : M A) : Prop :=
  match r with Ok _ => s' = told code s | Throw _ => s' = s end.
Definition rejects (rej : Rejecter (L := L)) : Prop :=
  (∀ df rq code ty tag msg path info, raises is_error (rej df rq code ty tag msg path info)) ∧
  ∀ df rq code ty tag msg path info s,
    pwp (rej df rq code ty tag msg path info) (λ s' r, rejection code s s' r) s.

Lemma te_allowed uriPath : throws is_error (allowedHttpMethodsForUri ctx uriPath).
Proof.
  unfold allowedHttpMethodsForUri. apply throws_bind; [|intros ?; apply throws_Ok].
  generalize ["GET"; "PUT"; "POST"; "DELETE"; "HEAD"; "PATCH"], (∅ : gset string).
  induction l as [|m l IH]; intros acc; cbn [allowedMethods_go]; [apply throws_Ok|].
  apply throws_bind; [|apply IH]. pose proof (te_asRestconfRequest ctx m uriPath "") as H.
  destruct (asRestconfRequest _ _ _ _) as [r|e]; [apply throws_Ok|].
  destruct e; first [apply throws_Ok|apply throws_Throw; by apply H].
Qed.
Hint Resolve te_allowed : throws.
Lemma re_front {A} (l : list A) : raises is_error (front (L := L) l).
Proof. by destruct l. Qed.
Hint Resolve re_front : throws.
Lemma re_rejectImpl df parent container rq code ty tag msg path info :
  raises is_error (rejectWithErrorImpl ctx df parent container rq code ty tag msg path info).
Proof. unfold rejectWithErrorImpl. cbv zeta. solve_raises. Qed.
Hint Resolve re_rejectImpl : throws.
Lemma rejectImpl_told df parent container rq code ty tag msg path info s :
  pwp (rejectWithErrorImpl ctx df parent container rq code ty tag msg path info)
    (λ s' r, rejection code s s' r) s.
Proof.
  unfold rejectWithErrorImpl. cbv zeta.
  do 6 (apply pwp_quiet; [solve [solve_only]|done|intros ?]). by apply pwp_reply.
Qed.
Lemma rejectWithError_told : rejects (rejectWithError ctx).
Proof.
  split; intros; unfold rejectWithError; [solve_raises|].
  apply pwp_quiet; [solve [solve_only]|done|intros ?]. apply rejectImpl_told.
Qed.
Lemma rejectYangPatch_told id : rejects (rejectYangPatch ctx id).
Proof.
  split; intros; unfold rejectYangPatch; [solve_raises|].
  do 4 (apply pwp_quiet; [solve [solve_only]|done|intros ?]). apply rejectImpl_told.
Qed.
Lemma rejectYangPatchEdit_told id eid : rejects (rejectYangPatchEdit ctx id eid).
Proof.
  split; intros; unfold rejectYangPatchEdit; cbv zeta; [solve_raises|].
  do 4 (apply pwp_quiet; [solve [solve_only]|done|intros ?]). apply rejectImpl_told.
Qed.

(** The catch clauses: one error response, or an exception that passes *)
Lemma exceptions_told rej rc e s :
  rejects rej → is_error e = true →
  pwp (restconfExceptions ctx rej rc e)
    (λ s' r, match r with
             | Ok _ => ∃ c, (400 ≤ c)%Z ∧ s' = told c s
             | Throw e' => s' = s ∧ is_error e' = true
             end) s.
Proof.
  intros [Hre Hrej] He.
  assert (∀ c df rq ty tag msg p i, errorStatus e = Some c →
    pwp (rej df rq c ty tag msg p i)
      (λ s' r, match r with
               | Ok _ => ∃ c, (400 ≤ c)%Z ∧ s' = told c s
               | Throw e' => s' = s ∧ is_error e' = true
               end) s) as Hr.
  { intros c df rq ty tag msg p i Hc. eapply wp_mono; [apply (pwp_raises is_error); [apply Hre|apply Hrej]|].
    unfold is_error in He. rewrite Hc in He. apply Z.leb_le in He.
    intros s' [u|e'] [H H']; simpl in H; [eauto|]. auto. }
  destruct e as [r|what d|[|n] what|[| | | | |n] what|what|what|what|what|what]; cbn [restconfExceptions];
    try by apply Hr.
  all: try (by split).
  unfold requestIsAction. case_decide; [by apply Hr|]. apply wp_bind_assoc, wp_bind, wp_lift.
  pose proof (te_findPath ctx (path (restconfRequest rc))) as Hp.
  destruct (findPath ctx _) as [n|e']; [by apply Hr|]. split; [done|]. by apply Hp.
Qed.

Lemma re_exceptions rej rc e : rejects rej → is_error e = true → raises is_error (restconfExceptions ctx rej rc e).
Proof.
  intros [Hre _] He. unfold restconfExceptions, requestIsAction. cbv zeta.
  repeat case_match; try done; try apply Hre; solve_raises; apply Hre.
Qed.
Lemma re_caught {A} (func : prog L A) old rej rc :
  raises is_error func → rejects rej → raises is_error (withRestconfExceptions ctx func old rej rc).
Proof.
  intros Hf Hr. apply raises_try; [done|]. intros e He. apply raises_bind; [by apply re_exceptions|done].
Qed.
(** A part whose errors are answered *)
Lemma caught_told {A} rej (func : prog L A) old rc Q s :
  rejects rej → raises is_error func →
  pwp func (λ s' r, match r with
                    | Ok a => Q s' (Ok a)
                    | Throw e => (∀ c, (400 ≤ c)%Z → Q (told c s') (Ok old)) ∧ ∀ e', is_error e' = true → Q s' (Throw e')
                    end) s →
  pwp (withRestconfExceptions ctx func old rej rc) Q s.
Proof.
  intros Hrej Hre Hf. apply wp_try. eapply wp_mono; [by apply (pwp_raises is_error)|].
  intros s' [a|e] [H He]; [done|]. destruct H as [Ho Ht]. apply wp_bind.
  eapply wp_mono; [apply exceptions_told; [done|by apply He]|].
  intros s2 [u|e'] H2.
  - destruct H2 as (c & ? & ->). by apply Ho.
  - destruct H2 as [-> ?]. by apply Ht.
Qed.
End errors.

(** ** The patch *)

Section patch.
Context {X : X3} {L : Libyang} {LM : LibyangMore L} {HL : LibyangLaws L} (ctx : Context) (timeout : N).

Lemma quiet_createEdit uri value f : only quiet (createEditForPutAndPatch ctx uri value f).
Proof.
  unfold createEditForPutAndPatch.
  repeat (cbv beta; first [solve [eapply (only_mono local_cmd); [by intros []|solve [eauto 2 with effects nocore]]]|only_step]).
Qed.
Lemma re_yangPatchValueAsJSON n : raises is_error (yangPatchValueAsJSON (L := L) n).
Proof. unfold yangPatchValueAsJSON. solve_raises. Qed.
Lemma re_editPoint rc w p : raises is_error (editPoint (L := L) rc w p).
Proof. unfold editPoint. solve_raises. Qed.
Lemma re_yangInsertEdit n w p : raises is_error (yangInsertEdit ctx n w p).
Proof. unfold yangInsertEdit. solve_raises. Qed.
Hint Resolve re_yangPatchValueAsJSON re_editPoint re_yangInsertEdit re_createEdit re_childLeafValue
  re_implementedModule re_validateInputMetaAttributes : throws.
Lemma re_processYangPatchEdit rc n m : raises is_error (processYangPatchEdit ctx rc n m).
Proof. unfold processYangPatchEdit. solve_raises. Qed.
Hint Resolve re_processYangPatchEdit : throws.
Lemma re_processYangPatchImpl rc patch id : raises is_error (processYangPatchImpl ctx timeout rc patch id).
Proof.
  unfold processYangPatchImpl. apply raises_bind; [solve_raises|intros edits]. apply raises_bind; [|intros ?; solve_raises].
  apply raises_foldM. intros m e. apply raises_bind; [solve_raises|intros eid].
  apply re_caught; [solve_raises|apply rejectYangPatchEdit_told].
Qed.
Hint Resolve re_processYangPatchImpl : throws.
Lemma re_processYangPatch rc : raises is_error (processYangPatch ctx timeout rc).
Proof.
  unfold processYangPatch. assert (∀ patch id, raises is_error
    (withRestconfExceptions ctx (processYangPatchImpl ctx timeout rc patch id) tt (rejectYangPatch ctx id) rc)) as H
    by (intros; apply re_caught; [solve_raises|apply rejectYangPatch_told]).
  solve_raises.
Qed.

Definition joined_one (s : PatchView) : PatchView := mkPatch (sent s) (asked s) (S (joined s)) (given s) (taken s).
(** One edit: it is joined to the ones before, or nothing happens. *)
Lemma processYangPatchEdit_told rc n m s :
  pwp (processYangPatchEdit ctx rc n m)
    (λ s' r, match r with
             | Ok o => is_Some o ∧ s' = match m with Some _ => joined_one s | None => s end
             | Throw _ => s' = s
             end) s.
Proof.
  unfold processYangPatchEdit.
  do 4 (apply pwp_quiet; [solve [solve_only]|done|intros ?]).
  apply pwp_quiet; [apply quiet_createEdit|done|intros [edit target]].
  do 3 (apply pwp_quiet; [solve [solve_only]|done|intros ?]).
  destruct m as [m|]; [|by split; [eexists|]].
  apply wp_bind_call. intros x _. split; [done|]. destruct x as [first|e]; [|done]. split; [by eexists|done].
Qed.

(** These errors have been answered, and nothing else. *)
Definition all_told (errors : list Z) (s : PatchView) : Prop :=
  sent s = concat (one_reply <$> errors) ∧ Forall (λ c, 400 ≤ c)%Z errors.
Lemma all_told_nil s : sent s = [] → all_told [] s.
Proof. intros Hs. by split. Qed.
Lemma all_told_next errors c s : (400 ≤ c)%Z → all_told errors s → all_told (errors ++ [c]) (told c s).
Proof.
  intros Hc [Hs He]. split.
  - simpl. by rewrite fmap_app, concat_app, Hs.
  - apply Forall_app. by repeat constructor.
Qed.
(** After [k] of [n] edits: each was joined or rejected. *)
Definition merged (n k : nat) (s : PatchView) (m : option DataNode) : Prop :=
  ∃ errors, all_told errors s ∧ asked s = Some n ∧ taken s = false ∧
    match m with Some _ => k = length errors + S (joined s) | None => k = length errors ∧ joined s = 0 end.
(** An exception has left the loop over the edits, or what follows it. *)
Definition stopped (s : PatchView) : Prop :=
  ∃ errors, all_told errors s ∧ taken s = false ∧ asked s ≠ Some 0.
Lemma merged_stopped n k s m : merged n k s m → n ≠ 0 → stopped s.
Proof. intros (errors & ? & Ha & ? & _) Hn. exists errors. split_and!; [done..|]. rewrite Ha. congruence. Qed.

Lemma patchEdit_told rc n k e m id eid s :
  merged n k s m → n ≠ 0 →
  pwp (withRestconfExceptions ctx (processYangPatchEdit ctx rc e m) m (rejectYangPatchEdit ctx id eid) rc)
    (λ s' r, match r with Ok o => merged n (S k) s' o | Throw _ => stopped s' end) s.
Proof.
  intros Hm Hn. apply caught_told; [apply rejectYangPatchEdit_told|apply re_processYangPatchEdit|].
  eapply wp_mono; [apply processYangPatchEdit_told|]. intros s' [o|x]; simpl.
  - intros [[o' ->] ->]. destruct Hm as (errors & Ht & Ha & Hf & Hk). exists errors.
    destruct m; simpl; split_and!; try done; lia.
  - intros ->. split; [|intros; by eapply merged_stopped]. intros c Hc.
    destruct Hm as (errors & Ht & Ha & Hf & Hk). exists (errors ++ [c]).
    split_and!; [by apply all_told_next|done..|]. rewrite length_app. simpl. destruct m; lia.
Qed.
Lemma edits_told rc id n k l m s :
  merged n k s m → n = k + length l →
  pwp (foldM (λ mergedEdits editContainer,
      editId ← childLeafValue editContainer "edit-id";
      withRestconfExceptions ctx (processYangPatchEdit ctx rc editContainer mergedEdits) mergedEdits
        (rejectYangPatchEdit ctx id editId) rc) m l)
    (λ s' r, match r with Ok o => merged n n s' o | Throw _ => stopped s' end) s.
Proof.
  revert k m s. induction l as [|e l IH]; intros k m s Hm Hn; cbn [foldM]; simpl in Hn.
  - rewrite Nat.add_0_r in Hn. by subst k.
  - assert (n ≠ 0) as Hn0 by lia. apply wp_bind_assoc.
    apply pwp_quiet; [solve [solve_only]|intros; by eapply merged_stopped|intros eid].
    apply wp_bind. eapply wp_mono; [by apply (patchEdit_told rc n k)|]. intros s' [o|x] H; [|done].
    apply (IH (S k)); [done|lia].
Qed.

(** What the answered errors say about the edits: if sysrepo applied the patch, every other edit is
    part of it; if it did not, there is an error unless there was no edit. *)
Definition accounted (errors : list Z) (s : PatchView) : Prop :=
  match asked s with
  | None => errors ≠ []
  | Some n => if taken s then n = length errors + S (joined s) else errors = [] ↔ n = 0
  end.
Lemma stopped_told s c : (400 ≤ c)%Z → stopped s → ∃ errors, all_told errors (told c s) ∧ accounted errors (told c s).
Proof.
  intros Hc (errors & Ht & Hf & Ha). exists (errors ++ [c]). split; [by apply all_told_next|].
  unfold accounted. simpl. rewrite Hf. assert (errors ++ [c] ≠ []) by (by destruct errors).
  destruct (asked s) as [n|]; [|done]. split; [done|]. congruence.
Qed.
Lemma processYangPatchImpl_told rc patch id :
  pwp (processYangPatchImpl ctx timeout rc patch id)
    (λ s r, match r with Ok _ => ∃ errors, all_told errors s ∧ accounted errors s | Throw _ => stopped s end) nothing.
Proof.
  unfold processYangPatchImpl. apply wp_bind_call. intros x _. split; [done|].
  destruct x as [edits|e]; [|exists []; split_and!; [by apply all_told_nil|done..]]. apply wp_bind.
  assert (merged (length edits) 0 (patch_next nothing (Ev (LyFindXPath patch "edit") (Ok edits))) None)
    as Hm by (exists []; split_and!; [by apply all_told_nil|done..]).
  eapply wp_mono; [apply (edits_told rc id (length edits) 0 edits None); [exact Hm|done]|]. clear Hm.
  intros s [[m|]|x] H; [| |done].
  - assert (length edits ≠ 0) as Hn by (destruct H as (errors & _ & _ & _ & H); lia).
    pose proof (merged_stopped _ _ _ _ H Hn) as (errors & Hs). destruct H as (errors' & Ht & Ha & Hf & Hk).
    apply wp_bind_call. intros x _. split; [done|]. destruct x as [[]|e]; [|exists errors; exact Hs].
    refine (wp_call _ _ _ (SrApplyChanges timeout) _ _ _). intros x _. split; [done|].
    destruct x as [[]|e]; [|destruct Hs as (? & _ & ?); by exists errors]. exists errors'. split; [done|].
    unfold accounted. simpl. by rewrite Ha.
  - destruct H as (errors & Ht & Ha & Hf & Hk & _). exists errors. split; [done|].
    unfold accounted. rewrite Ha, Hf, Hk. by destruct errors.
Qed.

(** The replies to a patch: one for each error, and the last one *)
Definition patch_answered (s : PatchView) (r : M unit) : Prop :=
  ∃ errors, Forall (λ c, 400 ≤ c)%Z errors ∧
  match r with
  | Ok _ => ∃ c, sent s = concat (one_reply <$> errors) ++ one_reply c ∧ (c = 200%Z ∧ accounted errors s ∨ (400 ≤ c)%Z)
  | Throw _ => sent s = concat (one_reply <$> errors)
  end.
Lemma all_told_Throw errors s e : all_told errors s → patch_answered s (Throw e).
Proof. intros [? ?]. by exists errors. Qed.
Lemma all_told_last errors s c : (400 ≤ c)%Z → all_told errors s → patch_answered (told c s) (Ok tt).
Proof. intros Hc [Hs ?]. exists errors. split; [done|]. exists c. split; [simpl; by rewrite Hs|]. by right. Qed.

(** The end of the handler: a success, whatever has been answered before *)
Lemma status_told rc id errors s :
  all_told errors s → accounted errors s →
  pwp (yangPatchStatus ← call (LyNewPath "/ietf-yang-patch:yang-patch-status" None);
       _ ← call (LyNodeNewPath yangPatchStatus "/ietf-yang-patch:yang-patch-status/patch-id" (Some id));
       _ ← call (LyNodeNewPath yangPatchStatus "/ietf-yang-patch:yang-patch-status/ok" None);
       _ ← call (HttpWriteHead 200 (mm_of_list [contentTypeOf (response (rc_dataFormat rc)); CORS]));
       printed ← call (LyPrintStr yangPatchStatus (response (rc_dataFormat rc)) [PSiblings]);
       body ← unwrap printed;
       call (HttpEnd (Some body)) : prog L unit)
    (λ s' r, match r with
             | Ok _ => patch_answered s' r
             | Throw _ => ∃ errors, all_told errors s'
             end) s.
Proof.
  intros Ht Ha. do 3 (apply pwp_quiet; [solve [solve_only]|by exists errors|intros ?]).
  apply pwp_reply. destruct Ht as [Hs He]. exists errors. split; [done|]. exists 200%Z. split; [simpl; by rewrite Hs|].
  by left.
Qed.
Lemma processYangPatch_told rc :
  pwp (processYangPatch ctx timeout rc)
    (λ s r, match r with Ok _ => patch_answered s r | Throw _ => ∃ errors, all_told errors s end) nothing.
Proof.
  assert (∃ errors, all_told errors nothing) as H0 by (exists []; by apply all_told_nil).
  unfold processYangPatch. do 2 (apply pwp_quiet; [solve [solve_only]|done|intros ?]).
  match goal with |- context [match ?o with _ => _ end] => destruct o as [patch|] end; [|done].
  apply pwp_quiet; [solve [solve_only]|done|intros id].
  apply wp_bind. apply caught_told; [apply rejectYangPatch_told|apply re_processYangPatchImpl|].
  eapply wp_mono; [apply processYangPatchImpl_told|]. intros s [[]|e].
  - intros (errors & Ht & Ha). by apply (status_told rc id errors).
  - intros Hs. split; [|intros e' _; destruct Hs as (errors & ? & _); by exists errors]. intros c Hc.
    destruct (stopped_told s c Hc Hs) as (errors & Ht & Ha). by apply (status_told rc id errors).
Qed.
Lemma patch_told rc :
  pwp (withRestconfExceptions ctx (processYangPatch ctx timeout rc) tt (rejectWithError ctx) rc) patch_answered nothing.
Proof.
  apply caught_told; [apply rejectWithError_told|apply re_processYangPatch|].
  eapply wp_mono; [apply processYangPatch_told|]. intros s [[]|e]; [done|]. intros (errors & Ht). split.
  - intros c Hc. by apply (all_told_last errors).
  - intros e' _. by apply (all_told_Throw errors).
Qed.
End patch.


(** ** Two patches

    sysrepo refuses the changes of the first one; of the two edits of the second one, the first has no target. *)
Module PatchSample.
Import Example ServerSample.

Lemma refused_lawful c : lawful_answer c (env_refused c).
Proof. destruct c; try apply env_lawful; intros e; by intros [= <-]. Qed.
Lemma two_edits_lawful c : lawful_answer c (env_two_edits c).
Proof.
  destruct c; try apply env_lawful; simpl; try done.
  - by repeat case_match.
  - by repeat case_match.
Qed.

End PatchSample.
