(* ===== verification/WriteSample.v ===== *)
(** * WriteSample: a PUT, a POST and a YANG patch against a forest

    One entry of a list with two keys, whose paths the code compares; the runs are the witnesses of
    [WriteEdits]. *)

From S2P Require Import Prelude Exceptions UriTypes Uuid X3 Libyang YangUtils UriRequest HttpUtils DataFormat Effects Responses Edits Handlers Server PutTarget WriteEdits ServerSample.

Open Scope prog_scope.

Module WriteSample.
Import Example ServerSample.

Fixpoint suffixes (s : string) : list string :=
  s :: match s with "" => [] | String _ s => suffixes s end.
Lemma strip_prefix_suffix pre s rest : strip_prefix pre s = Some rest → rest ∈ suffixes s.
Proof.
  revert s. induction pre as [|c pre IH]; intros s.
  - simpl. intros [= <-]. destruct s; left.
  - destruct s as [|d s]; [done|]. simpl. case_decide; [|done]. intros Hs. right. by apply IH.
Qed.
(** What a path gives to any key, whatever prefix of it is taken *)
Definition values_of (path : string) : list (string * string) :=
  omap (λ rest, pathValue "" rest) (suffixes path).
Lemma pathValue_values pre path name v : pathValue pre path = Some (name, v) → (name, v) ∈ values_of path.
Proof.
  unfold pathValue at 1. destruct (strip_prefix pre path) as [rest|] eqn:E; [|done]. intros H.
  apply list_elem_of_omap. exists rest. split; [by eapply strip_prefix_suffix|exact H].
Qed.

Definition name_path : string := "/example:top/example:lst[name='a'][id='b']/name".
Definition id_path : string := "/example:top/example:lst[name='a'][id='b']/id".
(** The data are one entry with the keys [a] and [b]. *)
Definition forest : Forest (L := ly_ref) := mkForest (L := ly_ref)
  (λ n, match n with LstName => "a" | LstId => "b" | _ => "" end)
  (λ n, match n with Top => [Lst] | _ => [] end)
  (λ n, [n])
  (λ n p, if decide (n = Lst ∧ p = "example:name") then Some LstName
          else if decide (n = Lst ∧ p = "example:id") then Some LstId else None)
  (λ n p, [])
  (λ _ _ v, v)
  (λ n, match n with
        | Top => Some ("/example:top", Some Top) | LstName => Some (name_path, Some Top)
        | LstId => Some (id_path, Some Top) | _ => None
        end)
  (λ _, false).
Definition forest_env (c : Cmd ly_ref) : M (Answer c) :=
  match c return M (Answer c) with
  | LyValueStr n => Ok (node_value forest n)
  | LyImmediateChildren n => Ok (node_children forest n)
  | LySiblings n => Ok (node_siblings forest n)
  | LyFindPath n p => Ok (node_at forest n p)
  | LyFindXPath n p => Ok (node_find forest n p)
  | LyIsOpaque n => Ok (node_opaque forest n)
  | LyNewPath2 p _ =>
      if decide (p = "/example:top") then Ok (Some Top, Some Top)
      else if decide (p = name_path) then Ok (Some Top, Some LstName)
      else if decide (p = id_path) then Ok (Some Top, Some LstId)
      else Throw (ELibyang (LyOther 1) "not found")
  | c => env (Some Lst) Lst c
  end.
Lemma values_top : values_of "/example:top" = [].
Proof. vm_compute. reflexivity. Qed.
Lemma values_name : values_of name_path = [("name", "a")].
Proof. vm_compute. reflexivity. Qed.
Lemma values_id : values_of id_path = [("id", "b"); ("id", "b")].
Proof. vm_compute. reflexivity. Qed.
Lemma forest_answers c : data_answers (X := x3_ref) (L := ly_ref) tt forest (Ev c (forest_env c)).
Proof.
  destruct c; try done; try (by intros ? [= <-]).
  intros top n. cbn [forest_env]. repeat case_decide; subst; intros [= <- <-]; (split; [done|]); intros pre name v _ Hv;
    apply pathValue_values in Hv.
  - by rewrite values_top in Hv; apply elem_of_nil in Hv.
  - rewrite values_name in Hv. apply list_elem_of_singleton in Hv. by injection Hv as -> ->.
  - rewrite values_id, !elem_of_cons, elem_of_nil in Hv. destruct Hv as [Hv|[Hv|[]]]; by injection Hv as -> ->.
Qed.
Lemma forest_interp {A} (p : prog ly_ref A) : Forall (data_answers (X := x3_ref) (L := ly_ref) tt forest) (interp forest_env p).1.
Proof.
  induction p as [a|e|c k IH]; simpl; [constructor..|]. specialize (IH (forest_env c)).
  destruct (interp forest_env (k (forest_env c))). simpl in *. constructor; [apply forest_answers|done].
Qed.
Lemma ly_ref_keys_differ (n : @SchemaNode ly_ref) : NoDup (node_name <$> list_keys n).
Proof. destruct n; apply (bool_decide_unpack _); vm_compute; exact I. Qed.

Definition put_entry : RequestContext :=
  mkRequestContext (mkReq "PUT" "/restconf/data/example:top/lst=a,b" "/restconf/data/example:top/lst=a,b" "" [])
    (mkDataEncoding (Some JSON) JSON)
    (mkRequest CreateOrReplaceThisNode (Some Running) "/example:top/lst[name='a'][id='b']" []) "{}".
Definition put_run : list (Event ly_ref) := (interp forest_env (onBody_ref put_entry (0 : @Subscriptions ly_ref counting))).1.
Definition is_edit (ev : Event ly_ref) : bool := match ev with Ev (SrEditBatch _) _ => true | _ => false end.

(** The 22nd command gives the edit to sysrepo. *)
Lemma put_run_edit : put_run = take 21 put_run ++ Ev (SrEditBatch (L := ly_ref) Top) (Ok tt) :: drop 22 put_run.
Proof. vm_cast_no_check (eq_refl put_run). Qed.
Lemma writes_as_asked_witness :
  watch ops_next [] (take 21 put_run) = [SetMeta (L := ly_ref) Lst "ietf-netconf" "operation" "replace"] ∧
  write_asked (X := x3_ref) (L := ly_ref) (tt : @Context ly_ref) forest put_entry Top (watch ops_next [] (take 21 put_run)).
Proof.
  split; [vm_compute; reflexivity|].
  apply (writes_as_asked (X := x3_ref) (L := ly_ref) (HL := ly_ref_laws) (D := counting) (tt : @Context ly_ref) 0 forest
           ly_ref_keys_differ put_entry (0 : @Subscriptions ly_ref counting) put_run (take 21 put_run) (drop 22 put_run)
           (interp forest_env (onBody_ref put_entry (0 : @Subscriptions ly_ref counting))).2 Top (Ok tt)).
  - reflexivity.
  - apply interp_runs.
  - apply forest_interp.
  - apply put_run_edit.
Defined.

(** ** The same entry by POST, and by a YANG patch that creates it and then moves another resource *)

Definition ops_of (rc : RequestContext) : list (Op (L := ly_ref)) :=
  watch ops_next [] (interp forest_env (onBody_ref rc (0 : @Subscriptions ly_ref counting))).1.
Definition post_entry : RequestContext :=
  mkRequestContext (mkReq "POST" "/restconf/data/example:top" "/restconf/data/example:top" "" [])
    (mkDataEncoding (Some JSON) JSON) (mkRequest CreateChildren (Some Running) "/example:top" []) "{}".
Example post_entry_creates :
  ops_of post_entry = [SetMeta (L := ly_ref) Lst "ietf-netconf" "operation" "create"].
Proof. vm_compute. reflexivity. Qed.

(** The patch is [Reset], with two edits; the second has no value and moves nothing, as it has no [where]. *)
Definition patch_env (c : Cmd ly_ref) : M (Answer c) :=
  match c return M (Answer c) with
  | LyParseData _ _ => Ok (Some Reset)
  | LyFindXPath Reset "edit" => Ok [Act; NoKeys]
  | LyFindPath Act "target" | LyFindPath NoKeys "target" => Ok (Some ActInput)
  | LyFindPath Act "operation" => Ok (Some AugName)
  | LyFindPath NoKeys "operation" => Ok (Some Tags)
  | LyFindPath Act "value" => Ok (Some Establish)
  | LyFindPath _ "patch-id" | LyFindPath _ "edit-id" => Ok (Some Establish)
  | LyFindPath NoKeys _ => Ok None
  | LyValueStr ActInput => Ok "/example:top/lst=a,b"
  | LyValueStr AugName => Ok "create"
  | LyValueStr Tags => Ok "move"
  | LyValueStr Establish => Ok "1"
  | LyNewPath2 "/example:top/lst[name='a'][id='b']" _ => Ok (Some Top, Some Lst)
  | LyFindXPath n _ => Ok [n]
  | c => forest_env c
  end.
Definition patch_entry : RequestContext :=
  mkRequestContext (mkReq "PATCH" "/restconf/data" "/restconf/data" "" [("content-type", "application/yang-patch+json")])
    (mkDataEncoding (Some JSON) JSON) (mkRequest MergeData (Some Running) "/" []) "{}".
Definition patch_run : list (Event ly_ref) :=
  (interp patch_env (onBody_ref patch_entry (0 : @Subscriptions ly_ref counting))).1.
Example patch_entry_creates :
  watch ops_next [] patch_run = [SetMeta (L := ly_ref) Lst "ietf-netconf" "operation" "create"] ∧
  List.filter is_edit patch_run = [Ev (SrEditBatch (L := ly_ref) Top) (Ok tt)].
Proof. vm_compute. split; reflexivity. Qed.
End WriteSample.
