(* ===== verification/GetFacts.v ===== *)
(** * GetFacts: what a GET asks of sysrepo, and what it replies

    The monitor of the questions keeps the commands that are not libyang's or the HTTP library's, in order; the one of the
    reply follows the tree sysrepo returned until its text is sent. *)

From S2P Require Import Prelude Exceptions UriTypes Uuid X3 Libyang YangUtils UriRequest UriQueryFacts UriRequestFacts HttpUtils DataFormat Nacm Pam PamFacts HttpAuth DynamicSubscriptions Effects Responses Edits EditsFacts Handlers HandlersFacts YangSchemaLocations NotificationStream SubscriptionStream Server RequestTypes ServerAccess ServerSample.

Open Scope prog_scope.

Section get.
Context {X : X3} {HX : X3Laws X} {L : Libyang} {HL : LibyangLaws L} {LM : LibyangMore L} {U : UuidLib} {B : Base64}.
Context (ctx : Context) (timeout : N) (ANONYMOUS_USER : string).
Context (pam : UserPass → list (PamCall * PamAnswer) → PamCall → PamAnswer) (pam_strerror : Z → string).

Definition asked_next (s : list (Cmd L)) (ev : Event L) : list (Cmd L) :=
  let 'Ev c _ := ev in if idle_cmd c then s else s ++ [c].
Definition always {S} (s : S) (ev : Event L) : Prop := True.
Abbreviation gwp := (wp asked_next always always).

(** ** What the query parameters of RFC 8040 ask for *)

(** The paths: that of the URI, or those [fields] denotes below it *)
Definition asked_paths (rr : RestconfRequest) : list string :=
  match mm_find "fields" (queryParams rr) with
  | Some (Fields e) => (λ p, join "/" ((if decide (path rr = "/*") then "" else path rr) :: p)) <$> fields_paths e
  | _ => [path rr]
  end.
(** The depth, or 0 for no limit *)
Definition asked_depth (rr : RestconfRequest) (depth : N) : Prop :=
  mm_find "depth" (queryParams rr) = Some (UnsignedInt depth) ∨
  depth = 0%N ∧ ∀ n, mm_find "depth" (queryParams rr) ≠ Some (UnsignedInt n).
(** [content]: configuration only, state only, or both *)
Definition asked_content (rr : RestconfRequest) (options : GetOptions) : Prop :=
  match mm_find "content" (queryParams rr) with
  | Some OnlyConfigNodes => options = OperNoState
  | Some OnlyNonConfigNodes => options = OperNoConfig
  | _ => options = GetDefault
  end.

(** ** What the handler asks *)

Definition query (rr : RestconfRequest) : list (Cmd L) :=
  match getXPath ctx rr with
  | Ok xpath => [SrGetData xpath (maxDepth (queryParams rr)) (getOptions (queryParams rr)) (Some timeout)]
  | Throw _ => []
  end.
Definition session_of (user : string) (rr : RestconfRequest) : list (Cmd L) :=
  [SrSessionStart Operational; SrSetNacmUser user; SrSwitchDatastore (default Operational (datastore rr))] ++ query rr.

Lemma idle_next s c x : idle_cmd c = true → asked_next s (Ev c x) = s ∧ always s (Ev c x).
Proof. intros Hc. simpl. by rewrite Hc. Qed.
(** What was asked is a part of what is to be asked, and all of it if the program returns. *)
Definition asks {A} (s all : list (Cmd L)) (s' : list (Cmd L)) (r : M A) : Prop :=
  s' `prefix_of` s ++ all ∧ match r with Ok _ => s' = s ++ all | Throw _ => True end.
Lemma asks_idle {A} (p : prog L A) s : only idle_cmd p → gwp p (asks s []) s.
Proof.
  intros Hp. eapply wp_mono; [apply (wp_only idle_cmd); [intros; by apply idle_next|exact Hp]|].
  intros s' r ->. unfold asks. rewrite app_nil_r. by destruct r.
Qed.
Lemma asks_call {A} c (f : Answer c → prog L A) s all :
  idle_cmd c = false → (∀ a, gwp (f a) (asks (s ++ [c]) all) (s ++ [c])) → gwp (prog_bind (call c) f) (asks s (c :: all)) s.
Proof.
  intros Hc Hf. apply wp_bind_call. intros x _. split; [done|]. cbn [asked_next]. rewrite Hc. destruct x as [a|e].
  - eapply wp_mono; [apply Hf|]. intros s' r. unfold asks. by rewrite <- app_assoc.
  - split; [|done]. exists all. by rewrite <- app_assoc.
Qed.
Lemma processGet_asks rq df rr s :
  gwp (processGet ctx timeout rq df rr) (asks s (SrSwitchDatastore (default Operational (datastore rr)) :: query rr)) s.
Proof.
  unfold processGet. apply asks_call; [done|]. intros _. cbv zeta. unfold query. destruct (getXPath ctx rr) as [xpath|e].
  - cbn [lift prog_bind]. apply asks_call; [done|]. intros [data|]; [|by apply asks_idle].
    apply asks_idle. solve_only.
  - split; [by rewrite app_nil_r|done].
Qed.
Lemma catch_asks rq df e s : gwp (restconfCatch ctx rq df e) (λ s' _, s' = s) s.
Proof.
  assert (∀ p : prog L unit, only idle_cmd p → gwp (done p) (λ s' _, s' = s) s) as Hd.
  { intros p Hp. apply (wp_only idle_cmd); [intros; by apply idle_next|]. by apply only_bind. }
  destruct e; cbn [restconfCatch]; try done; try (apply Hd, idle_reject).
  destruct delay; cbn [onAuthError]; [done|apply Hd, idle_reject].
Qed.

Lemma query_asked rr :
  Forall (λ kv : string * QueryParamValue, typed_param kv.1 kv.2) (queryParams rr) →
  ∃ depth options, asked_depth rr depth ∧ asked_content rr options ∧
    query rr `prefix_of` [SrGetData (join " | " (asked_paths rr)) depth options (Some timeout)].
Proof.
  intros Ht. exists (maxDepth (queryParams rr)), (getOptions (queryParams rr)). split; [|split].
  - unfold asked_depth, maxDepth. destruct (mm_find "depth" (queryParams rr)) as [[]|]; auto.
  - unfold asked_content, getOptions. by destruct (mm_find "content" (queryParams rr)) as [[]|].
  - unfold query. destruct (getXPath ctx rr) as [xpath|e] eqn:Hx; [|apply prefix_nil].
    enough (xpath = join " | " (asked_paths rr)) as -> by done. revert Hx. unfold getXPath, asked_paths.
    destruct (mm_find "fields" (queryParams rr)) as [v|] eqn:Hf; [|by intros [= <-]].
    pose proof (typed_Forall _ _ _ Ht Hf) as Hv. destruct v; try done. intros Hx.
    eapply fieldsToXPath_join; [by inversion Hv|exact Hx].
Qed.

(** C13: a GET asks for what the request says and for nothing else.  Of a request the parser accepts as a GET
    and whose user is authorized, the session is started, given the user, switched to the datastore of the
    URI, the operational one by default, and asked once, for the path of the URI or the paths of its fields, with the
    depth and the kind of content of the query parameters, as [asked_paths], [asked_depth] and [asked_content] say: any run performs these commands in this order, perhaps not to the end when one fails, and
    no other command that reads, locks, writes or executes. *)
Theorem get_asks_once (nacm : Nacm) (rq : Request) (rr : RestconfRequest) (df : DataEncoding) (sess : Session)
    (user : string) (t : list (Event L)) (r : M (Outcome (L := L))) :
  chooseDataEncoding (req_header rq) = Ok df →
  asRestconfRequest ctx (req_method rq) (raw_path rq) (raw_query rq) = Ok rr → type rr = GetData →
  authorizeRequest ANONYMOUS_USER pam pam_strerror nacm (mkSession None) (req_header rq) = (sess, Ok tt) →
  nacmUser sess = Some user →
  runs (restconfHandler ctx timeout ANONYMOUS_USER pam pam_strerror nacm rq) t r →
  ∃ depth options, asked_depth rr depth ∧ asked_content rr options ∧
    watch asked_next [] t `prefix_of`
      [SrSessionStart Operational; SrSetNacmUser user; SrSwitchDatastore (default Operational (datastore rr));
       SrGetData (join " | " (asked_paths rr)) depth options (Some timeout)].
Proof.
  intros Hdf Hrr Ht Ha Hu Hr.
  destruct (query_asked rr) as (depth & options & Hd & Hc & Hq); [by eapply request_query|].
  exists depth, options. split; [exact Hd|]. split; [exact Hc|].
  enough (gwp (restconfHandler ctx timeout ANONYMOUS_USER pam pam_strerror nacm rq)
    (λ s' _, s' `prefix_of` session_of user rr) []) as Hw.
  { destruct (wp_runs _ _ _ _ _ _ _ _ Hw Hr) as [_ H];
      [|by etransitivity; [exact H|apply (prefix_app [_; _; _])]]. clear. generalize (@nil (Cmd L)).
    induction t; simpl; [done|]. intros s. by split. }
  unfold restconfHandler. apply wp_bind_call. intros x _. split; [done|]. destruct x as [[]|e]; [|by eexists].
  rewrite Hdf. apply wp_try. eapply wp_mono with (Q := λ s' _, s' `prefix_of` session_of user rr).
  2: { intros s' [o|e] Hs; [done|]. eapply wp_mono; [apply catch_asks|]. by intros s2 r2 ->. }
  unfold authorizeSession. rewrite Ha, Hu. apply wp_bind_call. intros x _. split; [done|].
  destruct x as [[]|e]; [|by eexists]. rewrite Hrr. apply wp_bind, wp_lift. unfold dispatch. rewrite Ht.
  unfold done. apply wp_bind. eapply wp_mono; [apply processGet_asks|]. intros s' [[]|e] [Hs _]; exact Hs.
Qed.
End get.

(** ** What a GET answers *)

Section reply.
Context {X : X3} {L : Libyang} {LM : LibyangMore L}.
Context (ctx : Context) (timeout : N) (rq : Request) (df : DataEncoding) (rr : RestconfRequest).

(** What sysrepo gave, the nodes that hold locations, the text it was printed as, whether libyang said that the node asked for
    has its default value only, and the heads of the response *)
Record GetProgress := mkGet {
  fetched : option (option DataNode);
  locations : list DataNode;
  printed : option (DataNode * DataFormat * list PrintFlag * string);
  implicit : bool;
  heads : list (Z * list (string * string));
  bodies : nat
}.
Definition reply_next (s : GetProgress) (ev : Event L) : GetProgress :=
  match ev with
  | Ev (SrGetData _ _ _ _) (Ok data) => mkGet (Some data) (locations s) (printed s) (implicit s) (heads s) (bodies s)
  | Ev (LyFindXPath _ p) (Ok l) =>
      mkGet (fetched s) (if decide (p = "location | schema") then locations s ++ l else locations s) (printed s) (implicit s) (heads s) (bodies s)
  | Ev (LyFindPath _ p) (Ok (Some n)) =>
      mkGet (fetched s) (if decide (p = "location") then locations s ++ [n] else locations s) (printed s) (implicit s) (heads s) (bodies s)
  | Ev (LyPrintStr n f flags) (Ok (Some text)) => mkGet (fetched s) (locations s) (Some (n, f, flags, text)) (implicit s) (heads s) (bodies s)
  | Ev (LyIsImplicitDefault _) (Ok b) => mkGet (fetched s) (locations s) (printed s) b (heads s) (bodies s)
  | Ev (HttpWriteHead code h) _ => mkGet (fetched s) (locations s) (printed s) (implicit s) (heads s ++ [(code, h)]) (bodies s)
  | Ev (HttpEnd _) _ => mkGet (fetched s) (locations s) (printed s) (implicit s) (heads s) (S (bodies s))
  | _ => s
  end.

(** Commands that change a tree *)
Definition changes_tree (c : Cmd L) : bool :=
  match c with
  | LyNodeNewPath _ _ _ | LyNodeNewPathTree _ _ _ | LyParseSubtree _ _ _ | LyParseOp _ _ _ | LyValidateOp _ _ | LyUnlink _
  | LyUnlinkWithSiblings _ | LyInsertChild _ _ | LyInsertSibling _ _ | LyNewMeta _ _ _ _ | LyNewAttrOpaqueJSON _ _ _ _
  | LyEraseMeta _ _ => true
  | _ => false
  end.
Definition only_location (s : GetProgress) (c : Cmd L) : Prop :=
  match c with
  | LyUnlink n => n ∈ locations s
  | LyNodeNewPath _ p _ => p = "location" ∨ p = "schema"
  | c => changes_tree c = false
  end.
(** The flags the parameter with-defaults asks for (RFC 8040, 4.8.9); without it, the defaults are printed when the
    request is for a leaf that has its default value only. *)
Definition flags_asked (leaf_is_default : bool) (flags : list PrintFlag) : Prop :=
  match mm_find "with-defaults" (queryParams rr) with
  | None => flags = if leaf_is_default then [PSiblings; PEmptyContainers; PWithDefaultsAll] else [PSiblings; PEmptyContainers]
  | Some Explicit => flags = [PSiblings; PEmptyContainers]
  | Some Trim => flags = [PSiblings; PEmptyContainers; PWithDefaultsTrim]
  | Some ReportAll => flags = [PSiblings; PEmptyContainers; PWithDefaultsAll]
  | Some ReportAllTagged => flags = [PSiblings; PEmptyContainers; PWithDefaultsAllTag]
  | Some _ => False
  end.
Definition reply_good (s : GetProgress) (ev : Event L) : Prop :=
  let 'Ev c _ := ev in
  only_location s c ∧
  match c with
  | HttpEnd body => ∃ data flags text,
      fetched s = Some (Some data) ∧ printed s = Some (data, response df, flags, text) ∧ flags_asked (implicit s) flags ∧ body = Some text ∧
      heads s = [(200%Z, mm_of_list [contentTypeOf (response df); CORS])]
  | _ => True
  end.
Abbreviation rpwp := (wp reply_next always reply_good).

(** [s'] has at least the locations of [s], and is otherwise the same. *)
Definition grown (s s' : GetProgress) : Prop :=
  fetched s' = fetched s ∧ printed s' = printed s ∧ implicit s' = implicit s ∧ heads s' = heads s ∧ bodies s' = bodies s ∧
  locations s ⊆ locations s'.
Lemma grown_refl s : grown s s.
Proof. by split_and!. Qed.
Lemma grown_trans s1 s2 s3 : grown s1 s2 → grown s2 s3 → grown s1 s3.
Proof. unfold grown. intros (-> & -> & -> & -> & -> & ?) (? & ? & ? & ? & ? & ?). split_and!; [done..|set_solver]. Qed.
Definition noted (c : Cmd L) : bool := match c with LyPrintStr _ _ _ | LyIsImplicitDefault _ => true | _ => false end.
Lemma grown_next s c x : ly_cmd c = true → noted c = false → grown s (reply_next s (Ev c x)).
Proof.
  intros Hc Hp. destruct c; try discriminate Hc; try discriminate Hp; try exact (grown_refl s).
  - destruct x as [[n'|]|]; try exact (grown_refl s). cbn. split_and!; [done..|]. case_decide; simpl; set_solver.
  - destruct x as [l|]; try exact (grown_refl s). cbn. split_and!; [done..|]. case_decide; simpl; set_solver.
Qed.
(** A program that only looks at the tree *)
Definition looks (c : Cmd L) : bool :=
  ly_cmd c && negb (changes_tree c) && negb (noted c).
Lemma looks_wp {A} (p : prog L A) s : only looks p → rpwp p (λ s' _, grown s s') s.
Proof.
  intros Hp. apply (wp_inv _ _ _ looks (grown s)); [|exact Hp|apply grown_refl]. intros s1 c x Hc Hs.
  unfold looks in Hc. apply andb_true_iff in Hc as [[Hl Hc%negb_true_iff]%andb_true_iff Hn]. split.
  - split; [by destruct c|]. by destruct c.
  - eapply grown_trans; [exact Hs|]. apply grown_next; [exact Hl|]. by apply negb_true_iff.
Qed.
(** The links to modules, and those to streams: every node that is removed has been found as a location. *)
Abbreviation grows p s := (rpwp p (λ s' _, grown s s') s).
Lemma grows_bind {A B} (p : prog L A) (f : A → prog L B) s :
  grows p s → (∀ s' a, grown s s' → grows (f a) s') → grows (prog_bind p f) s.
Proof.
  intros Hp Hf. apply wp_bind. eapply wp_mono; [exact Hp|]. intros s' [a|e] Hs; [|exact Hs].
  eapply wp_mono; [by apply Hf|]. intros s2 r H. by eapply grown_trans.
Qed.
Lemma grows_call c s : ly_cmd c = true → noted c = false → only_location s c → grows (call c) s.
Proof.
  intros Hc Hp Ho. apply wp_call. intros x _. split; [split; [done|by destruct c]|]. by apply grown_next.
Qed.
Lemma grows_unlink l s : l ⊆ locations s → grows (foreach (λ n, call (LyUnlink n)) l) s.
Proof.
  revert s. induction l as [|n l IH]; intros s Hl; cbn [foreach]; [apply grown_refl|].
  apply grows_bind; [apply grows_call; [done|done|cbn; set_solver]|]. intros s' _ (_ & _ & _ & _ & _ & Hs). apply IH. set_solver.
Qed.
Lemma grows_foreach {A} (f : A → prog L unit) l s : (∀ s x, grows (f x) s) → grows (foreach f l) s.
Proof.
  intros Hf. revert s. induction l as [|x l IH]; intros s; cbn [foreach]; [apply grown_refl|].
  apply grows_bind; [apply Hf|]. intros s' _ _. apply IH.
Qed.
Lemma grows_location n p v s : (p = "location" ∨ p = "schema") → grows (call (LyNodeNewPath n p v)) s.
Proof. intros Hp. by apply grows_call. Qed.

Lemma grows_module schemeAndHost prefix n s : grows (replaceModuleLocation schemeAndHost prefix n) s.
Proof.
  unfold replaceModuleLocation. apply wp_bind_call. intros x _. split; [done|]. destruct x as [l|e]; [|apply grown_refl].
  assert (grown s (reply_next s (Ev (LyFindXPath n "location | schema") (Ok l)))) as Hs by (by apply grown_next).
  eapply wp_mono; [apply grows_bind|intros s' r H; eapply grown_trans; [exact Hs|exact H]].
  - apply grows_unlink. cbn. set_solver.
  - intros s' _ _. destruct l as [|n1 l], schemeAndHost as [h|]; try apply grown_refl.
    apply grows_bind; [apply looks_wp; unfold leafValue; solve_only|]. intros s1 name _.
    apply grows_bind; [apply looks_wp; unfold moduleRevision; solve_only|]. intros s2 revision _.
    apply grows_bind; [apply looks_wp; solve_only|]. intros s3 nodePath _. cbv zeta.
    apply grows_bind; [apply grows_location; case_match; auto|]. intros s4 _ _. apply grown_refl.
Qed.
Lemma grows_stream schemeAndHost n s : grows (replaceStreamLocation schemeAndHost n) s.
Proof.
  unfold replaceStreamLocation. apply wp_bind_call. intros x _. split; [done|]. destruct x as [[m|]|e]; [|apply grown_refl..].
  set (s1 := reply_next s _). assert (grown s s1 ∧ m ∈ locations s1) as [Hs Hm].
  { split; [by apply grown_next|]. cbn. set_solver. }
  change (unwrap (Some m)) with (Ret m : prog L DataNode). cbn [prog_bind].
  eapply wp_mono with (Q := λ s' _, grown s1 s'); [|intros s' r H; by eapply grown_trans].
  destruct schemeAndHost as [h|]; [|by apply grows_call].
  apply grows_bind; [apply looks_wp; solve_only|]. intros s2 val _. unfold newPathOf.
  apply grows_bind; [apply grows_location; auto|]. intros s3 _ _. apply grown_refl.
Qed.

(** The data are still those sysrepo gave. *)
Abbreviation keeps p n s := (wp (A := DataNode) reply_next always reply_good p (λ s' r, grown s s' ∧ ∀ m, r = Ok m → m = n) s).
Lemma keeps_seq (p : prog L unit) n s : grows p s → keeps (prog_bind p (λ _, Ret n)) n s.
Proof. intros Hp. apply wp_bind. eapply wp_mono; [exact Hp|]. intros s' [u|e] H; (split; [exact H|]); by intros m [= <-]. Qed.
Lemma keeps_bind {A} (p : prog L A) (f : A → prog L DataNode) n s :
  grows p s → (∀ s' a, keeps (f a) n s') → keeps (prog_bind p f) n s.
Proof.
  intros Hp Hf. apply wp_bind. eapply wp_mono; [exact Hp|]. intros s' [a|e] H; [|by split].
  eapply wp_mono; [apply Hf|]. intros s2 r [H2 Hr]. split; [by eapply grown_trans|exact Hr].
Qed.
Lemma keeps_module_locations schemeAndHost prefix n s : keeps (replaceYangLibraryLocations schemeAndHost prefix n) n s.
Proof.
  unfold replaceYangLibraryLocations. apply keeps_bind; [apply looks_wp; solve_only|]. intros s' l.
  apply keeps_seq, grows_foreach. intros s2 x. apply grows_module.
Qed.
Lemma keeps_stream_locations schemeAndHost n s : keeps (replaceStreamLocations schemeAndHost n) n s.
Proof.
  unfold replaceStreamLocations. apply keeps_bind; [apply looks_wp; solve_only|]. intros s' l.
  apply keeps_seq, grows_foreach. intros s2 x. apply grows_stream.
Qed.
(** [s'] is as [s] but for what is known of the leaf. *)
Definition unsent (s s' : GetProgress) : Prop :=
  fetched s' = fetched s ∧ heads s' = heads s ∧ bodies s' = bodies s.
Lemma grown_unsent s s' : grown s s' → unsent s s'.
Proof. by intros (? & _ & _ & ? & ? & _). Qed.
Lemma libyangPrintFlags_asked n p s :
  implicit s = false →
  rpwp (libyangPrintFlags n p (mm_find "with-defaults" (queryParams rr)))
    (λ s' r, unsent s s' ∧ ∀ flags, r = Ok flags → flags_asked (implicit s') flags) s.
Proof.
  intros Hs. unfold libyangPrintFlags. apply wp_bind. eapply wp_mono; [apply looks_wp; solve_only|].
  intros s1 r H1. pose proof (grown_unsent _ _ H1) as Hu. destruct H1 as (_ & _ & Hi & _). rewrite Hs in Hi.
  destruct r as [node|e]; [|by split]. apply wp_bind. unfold flags_asked.
  destruct (mm_find "with-defaults" (queryParams rr)) as [v|].
  - destruct v; simpl; (split; [done|]); by intros flags [= <-].
  - destruct node as [node|]; [|simpl; split; [done|]; rewrite Hi; by intros flags [= <-]].
    destruct (isLeafOrLeafList node); [|simpl; split; [done|]; rewrite Hi; by intros flags [= <-]].
    apply wp_call. intros x _. split; [done|]. destruct x as [b|e]; simpl; [|by split].
    destruct b; simpl; (split; [done|]); by intros flags [= <-].
Qed.

Definition no_data : exn := EResponse (newErrorResponse 404 "application" "invalid-value" "No data from sysrepo." None).
Definition get_outcome (s : GetProgress) (r : M unit) : Prop :=
  match r with
  | Ok _ => bodies s = 1 ∧ ∃ data, fetched s = Some (Some data)
  | Throw e => fetched s = Some None → heads s = [] ∧ bodies s = 0 ∧ e = no_data
  end.
Lemma processGet_replies : rpwp (processGet ctx timeout rq df rr) get_outcome (mkGet None [] None false [] 0).
Proof.
  unfold processGet. apply wp_bind_call. intros x _. split; [done|]. destruct x; [|done].
  cbv zeta. apply wp_bind, wp_lift. destruct (getXPath ctx rr); [|done].
  apply wp_bind_call. intros x _. split; [done|]. destruct x as [[data|]|e]; [|done..].
  apply wp_bind_call. intros x _. split; [done|]. destruct x; [|done]. cbn [reply_next fetched locations printed implicit heads bodies app].
  assert (∀ s1 e, grown (mkGet (Some (Some data)) [] None false [(200%Z, mm_of_list [contentTypeOf (response df); CORS])] 0) s1 →
    get_outcome s1 (Throw e)) as Hfail.
  { intros s1 e (Hf & _). simpl. by rewrite Hf. }
  apply wp_bind. eapply wp_mono; [apply keeps_module_locations|]. intros s1 [m|e] [H1 Hm]; [|by apply Hfail].
  rewrite (Hm m eq_refl). clear m Hm.
  apply wp_bind. eapply wp_mono; [apply keeps_stream_locations|]. intros s2 [m|e] [H2 Hm];
    pose proof (grown_trans _ _ _ H1 H2) as H12; [|by apply Hfail].
  rewrite (Hm m eq_refl). clear m Hm.
  apply wp_bind. eapply wp_mono; [apply libyangPrintFlags_asked|].
  { by destruct H12 as (_ & _ & -> & _). }
  intros s3 r [(Hf & Hh & Hb) Hfl]. destruct (grown_unsent _ _ H12) as (Hf2 & Hh2 & Hb2).
  rewrite Hf2 in Hf. rewrite Hh2 in Hh. rewrite Hb2 in Hb. cbn [fetched heads bodies] in Hf, Hh, Hb.
  assert (∀ e s', unsent s3 s' → get_outcome s' (Throw e)) as Hfail3.
  { intros e s' (Hf' & _). simpl. by rewrite Hf', Hf. }
  destruct r as [flags|e]; [|by apply Hfail3].
  apply wp_bind_call. intros x _. split; [done|]. destruct x as [[text|]|e]; cbn [reply_next]; [|by apply Hfail3..].
  change (unwrap (Some text)) with (Ret text : prog L string). cbn [prog_bind].
  apply wp_call. intros x _. split.
  - split; [done|]. exists data, flags, text. cbn [fetched printed implicit heads]. rewrite Hf, Hh. eauto 10.
  - destruct x; simpl; rewrite Hf; [|done]. rewrite Hb. eauto.
Qed.

(** C14: a GET answers with the data of sysrepo and with nothing else.  The body is sent once, after the head with status 200 and
    the type of the negotiated encoding, and it is what libyang printed, in this encoding and with the flags the
    parameter with-defaults asks for, of the very tree that sysrepo returned for the query; in between that tree was
    changed at the locations of modules and streams only: each node removed had been found as a location, each node created is
    one.  If sysrepo has no data, nothing is sent and the error is 404. *)
Theorem get_replies_data (t : list (Event L)) (r : M unit) :
  runs (processGet ctx timeout rq df rr) t r →
  (∀ t1 ev t2, t = t1 ++ ev :: t2 → reply_good (watch reply_next (mkGet None [] None false [] 0) t1) ev) ∧
  get_outcome (watch reply_next (mkGet None [] None false [] 0) t) r.
Proof.
  intros Hr. destruct (wp_runs _ _ _ _ _ _ _ _ processGet_replies Hr) as [Hg Ho].
  { clear. generalize (mkGet None [] None false [] 0). induction t; simpl; [done|]. intros s. by split. }
  split; [|exact Ho]. intros t1 ev t2 ->. exact (all_good_at _ always _ _ _ _ _ Hg).
Qed.
End reply.

(** GET of [example:top] with a depth, without credentials, while anonymous access is enabled *)
Module GetSample.
Import Example ServerSample.
Definition get_rr : RestconfRequest := mkRequest GetData None "/example:top" [("depth", UnsignedInt 2)].
Definition get_run := interp (env (Some Top) Top) (handler_ref (mkNacm true) get_request).
Lemma get_asks_once_witness :
  watch asked_next [] get_run.1 =
    [SrSessionStart (L := ly_ref) Operational; SrSetNacmUser "yangnobody"; SrSwitchDatastore Operational;
     SrGetData "/example:top" 2 GetDefault (Some 0%N)] ∧
  ∃ depth options, asked_depth get_rr depth ∧ asked_content get_rr options ∧
    watch asked_next [] get_run.1 `prefix_of`
      [SrSessionStart Operational; SrSetNacmUser "yangnobody"; SrSwitchDatastore Operational;
       SrGetData (join " | " (asked_paths get_rr)) depth options (Some 0%N)].
Proof.
  split; [vm_compute; reflexivity|].
  apply (get_asks_once (X := x3_ref) (HX := x3_ref_laws) (L := ly_ref) (HL := ly_ref_laws) (B := base64_ref) (tt : @Context ly_ref) 0 "yangnobody" pam_ref PamSample.strerror
           (mkNacm true) get_request get_rr (mkDataEncoding None JSON) (mkSession (Some "yangnobody")) "yangnobody" get_run.1 get_run.2);
    [vm_compute; reflexivity..|apply interp_runs].
Defined.

Definition reply_run : list (Event ly_ref) * M unit :=
  interp (env (Some Top) Top)
    (processGet (X := x3_ref) (L := ly_ref) (tt : @Context ly_ref) 0 get_request (mkDataEncoding None JSON) get_rr).
Definition reply_after (t : list (Event ly_ref)) : GetProgress := watch reply_next (mkGet None [] None false [] 0) t.
Lemma get_replies_data_witness :
  printed (reply_after reply_run.1) = Some (Top : @DataNode ly_ref, JSON, [PSiblings; PEmptyContainers], "text") ∧
  get_outcome (reply_after reply_run.1) reply_run.2.
Proof.
  split; [vm_compute; reflexivity|].
  apply (get_replies_data (X := x3_ref) (L := ly_ref) (tt : @Context ly_ref) 0 get_request (mkDataEncoding None JSON) get_rr
           reply_run.1 reply_run.2).
  apply interp_runs.
Defined.
End GetSample.

