(* ===== verification/SubscriptionSample.v ===== *)
(** * SubscriptionSample: subscribing by an HTTP request, with the registry of subscriptions

    Over the sample schema of [Libyang]: an input tree with a stream and an encoding, and a
    request that establishes a subscription while another user has one. *)

From S2P Require Import Prelude Exceptions UriTypes Uuid X3 Libyang YangUtils UriRequest HttpUtils DataFormat Nacm Pam PamFacts HttpAuth DynamicSubscriptions DynamicSubscriptionsFacts Effects Responses Edits Handlers YangSchemaLocations NotificationStream SubscriptionStream Server SubscriptionRpc SubscriptionRpcFacts ServerSample.

Open Scope prog_scope.

Module SubscriptionSample.
Import Example ServerSample.
#[local] Existing Instance uuid_ref.

Definition tree : InputTree (L := ly_ref) :=
  mkInputTree (L := ly_ref)
    (λ p, if decide (p = "stream") then Some LstName
          else if decide (p = "encoding") then Some ActInput
          else if decide (p = "id") then Some LstId else None)
    (λ n, match n with LstName => "NETCONF" | _ => "ietf-subscribed-notifications:encode-json" end)
    7 "/ietf-subscribed-notifications:establish-subscription".
(** libyang's answers from that tree *)
Definition tree_env (c : Cmd ly_ref) : M (Answer c) :=
  match c return M (Answer c) with
  | LyFindPath n p => Ok (input_node tree p)
  | LyValueStr n => Ok (leaf_value tree n)
  | LyValueUInt32 n => Ok (id_value tree)
  | LyNodePath n => Ok (input_path tree)
  | c => env (Some Establish) Establish c
  end.
Lemma tree_env_answers i s c : tree_answers i tree s (Ev c (tree_env c)).
Proof. destruct c; simpl; done. Qed.

Abbreviation subscribe := (subscribe_example (anydata := snode)).
Definition establish_ref (w : World) : prog ly_ref World :=
  establishRpc (L := ly_ref) (timestamp := string) Ok id subscribe "/streams/" (Some "alice") nil_uuid
    (Some "https://host") JSON Establish Establish w.

Lemma subscription_rpcs_refine_witness :
  is_ok (interp tree_env (establish_ref empty_world)).2 = true ∧
  (interp tree_env (establish_ref empty_world)).2 =
    fst <$> establishSubscription (timestamp := string) Ok id subscribe "/streams/" nil_uuid (newLocation empty_world)
              (Some "alice") (Some "https://host") JSON (input_of (L := ly_ref) tree) empty_world.
Proof.
  split; [vm_compute; reflexivity|].
  apply (subscription_rpcs_refine (L := ly_ref) "root" (timestamp := string) Ok id subscribe "/streams/" (Some "alice")
           nil_uuid Establish Establish tree (Some "https://host") JSON empty_world
           (interp tree_env (establish_ref empty_world)).1).
  - apply interp_lawful. intros s c. apply tree_env_answers.
  - apply interp_runs.
Defined.

(** alice has a subscription; somebody without credentials, while anonymous access is enabled,
    establishes another one. *)
Definition alice_input : RpcInput (anydata := snode) :=
  mkInput "/rpc" None (Some "NETCONF") false None None None 0 false.
Definition alice_establishes :=
  establishSubscription (timestamp := string) Ok id subscribe "/streams/" nil_uuid 0
    (Some "alice") (Some "https://host") JSON alice_input empty_world.
Definition alice_world : World := match alice_establishes with Ok (w, _) => w | Throw _ => empty_world end.
Lemma alice_reachable :
  reachable "root" (timestamp := string) Ok id subscribe "/streams/" alice_world.
Proof.
  assert (is_ok alice_establishes = true) as H by (vm_compute; reflexivity).
  unfold alice_world. destruct alice_establishes as [[w out]|] eqn:E; [|discriminate H].
  apply rtc_once. eapply step_establish; [|exact E]. done.
Qed.

Definition new_uuid : @uuid uuid_ref := exist _ "10000000-0000-0000-0000-000000000000" eq_refl.
Definition establish_request : Request :=
  let path := "/restconf/operations/ietf-subscribed-notifications:establish-subscription" in
  mkReq "POST" path path "" [("content-type", "application/yang-data+json"); ("forward", "proto=https;host=h")].
Definition serve_establish : prog ly_ref World :=
  serve (X := x3_ref) (L := ly_ref) (B := base64_ref) (tt : @Context ly_ref) 0 "yangnobody" "root" pam_ref
    PamSample.strerror (timestamp := string) Ok id subscribe new_uuid (mkNacm true) establish_request ["{}"] alice_world.
Definition after_request : World :=
  match (interp tree_env serve_establish).2 with Ok w => w | Throw _ => empty_world end.
Lemma served_Ok : (interp tree_env serve_establish).2 = Ok after_request.
Proof.
  assert (is_ok (interp tree_env serve_establish).2 = true) as H by (vm_compute; reflexivity).
  unfold after_request. by destruct (interp tree_env serve_establish).2.
Qed.

Lemma serveRestconf_subscriptions_witness :
  let usr := sessionUser (X := x3_ref) (B := base64_ref) "yangnobody" pam_ref PamSample.strerror (mkNacm true) establish_request in
  (m_subscriptions after_request !! new_uuid = Some 1 ∧ m_subscriptions after_request !! nil_uuid = Some 0) ∧
  reachable "root" (timestamp := string) Ok id subscribe "/streams/" after_request ∧
  others_kept "root" usr new_uuid alice_world after_request.
Proof.
  split; [split; vm_compute; reflexivity|].
  apply (serveRestconf_subscriptions (X := x3_ref) (L := ly_ref) (B := base64_ref) (tt : @Context ly_ref) 0 "yangnobody" "root"
           pam_ref PamSample.strerror (timestamp := string) Ok id subscribe new_uuid (mkNacm true) establish_request ["{}"]
           alice_world after_request (interp tree_env serve_establish).1).
  - apply subscribe_example_fresh.
  - apply alice_reachable.
  - rewrite <- served_Ok. apply interp_runs.
Defined.

(** ** A busy subscription: there is always another notification. *)
Definition busy_env (c : Cmd ly_ref) : M (Answer c) :=
  match c return M (Answer c) with
  | PollFd => Ok (1%Z, (true, false))
  | SrProcessEvent => Ok [(Some Establish, 0%Z)]
  | c => env (Some Establish) Establish c
  end.
Definition busy : list (Event ly_ref) * M unit :=
  interp busy_env (onReadable (L := ly_ref) (λ _, "2024-01-01T00:00:00Z") 1 JSON false).
Lemma onReadable_bounded_witness :
  busy.2 = Ok tt ∧ taken (wakeup_after busy.1) = 49 ∧
  (signalled (wakeup_after busy.1) ≤ notified (wakeup_after busy.1)).
Proof.
  split; [vm_compute; reflexivity|]. split; [vm_compute; reflexivity|].
  apply (onReadable_bounded (L := ly_ref) (λ _, "2024-01-01T00:00:00Z") 1 JSON false busy.1 busy.2).
  apply interp_runs.
Defined.

End SubscriptionSample.
