(* ===== verification/SubscriptionWire.v ===== *)
(** * SubscriptionWire: one client of a subscription, from the pipe to the response

    sysrepo writes the notifications of a subscription into a pipe; [DynamicSubscriptionHttpStream] takes them out
    when the event loop wakes it up, wraps them and hands them to the queue of its response.  The wake-up is the program
    [onReadable], performed one call at a time, so that the pipe and the response change in between: sysrepo writes,
    pings and termination arrive, the response is read.  The weakest precondition of what is left of the program is the invariant
    of a wake-up in progress. *)

From S2P Require Import Prelude Exceptions UriTypes Libyang YangUtils Effects EventStream NotificationStream SubscriptionStream.

Open Scope prog_scope.

(** ** What a program without visible effects returned *)

Lemma wp_runs_quiet {L : Libyang} {S : Type} (next : S → Event L → S) (lawful good : S → Event L → Prop) (f : Cmd L → bool)
    {A} (p : prog L A) s :
  (∀ c x, f c = true → next s (Ev c x) = s ∧ good s (Ev c x)) → only f p →
  wp next lawful good p (λ s' r, s' = s ∧ ∃ t, runs p t r) s.
Proof.
  intros Hf. induction p as [a|e|c k IH]; simpl; [by eauto..|]. intros [Hc Hk] x _. destruct (Hf c x Hc) as [-> ?].
  split; [done|]. eapply wp_mono; [by apply IH|]. intros s' r (-> & t & Ht). split; [done|]. exists (Ev c x :: t), x, t. done.
Qed.

Section wire.
Context {L : Libyang} {LM : LibyangMore L} (yangTimeFormat : Z → string) (fuel : nat).

Abbreviation Notification := (option (@DataNode L) * Z)%type.

(** The text a notification is sent as *)
Definition text_of (format : DataFormat) (n : Notification) (s : string) : Prop :=
  ∃ tree t, n.1 = Some tree ∧ runs (as_restconf_notification yangTimeFormat fuel format tree n.2) t (Ok s).

(** [subscription.fd()]: one element of [unread] is what one [processEvent] takes.  [hung_up]: sysrepo has closed its end. *)
Record Pipe := mkPipe { unread : list (list Notification); hung_up : bool; read : list Notification }.
Definition new_pipe : Pipe := mkPipe [] false [].

(** [pending]: taken and not given to the signal yet.  [ended]: the pipe was found closed and empty. *)
Record Progress := mkProgress { pending : list Notification; waiting : bool; ended : bool }.
Record Wire := mkWire {
  since : nat;                       (** how much of the pipe had been read before *)
  format : DataFormat;
  stream : World;
  progress : Progress;
  activity : option (prog L unit)    (** what is left of a wake-up *)
}.

Definition progress_next (s : Progress) (ev : Event L) : Progress :=
  match ev with
  | Ev SrProcessEvent (Ok l) => mkProgress (pending s ++ l) (waiting s) (ended s)
  | Ev (SignalEvent _) _ => mkProgress (tail (pending s)) (waiting s) (ended s)
  | Ev AsyncWait (Ok _) => mkProgress (pending s) true (ended s)
  | Ev PollFd (Ok (n, (false, true))) => mkProgress (pending s) (waiting s) (ended s || bool_decide (n = 1%Z))
  | _ => s
  end.

Definition stream_next (w : World) (ev : Event L) : World :=
  match ev with Ev (SignalEvent msg) _ => on_signal msg w | _ => w end.

(** The answers of [poll] and [processEvent], and what is left in the pipe *)
Definition pipe_answers (p : Pipe) (ev : Event L) (p' : Pipe) : Prop :=
  match ev with
  | Ev PollFd x => p' = p ∧
      ∃ n pollin pollhup, x = Ok (n, (pollin, pollhup)) ∧
        (n = 1%Z → pollin = bool_decide (unread p ≠ []) ∧ (pollhup = true → hung_up p = true))
  | Ev SrProcessEvent (Ok l) => ∃ rest, unread p = l :: rest ∧ p' = mkPipe rest (hung_up p) (read p ++ l)
  | _ => p' = p
  end.

(** ** Steps *)

Definition wired (v : Wire) (w : World) (s : Progress) (a : option (prog L unit)) : Wire :=
  mkWire (since v) (format v) w s a.

(** What the response does by itself: pings, termination, tasks and reads *)
Definition stream_moves (w w' : World) : Prop :=
  step w w' ∧ messages w' = messages w ∧ (state (es w') = Closed → state (es w) = Closed).

Inductive wire_step (p : Pipe) (v : Wire) : Pipe → Wire → Prop :=
| wire_wakes :
    activity v = None → waiting (progress v) = true →
    wire_step p v p
      (wired v (stream v) (mkProgress (pending (progress v)) false (ended (progress v)))
         (Some (onReadable yangTimeFormat fuel (format v) false)))
| wire_calls c k x p' :
    activity v = Some (Vis c k) → pipe_answers p (Ev c x) p' →
    wire_step p v p' (wired v (stream_next (stream v) (Ev c x)) (progress_next (progress v) (Ev c x)) (Some (k x)))
| wire_returns :
    activity v = Some (Ret tt) → wire_step p v p (wired v (stream v) (progress v) None)
| wire_moves w' : stream_moves (stream v) w' → wire_step p v p (wired v w' (progress v) (activity v)).

(** The constructor and [activate] *)
Definition new_wire (p : Pipe) (f : DataFormat) (t : list (Event L)) : Wire :=
  mkWire (length (read p)) f (initial None) (watch progress_next (mkProgress [] false false) t) None.

(** ** A wake-up gives every notification it takes to the response *)

Definition unknown_answers (s : Progress) (ev : Event L) : Prop := True.
Definition progress_good (f : DataFormat) (s : Progress) (ev : Event L) : Prop :=
  match ev with
  | Ev (SignalEvent msg) _ => ∃ n rest, pending s = n :: rest ∧ text_of f n msg
  | Ev SrProcessEvent _ | Ev AsyncWait _ => pending s = [] ∧ waiting s = false
  | _ => True
  end.
Definition finished (s : Progress) (r : M unit) : Prop :=
  match r with Ok _ => pending s = [] ∧ (waiting s = true ∨ ended s = true) | Throw _ => True end.
Abbreviation pwp f := (wp progress_next unknown_answers (progress_good f)).

Lemma progress_quiet f s c x : ly_cmd c = true → progress_next s (Ev c x) = s ∧ progress_good f s (Ev c x).
Proof. by destruct c. Qed.

Lemma onNotification_pending f n rest s :
  pending s = n :: rest →
  pwp f (onNotification yangTimeFormat fuel f n)
    (λ s' r, match r with Ok _ => s' = mkProgress rest (waiting s) (ended s) | Throw _ => True end) s.
Proof.
  intros Hs. destruct n as [[tree|] time]; unfold onNotification, unwrap, YangUtils.deref, lift; cbn [prog_bind]; [|done].
  apply wp_bind. eapply wp_mono; [apply (wp_runs_quiet _ _ _ ly_cmd); [apply progress_quiet|apply only_notification]|].
  intros s' [text|e] [-> [t Ht]]; [|done]. apply wp_call. intros x _. split; [by exists (Some tree, time), rest; split; [|exists tree, t]|].
  destruct x; simpl; [by rewrite Hs|done].
Qed.
Lemma notifications_pending f l s :
  pending s = l →
  pwp f (foreach (onNotification yangTimeFormat fuel f) l)
    (λ s' r, match r with Ok _ => s' = mkProgress [] (waiting s) (ended s) | Throw _ => True end) s.
Proof.
  revert s. induction l as [|n l IH]; intros s Hs; cbn [foreach]; [by destruct s; simpl in *; subst|].
  apply wp_bind. eapply wp_mono; [by apply onNotification_pending|]. intros s' [u|e] H; [|done]. subst s'.
  by apply (IH (mkProgress l (waiting s) (ended s))).
Qed.
Lemma processEvents_pending f room s :
  pending s = [] → waiting s = false →
  pwp f (processEvents yangTimeFormat fuel f room)
    (λ s' r, match r with Ok _ => pending s' = [] ∧ waiting s' = false | Throw _ => True end) s.
Proof.
  revert s. induction room as [|room IH]; intros s Hp Hw; cbn [processEvents]; [done|].
  unfold pipeHasData. apply wp_bind_assoc, wp_bind_call. intros x _. split; [done|].
  destruct x as [[n [pollin pollhup]]|e]; [|done]. cbn [prog_bind].
  set (s1 := progress_next s _). assert (pending s1 = [] ∧ waiting s1 = false) as [Hp1 Hw1] by (by destruct pollin, pollhup).
  destruct (bool_decide (n = 1%Z) && pollin); [|done].
  apply wp_bind_call. intros x _. split; [done|]. destruct x as [l|e]; [|done].
  apply wp_bind. eapply wp_mono; [apply notifications_pending; simpl; by rewrite Hp1|].
  intros s2 [u|e] H; [|done]. subst s2. by apply IH.
Qed.
Lemma onReadable_finishes f s :
  pending s = [] → waiting s = false → pwp f (onReadable yangTimeFormat fuel f false) finished s.
Proof.
  intros Hp Hw. unfold onReadable, pipeIsClosedAndNoData. apply wp_bind_assoc, wp_bind_call. intros x _. split; [done|].
  destruct x as [[n [pollin pollhup]]|e]; [|done]. cbn [prog_bind].
  set (s1 := progress_next s _). assert (pending s1 = [] ∧ waiting s1 = false) as [Hp1 Hw1] by (by destruct pollin, pollhup).
  destruct (bool_decide (n = 1%Z) && pollhup && negb pollin) eqn:E.
  - apply andb_true_iff in E as [[->%bool_decide_eq_true ->]%andb_true_iff ->%negb_true_iff]. split; [done|]. right.
    simpl. by rewrite orb_true_r.
  - apply wp_bind. eapply wp_mono; [by apply processEvents_pending|]. intros s2 [u|e] H; [|done]. destruct H as [Hp2 Hw2].
    apply wp_call. intros x _. split; [done|]. destruct x; simpl; [by split; [|left]|done].
Qed.

(** ** The invariant *)

Record wire_inv (p : Pipe) (v : Wire) : Prop := {
  wi_stream : reachable (stream v);
  wi_since : since v ≤ length (read p);
  wi_connected : accepts (es (stream v)) = true → eventSub (es (stream v)) = true;
  wi_given : ∃ given, drop (since v) (read p) = given ++ pending (progress v) ∧
    (accepts (es (stream v)) = true → Forall2 (text_of (format v)) given (messages (stream v))) ∧
    ∃ k, Forall2 (text_of (format v)) (take k given) (messages (stream v));
  wi_ended : ended (progress v) = true → hung_up p = true ∧ unread p = [];
  wi_activity : match activity v with
                | None => finished (progress v) (Ok tt)
                | Some a => pwp (format v) a finished (progress v)
                end
}.

(** sysrepo writes, or closes its end. *)
Lemma wire_inv_written p p' v :
  read p' = read p → (hung_up p = true → hung_up p' = true ∧ unread p' = unread p) → wire_inv p v → wire_inv p' v.
Proof.
  intros Hr Hc [H1 H2 H3 H4 H5 H6]. split; rewrite ?Hr; try done.
  intros [Hcl Hu]%H5. destruct (Hc Hcl) as [? ->]. done.
Qed.

Lemma wire_inv_signal p v msg s n :
  pending (progress v) = n :: pending s → text_of (format v) n msg → ended s = ended (progress v) → ∀ a,
  match a with None => finished s (Ok tt) | Some a => pwp (format v) a finished s end →
  wire_inv p v → wire_inv p (wired v (on_signal msg (stream v)) s a).
Proof.
  intros Hp Ht He a Ha [H1 H2 H3 (given & Hg & Ho & k & Hk) H5 H6]. rewrite Hp in Hg.
  split; cbn [stream since format progress activity wired];
    rewrite ?accepts_on_signal, ?eventSub_on_signal, ?messages_on_signal, ?He; try done; [by apply reachable_on_signal|].
  exists (given ++ [n]). rewrite <- app_assoc. split; [exact Hg|].
  destruct (accepts (es (stream v))) eqn:Ea; rewrite ?andb_false_r, ?andb_true_r.
  - rewrite (H3 eq_refl). assert (Forall2 (text_of (format v)) (given ++ [n]) (messages (stream v) ++ [msg])) as Hall
      by (apply Forall2_app; [by apply Ho|by repeat constructor]).
    split; [done|]. exists (length (given ++ [n])). by rewrite take_ge.
  - split; [done|]. exists (k `min` length given). by rewrite take_app_min.
Qed.

Lemma wire_step_inv p v p' v' : wire_inv p v → wire_step p v p' v' → wire_inv p' v'.
Proof.
  intros Hi Hs. destruct Hs as [Ha Hw|c k x p' Ha Hp|Ha|w' (Hs & Hm & Hc)].
  - destruct Hi as [H1 H2 H3 H4 H5 H6]. rewrite Ha in H6. destruct H6 as [Hpe _].
    split; try done. by apply onReadable_finishes.
  - pose proof (wi_activity _ _ Hi) as Hact. rewrite Ha in Hact. destruct (Hact x I) as [Hg Hk].
    assert (∀ s, pending s = pending (progress v) → (ended s = true → hung_up p = true ∧ unread p = []) →
      s = progress_next (progress v) (Ev c x) → wire_inv p (wired v (stream v) s (Some (k x)))) as Hquiet.
    { intros s Hpe He ->. destruct Hi as [H1 H2 H3 H4 H5 H6].
      split; cbn [stream since format progress activity wired]; rewrite ?Hpe; done. }
    pose proof (wi_ended _ _ Hi) as He.
    destruct c; try (cbn in Hp; subst p'; by apply Hquiet).
    + destruct x as [l|e]; [|cbn in Hp; subst p'; by apply Hquiet].
      destruct Hp as (rest & Hu & ->). destruct Hg as [Hpe Hw], Hi as [H1 H2 H3 (given & Hd & Ho) H5 H6].
      split; cbn [stream since format progress activity wired stream_next progress_next read pending]; try done.
      * rewrite length_app. lia.
      * exists given. rewrite drop_app_le by done. by rewrite Hd, Hpe, app_nil_r.
      * cbn. intros [_ Hn]%H5. by rewrite Hn in Hu.
    + cbn in Hp. subst p'. destruct Hg as (n & rest & Hn & Ht). apply (wire_inv_signal p v content _ n); try done.
      cbn. by rewrite Hn.
    + destruct Hp as (-> & n & pollin & pollhup & -> & Hn). apply Hquiet; [by destruct pollin, pollhup| |done].
      destruct pollin, pollhup; try done. cbn. intros [?| ->%bool_decide_eq_true]%orb_true_iff; [by apply He|].
      destruct (Hn eq_refl) as [Hu ?]. split; [auto|]. destruct (unread p); [done|]. symmetry in Hu.
      by apply bool_decide_eq_false in Hu; destruct Hu.
    + cbn in Hp. subst p'. apply Hquiet; [by destruct x|by destruct x|done].
  - destruct Hi as [H1 H2 H3 H4 H5 H6]. rewrite Ha in H6. by split.
  - destruct Hi as [H1 H2 H3 H4 H5 H6]. split; cbn [stream since format progress activity wired]; rewrite ?Hm; try done.
    + by eapply reachable_step.
    + intros Hacc. destruct (step_connected _ _ Hs Hacc) as [? ->]. auto.
    + destruct H4 as (given & Hg & Ho & Hk). exists given. split; [done|]. split; [|done].
      intros Hacc. apply Ho. by destruct (step_connected _ _ Hs Hacc).
Qed.

(** ** What the wake-ups of one stream do *)

Definition both_step (a b : Pipe * Wire) : Prop := wire_step a.1 a.2 b.1 b.2.
Lemma both_steps_inv a b : rtc both_step a b → wire_inv a.1 a.2 → wire_inv b.1 b.2.
Proof. induction 1 as [a|a a1 b Hs _ IH]; [done|]. intros Ha. apply IH. by eapply wire_step_inv. Qed.

Lemma steps_stay w w' : rtc step w w' → accepted w `prefix_of` accepted w' ∧ (state (es w) = Closed → state (es w') = Closed).
Proof.
  induction 1 as [w|w w1 w' Hs _ [Hp Hc]]; [done|]. split; [by etransitivity; [apply step_accepted|]|].
  intros H. by apply Hc, (step_closed w).
Qed.
Lemma steps_moves w w' :
  rtc step w w' → accepted w' = accepted w → state (es w') ≠ Closed → rtc stream_moves w w'.
Proof.
  induction 1 as [w|w w1 w' Hs Hr IH]; intros Ha Hc; [done|]. destruct (steps_stay _ _ Hr) as [Hp Hcl].
  assert (accepted w1 = accepted w) as He.
  { destruct (step_accepted _ _ Hs) as [k1 H1], Hp as [k2 H2]. rewrite H1, Ha in H2. apply (f_equal length) in H2.
    rewrite !length_app in H2. destruct k1; [by rewrite app_nil_r in H1|simpl in H2; lia]. }
  eapply rtc_l; [|apply IH; [congruence|done]]. split; [exact Hs|]. unfold messages. rewrite He. split; [done|].
  intros H1. by destruct (Hc (Hcl H1)).
Qed.
Lemma moves_both p v w' :
  rtc stream_moves (stream v) w' → rtc both_step (p, v) (p, wired v w' (progress v) (activity v)).
Proof.
  intros H. remember (stream v) as w eqn:Hw. revert v Hw. induction H as [w|w w1 w' Hm _ IH]; intros v ->.
  - by destruct v.
  - apply (rtc_l _ _ (p, wired v w1 (progress v) (activity v))); [exact (wire_moves p v w1 Hm)|]. exact (IH (wired v w1 (progress v) (activity v)) eq_refl).
Qed.

(** A program is performed to its end; [env] answers what is not about the pipe. *)
Section perform.
Context (env : ∀ c : Cmd L, M (Answer c)).
Definition pipe_answer (p : Pipe) (c : Cmd L) : M (Answer c) * Pipe :=
  match c return M (Answer c) * Pipe with
  | PollFd => (Ok (if decide (unread p = [] ∧ hung_up p = false) then 0%Z else 1%Z, (bool_decide (unread p ≠ []), hung_up p)), p)
  | SrProcessEvent =>
      match unread p with
      | [] => (Throw (ESysrepo SrNotFound "no event"), p)
      | l :: rest => (Ok l, mkPipe rest (hung_up p) (read p ++ l))
      end
  | c => (env c, p)
  end.
Lemma pipe_answer_answers p c : pipe_answers p (Ev c (pipe_answer p c).1) (pipe_answer p c).2.
Proof.
  destruct c; cbn; try done.
  - destruct (unread p) as [|l rest] eqn:E; cbn; [done|]. by exists rest.
  - split; [done|]. do 3 eexists. split; [done|]. by case_decide.
Qed.
Fixpoint perform {A} (q : prog L A) (p : Pipe) (w : World) (s : Progress) : M A * (Pipe * World * Progress) :=
  match q with
  | Ret a => (Ok a, (p, w, s))
  | Raise e => (Throw e, (p, w, s))
  | Vis c k =>
      let '(x, p') := pipe_answer p c in perform (k x) p' (stream_next w (Ev c x)) (progress_next s (Ev c x))
  end.
Lemma perform_bind {A B} (q : prog L A) (f : A → prog L B) p w s :
  perform (prog_bind q f) p w s =
  match perform q p w s with
  | (Ok a, (p', w', s')) => perform (f a) p' w' s'
  | (Throw e, st) => (Throw e, st)
  end.
Proof.
  revert p w s. induction q as [a|e|c k IH]; intros p w s; cbn [prog_bind perform]; [done..|].
  destruct (pipe_answer p c). apply IH.
Qed.
Lemma perform_runs (q : prog L unit) p v r p' w' s' :
  activity v = Some q → perform q p (stream v) (progress v) = (r, (p', w', s')) →
  rtc both_step (p, v) (p', wired v w' s' (Some (lift r))).
Proof.
  revert p v. induction q as [a|e|c k IH]; intros p v Ha; cbn [perform].
  - intros [= <- <- <- <-]. change (lift (Ok a)) with (Ret a : prog L unit). rewrite <- Ha. by destruct v.
  - intros [= <- <- <- <-]. change (lift (Throw e)) with (Raise e : prog L unit). rewrite <- Ha. by destruct v.
  - pose proof (pipe_answer_answers p c) as Hp. destruct (pipe_answer p c) as [x p1] eqn:E. intros H.
    eapply (rtc_l _ _ (_, _)); [exact (wire_calls p v c k x p1 Ha Hp)|].
    apply (IH x p1 (wired v (stream_next (stream v) (Ev c x)) (progress_next (progress v) (Ev c x)) (Some (k x))) eq_refl H).
Qed.
Lemma perform_ly {A} (q : prog L A) p w s : only ly_cmd q → perform q p w s = ((interp env q).2, (p, w, s)).
Proof.
  revert p w s. induction q as [a|e|c k IH]; intros p w s; cbn [perform interp only]; [done..|]. intros [Hc Hk].
  assert (pipe_answer p c = (env c, p)) as -> by (by destruct c). cbv beta iota. destruct (progress_quiet JSON s c (env c) Hc) as [-> _].
  assert (stream_next w (Ev c (env c)) = w) as -> by (by destruct c). rewrite IH by done.
  by destruct (interp env (k (env c))).
Qed.

(** The environment lets a notification be wrapped. *)
Definition wraps (f : DataFormat) (n : Notification) : Prop :=
  ∃ tree text, n.1 = Some tree ∧ (interp env (as_restconf_notification yangTimeFormat fuel f tree n.2)).2 = Ok text.
Context (env_signal : ∀ s, env (SignalEvent s) = Ok tt) (env_wait : env AsyncWait = Ok tt).

Lemma perform_notification f n p w s :
  wraps f n → ∃ text, perform (onNotification yangTimeFormat fuel f n) p w s =
    (Ok tt, (p, on_signal text w, mkProgress (tail (pending s)) (waiting s) (ended s))).
Proof.
  intros (tree & text & Hn & Hr). exists text. destruct n as [[t|] time]; [|done]. cbn [fst snd] in *. injection Hn as ->.
  unfold onNotification. change (unwrap (Some tree)) with (Ret tree : prog L DataNode). cbn [prog_bind].
  rewrite perform_bind, perform_ly by apply only_notification. rewrite Hr. unfold call. cbn [perform pipe_answer]. by rewrite env_signal.
Qed.
Lemma perform_notifications f l p w s :
  Forall (wraps f) l →
  ∃ w', perform (foreach (onNotification yangTimeFormat fuel f) l) p w s =
    (Ok tt, (p, w', mkProgress (drop (length l) (pending s)) (waiting s) (ended s))) ∧ accepts (es w') = accepts (es w).
Proof.
  intros Hl. revert w s. induction Hl as [|n l Hn _ IH]; intros w s; cbn [foreach].
  - exists w. by destruct s.
  - rewrite perform_bind. destruct (perform_notification f n p w s Hn) as [text ->].
    destruct (IH (on_signal text w) (mkProgress (tail (pending s)) (waiting s) (ended s))) as (w' & -> & Hw).
    exists w'. rewrite Hw, accepts_on_signal. split; [|done]. simpl. by destruct (pending s); simpl; rewrite ?drop_nil.
Qed.
Lemma perform_hasData p w s :
  ∃ s', perform (pipeHasData (L := L)) p w s = (Ok (bool_decide (unread p ≠ [])), (p, w, s')) ∧
    pending s' = pending s ∧ waiting s' = waiting s.
Proof.
  unfold pipeHasData, call. cbn [prog_bind perform pipe_answer lift]. destruct (unread p) as [|l rest], (hung_up p); simpl; eauto.
Qed.
Lemma perform_notClosed p w s :
  unread p ≠ [] →
  ∃ s', perform (pipeIsClosedAndNoData (L := L)) p w s = (Ok false, (p, w, s')) ∧ pending s' = pending s ∧ waiting s' = waiting s.
Proof.
  intros Hu. unfold pipeIsClosedAndNoData, call. cbn [prog_bind perform pipe_answer lift].
  destruct (unread p) as [|l rest], (hung_up p); simpl; eauto; done.
Qed.
Lemma perform_processEvents f room p w s :
  Forall (Forall (wraps f)) (unread p) → pending s = [] →
  ∃ w' s', perform (processEvents yangTimeFormat fuel f room) p w s =
      (Ok tt, (mkPipe (drop room (unread p)) (hung_up p) (read p ++ concat (take room (unread p))), w', s')) ∧
    pending s' = [] ∧ waiting s' = waiting s ∧ accepts (es w') = accepts (es w).
Proof.
  revert p w s. induction room as [|room IH]; intros p w s Hw Hp; cbn [processEvents].
  - exists w, s. cbn [perform]. rewrite drop_0, take_0, app_nil_r. by destruct p.
  - rewrite perform_bind. destruct (perform_hasData p w s) as (s1 & -> & Hp1 & Hw1). destruct p as [[|l rest] h rd]; cbn [unread hung_up read] in *.
    + rewrite bool_decide_eq_false_2 by naive_solver. exists w, s1. cbn [perform]. rewrite Hp1. simpl. by rewrite app_nil_r.
    + rewrite bool_decide_eq_true_2 by done. apply Forall_cons in Hw as [Hl Hrest].
      unfold call. cbn [prog_bind perform pipe_answer lift unread hung_up read progress_next stream_next]. rewrite Hp1, Hp. cbn [app].
      destruct (perform_notifications f l (mkPipe rest h (rd ++ l)) w (mkProgress l (waiting s1) (ended s1)) Hl) as (w2 & E & Hw2).
      unfold lift. cbn [prog_bind]. rewrite perform_bind, E. cbn [pending waiting ended]. rewrite drop_all.
      destruct (IH (mkPipe rest h (rd ++ l)) w2 (mkProgress [] (waiting s1) (ended s1)) Hrest eq_refl) as (w3 & s3 & -> & Hp3 & Hw3 & Ha3).
      exists w3, s3. cbn [unread hung_up read drop take concat]. rewrite <- app_assoc. split_and!; [done..| |]; cbn in *; congruence.
Qed.
Lemma perform_onReadable f p w s :
  unread p ≠ [] → Forall (Forall (wraps f)) (unread p) → pending s = [] →
  ∃ w' e, perform (onReadable yangTimeFormat fuel f false) p w s =
      (Ok tt, (mkPipe (drop (MAX_EVENTS - 1) (unread p)) (hung_up p) (read p ++ concat (take (MAX_EVENTS - 1) (unread p))), w',
               mkProgress [] true e)) ∧
    accepts (es w') = accepts (es w).
Proof.
  intros Hu Hw Hp. unfold onReadable. rewrite perform_bind. destruct (perform_notClosed p w s Hu) as (s1 & -> & Hp1 & _).
  rewrite perform_bind. destruct (perform_processEvents f (MAX_EVENTS - 1) p w s1 Hw) as (w' & s' & -> & Hp' & _ & Ha); [congruence|].
  exists w', (ended s'). unfold awaitNextNotification, call. cbn [perform pipe_answer]. rewrite env_wait.
  unfold lift. cbn [perform progress_next stream_next]. by rewrite Hp'.
Qed.

Lemma wake_runs p v p' w' s' :
  activity v = None → waiting (progress v) = true →
  perform (onReadable yangTimeFormat fuel (format v) false) p (stream v) (mkProgress (pending (progress v)) false (ended (progress v)))
    = (Ok tt, (p', w', s')) →
  rtc both_step (p, v) (p', wired v w' s' None).
Proof.
  intros Ha Hw Hp.
  set (v1 := wired v (stream v) (mkProgress (pending (progress v)) false (ended (progress v)))
               (Some (onReadable yangTimeFormat fuel (format v) false))).
  apply (rtc_l _ _ (p, v1)); [exact (wire_wakes p v Ha Hw)|].
  eapply rtc_r; [exact (perform_runs _ p v1 _ _ _ _ eq_refl Hp)|].
  exact (wire_returns p' (wired v w' s' (Some (Ret tt))) eq_refl).
Qed.

(** Wake-ups take everything out of the pipe. *)
Lemma wire_drains p v :
  activity v = None → waiting (progress v) = true → pending (progress v) = [] → Forall (Forall (wraps (format v))) (unread p) →
  ∃ p' v', rtc both_step (p, v) (p', v') ∧ activity v' = None ∧ pending (progress v') = [] ∧
    unread p' = [] ∧ read p' = read p ++ concat (unread p) ∧ since v' = since v ∧ format v' = format v ∧
    accepts (es (stream v')) = accepts (es (stream v)).
Proof.
  remember (length (unread p)) as n eqn:Hn. revert p v Hn. induction (lt_wf n) as [n _ IH]. intros p v -> Ha Hw Hp Hu.
  destruct (decide (unread p = [])) as [He|He]; [exists p, v; rewrite He; simpl; by rewrite app_nil_r|].
  destruct (perform_onReadable (format v) p (stream v) (mkProgress [] false (ended (progress v))) He Hu eq_refl) as (w' & e & Hperf & Hacc).
  rewrite <- Hp in Hperf. pose proof (wake_runs p v _ _ _ Ha Hw Hperf) as H12.
  set (p1 := mkPipe (drop _ _) _ _) in *. set (v2 := wired v w' _ None) in *.
  destruct (IH (length (unread p1))) with (p := p1) (v := v2) as (p' & v' & Hr & Ha' & Hp' & Hu' & Hrd & Hs & Hf & Hacc'); try done.
  - simpl. rewrite length_drop. destruct (unread p); [done|simpl; lia].
  - simpl. by apply Forall_drop.
  - exists p', v'. split; [by etransitivity|]. split_and!; try done.
    + rewrite Hrd. simpl. by rewrite <- app_assoc, <- concat_app, take_drop.
    + by rewrite Hacc', <- Hacc.
Qed.
End perform.
End wire.
