(* ===== verification/NotificationWire.v ===== *)
(** * NotificationWire: one client of a notification stream, from sysrepo's callbacks to the response

    A thread of sysrepo calls [notifCb] for every notification of the subscribed modules, one after the other; the
    response is read, pinged, terminated and closed by other threads at any time.  The callback touches nothing they see before
    it signals, so it is one step. *)

From S2P Require Import Prelude Exceptions UriTypes Libyang YangUtils Effects EventStream NotificationStream SubscriptionStream SubscriptionWire ServerSample.

Open Scope prog_scope.

Section wire.
Context {L : Libyang} {LM : LibyangMore L} (yangTimeFormat : Z → string) (fuel : nat) (format : DataFormat).
Abbreviation text_of := (text_of yangTimeFormat fuel format).

Record Call := mkCall { call_kind : NotificationType; call_tree : option (@DataNode L); call_time : Z }.
Definition wanted (c : Call) : bool := bool_decide (call_kind c = Realtime) || bool_decide (call_kind c = Replay).

(** [finished]: the calls of the callback that are over, in order, with their results *)
Record NotificationWire := mkWires { nstream : World; finished : list (Call * M (option string)) }.
Definition called_back (c : Call) (r : M (option string)) (v : NotificationWire) : NotificationWire :=
  mkWires (match r with Ok (Some msg) => on_signal msg (nstream v) | _ => nstream v end) (finished v ++ [(c, r)]).

Inductive callback_step (v : NotificationWire) : NotificationWire → Prop :=
| callback_calls c t r :
    runs (notifCb yangTimeFormat fuel format (call_kind c) (call_tree c) (call_time c)) t r → callback_step v (called_back c r v)
| callback_moves w' :
    step (nstream v) w' → messages w' = messages (nstream v) → callback_step v (mkWires w' (finished v)).

Definition callback_start : NotificationWire := mkWires (initial None) [].

(** What a call gives the client *)
Definition call_text (c : Call * M (option string)) : option string := match c.2 with Ok o => o | Throw _ => None end.
Definition call_ok (c : Call * M (option string)) : Prop :=
  match c.2 with
  | Ok (Some msg) => wanted c.1 = true ∧ text_of (call_tree c.1, call_time c.1) msg
  | Ok None => wanted c.1 = false
  | Throw _ => wanted c.1 = true
  end.

Lemma notifCb_ok c t r : runs (notifCb yangTimeFormat fuel format (call_kind c) (call_tree c) (call_time c)) t r → call_ok (c, r).
Proof.
  unfold notifCb, call_ok, wanted. rewrite <- negb_orb. destruct (bool_decide _ || bool_decide _) eqn:E; cbn [negb fst snd].
  2: { intros [_ ->]. done. }
  destruct (call_tree c) as [n|]; [|by intros [_ ->]]. change (unwrap (Some n)) with (Ret n : prog L DataNode). cbn [prog_bind].
  intros [(msg & t1 & t2 & -> & H1 & H2)|(e & -> & _)]%runs_bind; [|done]. destruct H2 as [-> ->].
  split; [done|]. by exists n, t1.
Qed.

Record callback_inv (v : NotificationWire) : Prop := {
  ci_stream : EventStream.reachable (nstream v);
  ci_connected : accepts (es (nstream v)) = true → eventSub (es (nstream v)) = true;
  ci_calls : Forall call_ok (finished v);
  ci_open : accepts (es (nstream v)) = true → messages (nstream v) = omap call_text (finished v);
  ci_messages : ∃ k, messages (nstream v) = omap call_text (take k (finished v))
}.
Lemma callback_step_inv v v' : callback_inv v → callback_step v v' → callback_inv v'.
Proof.
  intros [H1 H2 H3 H4 (k & H5)] Hs. destruct Hs as [c t r Hr|w' Hs Hm].
  - apply notifCb_ok in Hr. assert (Forall call_ok (finished v ++ [(c, r)])) as Hc by (apply Forall_app; by repeat constructor).
    assert (omap call_text (finished v ++ [(c, r)]) = omap call_text (finished v) ++ option_list (call_text (c, r))) as Happ
      by (rewrite omap_app; simpl; by destruct (call_text (c, r))).
    assert (∃ k, messages (nstream v) = omap call_text (take k (finished v ++ [(c, r)]))) as Hk
      by (exists (k `min` length (finished v)); by rewrite take_app_min).
    unfold called_back. destruct r as [[msg|]|e]; split; cbn [nstream finished]; rewrite ?Happ; try done.
    + by apply reachable_on_signal.
    + by rewrite accepts_on_signal, eventSub_on_signal.
    + rewrite accepts_on_signal, messages_on_signal. intros Ha. by rewrite H2, Ha, H4.
    + rewrite messages_on_signal. destruct (accepts (es (nstream v))) eqn:Ea; [|by rewrite andb_false_r].
      rewrite H2 by done. exists (length (finished v ++ [(c, Ok (Some msg))])). by rewrite take_ge, Happ, H4.
    + intros Ha. by rewrite app_nil_r, H4.
    + intros Ha. by rewrite app_nil_r, H4.
  - split; cbn [nstream finished]; rewrite ?Hm; try done; [by eapply reachable_step| | |by exists k].
    + intros Ha. destruct (step_connected _ _ Hs Ha) as [? ->]. auto.
    + intros Ha. apply H4. by destruct (step_connected _ _ Hs Ha).
Qed.

(** C20: what the client of a notification stream gets.  In any interleaving of sysrepo's callbacks with the reads, pings,
    termination and closing of the response: the messages are the texts of realtime and replayed notifications, in the encoding of
    the stream, in the order of the callbacks, up to where the stream was closed; while it is open none is missing, except
    those whose wrapping threw; other kinds of callbacks give nothing; and when the response waits, the client decodes exactly
    these messages. *)
Theorem notifications_received (v : NotificationWire) :
  rtc callback_step callback_start v →
  Forall call_ok (finished v) ∧
  (∃ k, messages (nstream v) = omap call_text (take k (finished v))) ∧
  (accepts (es (nstream v)) = true → messages (nstream v) = omap call_text (finished v)) ∧
  (EventStream.state (es (nstream v)) = WaitingForEvents → Forall item_no_cr (accepted (nstream v)) →
     sse_decode (sent (nstream v)) = chomp <$> omap call_text (finished v)).
Proof.
  intros H. assert (callback_inv callback_start) as Hi.
  { split; cbn [callback_start nstream finished]; try done; [by eexists|by exists 0]. }
  assert (callback_inv v) as [H1 H2 H3 H4 H5] by (induction H; eauto using callback_step_inv).
  split_and!; [done..|]. intros Hs Hcr. destruct (waiting_sent _ H1 Hs) as [_ ->]; [|done].
  rewrite H4; [done|]. unfold accepts. by rewrite Hs.
Qed.
End wire.

(** ** A notification, the end of a replay, and a read *)

Module NotificationSample.
Import Example ServerSample.

Abbreviation nstep := (callback_step (L := ly_ref) (λ _, "") 1 JSON).
Definition realtime : Call (L := ly_ref) := mkCall Realtime (Some (Top : @DataNode ly_ref)) 0.
Definition replay_complete : Call (L := ly_ref) := mkCall OtherNotification None 0.
Definition callback (c : Call (L := ly_ref)) : list (Event ly_ref) * M (option string) :=
  interp (env None Top) (notifCb (L := ly_ref) (λ _, "") 1 JSON (call_kind c) (call_tree c) (call_time c)).
Definition called : NotificationWire (L := ly_ref) :=
  called_back realtime (callback realtime).2 (called_back replay_complete (callback replay_complete).2 callback_start).
Definition read_stream : World :=
  match process 1000 (EventStream.es (nstream called)) with
  | Ok (Written b, s) => mkWorld s (tasks (nstream called)) false false b (accepted (nstream called))
  | _ => nstream called
  end.
Lemma read_step_called : EventStream.step (nstream called) read_stream.
Proof.
  refine (eq_ind _ (EventStream.step (nstream called))
    (step_read (nstream called) 1000 (Written (sent read_stream)) (EventStream.es read_stream) _ _ _ _) _ _);
    vm_compute; reflexivity || discriminate.
Qed.
Definition delivered : NotificationWire (L := ly_ref) := mkWires read_stream (finished called).
Lemma delivered_reachable : rtc nstep callback_start delivered.
Proof.
  eapply rtc_l; [eapply callback_calls, interp_runs|]. eapply rtc_l; [eapply callback_calls, interp_runs|].
  apply rtc_once, callback_moves; [exact read_step_called|]. vm_compute. reflexivity.
Qed.
Lemma notifications_received_witness :
  sse_decode (sent (nstream delivered)) = ["text"] ∧
  sse_decode (sent (nstream delivered)) = chomp <$> omap call_text (finished delivered).
Proof.
  split; [vm_compute; reflexivity|].
  apply (notifications_received (L := ly_ref) (λ _, "") 1 JSON delivered delivered_reachable); [vm_compute; reflexivity|].
  vm_compute. repeat constructor.
Defined.
End NotificationSample.
