(* ===== verification/System.v ===== *)
(** * System: the handlers, the access rules and the subscriptions together

    The parts of the server share two things: whether anonymous access is enabled, which a callback of sysrepo
    changes at any time, and the registry of subscriptions, which RPCs, streams and timers change.  A
    step of the system is one activity of one thread: a report of the access rules, the handler of a request, the
    completion of a body whose request was authorized some time before, or an event of a stream or a timer.  The
    system records every command a session was given, with the request it was for and the reports at the time the
    request was authorized. *)

From S2P Require Import Prelude Exceptions UriTypes Uuid X3 Libyang YangUtils UriRequest HttpUtils DataFormat Nacm Pam HttpAuth DynamicSubscriptions DynamicSubscriptionsFacts Effects Responses Edits Handlers YangSchemaLocations NotificationStream SubscriptionStream Server ServerFacts StatusFacts HandlersFacts ServerAccess SubscriptionRpc SubscriptionRpcFacts PamFacts ServerSample.

Open Scope prog_scope.

(** ** The other handlers: what they access *)

Section handlers.
Context {X : X3} {L : Libyang} {LM : LibyangMore L} {U : UuidLib} {B : Base64}.
Context (ctx : Context) (timeout : N) (ANONYMOUS_USER recoveryUser : string).
Context (pam : UserPass → list (PamCall * PamAnswer) → PamCall → PamAnswer) (pam_strerror : Z → string).
Context (fromYangTimeFormat : string → M Z).
Context (nacm : Nacm) (rq : Request).
Abbreviation ok := (authorized ANONYMOUS_USER pam pam_strerror nacm rq).
Abbreviation awp := (wp view_next any_answer (access_good ok)).

Lemma idle_plainCatch e s :
  awp (plainCatch (L := L) e) (λ _ _, True) s.
Proof.
  assert (∀ p : prog L unit, only idle_cmd p → awp (done p) (λ _ _, True) s) as Hdone.
  { intros p Hp. apply wp_bind. eapply wp_mono; [by apply idle_wp|]. by intros s' []. }
  destruct e; cbn [plainCatch]; try done; [apply Hdone; solve_only|].
  destruct delay; cbn [onAuthError]; [done|]. apply Hdone. solve_only.
Qed.
(** What follows the authorization only reads. *)
Lemma authorized_wp {A} d (p : prog L A) (h : exn → prog L A) s :
  only read_cmd p → (∀ e s, awp (h e) (λ _ _, True) s) →
  awp (prog_try (_ ← call (SrSessionStart d); _ ← authorizeSession ANONYMOUS_USER pam pam_strerror nacm rq; p) h)
    (λ _ _, True) s.
Proof.
  intros Hp Hh. apply wp_try, wp_bind_call. intros x _. split; [done|]. destruct x as [x|e]; [|apply Hh].
  apply wp_bind. eapply wp_mono; [apply authorize_wp|]. intros s' [u|e] H; [|apply Hh].
  eapply wp_mono; [by apply read_wp|]. intros s2 [a|e] _; [done|apply Hh].
Qed.
Lemma read_createStream filter start stop : only read_cmd (createStream (L := L) ctx filter start stop).
Proof. unfold createStream, activateStream, subscribe, activateEventStream. solve_only. Qed.
Lemma read_subscriptionStream : only read_cmd (activateSubscriptionStream (L := L)).
Proof. unfold activateSubscriptionStream, activateEventStream, awaitNextNotification. solve_only. Qed.
Lemma streams_wp w s :
  awp (streamsHandler (L := L) ctx ANONYMOUS_USER recoveryUser pam pam_strerror fromYangTimeFormat nacm rq w) (λ _ _, True) s.
Proof.
  unfold streamsHandler. case_decide.
  - eapply wp_mono; [apply idle_wp|done]. solve_only.
  - apply authorized_wp.
    + apply only_bind; [apply only_lift|]. intros [request|u].
      * apply only_bind; [solve_only|]. intros _. do 3 (apply only_bind; [apply only_lift|intros ?]).
        apply only_bind; [apply read_createStream|done].
      * apply only_bind; [apply only_lift|]. intros w'. apply only_bind; [apply read_subscriptionStream|done].
    + intros e s'. apply wp_bind. eapply wp_mono; [apply idle_plainCatch|]. by intros s2 [].
Qed.
Lemma schema_wp s :
  awp (yangSchemaHandler (L := L) ctx ANONYMOUS_USER pam pam_strerror nacm rq) (λ _ _, True) s.
Proof.
  unfold yangSchemaHandler, done. destruct (_ || _).
  - eapply wp_mono; [apply idle_wp|done]. solve_only.
  - apply authorized_wp; [|apply idle_plainCatch]. unfold hasAccessToYangSchema. solve_only.
Qed.

(** A stream of a subscription is opened for the user of the session, and nothing else happens to the registry. *)
Lemma streams_returns w :
  returns (λ r, r.1 = w ∨ ∃ u, openStream recoveryUser u (sessionUser ANONYMOUS_USER pam pam_strerror nacm rq) w = Ok r.1)
    (streamsHandler (L := L) ctx ANONYMOUS_USER recoveryUser pam pam_strerror fromYangTimeFormat nacm rq w).
Proof.
  unfold streamsHandler. case_decide.
  - apply returns_seq. intros _. apply returns_seq. intros _. by left.
  - apply returns_try; [|intros e; apply returns_seq; intros o; by left].
    do 2 (apply returns_seq; intros _). apply returns_seq. intros [request|u].
    + apply returns_seq. intros _. do 3 (apply returns_seq; intros ?). apply returns_seq. intros _. by left.
    + apply returns_bind, returns_lift. intros w' Hw. apply returns_seq. intros _. right. by exists u.
Qed.
End handlers.

(** ** The system *)

Section system.
Context {X : X3} {L : Libyang} {LM : LibyangMore L} {U : UuidLib} {B : Base64} {T : DataTree}.
Context (ctx : Context) (timeout : N) (ANONYMOUS_USER ANONYMOUS_USER_GROUP recoveryUser : string).
Context (pam : UserPass → list (PamCall * PamAnswer) → PamCall → PamAnswer) (pam_strerror : Z → string).
Context (fromYangTimeFormat : string → M Z) (yangTimeFormat : Z → string).
Context (subscribeNotifications : World → option (string + DataNode) → string → option Z → option Z → M (N * option Z)).

Record Access := mkAccess { request_of : Request; given : list (option Node); view : SessionView; command : Cmd L }.
(** A request whose body is awaited: the rules and reports it was authorized under, its session *)
Record Pending := mkPending {
  pending_request : Request;
  pending_context : RequestContext;
  pending_given : list (option Node);
  pending_nacm : Nacm;
  pending_view : SessionView
}.
(** [running]: no exception has left a handler. *)
Record System := mkSystem {
  reports : list (option Node);
  nacm : Nacm;
  registry : World;
  awaiting : list Pending;
  log : list Access;
  running : bool
}.
Definition system_start : System := mkSystem [] newNacm empty_world [] [] true.

Fixpoint logged (rq : Request) (given : list (option Node)) (v : SessionView) (t : list (Event L)) : list Access :=
  match t with
  | [] => []
  | ev :: t => (let 'Ev c _ := ev in mkAccess rq given v c) :: logged rq given (view_next v ev) t
  end.
Definition returned {A} (r : M A) : bool := is_ok r.

(** [restconfHandler] *)
Definition headers_done (s : System) (rq : Request) (t : list (Event L)) (r : M (Outcome (L := L))) : System :=
  mkSystem (reports s) (nacm s) (registry s)
    (match r with
     | Ok (AwaitBody rc) => awaiting s ++ [mkPending rq rc (reports s) (nacm s) (watch view_next noSession t)]
     | _ => awaiting s
     end)
    (log s ++ logged rq (reports s) noSession t) (returned r).
(** The last chunk of a body: the registry is that of now, the session that of the headers. *)
Definition body_done (s : System) (i : nat) (p : Pending) (t : list (Event L)) (r : M World) : System :=
  mkSystem (reports s) (nacm s) (match r with Ok w => w | Throw _ => registry s end) (delete i (awaiting s))
    (log s ++ logged (pending_request p) (pending_given p) (pending_view p) t) (returned r).
(** An exception that leaves the handler ends the server ([returned]): the registry is not looked at any more. *)
Definition stream_done (s : System) (rq : Request) (t : list (Event L)) (r : M (World * Outcome (L := L))) : System :=
  mkSystem (reports s) (nacm s) (match r with Ok (w, _) => w | Throw _ => registry s end) (awaiting s)
    (log s ++ logged rq (reports s) noSession t) (returned r).
Definition schema_done (s : System) (rq : Request) (t : list (Event L)) (r : M (Outcome (L := L))) : System :=
  mkSystem (reports s) (nacm s) (registry s) (awaiting s) (log s ++ logged rq (reports s) noSession t) (returned r).
Definition with_registry (w : World) (s : System) : System :=
  mkSystem (reports s) (nacm s) w (awaiting s) (log s) (running s).

(** What happens to subscriptions without a request *)
Inductive unasked : World → World → Prop :=
| unasked_close i w : unasked w (closeStream i w)
| unasked_terminate i w : unasked w (terminateStream i w)
| unasked_timer l w : unasked w (timerExpired l w)
| unasked_completed l w : unasked w (waitCompleted l w)
| unasked_stop w : unasked w (DynamicSubscriptions.stop w)
| unasked_stop_time id w : unasked w (mkSubs (m_subscriptions w) (heap w) (streams w) (sr_active w ∖ {[id]})).

Abbreviation receive_of p u :=
  (receive (D := dynamicSubscriptions recoveryUser fromYangTimeFormat yangTimeFormat subscribeNotifications netconfStreamRoot
                   (sessionUser ANONYMOUS_USER pam pam_strerror (pending_nacm p) (pending_request p)) u) ctx timeout).

Inductive system_step (s : System) : System → Prop :=
| system_report data n' :
    running s = true → onModuleChange ANONYMOUS_USER_GROUP data (nacm s) = Ok n' →
    system_step s (mkSystem (data :: reports s) n' (registry s) (awaiting s) (log s) true)
| system_headers rq t r :
    running s = true → runs (restconfHandler ctx timeout ANONYMOUS_USER pam pam_strerror (nacm s) rq) t r →
    system_step s (headers_done s rq t r)
| system_body i p u chunks t r :
    running s = true → awaiting s !! i = Some p → runs (receive_of p u (pending_context p) chunks (registry s)) t r →
    system_step s (body_done s i p t r)
| system_drop i :
    running s = true →
    system_step s (mkSystem (reports s) (nacm s) (registry s) (delete i (awaiting s)) (log s) true)
| system_streams rq t r :
    running s = true →
    runs (streamsHandler ctx ANONYMOUS_USER recoveryUser pam pam_strerror fromYangTimeFormat (nacm s) rq (registry s)) t r →
    system_step s (stream_done s rq t r)
| system_schema rq t r :
    running s = true → runs (yangSchemaHandler ctx ANONYMOUS_USER pam pam_strerror (nacm s) rq) t r →
    system_step s (schema_done s rq t r)
| system_unasked w : running s = true → unasked (registry s) w → system_step s (with_registry w s).

(** ** The invariant *)

(** The user a session may have: verified by PAM for this request, or the anonymous one under rules that
    were valid in the latest of the reports given *)
Definition permitted (rq : Request) (given : list (option Node)) (u : string) : Prop :=
  (pam_verified pam pam_strerror (req_header rq) u ∨
   getHeaderValue (req_header rq) "authorization" = None ∧ u = ANONYMOUS_USER) ∧
  (u = ANONYMOUS_USER → ∃ data before, given = data :: before ∧ validAnonymousNacmRules data ANONYMOUS_USER_GROUP = Ok true).
Definition access_ok (latest : list (option Node)) (a : Access) : Prop :=
  given a `suffix_of` latest ∧
  (accesses (command a) = true → ∃ u, view_user (view a) = Some u ∧ permitted (request_of a) (given a) u) ∧
  (writes (command a) = true → ∃ d, view_ds (view a) = Some d ∧ d ≠ Operational ∧ d ≠ FactoryDefault).
Abbreviation reported := (reported ANONYMOUS_USER_GROUP).
Record pending_ok (latest : list (option Node)) (p : Pending) : Prop := {
  pk_reported : reported (pending_given p) (pending_nacm p);
  pk_suffix : pending_given p `suffix_of` latest;
  pk_ready : ready ANONYMOUS_USER pam pam_strerror (pending_nacm p) (pending_request p) (pending_view p)
               (AwaitBody (pending_context p))
}.
Abbreviation subs_reachable :=
  (DynamicSubscriptionsFacts.reachable recoveryUser fromYangTimeFormat yangTimeFormat subscribeNotifications netconfStreamRoot).
Record system_inv (s : System) : Prop := {
  sy_reported : reported (reports s) (nacm s);
  sy_registry : subs_reachable (registry s);
  sy_awaiting : Forall (pending_ok (reports s)) (awaiting s);
  sy_log : Forall (access_ok (reports s)) (log s)
}.

Lemma authorized_permitted n rq reps u :
  reported reps n → authorized ANONYMOUS_USER pam pam_strerror n rq u → permitted rq reps u.
Proof. intros Hr [He Hu]. split; [exact Hu|]. intros ->. eapply reported_enabled; [exact Hr|auto]. Qed.
Lemma logged_ok n rq reps v t :
  reported reps n → all_good view_next (access_good (authorized ANONYMOUS_USER pam pam_strerror n rq)) v t →
  Forall (access_ok reps) (logged rq reps v t).
Proof.
  intros Hr. revert v. induction t as [|[c x] t IH]; intros v; simpl; [constructor|].
  intros [[Ha Hw] Hg]. constructor; [|by apply IH]. split_and!; cbn [given command view request_of]; [done| |].
  - intros Hc. destruct (Ha Hc) as (u & Hu & Ho). exists u. split; [done|]. by eapply authorized_permitted.
  - intros Hc. destruct (Hw Hc) as (d & Hd & Hwr). exists d. by destruct d.
Qed.
(** A program that may do what its session allows *)
Lemma run_logged {A} n rq reps v (p : prog L A) Q t r :
  reported reps n → wp view_next any_answer (access_good (authorized ANONYMOUS_USER pam pam_strerror n rq)) p Q v →
  runs p t r → Forall (access_ok reps) (logged rq reps v t) ∧ Q (watch view_next v t) r.
Proof.
  intros Hn Hp Hr. destruct (wp_runs _ _ _ _ _ _ _ _ Hp Hr (any_answers v t)) as [Hg HQ]. split; [|done].
  by eapply logged_ok.
Qed.
Lemma access_ok_later l l' a : l `suffix_of` l' → access_ok l a → access_ok l' a.
Proof. intros Hl (Hs & ? & ?). split; [by etransitivity|done]. Qed.
Lemma pending_ok_later l l' p : l `suffix_of` l' → pending_ok l p → pending_ok l' p.
Proof. intros Hl [? ? ?]. split; [done|by etransitivity|done]. Qed.

Context (fresh : fresh_ids subscribeNotifications).
Context (te_subscribe : ∀ w f s a b, throws is_error (subscribeNotifications w f s a b)) (te_time : ∀ s, throws is_error (fromYangTimeFormat s)).

Lemma unasked_reachable w w' : subs_reachable w → unasked w w' → subs_reachable w'.
Proof. intros Hr Hu. eapply rtc_r; [exact Hr|]. destruct Hu; by constructor. Qed.
Lemma registry_receive p u chunks w t w' :
  subs_reachable w → runs (receive_of p u (pending_context p) chunks w) t (Ok w') → subs_reachable w'.
Proof.
  intros Hw Hr. set (usr := sessionUser ANONYMOUS_USER pam pam_strerror (pending_nacm p) (pending_request p)).
  refine (returns_runs subs_reachable _ t w' _ Hr).
  assert (∀ w1, rpc_step recoveryUser fromYangTimeFormat yangTimeFormat subscribeNotifications netconfStreamRoot usr u w w1 →
    subs_reachable w1) as Hs by (intros w1 H1; by eapply rpc_step_reachable).
  apply (receive_returns (D := dynamicSubscriptions _ _ _ _ _ _ _) ctx timeout subs_reachable w); [done| |].
  - intros host format i o. eapply returns_mono; [apply establishRpc_returns|exact Hs].
  - intros host format i o. eapply returns_mono; [apply deleteRpc_returns|exact Hs].
Qed.
Lemma receive_logged latest p u chunks w t r :
  pending_ok latest p → runs (receive_of p u (pending_context p) chunks w) t r →
  Forall (access_ok latest) (logged (pending_request p) (pending_given p) (pending_view p) t).
Proof.
  intros [Hr Hs Hp] Ht. eapply Forall_impl; [|by intros a; apply access_ok_later].
  pose proof (dynamicSubscriptions_laws recoveryUser fromYangTimeFormat yangTimeFormat subscribeNotifications netconfStreamRoot
    (sessionUser ANONYMOUS_USER pam pam_strerror (pending_nacm p) (pending_request p)) u te_subscribe te_time) as HD.
  pose proof (receive_only (HD := HD) ctx timeout (pending_context p) chunks w) as Ho. simpl in Hp.
  refine (proj1 (run_logged _ _ _ _ _ (λ _ _, True) t r Hr _ Ht)). destruct (is_write _).
  - eapply wp_mono; [by apply (write_wp _ _ _ Ho)|done].
  - eapply wp_mono; [by apply (read_wp _ _ _ Ho)|done].
Qed.

Lemma system_step_inv s s' : system_inv s → system_step s s' → system_inv s'.
Proof.
  intros [Hn Hr Ha Hl] Hs. destruct Hs as [data n' _ Hc|rq t r _ Ht|i p u chunks t r _ Hi Ht|i _|rq t r _ Ht|rq t r _ Ht|w _ Hw].
  - assert (reports s `suffix_of` data :: reports s) as Hsuf by (by apply suffix_cons_r). split; cbn.
    + by econstructor.
    + done.
    + eapply Forall_impl; [exact Ha|]. intros p. by apply pending_ok_later.
    + eapply Forall_impl; [exact Hl|]. intros a. by apply access_ok_later.
  - destruct (run_logged (nacm s) rq (reports s) noSession _ _ t r Hn (restconfHandler_ready _ _ _ _ _ _ _ _) Ht) as [Hlog Ho].
    split; cbn; [done|done| |by apply Forall_app].
    destruct r as [[|rc|d q]|e]; try done. apply Forall_app. split; [done|]. constructor; [|done]. by split.
  - split; cbn; [done| |by apply Forall_delete|].
    + destruct r as [w'|e]; [by eapply registry_receive|done].
    + apply Forall_app. split; [done|]. eapply receive_logged; [|exact Ht]. by eapply Forall_lookup_1.
  - split; cbn; [done..|by apply Forall_delete|done].
  - destruct (run_logged (nacm s) rq (reports s) noSession _ _ t r Hn (streams_wp _ _ _ _ _ _ _ _ _ _) Ht) as [Hlog _].
    split; cbn; [done| |done|by apply Forall_app]. destruct r as [[w' o]|e]; [|done].
    destruct (returns_runs _ _ _ _ (streams_returns _ _ _ _ _ _ _ _ _) Ht) as [Hw|[u Hw]]; simpl in Hw; [by subst|].
    eapply rtc_r; [exact Hr|]. by eapply step_open.
  - destruct (run_logged (nacm s) rq (reports s) noSession _ _ t r Hn (schema_wp _ _ _ _ _ _ _) Ht) as [Hlog _].
    split; cbn; [done|done|done|by apply Forall_app].
  - split; cbn; [done|by eapply unasked_reachable|done|done].
Qed.

Lemma system_reachable_inv (s : System) : rtc system_step system_start s → system_inv s.
Proof.
  intros H. assert (system_inv system_start) as Hi by (split; cbn; [constructor|apply rtc_refl|constructor|constructor]).
  induction H; eauto using system_step_inv.
Qed.

(** C5: the server as a whole, with its threads interleaved in any way: access rules are reported while
    requests wait for their bodies, bodies are completed in any order, streams open and close and timers
    expire.  In every state: the subscriptions are consistent; every access to data was made by a session whose user PAM
    verified for the credentials of that very request, or by the anonymous user for a request without credentials while the
    latest report at the time of its authorization was valid; and every write was to a
    writable datastore. *)
Theorem system_safe (s : System) :
  rtc system_step system_start s →
  Inv None (registry s) ∧ Forall (access_ok (reports s)) (log s).
Proof. intros [? ? ? ?]%system_reachable_inv. split; [by eapply Inv_reachable|done]. Qed.

(** ** What one step does to the registry and the reports *)

Abbreviation subs_step :=
  (DynamicSubscriptionsFacts.step recoveryUser fromYangTimeFormat yangTimeFormat subscribeNotifications netconfStreamRoot).
Lemma system_step_registry s s' : system_step s s' → registry s' = registry s ∨ subs_step (registry s) (registry s').
Proof.
  intros Hs. destruct Hs as [data n' _ Hc|rq t r _ Ht|i p u chunks t r _ Hi Ht|i _|rq t r _ Ht|rq t r _ Ht|w _ Hw]; cbn; auto.
  - destruct r as [w'|e]; [|by left].
    set (usr := sessionUser ANONYMOUS_USER pam pam_strerror (pending_nacm p) (pending_request p)).
    assert (∀ w1, rpc_step recoveryUser fromYangTimeFormat yangTimeFormat subscribeNotifications netconfStreamRoot usr u (registry s) w1 →
      w1 = registry s ∨ subs_step (registry s) w1) as Hstep.
    { intros w1 [(host & format & input & out & H)|(input & H)]; right;
        [eapply step_establish; [apply newLocation_fresh|exact H]|eapply step_delete; exact H]. }
    refine (returns_runs (λ w1, w1 = registry s ∨ subs_step (registry s) w1) _ t w' _ Ht).
    apply (receive_returns (D := dynamicSubscriptions _ _ _ _ _ _ _) ctx timeout _ (registry s)); [by left| |].
    + intros host format i' o. eapply returns_mono; [apply establishRpc_returns|exact Hstep].
    + intros host format i' o. eapply returns_mono; [apply deleteRpc_returns|exact Hstep].
  - destruct r as [[w' o]|e]; [|by left].
    destruct (returns_runs _ _ _ _ (streams_returns _ _ _ _ _ _ _ _ _) Ht) as [Hw|[u Hw]]; simpl in Hw; [by left|].
    right. by eapply step_open.
  - right. destruct Hw; by constructor.
Qed.
Lemma system_step_reports s s' : system_step s s' → reports s `suffix_of` reports s'.
Proof. intros []; cbn; try done. by apply suffix_cons_r. Qed.
End system.

(** ** Anonymous access is reported, then a body is awaited and completed *)

Module SystemSample.
Import Example ServerSample NacmSample.
#[local] Existing Instance uuid_ref.

Definition subscribe (w : World) (filter : option (string + @DataNode ly_ref)) (stream : string) (stop start : option Z) : M (N * option Z) :=
  match subscribe_example w filter stream None None with Ok (id, _) => Ok (id, start) | Throw e => Throw e end.
Lemma subscribe_fresh : fresh_ids subscribe.
Proof.
  intros w filter stream stop start id rev. unfold subscribe.
  destruct (subscribe_example w filter stream None None) as [[id' rev']|] eqn:E; [|done]. intros [= <- <-].
  by eapply subscribe_example_fresh.
Qed.
Lemma te_subscribe w f s a b : throws is_error (subscribe w f s a b).
Proof. unfold subscribe, subscribe_example. case_decide; by intros e [= <-]. Qed.
Abbreviation step_ref :=
  (system_step (X := x3_ref) (L := ly_ref) (B := base64_ref) (T := tree_data) (tt : @Context ly_ref) 0 "yangnobody" "yangnobody" "root"
     pam_ref PamSample.strerror (λ _, Ok 0%Z) (λ _, "") subscribe).
Definition enabled_system : System (L := ly_ref) := mkSystem [Some (config [])] (mkNacm true) empty_world [] [] true.
Lemma enabled_reachable : rtc step_ref system_start enabled_system.
Proof.
  apply rtc_once. refine (system_report _ _ _ _ _ _ _ _ _ _ system_start (Some (config [])) (mkNacm true) eq_refl _).
  vm_compute. reflexivity.
Qed.

Definition put_context : RequestContext :=
  mkRequestContext put_request (mkDataEncoding (Some JSON) JSON) (mkRequest CreateOrReplaceThisNode None "/example:top" []) "".
Definition head_run := interp (env None Top) (handler_ref (mkNacm true) put_request).
Lemma head_awaits : head_run.2 = Ok (AwaitBody put_context).
Proof. vm_cast_no_check (eq_refl (Ok (AwaitBody (L := ly_ref) put_context) : M (Outcome (L := ly_ref)))). Qed.
Definition waiting_system : System (L := ly_ref) :=
  headers_done enabled_system put_request head_run.1 (Ok (AwaitBody put_context)).
Definition waiting : Pending :=
  mkPending put_request put_context [Some (config [])] (mkNacm true) (watch view_next noSession head_run.1).

Definition body_run :=
  interp (env None Top)
    (receive (X := x3_ref) (L := ly_ref)
       (D := dynamicSubscriptions (L := ly_ref) "root" (λ _, Ok 0%Z) (λ _, "") subscribe netconfStreamRoot
               (sessionUser (X := x3_ref) (B := base64_ref) "yangnobody" pam_ref PamSample.strerror (mkNacm true) put_request) nil_uuid)
       (tt : @Context ly_ref) 0 put_context ["{"; "}"] (empty_world : World (U := uuid_ref))).
(** The rules are withdrawn before the body is complete. *)
Definition revoked_system : System (L := ly_ref) :=
  mkSystem [None; Some (config [])] (mkNacm false) empty_world [waiting] (log waiting_system) true.
Definition written_system : System (L := ly_ref) := body_done revoked_system 0 waiting body_run.1 body_run.2.

Lemma written_reachable : rtc step_ref system_start written_system.
Proof.
  eapply rtc_r; [eapply rtc_r; [eapply rtc_r; [apply enabled_reachable|]|]|].
  - refine (system_headers _ _ _ _ _ _ _ _ _ _ enabled_system put_request head_run.1 (Ok (AwaitBody put_context)) eq_refl _).
    rewrite <- head_awaits. apply interp_runs.
  - refine (system_report _ _ _ _ _ _ _ _ _ _ waiting_system None (mkNacm false) eq_refl _). vm_compute. reflexivity.
  - refine (system_body _ _ _ _ _ _ _ _ _ _ revoked_system 0 waiting nil_uuid ["{"; "}"] body_run.1 body_run.2 eq_refl eq_refl _).
    apply interp_runs.
Qed.
Definition anonymous_edit (a : Access (L := ly_ref)) : bool :=
  match command a with SrEditBatch _ => bool_decide (view_user (view a) = Some "yangnobody") | _ => false end.
Lemma system_safe_witness :
  existsb anonymous_edit (log written_system) = true ∧
  Inv None (registry written_system) ∧
  Forall (access_ok (T := tree_data) (B := base64_ref) (X := x3_ref) "yangnobody" "yangnobody" pam_ref PamSample.strerror (reports written_system)) (log written_system).
Proof.
  split; [vm_compute; reflexivity|].
  apply (system_safe (X := x3_ref) (L := ly_ref) (B := base64_ref) (T := tree_data) (tt : @Context ly_ref) 0 "yangnobody" "yangnobody" "root"
     pam_ref PamSample.strerror (λ _, Ok 0%Z) (λ _, "") subscribe).
  - apply subscribe_fresh.
  - apply te_subscribe.
  - intros s e [=].
  - apply written_reachable.
Defined.
End SystemSample.
