(* ===== verification/Isolation.v ===== *)
(** * Isolation: who can end a subscription of the whole system

    Over the system of [System]: a registered subscription can leave the registry for the reasons of this file only,
    whatever the other clients, the access rules, the streams and the shutdown do. *)

From S2P Require Import Prelude Exceptions UriTypes Uuid X3 Libyang YangUtils UriRequest HttpUtils DataFormat Nacm Pam HttpAuth DynamicSubscriptions DynamicSubscriptionsFacts Effects Responses Edits Handlers Server ServerFacts StatusFacts ServerAccess SubscriptionRpc SubscriptionRpcFacts System.

Open Scope prog_scope.

Section isolation.
Context {X : X3} {L : Libyang} {LM : LibyangMore L} {U : UuidLib} {B : Base64} {T : DataTree}.
Context (ctx : Context) (timeout : N) (ANONYMOUS_USER ANONYMOUS_USER_GROUP recoveryUser : string).
Context (pam : UserPass → list (PamCall * PamAnswer) → PamCall → PamAnswer) (pam_strerror : Z → string).
Context (fromYangTimeFormat : string → M Z) (yangTimeFormat : Z → string).
Context (subscribeNotifications : World → option (string + DataNode) → string → option Z → option Z → M (N * option Z)).
Abbreviation system_step := (system_step ctx timeout ANONYMOUS_USER ANONYMOUS_USER_GROUP recoveryUser pam pam_strerror
  fromYangTimeFormat yangTimeFormat subscribeNotifications).
Abbreviation system_inv := (system_inv ANONYMOUS_USER ANONYMOUS_USER_GROUP recoveryUser pam pam_strerror
  fromYangTimeFormat yangTimeFormat subscribeNotifications).
Abbreviation permitted := (permitted ANONYMOUS_USER ANONYMOUS_USER_GROUP pam pam_strerror).

Abbreviation pending_user p := (sessionUser ANONYMOUS_USER pam pam_strerror (pending_nacm p) (pending_request p)).

(** The timer of the subscription ran out in an earlier step, when no client was connected. *)
Definition timed_out (s : System (L := L)) (l : loc) (id : N) : Prop :=
  ∃ s1 s2 d1, rtc system_step system_start s1 ∧ system_step s1 s2 ∧ rtc system_step s2 s ∧
    registry s2 = timerExpired l (registry s1) ∧ heap (registry s1) !! l = Some d1 ∧ subscriptionId d1 = id ∧
    timer d1 = Armed true ∧ sub_state d1 ≠ ReceiverActive.

(** Why a subscription leaves the registry in the step from [s] to [s']: the step is the body of a request that deletes or
    kills this very subscription, in a session of the owner or the recovery user; or one that establishes a subscription with the
    same UUID; or the completion of the inactivity timer of this subscription. *)
Inductive Reason (s s' : System (L := L)) (u : uuid) (l : loc) (d : SubscriptionData) : Prop :=
| ended_by_rpc i p t w' usr (input : RpcInput (anydata := DataNode)) :
    awaiting s !! i = Some p → s' = body_done s i p t (Ok w') → pending_user p = Some usr → (usr = user d ∨ usr = recoveryUser) →
    in_id input = subscriptionId d → deleteSubscription recoveryUser (Some usr) input (registry s) = Ok w' →
    Reason s s' u l d
| replaced i p t w' host format input out :
    awaiting s !! i = Some p → s' = body_done s i p t (Ok w') →
    establishSubscription fromYangTimeFormat yangTimeFormat subscribeNotifications netconfStreamRoot u (newLocation (registry s))
      (pending_user p) host format input (registry s) = Ok (w', out) →
    Reason s s' u l d
| inactive rest :
    s' = with_registry (waitCompleted l (registry s)) s → expired d = true :: rest → timed_out s l (subscriptionId d) →
    Reason s s' u l d.

Lemma terminateSubscription_registry id w u l :
  m_subscriptions w !! u = Some l → m_subscriptions (terminateSubscription id w) !! u ≠ Some l →
  ∃ d, heap w !! l = Some d ∧ subscriptionId d = id.
Proof.
  intros Hu. unfold terminateSubscription. destruct (findById id w) as [[v k]|] eqn:E; [|done].
  apply findById_Some in E as (Hv & e & He & Hid). rewrite He. destruct (terminate e (sr_active w)) as [e' a].
  rewrite release_registry. cbn [m_subscriptions]. destruct (decide (v = u)) as [->|Hne]; [|by rewrite lookup_delete_ne].
  intros _. simplify_eq. eauto.
Qed.
Lemma completed_registry k w u l d :
  Inv None w → m_subscriptions w !! u = Some l → heap w !! l = Some d →
  m_subscriptions (waitCompleted k w) !! u ≠ Some l → k = l ∧ ∃ rest, expired d = true :: rest.
Proof.
  intros Hi Hu Hd. unfold waitCompleted. destruct (heap w !! k) as [e|] eqn:He; [|done].
  destruct (expired e) as [|[] rest] eqn:Ee; [done| |done]. cbv zeta. intros Hn.
  apply terminateSubscription_registry in Hn as (d' & Hd' & Hid); [|done]. cbn [heap] in Hd'.
  assert (k = l) as ->.
  { destruct (decide (k = l)) as [|Hne]; [done|]. rewrite lookup_insert_ne in Hd' by done. by eapply (inv_ids _ _ Hi). }
  assert (e = d) as -> by congruence. eauto.
Qed.

Lemma establish_registry v l usr host format input w w' out u :
  establishSubscription fromYangTimeFormat yangTimeFormat subscribeNotifications netconfStreamRoot v l usr host format input w = Ok (w', out) →
  v ≠ u → m_subscriptions w' !! u = m_subscriptions w !! u.
Proof.
  intros (id & fmt & us & ->)%establish_registers Hne.
  unfold register. destruct (m_subscriptions w !! v); rewrite ?release_registry; cbn [m_subscriptions]; by rewrite lookup_insert_ne.
Qed.

Context (fresh : fresh_ids subscribeNotifications).
Context (te_subscribe : ∀ w f s a b, throws is_error (subscribeNotifications w f s a b)) (te_time : ∀ s, throws is_error (fromYangTimeFormat s)).

Lemma registry_inv s : rtc system_step system_start s → Inv None (registry s).
Proof.
  intros Hr. eapply Inv_reachable; [exact fresh|]. eapply sy_registry, system_reachable_inv; [exact te_subscribe|exact te_time|exact Hr].
Qed.
(** Every queued completion with a live object has its history. *)
Lemma expired_timed_out s l d :
  rtc system_step system_start s → heap (registry s) !! l = Some d → true ∈ expired d → timed_out s l (subscriptionId d).
Proof.
  intros Hr0. revert d.
  refine (rtc_ind_r (λ s, ∀ d, heap (registry s) !! l = Some d → true ∈ expired d → timed_out s l (subscriptionId d)) _ _ _ s Hr0);
    [done|]. clear s Hr0. intros s s' Hr Hs IH d Hd Hx.
  assert (∀ d0, heap (registry s) !! l = Some d0 → subscriptionId d = subscriptionId d0 → true ∈ expired d0 →
    timed_out s' l (subscriptionId d)) as Hback.
  { intros d0 Hd0 Hid Hx0. rewrite Hid. destruct (IH d0 Hd0 Hx0) as (s1 & s2 & d1 & ? & ? & ? & ?).
    exists s1, s2, d1. split_and!; try done; by eapply rtc_r || tauto. }
  destruct (system_step_registry _ _ _ _ _ _ _ _ _ _ s s' Hs) as [He|Hstep]; [rewrite He in Hd; by apply (Hback d)|].
  destruct (step_expired _ _ _ _ _ _ _ l d Hstep Hd Hx) as [(d0 & Hd0 & Hid & Hx0)|(Hw & d0 & Hd0 & Hid & Ht)]; [by eapply Hback|].
  exists s, s', d0. split_and!; try done. intros Ha. destruct (inv_active _ _ (registry_inv s Hr) l d0 Hd0 Ha). congruence.
Qed.

(** C12: nobody else ends a subscription.  In any step of the system from any state it can get into: when a subscription leaves
    the registry, the step is an RPC that deletes or kills this very subscription in a session of the user who established it, or of the
    recovery user; or it replaces it by a new one with the same UUID; or it is the completion of the inactivity timer of this
    subscription, which ran out in an earlier step, when no client was connected.  In particular requests of other users, changes
    of the access rules and clients that connect, disconnect or are terminated leave it registered.  A client that connects
    between the expiry and the completion does not save its subscription: the completion is queued with success and
    cancelling the timer has no effect on it ([queued_completion_ends_connected]). *)
Theorem subscription_ends_for_a_reason (s s' : System) (u : uuid) (l : loc) (d : SubscriptionData) :
  rtc system_step system_start s → system_step s s' →
  m_subscriptions (registry s) !! u = Some l → heap (registry s) !! l = Some d →
  m_subscriptions (registry s') !! u ≠ Some l → Reason s s' u l d.
Proof.
  intros Hr Hs Hu Hd Hn. pose proof (registry_inv s Hr) as Hi.
  destruct Hs as [data n' _ Hc|rq t r _ Ht|i p v chunks t r _ Hp Ht|i _|rq t r _ Ht|rq t r _ Ht|w _ Hw]; cbn in Hn; try done.
  - destruct r as [w'|e]; [|done].
    assert (w' = registry s ∨
      rpc_step recoveryUser fromYangTimeFormat yangTimeFormat subscribeNotifications netconfStreamRoot (pending_user p) v (registry s) w')
      as [->|Hstep].
    { refine (returns_runs (λ w1, w1 = registry s ∨ rpc_step _ _ _ _ _ (pending_user p) v (registry s) w1) _ t w' _ Ht).
      apply (receive_returns (D := dynamicSubscriptions _ _ _ _ _ _ _) ctx timeout _ (registry s)); [by left| |].
      + intros host format i' o. eapply returns_mono; [apply establishRpc_returns|by right].
      + intros host format i' o. eapply returns_mono; [apply deleteRpc_returns|by right]. }
    { done. }
    destruct Hstep as [(host & format & input & out & H)|(input & H)].
    + destruct (decide (v = u)) as [->|Hne]; [by eapply replaced|]. destruct Hn.
      by rewrite (establish_registry v _ _ host format input _ w' out u H Hne).
    + pose proof H as Hdel. apply deleteSubscription_Ok in H as (u' & l' & d' & Hu' & Hd' & _ & Hid & Hm & ->); [|done].
      rewrite release_registry in Hn. cbn [m_subscriptions] in Hn.
      destruct (decide (u' = u)) as [->|Hne]; [|by rewrite lookup_delete_ne in Hn].
      assert (l' = l) as -> by congruence. assert (d' = d) as -> by congruence.
      unfold mayUse in Hm. destruct (orb_true_elim _ _ Hm) as [H|H]; apply bool_decide_eq_true in H.
      * rewrite <- H in Hdel. by eapply ended_by_rpc; eauto.
      * rewrite H in Hdel. by eapply ended_by_rpc; eauto.
  - destruct r as [[w' o]|e]; [|done].
    destruct (returns_runs _ _ _ _ (streams_returns _ _ _ _ _ _ _ _ _) Ht) as [Hw|[v Hw]]; simpl in Hw; [by subst|].
    apply openStream_Ok in Hw as (? & ? & _ & _ & _ & _ & ->). done.
  - remember (registry s) as w0 eqn:Hw0. destruct Hw as [i w|i w|k w|k w|w|id w]; try done.
    + destruct Hn. unfold closeStream. destruct (streams w !! i); [|done]. by rewrite release_registry.
    + destruct Hn. unfold terminateStream. destruct (streams w !! i) as [k|]; [|done]. destruct (heap w !! k) as [e|]; [|done].
      by destruct (terminate e (sr_active w)).
    + destruct Hn. unfold timerExpired. destruct (heap w !! k) as [e|]; [|done]. by destruct (timer e).
    + destruct (completed_registry k w u l d Hi Hu Hd Hn) as (-> & rest & Hx). subst w. eapply inactive; [done|exact Hx|].
      apply expired_timed_out; [done|done|]. rewrite Hx. left.
Qed.
End isolation.
