(* ===== verification/Delivery.v ===== *)
(** * Delivery: the whole system with the streams of the subscriptions and what they carry

    [System] knows which subscriptions have a client.  Here each client has its response and its wake-ups
    ([SubscriptionWire]), and each subscription the pipe sysrepo writes to.  A step is a step of the system, or
    a write of sysrepo, or one call of a wake-up, or whatever else a response does; they are interleaved in
    any way, except that a response is not closed in the middle of a wake-up, as both belong to its event loop.
    [subscribers_receive] is what holds in every state, [subscribers_get_everything] what can always be reached. *)

From S2P Require Import Prelude Exceptions UriTypes Uuid X3 UriGrammar Libyang YangUtils UriRequest HttpUtils DataFormat EventStream SubscriptionStream SubscriptionWire Nacm Pam HttpAuth DynamicSubscriptions DynamicSubscriptionsFacts Effects Responses Edits Handlers YangSchemaLocations NotificationStream Server ServerFacts StatusFacts HandlersFacts ServerAccess SubscriptionRpc SubscriptionRpcFacts PamFacts ServerSample SubscriptionSample System Isolation.

Open Scope prog_scope.

(** ** Opening a stream *)

Section opening.
Context {X : X3} {L : Libyang} {LM : LibyangMore L} {U : UuidLib} {B : Base64}.
Context (ctx : Context) (ANONYMOUS_USER recoveryUser : string).
Context (pam : UserPass → list (PamCall * PamAnswer) → PamCall → PamAnswer) (pam_strerror : Z → string).
Context (fromYangTimeFormat : string → M Z) (nacm : Nacm) (rq : Request).
Abbreviation user_of := (sessionUser ANONYMOUS_USER pam pam_strerror nacm rq).
Abbreviation owp := (wp (progress_next (L := L)) unknown_answers (λ _ _, True)).

(** A stream is opened for the authorized user of the session, and then waits for the pipe. *)
Definition opens (w : World) (s : Progress) (r : M (World * Outcome (L := L))) : Prop :=
  match r with
  | Ok (w', _) => w' = w ∨
      ∃ u usr, user_of = Some usr ∧ authorized ANONYMOUS_USER pam pam_strerror nacm rq usr ∧
        openStream recoveryUser u (Some usr) w = Ok w' ∧ s = mkProgress [] true false
  | Throw _ => True
  end.
Lemma wp_any {A} (p : prog L A) (Q : Progress → M A → Prop) s : (∀ s r, Q s r) → owp p Q s.
Proof. intros HQ. revert s. induction p as [a|e|c k IH]; intros s; simpl; [done..|]. intros x _. split; [done|apply IH]. Qed.
Lemma opens_back w {A} (p : prog L A) o s :
  owp (prog_bind p (λ _, Ret (w, o))) (opens w) s.
Proof. apply wp_bind, wp_any. intros s' [a|e]; [by left|done]. Qed.
Lemma streams_open w :
  owp (streamsHandler (L := L) ctx ANONYMOUS_USER recoveryUser pam pam_strerror fromYangTimeFormat nacm rq w) (opens w)
    (mkProgress [] false false).
Proof.
  set (s0 := mkProgress [] false false). unfold streamsHandler. case_decide.
  { apply wp_bind, wp_any. intros s' [a|e]; [|done]. apply opens_back. }
  apply wp_try. eapply (wp_mono _ _ _ _ (λ s r, match r with Ok x => opens w s (Ok x) | Throw _ => True end)).
  2: { intros s [x|e] Hx; [exact Hx|]. apply wp_bind, wp_any. intros s' [a|e']; [by left|done]. }
  apply wp_bind_call. intros x _. split; [done|]. destruct x; [|done]. cbn [progress_next].
  unfold authorizeSession.
  pose proof (authorizeRequest_sound ANONYMOUS_USER pam pam_strerror nacm (mkSession None) (req_header rq)) as Hauth.
  destruct (authorizeRequest _ _ _ _ _ _) as [sess [u|e]] eqn:Ea; [|done]. destruct Hauth as (usr & Hu & Hok). rewrite Hu.
  apply wp_bind_call. intros x _. split; [done|]. destruct x; [|done]. cbn [progress_next].
  apply wp_bind, wp_lift. destruct (asRestconfStreamRequest _ _ _) as [[request|id]|e]; [| |done].
  - apply wp_bind, wp_any. intros ? [?|?]; [|done]. do 3 (apply wp_bind, wp_any; intros ? [?|?]; [|done]).
    apply wp_bind, wp_any. intros ? [?|?]; [by left|done].
  - assert (user_of = Some usr) as Hs by (unfold sessionUser; by rewrite Ea). rewrite Hs.
    apply wp_bind, wp_lift. destruct (openStream recoveryUser id (Some usr) w) as [w'|e] eqn:Eo; [|done].
    unfold activateSubscriptionStream, activateEventStream, awaitNextNotification.
    apply wp_bind, wp_try, wp_bind_assoc. do 2 (apply wp_bind_call; intros x _; split; [done|]; destruct x; [|done]).
    apply wp_call. intros x _. split; [done|]. destruct x; [|done].
    right. exists id, usr. split; [exact Hs|]. split; [exact Hok|]. by split.
Qed.
End opening.

(** ** The system with its clients *)

Section delivery.
Context {X : X3} {L : Libyang} {LM : LibyangMore L} {U : UuidLib} {B : Base64} {T : DataTree}.
Context (ctx : Context) (timeout : N) (ANONYMOUS_USER ANONYMOUS_USER_GROUP recoveryUser : string).
Context (pam : UserPass → list (PamCall * PamAnswer) → PamCall → PamAnswer) (pam_strerror : Z → string).
Context (fromYangTimeFormat : string → M Z) (yangTimeFormat : Z → string).
Context (subscribeNotifications : World → option (string + DataNode) → string → option Z → option Z → M (N * option Z)).
Context (fuel : nat).
Abbreviation system_step := (system_step ctx timeout ANONYMOUS_USER ANONYMOUS_USER_GROUP recoveryUser pam pam_strerror
  fromYangTimeFormat yangTimeFormat subscribeNotifications).
Abbreviation permitted := (permitted ANONYMOUS_USER ANONYMOUS_USER_GROUP pam pam_strerror).
Abbreviation wire_step := (wire_step yangTimeFormat fuel).
Abbreviation wire_inv := (wire_inv yangTimeFormat fuel).
Abbreviation text_of := (text_of yangTimeFormat fuel).

(** [client_given]: the reports of access rules when the request was handled *)
Record Client := mkClient {
  client_request : Request;
  client_given : list (option Node);
  client_user : option string;
  wire : Wire (L := L)
}.
(** [clients] are those of the streams of the registry, in the same order.  [alive]: no exception has left the event loop. *)
Record Delivery := mkDelivery {
  system : System (L := L);
  pipes : gmap loc (Pipe (L := L));
  clients : list Client;
  alive : bool
}.
Definition delivery_start : Delivery := mkDelivery system_start ∅ [] true.

Abbreviation subscriptions D := (registry (system D)).
Definition pipe_of (D : Delivery) (l : loc) : Pipe := default new_pipe (pipes D !! l).
(** A pipe goes with its subscription. *)
Definition kept (w : World) (ps : gmap loc Pipe) : gmap loc Pipe := filter (λ lp, is_Some (heap w !! lp.1)) ps.
Definition with_system (s : System) (cs : list Client) (D : Delivery) : Delivery :=
  mkDelivery s (kept (registry s) (pipes D)) cs (alive D).
Definition with_pipe (l : loc) (p : Pipe) (D : Delivery) : Delivery :=
  mkDelivery (system D) (<[l := p]> (pipes D)) (clients D) (alive D).
Definition with_wire (l : loc) (p : Pipe) (i : nat) (c : Client) (v : Wire) (D : Delivery) : Delivery :=
  mkDelivery (system D) (<[l := p]> (pipes D))
    (<[i := mkClient (client_request c) (client_given c) (client_user c) v]> (clients D)) (alive D).

(** [DynamicSubscriptionHttpStream::create], in the handler of [/streams/] *)
Definition newClient (D : Delivery) (rq : Request) (t : list (Event L)) (l : loc) (d : SubscriptionData) : Client :=
  mkClient rq (reports (system D)) (sessionUser ANONYMOUS_USER pam pam_strerror (nacm (system D)) rq)
    (new_wire (pipe_of D l) (dataFormat d) t).

Inductive delivery_step (D : Delivery) : Delivery → Prop :=
| delivery_serve s' :
    alive D = true → system_step (system D) s' → streams (registry s') = streams (subscriptions D) →
    delivery_step D (with_system s' (clients D) D)
| delivery_open rq t w' o l d :
    alive D = true → running (system D) = true →
    runs (streamsHandler ctx ANONYMOUS_USER recoveryUser pam pam_strerror fromYangTimeFormat (nacm (system D)) rq (subscriptions D))
      t (Ok (w', o)) →
    streams w' = l :: streams (subscriptions D) → heap w' !! l = Some d →
    delivery_step D (with_system (stream_done (system D) rq t (Ok (w', o))) (newClient D rq t l d :: clients D) D)
| delivery_close i c :
    alive D = true → running (system D) = true → clients D !! i = Some c → activity (wire c) = None →
    delivery_step D (with_system (with_registry (closeStream i (subscriptions D)) (system D)) (delete i (clients D)) D)
| delivery_write l d batch :
    alive D = true → heap (subscriptions D) !! l = Some d → subscriptionId d ∈ sr_active (subscriptions D) →
    hung_up (pipe_of D l) = false →
    delivery_step D (with_pipe l (mkPipe (unread (pipe_of D l) ++ [batch]) false (read (pipe_of D l))) D)
| delivery_hangup l d :
    alive D = true → heap (subscriptions D) !! l = Some d → (subscriptionId d ∉ sr_active (subscriptions D)) →
    delivery_step D (with_pipe l (mkPipe (unread (pipe_of D l)) true (read (pipe_of D l))) D)
| delivery_wire l i c p' v' :
    alive D = true → streams (subscriptions D) !! i = Some l → clients D !! i = Some c →
    wire_step (pipe_of D l) (wire c) p' v' →
    delivery_step D (with_wire l p' i c v' D)
| delivery_raise i c e :
    alive D = true → clients D !! i = Some c → activity (wire c) = Some (Raise e) →
    delivery_step D (mkDelivery (system D) (pipes D) (clients D) false).

(** ** The invariant *)

Definition client_ok (D : Delivery) (l : loc) (c : Client) : Prop :=
  ∃ d u, heap (subscriptions D) !! l = Some d ∧ format (wire c) = dataFormat d ∧
    client_user c = Some u ∧ mayUse recoveryUser d (Some u) = true ∧
    client_given c `suffix_of` reports (system D) ∧ permitted (client_request c) (client_given c) u ∧
    wire_inv (pipe_of D l) (wire c).
Record delivery_inv (D : Delivery) : Prop := {
  dl_system : rtc system_step system_start (system D);
  dl_clients : Forall2 (client_ok D) (streams (subscriptions D)) (clients D)
}.

Lemma pipe_kept D s cs l : is_Some (heap (registry s) !! l) → pipe_of (with_system s cs D) l = pipe_of D l.
Proof.
  intros Hl. unfold pipe_of, with_system, kept. cbn [pipes]. destruct (pipes D !! l) as [p|] eqn:E.
  - by rewrite (map_lookup_filter_Some_2 _ _ _ p).
  - rewrite (proj2 (map_lookup_filter_None _ _ _)); [done|]. by left.
Qed.
Lemma pipe_inserted D l p i c v l' : pipe_of (with_wire l p i c v D) l' = if decide (l' = l) then p else pipe_of D l'.
Proof. unfold pipe_of. simpl. case_decide; [subst; by rewrite lookup_insert_eq|by rewrite lookup_insert_ne]. Qed.

Lemma client_ok_mono D D' l c :
  (∀ d, heap (subscriptions D) !! l = Some d → ∃ d', heap (subscriptions D') !! l = Some d' ∧ same_subscription d d') →
  reports (system D) `suffix_of` reports (system D') →
  (is_Some (heap (subscriptions D') !! l) → wire_inv (pipe_of D l) (wire c) → wire_inv (pipe_of D' l) (wire c)) →
  client_ok D l c → client_ok D' l c.
Proof.
  intros Hh Hs Hw (d & u & Hd & Hf & Hu & Hm & Hg & Hp & Hi). destruct (Hh d Hd) as (d' & Hd' & _ & Hf' & _ & Hu').
  exists d', u. split_and!; try done; [congruence| |by etransitivity|apply Hw; eauto].
  unfold mayUse in *. by rewrite Hu'.
Qed.
Lemma clients_mono (P Q : loc → Client → Prop) ls cs :
  Forall2 P ls cs → (∀ l c, l ∈ ls → P l c → Q l c) → Forall2 Q ls cs.
Proof. induction 1 as [|l c ls cs ? ? IH]; intros Himp; constructor; [apply Himp; [left|done]|apply IH; intros; apply Himp; [by right|done]]. Qed.

Context (fresh : fresh_ids subscribeNotifications).
Context (te_subscribe : ∀ w f s a b, throws is_error (subscribeNotifications w f s a b)) (te_time : ∀ s, throws is_error (fromYangTimeFormat s)).

Lemma subscriptions_inv s : rtc system_step system_start s → Inv None (registry s).
Proof. intros H. eapply Inv_reachable; [exact fresh|]. eapply sy_registry, system_reachable_inv; [exact te_subscribe|exact te_time|exact H]. Qed.
(** The system steps; the clients of the streams that stay are as before. *)
Lemma client_ok_step D s' cs l c :
  system_step (system D) s' → l ∈ streams (subscriptions D) → l ∈ streams (registry s') →
  client_ok D l c → client_ok (with_system s' cs D) l c.
Proof.
  intros Hs Hl Hl'. apply client_ok_mono.
  - intros d Hd. simpl. apply system_step_registry in Hs as [->|Hs]; [by exists d|]. by eapply step_same.
  - by eapply system_step_reports.
  - intros Hh. by rewrite pipe_kept.
Qed.

Lemma new_wire_inv p f : wire_inv p (mkWire (length (read p)) f (initial None) (mkProgress [] true false) None).
Proof.
  split; cbn [SubscriptionWire.stream since format progress activity]; try done; [by eexists| |by split; [|left]].
  exists []. rewrite drop_ge by done. split; [done|]. split; [by constructor|]. exists 0. constructor.
Qed.
Lemma newClient_ok D rq t w' o l d :
  rtc system_step system_start (system D) →
  runs (streamsHandler ctx ANONYMOUS_USER recoveryUser pam pam_strerror fromYangTimeFormat (nacm (system D)) rq (subscriptions D))
    t (Ok (w', o)) →
  streams w' = l :: streams (subscriptions D) → heap w' !! l = Some d →
  client_ok (with_system (stream_done (system D) rq t (Ok (w', o))) (newClient D rq t l d :: clients D) D) l (newClient D rq t l d).
Proof.
  intros Hsys Hr Hstr Hd.
  destruct (wp_runs _ _ _ _ _ _ _ _ (streams_open ctx ANONYMOUS_USER recoveryUser pam pam_strerror fromYangTimeFormat
    (nacm (system D)) rq (subscriptions D)) Hr) as [_ Ho].
  { clear. generalize (mkProgress (L := L) [] false false). induction t; [done|]. intros s. by split. }
  destruct Ho as [->|(u & usr & Hu & Ha & Ho & Hs)].
  { apply (f_equal length) in Hstr. simpl in Hstr. lia. }
  apply openStream_Ok in Ho as (l0 & d0 & _ & Hd0 & Hm & _ & ->). simpl in Hstr, Hd. injection Hstr as ->.
  rewrite lookup_insert_eq in Hd. injection Hd as <-.
  exists (clientConnected d0), usr. cbn [system with_system stream_done registry heap reports newClient wire client_user
    client_request client_given format new_wire]. rewrite lookup_insert_eq.
  split_and!; try done.
  - eapply authorized_permitted; [|exact Ha]. by eapply sy_reported, system_reachable_inv.
  - rewrite pipe_kept by (simpl; rewrite lookup_insert_eq; eauto). unfold new_wire. rewrite Hs. apply new_wire_inv.
Qed.

Lemma client_ok_written D l p l' c :
  read p = read (pipe_of D l) → (hung_up (pipe_of D l) = true → hung_up p = true ∧ unread p = unread (pipe_of D l)) →
  client_ok D l' c → client_ok (with_pipe l p D) l' c.
Proof.
  intros Hr Hh. apply client_ok_mono; [by intros d Hd; exists d|done|]. intros _. unfold pipe_of at 2. cbn [with_pipe pipes].
  destruct (decide (l' = l)) as [->|]; [rewrite lookup_insert_eq|by rewrite lookup_insert_ne].
  by apply wire_inv_written.
Qed.
Lemma client_ok_wire D l p i c v l' c' :
  l' ≠ l → client_ok D l' c' → client_ok (with_wire l p i c v D) l' c'.
Proof. intros Hl. apply client_ok_mono; [by intros d Hd; exists d|done|]. intros _. by rewrite pipe_inserted, decide_False. Qed.

Lemma delivery_step_inv D D' : delivery_inv D → delivery_step D D' → delivery_inv D'.
Proof.
  intros [Hsys Hcl] Hs.
  destruct Hs as [s' _ Hs Hstr|rq t w' o l d _ Hrun Hr Hstr Hd|i c _ Hrun Hi _|l d batch _ Hd _ Hh|l d _ Hd _|l i c p' v' _ Hl Hi Hw|i c e _ Hi He].
  - split; [by eapply rtc_r|]. cbn [with_system system clients]. rewrite Hstr. eapply clients_mono; [exact Hcl|].
    intros l c Hl. apply client_ok_step; [done|done|by rewrite Hstr].
  - assert (system_step (system D) (stream_done (system D) rq t (Ok (w', o)))) as Hstep by (by eapply system_streams).
    split; [by eapply rtc_r|]. cbn [with_system system clients stream_done registry]. rewrite Hstr. constructor.
    + by apply newClient_ok.
    + eapply clients_mono; [exact Hcl|]. intros k c Hk. apply client_ok_step; [exact Hstep|done|].
      cbn [stream_done registry]. rewrite Hstr. by right.
  - assert (system_step (system D) (with_registry (closeStream i (subscriptions D)) (system D))) as Hstep
      by (apply system_unasked; [done|constructor]).
    split; [by eapply rtc_r|]. cbn [with_system system clients with_registry registry].
    destruct (Forall2_lookup_r _ _ _ _ _ Hcl Hi) as (l & Hl & _).
    assert (streams (closeStream i (subscriptions D)) = delete i (streams (subscriptions D))) as Hstr
      by (unfold closeStream; rewrite Hl; apply release_streams).
    rewrite Hstr. eapply clients_mono; [by apply Forall2_delete|]. intros k c' Hk. apply client_ok_step; [exact Hstep| |].
    + by eapply list_elem_of_delete_inv.
    + cbn [with_registry registry]. by rewrite Hstr.
  - split; [done|]. eapply clients_mono; [exact Hcl|]. intros k c _. apply client_ok_written; [done|]. by rewrite Hh.
  - split; [done|]. eapply clients_mono; [exact Hcl|]. intros k c _. by apply client_ok_written.
  - split; [done|]. cbn [with_wire system clients]. apply Forall2_same_length_lookup in Hcl as [Hlen Hcl].
    apply Forall2_same_length_lookup. split; [by rewrite length_insert|]. intros j k c' Hk Hc'.
    pose proof (inv_nodup _ _ (subscriptions_inv _ Hsys)) as Hnd.
    destruct (decide (j = i)) as [->|Hne].
    + rewrite list_lookup_insert_eq in Hc' by (by eapply lookup_lt_Some). simplify_eq.
      destruct (Hcl i l c Hl Hi) as (d & u & Hd & Hf & Hu & Hm & Hg & Hp & Hv).
      exists d, u. cbn [client_request client_given client_user wire with_wire system].
      assert (format v' = format (wire c)) as -> by (by destruct Hw).
      split_and!; try done. rewrite pipe_inserted, decide_True by done. by eapply wire_step_inv.
    + rewrite list_lookup_insert_ne in Hc' by done. apply client_ok_wire; [|by eapply Hcl].
      intros ->. by apply Hne, (NoDup_lookup _ j i l Hnd).
  - split; [done|]. eapply clients_mono; [exact Hcl|]. intros k c' _. by apply client_ok_mono; [intros d Hd; exists d|..].
Qed.

Lemma delivery_reachable_inv D : rtc delivery_step delivery_start D → delivery_inv D.
Proof.
  intros H. assert (delivery_inv delivery_start) as Hi by (split; [apply rtc_refl|constructor]).
  induction H; eauto using delivery_step_inv.
Qed.

(** What a client has got: the texts of notifications, as an event stream is decoded *)
Definition received (f : DataFormat) (n : option DataNode * Z) (s : string) : Prop := ∃ text, text_of f n text ∧ s = chomp text.

(** C6: what the clients of subscriptions get, from the credentials to the bytes.  In every state of the system, for every open
    stream of a subscription: its user is the one who established the subscription, or the recovery user, and was
    authorized for the request that opened the stream; no other stream takes from the same subscription; the messages queued are
    the texts, in the encoding of the subscription, of the notifications taken from its pipe since the stream was
    opened, in order and each once, all of them while the stream accepts events; what has been sent is a
    prefix of these; when the response waits and no wake-up is in progress, what the client decodes is exactly
    the notifications taken; and no wake-up is lost: a stream at rest has been asked to be called back, or the pipe is empty and
    sysrepo has closed it. *)
Theorem subscribers_receive (D : Delivery) (i : nat) (l : loc) (c : Client) :
  rtc delivery_step delivery_start D → streams (subscriptions D) !! i = Some l → clients D !! i = Some c →
  let v := wire c in let w := SubscriptionWire.stream v in let taken := drop (since v) (read (pipe_of D l)) in
  ∃ d u, heap (subscriptions D) !! l = Some d ∧
    (client_user c = Some u ∧ (u = user d ∨ u = recoveryUser) ∧
     client_given c `suffix_of` reports (system D) ∧ permitted (client_request c) (client_given c) u) ∧
    (∀ j, streams (subscriptions D) !! j = Some l → j = i) ∧
    (∃ given, taken = given ++ pending (progress v) ∧
       (accepts (es w) = true → Forall2 (text_of (dataFormat d)) given (messages w)) ∧
       ∃ k, Forall2 (text_of (dataFormat d)) (take k given) (messages w)) ∧
    (∃ rest, sent w +:+ rest = str_concat (item_event <$> accepted w)) ∧
    (activity v = None → EventStream.state (es w) = WaitingForEvents → Forall item_no_cr (accepted w) →
       Forall2 (received (dataFormat d)) taken (sse_decode (sent w))) ∧
    (activity v = None → pending (progress v) = [] ∧
       (waiting (progress v) = true ∨ hung_up (pipe_of D l) = true ∧ unread (pipe_of D l) = [])).
Proof.
  intros [Hsys Hcl]%delivery_reachable_inv Hl Hc. cbv zeta. apply Forall2_same_length_lookup in Hcl as [_ Hcl].
  destruct (Hcl i l c Hl Hc) as (d & u & Hd & Hf & Hu & Hm & Hg & Hp & [H1 H2 H3 H4 H5 H6]). rewrite Hf in *.
  exists d, u. split; [done|]. split; [|split; [|split; [done|split; [by apply sent_prefix|split]]]].
  - split_and!; try done. unfold mayUse in Hm. apply orb_true_iff in Hm as [Hm|Hm]; apply bool_decide_eq_true in Hm;
      injection Hm; auto.
  - intros j Hj. by apply (NoDup_lookup _ j i l (inv_nodup _ _ (subscriptions_inv _ Hsys))).
  - intros Ha Hs Hcr. rewrite Ha in H6. destruct H6 as [Hpe _]. destruct H4 as (given & Ht & Ho & _).
    rewrite Ht, Hpe, app_nil_r. destruct (waiting_sent _ H1 Hs) as [_ ->]; [|done].
    apply Forall2_fmap_r. eapply Forall2_impl; [apply Ho; unfold accepts; by rewrite Hs|].
    intros n text Hn. by exists text.
  - intros Ha. rewrite Ha in H6. destruct H6 as [Hpe [Hw|He]]; split; auto.
Qed.

(** ** Runs of one stream *)

Abbreviation both_step := (both_step yangTimeFormat fuel).
Lemma delivery_runs D i l c a :
  rtc both_step (pipe_of D l, wire c) a →
  alive D = true → streams (subscriptions D) !! i = Some l → clients D !! i = Some c →
  ∃ D', rtc delivery_step D D' ∧ system D' = system D ∧ pipe_of D' l = a.1 ∧
    clients D' !! i = Some (mkClient (client_request c) (client_given c) (client_user c) a.2).
Proof.
  intros Hr Ha Hl Hc. remember (pipe_of D l, wire c) as b eqn:Hb. revert D c Hb Ha Hc Hl.
  induction Hr as [b|b b1 a Hs _ IH]; intros D c -> Ha Hc Hl.
  - exists D. destruct c. split; [apply rtc_refl|done].
  - destruct (IH (with_wire l b1.1 i c b1.2 D) (mkClient (client_request c) (client_given c) (client_user c) b1.2))
      as (D' & HD & Hsys & Hp & Hcl); try done.
    + rewrite pipe_inserted, decide_True by done. by destruct b1.
    + cbn. apply list_lookup_insert_eq. by eapply lookup_lt_Some.
    + exists D'. split; [|done]. eapply rtc_l; [|exact HD]. by eapply delivery_wire.
Qed.

(** The environment answers well: signals and waiting do not fail, and libyang wraps what is in the pipe. *)
Context (env : ∀ c : Cmd L, M (Answer c)) (env_signal : ∀ s, env (SignalEvent s) = Ok tt) (env_wait : env AsyncWait = Ok tt).

(** C7: everything sysrepo writes can get to the client.  From any state of the system, for an open stream at rest: if libyang
    wraps the notifications in the pipe, then the wake-ups, the tasks of the event loop and the reads of this response alone, with
    everything else standing still, lead to a state where the pipe is empty and the client decodes all the notifications since
    it connected, those that were still in the pipe included. *)
Theorem subscribers_get_everything (D : Delivery) (i : nat) (l : loc) (c : Client) :
  rtc delivery_step delivery_start D → alive D = true → streams (subscriptions D) !! i = Some l → clients D !! i = Some c →
  activity (wire c) = None → accepts (es (SubscriptionWire.stream (wire c))) = true →
  Forall (Forall (wraps yangTimeFormat fuel env (format (wire c)))) (unread (pipe_of D l)) →
  ∃ D' c', rtc delivery_step D D' ∧ system D' = system D ∧ clients D' !! i = Some c' ∧ unread (pipe_of D' l) = [] ∧
    let w' := SubscriptionWire.stream (wire c') in
    EventStream.state (es w') = WaitingForEvents ∧
    (Forall item_no_cr (accepted w') →
       Forall2 (received (format (wire c)))
         (drop (since (wire c)) (read (pipe_of D l)) ++ concat (unread (pipe_of D l))) (sse_decode (sent w'))).
Proof.
  intros Hr Ha Hl Hc Hact Hacc Hwr. pose proof (delivery_reachable_inv D Hr) as [Hsys Hcl].
  apply Forall2_same_length_lookup in Hcl as [_ Hcl]. destruct (Hcl i l c Hl Hc) as (d & u & _ & _ & _ & _ & _ & _ & Hv).
  pose proof (wi_activity _ _ _ _ Hv) as Hfin. rewrite Hact in Hfin. destruct Hfin as [Hpe Hw].
  assert (∃ p' v', rtc both_step (pipe_of D l, wire c) (p', v') ∧ activity v' = None ∧ pending (progress v') = [] ∧
    unread p' = [] ∧ read p' = read (pipe_of D l) ++ concat (unread (pipe_of D l)) ∧ since v' = since (wire c) ∧
    format v' = format (wire c) ∧ accepts (es (SubscriptionWire.stream v')) = accepts (es (SubscriptionWire.stream (wire c))))
    as (p' & v' & Hruns & Hact' & Hpe' & Hu' & Hrd & Hsi & Hfo & Hacc').
  { destruct Hw as [Hw|He]; [by apply (wire_drains yangTimeFormat fuel env)|].
    destruct (wi_ended _ _ _ _ Hv He) as [_ Hu]. exists (pipe_of D l), (wire c). rewrite Hu. simpl. rewrite app_nil_r. by split; [apply rtc_refl|]. }
  assert (∀ a, rtc both_step (pipe_of D l, wire c) a → wire_inv a.1 a.2) as Hinv.
  { intros a Hs. by apply (both_steps_inv yangTimeFormat fuel _ _ Hs). }
  destruct (stream_drains (SubscriptionWire.stream v')) as (w' & Hs & Hst & Hea); [apply (Hinv _ Hruns)|by rewrite Hacc'|].
  assert (rtc both_step (pipe_of D l, wire c) (p', wired v' w' (progress v') (activity v'))) as Hall.
  { etransitivity; [exact Hruns|]. apply moves_both. apply steps_moves; [done|done|by rewrite Hst]. }
  destruct (delivery_runs D i l c _ Hall Ha Hl Hc) as (D' & HD & Hsys' & Hp & Hc').
  exists D', (mkClient (client_request c) (client_given c) (client_user c) (wired v' w' (progress v') (activity v'))).
  cbv zeta. split_and!; [done|done|done|by rewrite Hp|done|]. cbn [wire SubscriptionWire.stream wired]. intros Hcr.
  destruct (Hinv _ Hall) as [H1 H2 _ (given & Hg & Ho & _) _ _].
  cbn [fst snd SubscriptionWire.stream since format progress wired] in *. rewrite Hpe', app_nil_r in Hg.
  destruct (waiting_sent _ H1 Hst) as [_ ->]; [|done]. rewrite <- Hfo, <- Hsi, <- drop_app_le, <- Hrd, Hg by (rewrite Hsi; apply Hv).
  apply Forall2_fmap_r. eapply Forall2_impl; [apply Ho; unfold accepts; by rewrite Hst|].
  intros n text Hn. by exists text.
Qed.
End delivery.

(** ** A subscription is established and a client gets a notification *)

Module DeliverySample.
Import Example ServerSample NacmSample SystemSample.
#[local] Existing Instance uuid_ref.

Abbreviation dstep :=
  (delivery_step (X := x3_ref) (L := ly_ref) (B := base64_ref) (T := tree_data) (tt : @Context ly_ref) 0 "yangnobody" "yangnobody" "root"
     pam_ref PamSample.strerror (λ _, Ok 0%Z) (λ _, "") subscribe 1).
Abbreviation tree_env := SubscriptionSample.tree_env.
Abbreviation establish_request := SubscriptionSample.establish_request.
Abbreviation new_uuid := SubscriptionSample.new_uuid.
Definition enabled_nacm : Nacm := mkNacm true.

Definition head_done := interp tree_env (handler_ref enabled_nacm establish_request).
Definition establish_context : RequestContext :=
  match head_done.2 with Ok (AwaitBody rc) => rc | _ => put_context end.
Lemma head_result : head_done.2 = Ok (AwaitBody establish_context).
Proof.
  assert (match head_done.2 with Ok (AwaitBody _) => true | _ => false end = true) as H by (vm_compute; reflexivity).
  unfold establish_context. by destruct head_done.2 as [[]|].
Qed.
Definition s2 : System (L := ly_ref) := headers_done enabled_system establish_request head_done.1 (Ok (AwaitBody establish_context)).
Definition p2 : Pending :=
  mkPending establish_request establish_context [Some (config [])] enabled_nacm (watch view_next noSession head_done.1).
Definition body_done_run :=
  interp tree_env
    (receive (X := x3_ref) (L := ly_ref)
       (D := dynamicSubscriptions (L := ly_ref) "root" (λ _, Ok 0%Z) (λ _, "") subscribe netconfStreamRoot
               (sessionUser (X := x3_ref) (B := base64_ref) "yangnobody" pam_ref PamSample.strerror enabled_nacm establish_request) new_uuid)
       (tt : @Context ly_ref) 0 establish_context ["{}"] (empty_world : World (U := uuid_ref))).
Definition subscribed_world : World := match body_done_run.2 with Ok w => w | Throw _ => empty_world end.
Definition s3 : System (L := ly_ref) := body_done s2 0 p2 body_done_run.1 body_done_run.2.
Example subscribed : streams subscribed_world = [] ∧ m_subscriptions subscribed_world !! new_uuid = Some 0.
Proof. split; vm_compute; reflexivity. Qed.

Definition D1 : Delivery := with_system enabled_system [] delivery_start.
Definition D2 : Delivery := with_system s2 [] D1.
Definition D3 : Delivery := with_system s3 [] D2.
Lemma D3_reachable : rtc dstep delivery_start D3.
Proof.
  eapply rtc_r; [eapply rtc_r; [apply rtc_once|]|].
  - refine (delivery_serve _ _ _ _ _ _ _ _ _ _ _ delivery_start enabled_system eq_refl _ eq_refl).
    refine (system_report _ _ _ _ _ _ _ _ _ _ system_start (Some (config [])) enabled_nacm eq_refl _).
    vm_compute. reflexivity.
  - refine (delivery_serve _ _ _ _ _ _ _ _ _ _ _ D1 s2 eq_refl _ eq_refl).
    refine (system_headers _ _ _ _ _ _ _ _ _ _ enabled_system establish_request head_done.1 (Ok (AwaitBody establish_context)) eq_refl _).
    rewrite <- head_result. apply interp_runs.
  - refine (delivery_serve _ _ _ _ _ _ _ _ _ _ _ D2 s3 eq_refl _ _).
    + refine (system_body _ _ _ _ _ _ _ _ _ _ s2 0 p2 new_uuid ["{}"] body_done_run.1 body_done_run.2 eq_refl eq_refl _).
      apply interp_runs.
    + vm_compute. reflexivity.
Qed.

Definition stream_request : Request :=
  let path := "/streams/subscribed/10000000-0000-0000-0000-000000000000" in mkReq "GET" path path "" [].
Definition open_run :=
  interp tree_env (streamsHandler (X := x3_ref) (L := ly_ref) (B := base64_ref) (tt : @Context ly_ref) "yangnobody" "root" pam_ref
    PamSample.strerror (λ _, Ok 0%Z) enabled_nacm stream_request (registry s3)).
Definition open_world : World := match open_run.2 with Ok (w, _) => w | Throw _ => empty_world end.
Definition open_outcome : Outcome (L := ly_ref) := match open_run.2 with Ok (_, o) => o | Throw _ => Done end.
Lemma open_result : open_run.2 = Ok (open_world, open_outcome).
Proof.
  assert (is_ok open_run.2 = true) as H by (vm_compute; reflexivity).
  unfold open_world, open_outcome. by destruct open_run.2 as [[]|].
Qed.
Definition open_sub : SubscriptionData := default (newSubscriptionData 0 JSON new_uuid "") (heap open_world !! 0).
Lemma open_sub_result : heap open_world !! 0 = Some open_sub.
Proof.
  assert (match heap open_world !! 0 with Some _ => true | None => false end = true) as H by (vm_compute; reflexivity).
  unfold open_sub. by destruct (heap open_world !! 0).
Qed.
Definition first_client : Client :=
  newClient (X := x3_ref) (B := base64_ref) "yangnobody" pam_ref PamSample.strerror D3 stream_request open_run.1 0 open_sub.
Definition D4 : Delivery :=
  with_system (stream_done s3 stream_request open_run.1 (Ok (open_world, open_outcome))) [first_client] D3.
Lemma D4_reachable : rtc dstep delivery_start D4.
Proof.
  eapply rtc_r; [apply D3_reachable|].
  refine (delivery_open _ _ _ _ _ _ _ _ _ _ _ D3 stream_request open_run.1 open_world open_outcome 0 open_sub eq_refl _ _ _ _).
  - vm_compute. reflexivity.
  - rewrite <- open_result. apply interp_runs.
  - vm_compute. reflexivity.
  - exact open_sub_result.
Qed.

Definition notification : option (@DataNode ly_ref) * Z := (Some Establish, 0%Z).
Definition full_pipe : Pipe (L := ly_ref) := mkPipe [[notification]] false [].
Definition D5 : Delivery := with_pipe 0 full_pipe D4.
Lemma D5_reachable : rtc dstep delivery_start D5.
Proof.
  eapply rtc_r; [apply D4_reachable|].
  refine (delivery_write _ _ _ _ _ _ _ _ _ _ _ D4 0 open_sub [notification] eq_refl _ _ _).
  - exact open_sub_result.
  - assert (bool_decide (subscriptionId open_sub ∈ sr_active (registry (system D4))) = true) as H by (vm_compute; reflexivity).
    by apply bool_decide_eq_true in H.
  - vm_compute. reflexivity.
Qed.

(** The wake-up, and a read of the response *)
Definition awake_run :=
  perform tree_env (onReadable (L := ly_ref) (λ _, "") 1 JSON false) full_pipe (SubscriptionWire.stream (wire first_client))
    (mkProgress [] false false).
Definition awake : Pipe * Wire :=
  (awake_run.2.1.1, wired (wire first_client) awake_run.2.1.2 awake_run.2.2 None).
Definition read_all (w : EventStream.World) : EventStream.World :=
  match process 1000 (es w) with
  | Ok (Written b, s) => EventStream.mkWorld s (tasks w) false false (sent w +:+ b) (accepted w)
  | _ => w
  end.
Definition got : Wire :=
  wired awake.2 (read_all (SubscriptionWire.stream awake.2)) (progress awake.2) (activity awake.2).
Abbreviation full_stream := (SubscriptionWire.stream awake.2).
Lemma read_moves : stream_moves full_stream (read_all full_stream).
Proof.
  split; [|split; [vm_compute; reflexivity|vm_compute; discriminate]].
  refine (eq_ind _ (EventStream.step full_stream)
    (step_read full_stream 1000 (Written (sent (read_all full_stream))) (es (read_all full_stream)) _ _ _ _) _ _);
    vm_compute; reflexivity || discriminate.
Qed.
Lemma first_progress : progress (wire first_client) = mkProgress [] true false.
Proof. vm_compute. reflexivity. Qed.
Lemma first_format : format (wire first_client) = JSON.
Proof. vm_compute. reflexivity. Qed.
Lemma awake_result : awake_run = (Ok tt, (awake_run.2.1.1, awake_run.2.1.2, awake_run.2.2)).
Proof.
  assert (is_ok awake_run.1 = true) as H by (vm_compute; reflexivity).
  destruct awake_run as [[[]|e] [[p w] s]]; [reflexivity|discriminate H].
Qed.
Lemma awake_runs : rtc (both_step (λ _, "") 1) (full_pipe, wire first_client) (awake.1, got).
Proof.
  etransitivity.
  - apply (wake_runs (λ _, "") 1 tree_env full_pipe (wire first_client) awake.1 awake_run.2.1.2 awake_run.2.2 eq_refl).
    + by rewrite first_progress.
    + rewrite first_progress, first_format. exact awake_result.
  - apply (moves_both (λ _, "") 1 awake.1 awake.2). apply rtc_once. exact read_moves.
Qed.

Definition last_client : Client :=
  mkClient (client_request first_client) (client_given first_client) (client_user first_client) got.
Lemma no_throw : ∀ s : string, throws is_error (Ok 0%Z : M Z).
Proof. intros s e [=]. Qed.
Lemma subscribers_receive_witness :
  ∃ D c, rtc dstep delivery_start D ∧ clients D !! 0 = Some c ∧ sse_decode (sent (SubscriptionWire.stream (wire c))) = ["text"] ∧
    ∃ d, Forall2 (received (L := ly_ref) (λ _, "") 1 (DynamicSubscriptions.dataFormat d)) [notification]
           (sse_decode (sent (SubscriptionWire.stream (wire c)))).
Proof.
  destruct (delivery_runs (X := x3_ref) (L := ly_ref) (B := base64_ref) (T := tree_data) (tt : @Context ly_ref) 0 "yangnobody" "yangnobody" "root"
     pam_ref PamSample.strerror (λ _, Ok 0%Z) (λ _, "") subscribe 1 D5 0 0 first_client (awake.1, got)) as (D & HD & Hs & Hp & Hc).
  - exact awake_runs.
  - reflexivity.
  - vm_compute. reflexivity.
  - reflexivity.
  - exists D, last_client. assert (rtc dstep delivery_start D) as Hr by (etransitivity; [apply D5_reachable|exact HD]).
    assert (streams (registry (system D)) !! 0 = Some 0) as Hl by (rewrite Hs; vm_compute; reflexivity).
    split; [exact Hr|]. split; [exact Hc|]. split; [vm_compute; reflexivity|].
    destruct (subscribers_receive (X := x3_ref) (L := ly_ref) (B := base64_ref) (T := tree_data) (tt : @Context ly_ref) 0 "yangnobody" "yangnobody" "root"
      pam_ref PamSample.strerror (λ _, Ok 0%Z) (λ _, "") subscribe 1 subscribe_fresh te_subscribe no_throw
      D 0 0 last_client Hr Hl Hc) as (d & u & _ & _ & _ & _ & _ & Hd & _).
    exists d. rewrite Hp in Hd. apply Hd; vm_compute; first [reflexivity|repeat constructor].
Defined.

Lemma full_pipe_wraps :
  Forall (Forall (wraps (L := ly_ref) (λ _, "") 1 tree_env (format (wire first_client)))) (unread (pipe_of D5 0)).
Proof.
  assert (pipe_of D5 0 = full_pipe) as -> by (vm_compute; reflexivity). rewrite first_format.
  repeat constructor. exists Establish, "text". split; [reflexivity|]. vm_compute. reflexivity.
Qed.
Lemma subscribers_get_everything_witness :
  ∃ D' c', rtc dstep D5 D' ∧ clients D' !! 0 = Some c' ∧ unread (pipe_of D' 0) = [] ∧
    EventStream.state (es (SubscriptionWire.stream (wire c'))) = WaitingForEvents.
Proof.
  destruct (subscribers_get_everything (X := x3_ref) (L := ly_ref) (B := base64_ref) (T := tree_data) (tt : @Context ly_ref) 0
    "yangnobody" "yangnobody" "root" pam_ref PamSample.strerror (λ _, Ok 0%Z) (λ _, "") subscribe 1 subscribe_fresh te_subscribe no_throw
    tree_env (λ _, eq_refl) eq_refl D5 0 0 first_client D5_reachable) as (D' & c' & HD & _ & Hc & Hu & Hs & _).
  - vm_compute. reflexivity.
  - vm_compute. reflexivity.
  - reflexivity.
  - reflexivity.
  - vm_compute. reflexivity.
  - exact full_pipe_wraps.
  - exists D', c'. by split_and!.
Defined.

(** ** The client goes, and the subscription ends by inactivity *)

Definition s4 : System (L := ly_ref) := stream_done s3 stream_request open_run.1 (Ok (open_world, open_outcome)).
Definition s5 : System (L := ly_ref) := with_registry (closeStream 0 (registry s4)) s4.
Definition s6 : System (L := ly_ref) := with_registry (timerExpired 0 (registry s5)) s5.
Definition s7 : System (L := ly_ref) := with_registry (waitCompleted 0 (registry s6)) s6.
Abbreviation sstep := step_ref.
Lemma s5_reachable : rtc sstep system_start s5.
Proof.
  eapply rtc_r; [eapply rtc_r; [eapply rtc_r; [eapply rtc_r; [apply enabled_reachable|]|]|]|].
  - refine (system_headers _ _ _ _ _ _ _ _ _ _ enabled_system establish_request head_done.1 (Ok (AwaitBody establish_context)) eq_refl _).
    rewrite <- head_result. apply interp_runs.
  - refine (system_body _ _ _ _ _ _ _ _ _ _ s2 0 p2 new_uuid ["{}"] body_done_run.1 body_done_run.2 eq_refl eq_refl _).
    apply interp_runs.
  - refine (system_streams _ _ _ _ _ _ _ _ _ _ s3 stream_request open_run.1 (Ok (open_world, open_outcome)) _ _).
    + vm_compute. reflexivity.
    + rewrite <- open_result. apply interp_runs.
  - refine (system_unasked _ _ _ _ _ _ _ _ _ _ s4 (closeStream 0 (registry s4)) eq_refl (unasked_close 0 _)).
Qed.
Lemma s6_reachable : rtc sstep system_start s6.
Proof.
  eapply rtc_r; [exact s5_reachable|].
  refine (system_unasked _ _ _ _ _ _ _ _ _ _ s5 (timerExpired 0 (registry s5)) _ (unasked_timer 0 _)). vm_compute. reflexivity.
Qed.
Definition left_sub : SubscriptionData := default open_sub (heap (registry s6) !! 0).
Lemma left_sub_result : heap (registry s6) !! 0 = Some left_sub.
Proof.
  assert (match heap (registry s6) !! 0 with Some _ => true | None => false end = true) as H by (vm_compute; reflexivity).
  unfold left_sub. by destruct (heap (registry s6) !! 0).
Qed.
Lemma subscription_ends_for_a_reason_witness :
  m_subscriptions (registry s6) !! new_uuid = Some 0 ∧ m_subscriptions (registry s7) !! new_uuid = None ∧
  Reason (X := x3_ref) (L := ly_ref) (B := base64_ref) (T := tree_data) (tt : @Context ly_ref) 0 "yangnobody" "yangnobody" "root"
    pam_ref PamSample.strerror (λ _, Ok 0%Z) (λ _, "") subscribe s6 s7 new_uuid 0 left_sub.
Proof.
  split; [vm_compute; reflexivity|]. split; [vm_compute; reflexivity|].
  apply (subscription_ends_for_a_reason (X := x3_ref) (L := ly_ref) (B := base64_ref) (T := tree_data) (tt : @Context ly_ref) 0
    "yangnobody" "yangnobody" "root" pam_ref PamSample.strerror (λ _, Ok 0%Z) (λ _, "") subscribe subscribe_fresh te_subscribe no_throw
    s6 s7 new_uuid 0 left_sub).
  - exact s6_reachable.
  - refine (system_unasked _ _ _ _ _ _ _ _ _ _ s6 (waitCompleted 0 (registry s6)) _ (unasked_completed 0 _)). vm_compute. reflexivity.
  - vm_compute. reflexivity.
  - exact left_sub_result.
  - assert (m_subscriptions (registry s7) !! new_uuid = None) as -> by (vm_compute; reflexivity). discriminate.
Defined.
End DeliverySample.
