(* ===== verification/StreamSample.v ===== *)
(** * StreamSample: published locations, notifications and query parameters on concrete inputs

    Over the sample schema of [Libyang]: a module entry and a list of streams whose locations are
    published, a notification nested two levels deep that is wrapped, a stream that is opened, the
    attributes of a change, and a request with an [insert] position. *)

From S2P Require Import Prelude Exceptions UriTypes Uuid X3 UriPathFacts Libyang YangUtils UriRequest DataFormat Effects Edits YangSchemaLocations NotificationStream SrEvents NotificationFacts Links Server ServerSample RequestTypes.

Open Scope prog_scope.

Module StreamSample.
Import Example ServerSample.
#[local] Existing Instance uuid_ref.

Abbreviation ref_env := (env (Some Top) Top).

(** ** Attributes of a change: only an operation and an origin to be removed *)
Definition empty_operation : Meta (L := ly_ref) := mkMeta (L := ly_ref) false "sysrepo" "operation" "none".
Definition unknown_origin : Meta (L := ly_ref) := mkMeta (L := ly_ref) false "ietf-origin" "origin" "ietf-origin:unknown".
Definition real_operation : Meta (L := ly_ref) := mkMeta (L := ly_ref) false "sysrepo" "operation" "create".

Lemma removeEmpty_terminates_witness :
  (interp ref_env (removeEmpty (L := ly_ref) 3 Top [empty_operation; unknown_origin] 0)).2 = Ok [] ∧
  (interp ref_env (removeEmpty (L := ly_ref) 1000 Top [empty_operation; real_operation] 0)).2 = Throw (ELogic "out of fuel").
Proof.
  assert (erases (L := ly_ref) ref_env) as He by (split; [done|intros n; by exists (full n)]).
  split.
  - refine (proj1 (removeEmpty_terminates (L := ly_ref) ref_env Top [empty_operation; unknown_origin] He) eq_refl 3 _).
    simpl. lia.
  - exact (proj2 (removeEmpty_terminates (L := ly_ref) ref_env Top [empty_operation; real_operation] He) eq_refl 1000).
Defined.

(** ** A notification inside a list inside a container *)
Definition forest : Forest (L := ly_ref) := mkForest (L := ly_ref) up Reset Establish "wrapped".
Definition forest_env (c : Cmd ly_ref) : M (Answer c) :=
  match c return M (Answer c) with
  | LyParent n => Ok (up n)
  | LyNewOpaqueJSON _ _ name _ | LyNewOpaqueXML _ _ name _ =>
      Ok (Some (if decide (name = "notification") then Reset else Establish))
  | LyInsertChild _ _ => Ok tt
  | LyPrintStr _ _ _ => Ok (Some "wrapped")
  | c => ref_env c
  end.
Lemma up_well_founded : well_founded (flip (parent_step (L := ly_ref) forest)).
Proof. intros n. destruct n; repeat (constructor; intros ? [=]; subst). Qed.

Lemma as_restconf_notification_terminates_witness :
  ∃ root k, rtc (parent_step (L := ly_ref) forest) LstName root ∧ up root = None ∧
    ∀ fuel t r, k < fuel →
      runs (as_restconf_notification (L := ly_ref) (λ _, "2024-01-01T00:00:00Z") fuel JSON LstName 0) t r →
      all_lawful (changes_next (L := ly_ref)) (forest_answers (L := ly_ref) forest) [] t →
      r = Ok "wrapped" ∧
      tree_changes t =
        [Ev (LyInsertChild (L := ly_ref) Reset Establish) (Ok tt);
         Ev (LyInsertChild (L := ly_ref) Reset root) (Ok tt);
         Ev (LyPrintStr (L := ly_ref) Reset JSON [PSiblings; PEmptyContainers]) (Ok (Some "wrapped"));
         Ev (LyUnlink (L := ly_ref) root) (Ok tt)].
Proof.
  exact (as_restconf_notification_terminates (L := ly_ref) (λ _, "2024-01-01T00:00:00Z") forest LstName JSON 0
           up_well_founded).
Defined.
(** The run with three rounds of the climb *)
Example wrapped_run :
  (interp forest_env (as_restconf_notification (L := ly_ref) (λ _, "2024-01-01T00:00:00Z") 3 JSON LstName 0)).2
  = Ok "wrapped".
Proof. vm_compute. reflexivity. Qed.

(** ** Opening a stream that starts in the past *)
Definition opened : list (Event ly_ref) * M unit :=
  interp ref_env (createStream (L := ly_ref) (tt : @Context ly_ref) (Some "/example:ev") (Some (-5)%Z) (Some 7%Z)).
Lemma createStream_subscribes_witness :
  opened.2 = Ok tt ∧ (asked opened.1).*1 = ["example"; "aug"] ∧
  (∃ now t', opened.1 = Ev ClockNow (Ok now) :: t' ∧ (-5 ≤ now)%Z).
Proof.
  assert (opened.2 = Ok tt) as Ho by (vm_compute; reflexivity).
  destruct (proj2 (createStream_subscribes (L := ly_ref) (tt : @Context ly_ref) (Some "/example:ev") (Some (-5)%Z) (Some 7%Z)
                     opened.1 opened.2 (interp_runs _ _)) Ho) as ([Ha _] & now & t' & Ht & Hs & _).
  split; [exact Ho|]. split; [exact Ha|]. exists now, t'. split; [exact Ht|]. by apply Hs.
Defined.

(** ** The location of a module *)
Definition entry : ModuleEntry (L := ly_ref) :=
  mkEntry (L := ly_ref) Top [Tags] "/ietf-yang-library:yang-library/module-set[name='complete']/module[name='example']"
    LstName "example" (Some (LstId, "2019-01-04")).
Definition entry_env (c : Cmd ly_ref) : M (Answer c) :=
  match c return M (Answer c) with
  | LyFindXPath n _ => Ok [Tags]
  | LyFindPath n p => Ok (if decide (p = "name") then Some LstName else Some LstId)
  | LyValueStr n => Ok (if decide (n = LstName) then "example" else "2019-01-04")
  | LyNodePath n => Ok (entry_path entry)
  | LyNodeNewPath n _ _ => Ok (Some n)
  | c => ref_env c
  end.
Lemma entry_env_answers s c : entry_answers (L := ly_ref) entry s (Ev c (entry_env c)).
Proof. destruct c; simpl; naive_solver. Qed.
Definition module_run : list (Event ly_ref) * M unit :=
  interp entry_env (replaceModuleLocation (L := ly_ref) (Some "https://h") "/yang/" Top).
Lemma schema_location_roundtrip_witness :
  leaves_created module_run.1 = [("location", "https://h/yang/example@2019-01-04")] ∧
  ∃ leaf p, module_run.2 = Ok tt ∧ leaves_created module_run.1 = [(leaf, "https://h" +:+ p)] ∧
    asYangModule (X := x3_ref) (L := ly_ref) (tt : @Context ly_ref) p =
      Ok (getModuleOrSubmodule (L := ly_ref) (tt : @Context ly_ref) "example" (Some "2019-01-04")).
Proof.
  split; [vm_compute; reflexivity|].
  apply (schema_location_roundtrip (X := x3_ref) (HX := x3_ref_laws) (L := ly_ref) (tt : @Context ly_ref) entry "https://h"
           module_run.1 module_run.2).
  - reflexivity.
  - intros v [= <-]. by apply (revision_intro "2019" "01" "04").
  - discriminate.
  - apply interp_runs.
  - apply interp_lawful. intros s c. apply entry_env_answers.
Defined.

(** ** The list of streams; the location of the JSON access node is rewritten. *)
Definition stored (n : snode) : string := storedLocation JSON.
Definition list_env (c : Cmd ly_ref) : M (Answer c) :=
  match c return M (Answer c) with
  | SrModuleReplaySupport m => Ok (bool_decide (m = "aug"), Some 5%Z)
  | LyNewPath _ _ => Ok Top
  | LyValueStr n => Ok (stored n)
  | c => ref_env c
  end.
Definition replays (m : string) : bool * option Z := (bool_decide (m = "aug"), Some 5%Z).
Lemma list_env_answers s c : list_answers (L := ly_ref) replays id stored s (Ev c (list_env c)).
Proof. destruct c; simpl; eauto. Qed.
Definition list_run : list (Event ly_ref) * M snode :=
  interp list_env (notificationStreamList (L := ly_ref) (tt : @Context ly_ref) (λ _, "2024-01-01T00:00:00Z") (Some Top) "/streams/").
Definition location_run : list (Event ly_ref) * M unit :=
  interp list_env (replaceStreamLocation (L := ly_ref) (Some "https://h") Tags).
Lemma published_streams_lead_back_witness :
  leaves_created location_run.1 = [("location", "https://h/streams/NETCONF/JSON")] ∧
  (∃ info, replay_of replays ["example"; "aug"] info ∧
     leaves_created list_run.1 = streamLeaves (λ _, "2024-01-01T00:00:00Z") info) ∧
  ∃ p, leaves_created location_run.1 = [("location", "https://h" +:+ p)] ∧
    asRestconfStreamRequest (X := x3_ref) "GET" p "" = Ok (UriGrammar.NotificationStream (mkNotif "NETCONF" JSON [])).
Proof.
  split; [vm_compute; reflexivity|].
  destruct (published_streams_lead_back (X := x3_ref) (HX := x3_ref_laws) (L := ly_ref) (tt : @Context ly_ref)
           (λ _, "2024-01-01T00:00:00Z") replays id stored Top Tags "https://h" list_run.1 location_run.1 list_run.2 location_run.2)
    as [Hl Hp].
  - apply interp_runs.
  - apply interp_lawful. intros s c. apply list_env_answers.
  - apply interp_runs.
  - apply interp_lawful. intros s c. apply list_env_answers.
  - split; [exact Hl|]. exact (Hp JSON eq_refl).
Defined.

(** ** POST with a position *)
Definition insert_query : string := "insert=after&point=/example:top/lst=a,1".
Definition insert_request : M (RestconfRequest) :=
  asRestconfRequest (X := x3_ref) (L := ly_ref) (tt : @Context ly_ref) "POST" "/restconf/data/example:top" insert_query.
Lemma query_parameters_typed_witness :
  is_ok insert_request = true ∧
  ∀ r, insert_request = Ok r →
    ∃ position, insertPosition (queryParams r) After = Ok position ∧ well_placed position.
Proof.
  split; [vm_compute; reflexivity|]. intros r Hr.
  destruct (proj1 (query_parameters_typed (X := x3_ref) (HX := x3_ref_laws) (L := ly_ref) (HL := ly_ref_laws)
                     (tt : @Context ly_ref) "POST" "/restconf/data/example:top" insert_query) r Hr) as (_ & _ & _ & Hi).
  apply Hi. revert Hr. unfold insert_request.
  assert ((queryParams <$> insert_request) =
    Ok [("insert", After); ("point", PointParsed [mkSeg (mkApi (Some "example") "top") []; mkSeg (mkApi None "lst") ["a"; "1"]])])
    as Hq by (vm_compute; reflexivity).
  intros Hr. unfold insert_request in Hq. rewrite Hr in Hq. by injection Hq as ->.
Defined.

End StreamSample.
