(* ===== verification/Startup.v ===== *)
(** * Startup: the program itself ([restconf/main.cpp], the constructor of [restconf/Server.cpp])

    [main] reads the command line, chooses where the log goes, selects the locale the grammars of URIs
    rest on, connects to sysrepo and constructs the server; then it waits until a signal stops the server.
    What the program asks of the system is an [Action]; the answers are those of a [Host].  The first part
    is a function from a host to the actions performed and a result, the second a step
    relation of the process, in which streams and subscriptions go on while the main thread waits. *)

From S2P Require Import Prelude Exceptions UriTypes Uuid X3 UriQueryFacts Libyang YangUtils DynamicSubscriptions DynamicSubscriptionsFacts EventStream Effects SrEvents Server ServerLife ServerSample.

Close Scope prog_scope.

(** ** The system *)

(** docopt: the values of a parsed command line.  [docopt::docopt] leaves the program after
    [--help] and on arguments that do not match the usage. *)
Class Docopt : Type := {
  value : Type;
  no_value : value;                     (** default constructed *)
  is_set : value → bool;                (** [operator bool] *)
  asLong : value → M Z;
  asBool : value → M bool;
  docopt : string → list string → bool → string → bool → (gmap string value) + Z
}.

Inductive Level := LTrace | LDebug | LInfo | LWarn | LErr | LCritical | LOff.
Inductive Syslog := LOG_ALERT | LOG_CRIT | LOG_ERR | LOG_WARNING | LOG_NOTICE | LOG_INFO | LOG_DEBUG.

(** [journald_sink]: the table of the constructor, and the entry a level gets *)
Definition syslog_levels : list Syslog :=
  [LOG_DEBUG; LOG_INFO; LOG_NOTICE; LOG_WARNING; LOG_ERR; LOG_CRIT; LOG_ALERT].
Definition level_index (l : Level) : nat :=
  match l with LTrace => 0 | LDebug => 1 | LInfo => 2 | LWarn => 3 | LErr => 4 | LCritical => 5 | LOff => 6 end.
Definition syslog_level (l : Level) : option Syslog := syslog_levels !! level_index l.

Inductive Sink := SyslogSink (ident : string) | JournaldSink (levels : list Syslog) | StdoutSink.

(** The handlers of the constructor *)
Inductive Handler := NotFoundHandler | HostMetaHandler | OpticsHandler | StreamsHandler | YangSchemaHandler | RestconfHandler.

Section host.
Context {L : Libyang}.

Inductive Action :=
| SetDefaultLogger (s : Sink)
| SetLevel (l : Level)
| SetLocale (locale : string)                         (** [LC_CTYPE] *)
| SetGlobalContextOptions (flags : list string)
| Connect
| SessionStart (d : option Datastore)
| NacmListen                                          (** the constructor of [Nacm] *)
| NumThreads (n : nat)
| ReadTimeout (seconds : nat)
| Perform (t : list (Event L))                        (** calls of libyang and sysrepo *)
| OnOperGet (module path : string)
| ConnectOptics                                       (** [dwdmEvents->change.connect] *)
| Handle (path : string) (handler : Handler)
| Listen (address port : string)
| AwaitSignals (signals : list string).

Record Host := mkHost {
  getenv : string → option string;
  fstat : nat → option (N * N);                       (** [st_dev] and [st_ino] *)
  setlocale : string → bool;
  connect : M unit;                                   (** the constructor of [sysrepo::Connection] *)
  sessionStart : option Datastore → M unit;
  nacm : M unit;
  onOperGet : string → string → M unit;
  performs : ∀ A, prog L A → list (Event L) * M A;
  listen_and_serve : string → string → option string  (** the message of the error *)
}.
End host.
Arguments Action L : clear implicits.
Arguments Host L : clear implicits.

(** ** Reading numbers *)

Definition u64 (n : N) : N := (n mod 2 ^ 64)%N.
(** The conversion [%ju] of [sscanf]: white space, a sign and digits.  A value the object
    cannot hold is undefined behaviour. *)
Definition scan_sign (s : string) : bool * string :=
  match s with
  | String c r => if is_char "-" c then (true, r) else if is_char "+" c then (false, r) else (false, s)
  | "" => (false, s)
  end.
Definition scan_uintmax (s : string) : M (option (N * string)) :=
  let '(negative, s) := scan_sign (span is_space s).2 in
  let '(digits, rest) := span is_digit s in
  if decide (digits = "") then Ok None
  else
    let n := digits_value digits in
    if decide (n < 2 ^ 64)%N then Ok (Some (if negative then u64 (2 ^ 64 - n) else n, rest))
    else undefined "sscanf: value out of range".
(** [sscanf(s, "%ju:%ju", &dev, &inode)]: [None] unless it assigns both. *)
Definition scan_stream (s : string) : M (option (N * N)) :=
  scanned ← scan_uintmax s;
  match scanned with
  | Some (dev, String c rest) =>
      if is_char ":" c then
        inode ← scan_uintmax rest;
        Ok (match inode with Some (inode, _) => Some (dev, inode) | None => None end)
      else Ok None
  | _ => Ok None
  end.

(** ** Code that performs actions and may throw *)

Definition boot (L : Libyang) (A : Type) : Type := list (Action L) → list (Action L) * M A.
#[global] Typeclasses Opaque boot.

Section boot.
Context {L : Libyang}.
#[global] Instance boot_ret : MRet (boot L) := λ A a t, (t, Ok a).
#[global] Instance boot_bind : MBind (boot L) := λ A B f m t,
  match m t with (t, Ok a) => f a t | (t, Throw e) => (t, Throw e) end.
(** An action, and the answer of the system *)
Definition act {A} (a : Action L) (answer : M A) : boot L A := λ t, (t ++ [a], answer).
Definition tell (a : Action L) : boot L unit := act a (Ok tt).
Definition pure {A} (m : M A) : boot L A := λ t, (t, m).
Definition perform (h : Host L) {A} (p : prog L A) : boot L A :=
  act (Perform (performs h A p).1) (performs h A p).2.
End boot.

Section startup.
Context {L : Libyang} {LM : LibyangMore L} {U : UuidLib} {O : Docopt}.
Context (h : Host L) (ctx : Context) (HAVE_SYSTEMD : bool).

(** ** [is_journald_active] *)

Definition STDERR_FILENO : nat := 2.
Definition is_journald_active : M bool :=
  match getenv h "JOURNAL_STREAM" with
  | None => Ok false
  | Some stream =>
      scanned ← scan_stream stream;
      match scanned, fstat h STDERR_FILENO with
      | Some (dev, inode), Some (st_dev, st_ino) =>
          Ok (bool_decide (u64 st_dev = dev) && bool_decide (u64 st_ino = inode))
      | _, _ => Ok false
      end
  end.

(** ** [main], until it waits *)

Definition usage : string :=
"Rousette - RESTCONF server
Usage:
  rousette [--syslog] [--timeout <SECONDS>] [--help]
Options:
  -h --help                         Show this screen.
  -t --timeout <SECONDS>            Change default timeout in sysrepo (if not set, use sysrepo internal).
  --syslog                          Log to syslog.
".

(** [args[name]]: the entry is made if there is none. *)
Definition arg (args : gmap string value) (name : string) : value := default no_value (args !! name).

(** The product is one of [long], and nothing checks it: on overflow, which is undefined in C++, the machine wraps
    around and the program goes on. *)
Definition signed64 (n : Z) : Z := ((n + 2 ^ 63) mod 2 ^ 64 - 2 ^ 63)%Z.
Definition seconds_to_ms (seconds : Z) : Z := signed64 (seconds * 1000).
Definition main_timeout (args : gmap string value) : M Z :=
  if is_set (arg args "--timeout") then seconds ← asLong (arg args "--timeout"); Ok (seconds_to_ms seconds)
  else Ok 0%Z.
Definition chooseSink (args : gmap string value) : M Sink :=
  syslog ← asBool (arg args "--syslog");
  if syslog : bool then Ok (SyslogSink "rousette")
  else if HAVE_SYSTEMD then
    journald ← is_journald_active;
    Ok (if journald : bool then JournaldSink syslog_levels else StdoutSink)
  else Ok StdoutSink.

(** The constructor of the server: the members in the order of their declaration, the body.  The
    default of [subNotifInactivityTimeout] only configures a timer. *)
Definition handlers : list (string * Handler) :=
  [("/", NotFoundHandler); ("/.well-known/host-meta", HostMetaHandler); ("/telemetry/optics", OpticsHandler);
   (netconfStreamRoot, StreamsHandler); (yangSchemaRoot, YangSchemaHandler); (restconfRoot, RestconfHandler)].
Fixpoint handleAll (l : list (string * Handler)) : boot L unit :=
  match l with
  | [] => mret tt
  | (path, handler) :: l => _ ← tell (Handle path handler); handleAll l
  end.
Definition newServer (address port : string) : boot L (OpticalEvents * Server) :=
  _ ← act (SessionStart (Some Operational)) (sessionStart h (Some Operational));
  _ ← act NacmListen (nacm h);
  _ ← act (SessionStart None) (sessionStart h None);
  dwdmEvents ← perform h newOpticalEvents;
  _ ← tell (NumThreads 1);
  _ ← tell (ReadTimeout 60);
  _ ← perform h (startServer ctx);
  _ ← act (OnOperGet "ietf-restconf-monitoring" "/ietf-restconf-monitoring:restconf-state/streams/stream")
        (onOperGet h "ietf-restconf-monitoring" "/ietf-restconf-monitoring:restconf-state/streams/stream");
  _ ← tell ConnectOptics;
  _ ← handleAll handlers;
  _ ← act (Listen address port)
        (match listen_and_serve h address port with
         | Some message => Throw (ERuntime ("Server error: " +:+ message))
         | None => Ok tt
         end);
  mret (dwdmEvents, mkServer empty_world [] 0 0 false).

(** The program leaves before it serves, or the main thread goes on to wait. *)
Inductive Started := Exits (status : Z) | Serves (timeout : Z) (ev : OpticalEvents) (server : Server).

Definition main (argv : list string) : boot L Started :=
  match docopt usage argv true "" true with
  | inr status => mret (Exits status)
  | inl args =>
      timeout ← pure (main_timeout args);
      sink ← pure (chooseSink args);
      _ ← tell (SetDefaultLogger sink);
      _ ← tell (SetLevel LTrace);
      _ ← act (SetLocale "C.UTF-8") (throw_if (negb (setlocale h "C.UTF-8")) (ERuntime "Could not set locale C.UTF-8"));
      _ ← tell (SetGlobalContextOptions ["LibYangPrivParsed"; "NoPrinted"]);
      _ ← act Connect (connect h);
      started ← newServer "::1" "10080";
      _ ← tell (AwaitSignals ["SIGTERM"; "SIGINT"]);
      mret (Serves timeout started.1 started.2)
  end.

(** ** What starting does *)

(** What the session is asked is what the programs ask, whatever the answers. *)
Definition HostLaws : Prop := ∀ A (p : prog L A), runs p (performs h A p).1 (performs h A p).2.

Lemma startServer_checks t : runs (startServer ctx) t (Ok tt) → Forall (λ m, checkModule ctx m = Ok tt) requiredModules.
Proof.
  unfold startServer. intros Hr. apply for_each_Ok.
  destruct (for_each (checkModule ctx) requiredModules) as [[]|e]; [done|]. by destruct Hr.
Qed.

(** The actions of a start that succeeds *)
Definition startActions (sink : Sink) (optics startup : list (Event L)) : list (Action L) :=
  [SetDefaultLogger sink; SetLevel LTrace; SetLocale "C.UTF-8";
   SetGlobalContextOptions ["LibYangPrivParsed"; "NoPrinted"]; Connect;
   SessionStart (Some Operational); NacmListen; SessionStart None; Perform optics; NumThreads 1; ReadTimeout 60;
   Perform startup;
   OnOperGet "ietf-restconf-monitoring" "/ietf-restconf-monitoring:restconf-state/streams/stream"; ConnectOptics] ++
  ((λ p, Handle p.1 p.2) <$> handlers) ++ [Listen "::1" "10080"; AwaitSignals ["SIGTERM"; "SIGINT"]].

(** [ms] is the number of seconds in milliseconds, as far as 64 bits go. *)
Definition milliseconds_of (seconds ms : Z) : Prop :=
  (∃ k, ms = seconds * 1000 + k * 2 ^ 64)%Z ∧ (- 2 ^ 63 ≤ ms < 2 ^ 63)%Z ∧
  ((- 9223372036854775 ≤ seconds ≤ 9223372036854775)%Z → ms = (seconds * 1000)%Z).
Lemma seconds_to_ms_spec seconds : milliseconds_of seconds (seconds_to_ms seconds).
Proof.
  unfold milliseconds_of, seconds_to_ms, signed64. set (n := (seconds * 1000)%Z).
  pose proof (Z.mod_pos_bound (n + 2 ^ 63) (2 ^ 64)) as Hb. pose proof (Z.div_mod (n + 2 ^ 63) (2 ^ 64)) as Hd.
  split_and!; [exists (- ((n + 2 ^ 63) / 2 ^ 64))%Z; lia|lia..|].
  intros Hs. rewrite Z.mod_small by (unfold n; lia). lia.
Qed.
Lemma main_timeout_Ok args ms :
  main_timeout args = Ok ms →
  if is_set (arg args "--timeout") then
    ∃ seconds, asLong (arg args "--timeout") = Ok seconds ∧ milliseconds_of seconds ms
  else ms = 0%Z.
Proof.
  unfold main_timeout. destruct (is_set _); [|by intros [= <-]].
  destruct (asLong _) as [seconds|e]; [|done]. cbn. intros [= <-]. eauto using seconds_to_ms_spec.
Qed.
(** A timeout that is too long is a negative number of milliseconds, and the program starts with it. *)
Theorem timeout_overflows (args : gmap string value) (seconds : Z) :
  is_set (arg args "--timeout") = true → asLong (arg args "--timeout") = Ok seconds →
  (9223372036854775 < seconds ≤ 18446744073709551)%Z →
  ∃ ms, main_timeout args = Ok ms ∧ (ms < 0)%Z.
Proof.
  intros Hs Ha Hb. unfold main_timeout. rewrite Hs, Ha. eexists. split; [done|].
  destruct (seconds_to_ms_spec seconds) as ((k & Hk) & Hr & _). assert (k ≤ -1)%Z by lia. lia.
Qed.

(** ** journald

    systemd documents [JOURNAL_STREAM] as the device and inode numbers, in decimal, separated by a colon. *)
Lemma pretty_digits (n : N) : str_forall is_digit (pretty n) = true ∧ digits_value (pretty n) = n ∧ pretty n ≠ "".
Proof. destruct (decide (n = 0)%N) as [->|]; [done|]. apply pretty_N_digits. lia. Qed.
Lemma scan_uintmax_pretty (n : N) r :
  (n < 2 ^ 64)%N → head_is is_digit r = false → scan_uintmax (pretty n +:+ r) = Ok (Some (n, r)).
Proof.
  intros Hn Hr. destruct (pretty_digits n) as (Hd & Hv & Hne). unfold scan_uintmax.
  destruct (pretty n) as [|c ds] eqn:E; [done|].
  assert (is_digit c = true) as Hc by (by apply andb_true_iff in Hd as [? _]).
  assert (∀ d, is_digit d = true → is_space d = false ∧ is_char "-" d = false ∧ is_char "+" d = false) as Hdig by by_all_chars.
  destruct (Hdig c Hc) as (Hs & Hm & Hp). rewrite str_app_cons. cbn [span]. rewrite Hs. cbn [snd scan_sign].
  rewrite Hm, Hp. rewrite <- str_app_cons, (span_app _ _ _ Hd Hr). cbv beta iota. rewrite decide_False by done.
  rewrite Hv. by rewrite decide_True.
Qed.
(** The log goes to journald exactly if the file journald is connected to is the standard error output. *)
Theorem is_journald_active_spec (dev inode st_dev st_ino : N) :
  (dev < 2 ^ 64)%N → (inode < 2 ^ 64)%N → (st_dev < 2 ^ 64)%N → (st_ino < 2 ^ 64)%N →
  getenv h "JOURNAL_STREAM" = Some (pretty dev +:+ ":" +:+ pretty inode) → fstat h STDERR_FILENO = Some (st_dev, st_ino) →
  is_journald_active = Ok (bool_decide (st_dev = dev ∧ st_ino = inode)).
Proof.
  intros Hd Hi Hsd Hsi Hg Hf. unfold is_journald_active, scan_stream. rewrite Hg, Hf.
  rewrite scan_uintmax_pretty by done. rewrite bind_Ok. rewrite str_app_cons, is_char_refl, str_app_nil_l.
  rewrite <- (str_app_nil_r (pretty inode)), scan_uintmax_pretty by done. rewrite !bind_Ok.
  unfold u64. rewrite !N.mod_small by done. by rewrite bool_decide_and.
Qed.

(** Nothing listens before the last action. *)
Ltac not_listening :=
  let Hin := fresh "Hin" in
  intros ? ? Hin; exfalso; repeat (apply elem_of_cons in Hin as [Hin|Hin]; [discriminate|]); by apply elem_of_nil in Hin.

(** C30: starting the program.  It listens, on [[::1]]:10080, only after the log has a sink, the locale the
    URI grammars rest on is set and every module it needs is found with its features, and then
    waits for SIGTERM and SIGINT.  The timeout is the number of seconds asked for in milliseconds, if that fits 64 bits,
    and otherwise what remains of it modulo [2^64], as nothing checks it ([timeout_overflows]).  The arguments docopt rejects end the program with no effect, and an exception leaves it without a
    server, the last one being that of listening itself. *)
Theorem main_starts (argv : list string) :
  HostLaws →
  let '(t, r) := main argv [] in
  match r with
  | Ok (Exits status) => docopt usage argv true "" true = inr status ∧ t = []
  | Ok (Serves timeout ev server) =>
      ∃ args sink optics startup,
        docopt usage argv true "" true = inl args ∧ t = startActions sink optics startup ∧
        chooseSink args = Ok sink ∧ setlocale h "C.UTF-8" = true ∧
        Forall (λ m, checkModule ctx m = Ok tt) requiredModules ∧
        runs newOpticalEvents optics (Ok ev) ∧ server = mkServer empty_world [] 0 0 false ∧
        if is_set (arg args "--timeout") then
          ∃ seconds, asLong (arg args "--timeout") = Ok seconds ∧ milliseconds_of seconds timeout
        else timeout = 0%Z
  | Throw e =>
      ∀ address port, Listen address port ∈ t →
        ∃ message, listen_and_serve h address port = Some message ∧ e = ERuntime ("Server error: " +:+ message)
  end.
Proof.
  intros Hh. unfold main. destruct (docopt _ _ _ _ _) as [args|status] eqn:Hargs; [|done].
  unfold newServer, perform, tell, act, pure, mbind, boot_bind.
  pose proof (Hh _ newOpticalEvents) as Hev. pose proof (Hh _ (startServer ctx)) as Hst.
  destruct (main_timeout args) as [ms|e] eqn:Ht; [|by intros ?? []%elem_of_nil].
  destruct (chooseSink args) as [sink|e] eqn:Hs; [|by intros ?? []%elem_of_nil].
  destruct (setlocale h _) eqn:Hl; cbn -[handlers newOpticalEvents startServer elem_of]; [|not_listening].
  destruct (connect h) as [[]|e]; cbn -[handlers newOpticalEvents startServer elem_of]; [|not_listening].
  destruct (sessionStart h (Some Operational)) as [[]|e]; cbn -[handlers newOpticalEvents startServer elem_of]; [|not_listening].
  destruct (nacm h) as [[]|e]; cbn -[handlers newOpticalEvents startServer elem_of]; [|not_listening].
  destruct (sessionStart h None) as [[]|e]; cbn -[handlers newOpticalEvents startServer elem_of]; [|not_listening].
  destruct (performs h _ newOpticalEvents) as [optics [ev|e]]; cbn -[handlers startServer elem_of]; [|not_listening].
  destruct (performs h _ (startServer ctx)) as [startup [[]|e]]; cbn -[handlers elem_of]; [|not_listening].
  destruct (onOperGet h _ _) as [[]|e]; cbn -[elem_of]; [|not_listening].
  destruct (listen_and_serve h _ _) as [message|] eqn:Hlis; cbn -[elem_of].
  - intros address port Hin. repeat (apply elem_of_cons in Hin as [Hin|Hin]; [simplify_eq; eauto|]). by apply elem_of_nil in Hin.
  - exists args, sink, optics, startup. split_and!; try done; [by eapply startServer_checks|by apply main_timeout_Ok].
Qed.
End startup.

(** ** The process

    The main thread waits in [join]; the thread of the HTTP library handles requests, which open and
    close streams and change the subscriptions, and the signals.  [async_wait] waits once, so a
    second signal has no handler.  After [join] the destructors run and [main] returns.  An exception no
    handler of a request catches ends the thread of the library; [join] throws it, and nothing in [main] catches it. *)

Section process.
Context {U : UuidLib} {timestamp anydata : Type}.
Context (fromYangTimeFormat : string → M timestamp) (yangTimeFormat : timestamp → string).
Context (subscribeNotifications : DynamicSubscriptions.World → option (string + anydata) → string → option timestamp →
       option timestamp → M (N * option timestamp)).
Context (recoveryUser restconfStreamUri : string).

Abbreviation subs_step :=
  (DynamicSubscriptionsFacts.step recoveryUser fromYangTimeFormat yangTimeFormat subscribeNotifications restconfStreamUri).
Abbreviation subs_reachable :=
  (DynamicSubscriptionsFacts.reachable recoveryUser fromYangTimeFormat yangTimeFormat subscribeNotifications restconfStreamUri).

(** [armed]: the handler of the signals is registered.  [status]: what [main] has returned or thrown *)
Record Process := mkProcess { process_server : Server; armed : bool; status : option (M Z) }.
Definition with_subs (w : DynamicSubscriptions.World) (s : Server) : Server :=
  mkServer w (event_streams s) (stop_tasks s) (waits s) (joined s).
Definition with_streams (ws : list EventStream.World) (s : Server) : Server :=
  mkServer (subs s) ws (stop_tasks s) (waits s) (joined s).

Inductive process_step : Process → Process → Prop :=
| process_subs s a w : subs_step (subs s) w → process_step (mkProcess s a None) (mkProcess (with_subs w s) a None)
| process_open s a initialEvent :
    process_step (mkProcess s a None) (mkProcess (with_streams (event_streams s ++ [initial initialEvent]) s) a None)
| process_stream s a i w w' :
    event_streams s !! i = Some w → EventStream.step w w' →
    process_step (mkProcess s a None) (mkProcess (with_streams (<[i := w']> (event_streams s)) s) a None)
| process_signal s : process_step (mkProcess s true None) (mkProcess (stopServer s) false None)
| process_return s a s1 s2 :
    join s = Some s1 → destroyServer s1 = Some s2 → process_step (mkProcess s a None) (mkProcess s2 false (Some (Ok 0%Z)))
| process_uncaught s a e : process_step (mkProcess s a None) (mkProcess s false (Some (Throw e))).

(** After [signals.async_wait] *)
Definition process_start : Process := mkProcess (mkServer empty_world [] 0 0 false) true None.

(** No response stays open: the stream is closed, or at its end with the next read *)
Definition stream_ends (w : EventStream.World) : Prop :=
  reachable w ∧ (state (es w) = Closed ∨ eof w = true ∨ ∀ len, eof (read_step (wake w) len) = true).
Definition server_ended (s : Server) : Prop :=
  (∀ l d, heap (subs s) !! l = Some d →
     isReadyToAcceptClient d = false ∧ (in_registry (subs s) l → timer d = Idle)) ∧
  Forall stream_ends (event_streams s) ∧ waits s = 1.

Record process_inv (p : Process) : Prop := {
  pi_subs : subs_reachable (subs (process_server p));
  pi_streams : Forall reachable (event_streams (process_server p));
  pi_status :
    match status p with
    | Some (Ok z) => z = 0%Z ∧ server_ended (process_server p)
    | Some (Throw _) => armed p = false
    | None => stop_tasks (process_server p) = (if armed p then 0 else 1) ∧ waits (process_server p) = 0 ∧
              joined (process_server p) = false
    end
}.

Lemma stopServer_subs_reachable s : subs_reachable (subs s) → subs_reachable (subs (stopServer s)).
Proof.
  intros H. cbn [subs stopServer]. eapply rtc_r; [|apply DynamicSubscriptionsFacts.step_stop]. unfold terminate_streams.
  generalize (List.seq 0 (length (streams (subs s)))) as is_. revert H. generalize (subs s) as w. clear s.
  intros w Hw is_. revert w Hw. induction is_ as [|i is_ IH]; intros w Hw; simpl; [done|].
  apply IH. eapply rtc_r; [exact Hw|apply DynamicSubscriptionsFacts.step_terminate].
Qed.
Lemma stopServer_streams_reachable s :
  Forall reachable (event_streams s) → Forall reachable (event_streams (stopServer s)).
Proof.
  intros H. cbn [event_streams stopServer]. apply Forall_fmap. eapply Forall_impl; [exact H|].
  intros w. apply shutdown_stream_reachable.
Qed.

Lemma process_step_inv p p' : fresh_ids subscribeNotifications → process_inv p → process_step p p' → process_inv p'.
Proof.
  intros Hf [Hs He Hst] Hp. destruct Hp as [s a w Hw|s a e|s a i w w' Hi Hw|s|s a s1 s2 H1 H2|s a e]; cbn in Hs, He, Hst.
  - split; cbn; [by eapply rtc_r|done|done].
  - split; cbn; [done| |done]. apply Forall_app. split; [done|]. constructor; [by exists e|done].
  - split; cbn; [done| |done]. apply Forall_insert; [done|]. eapply Forall_lookup_1 in He as [e He]; [|exact Hi].
    exists e. by eapply rtc_r.
  - split; cbn [process_server armed status]; [by apply stopServer_subs_reachable|by apply stopServer_streams_reachable|].
    cbn. destruct Hst as (-> & ? & ?). done.
  - unfold join, http_join in H1. case_decide as Ht; [done|]. cbn in H1. injection H1 as <-.
    unfold destroyServer in H2. cbn in H2. injection H2 as <-. destruct Hst as (Hk & Hw & _).
    set (s1 := mkServer (subs s) (event_streams s) (stop_tasks s) (S (waits s)) true).
    assert (subs_reachable (subs s1)) as Hr1 by done. assert (Forall reachable (event_streams s1)) as Hr2 by done.
    destruct (stopServer_ends fromYangTimeFormat yangTimeFormat subscribeNotifications recoveryUser restconfStreamUri s1 Hf Hr1 Hr2)
      as (Hsub & Hstr & _).
    split; cbn [process_server armed status]; [by apply (stopServer_subs_reachable s1)|by apply (stopServer_streams_reachable s1)|].
    split; [done|]. split; [exact Hsub|]. split; [exact Hstr|]. cbn. by rewrite Hw.
  - by split.
Qed.
Lemma process_inv_reachable p :
  fresh_ids subscribeNotifications → rtc process_step process_start p → process_inv p.
Proof.
  intros Hf H. assert (process_inv process_start) as Hi by (split; cbn; [apply rtc_refl|apply Forall_nil_2|done]).
  induction H; eauto using process_step_inv.
Qed.

(** C29: the process ends when it is told to, and cleanly.  Until a signal arrives [main] does not return whatever the
    clients do, unless a handler lets an exception out, and a signal is handled.  After the signal [main] can
    return in every state the other threads may have reached in between; what it returns is 0, after waiting for the HTTP
    library once, and then every open response ends and no subscription takes a client. *)
Theorem main_ends (p : Process) :
  fresh_ids subscribeNotifications → rtc process_step process_start p →
  match status p with
  | Some (Ok z) => z = 0%Z ∧ server_ended (process_server p)
  | Some (Throw e) => armed p = false
  | None =>
      if armed p then
        (∀ p' z, process_step p p' → status p' ≠ Some (Ok z)) ∧ ∃ p', process_step p p' ∧ armed p' = false ∧ status p' = None
      else ∃ p', process_step p p' ∧ status p' = Some (Ok 0%Z)
  end.
Proof.
  intros Hf H. destruct (process_inv_reachable p Hf H) as [Hs He Hst]. destruct p as [s a [[z|e]|]]; [exact Hst|exact Hst|].
  cbn in *. destruct Hst as (Hk & Hw & Hj). destruct a.
  - split.
    + intros p' z Hp Hz. remember (mkProcess s true None) as q eqn:Hq. destruct Hp; simplify_eq/=; try done.
      match goal with H : join _ = _ |- _ => unfold join, http_join in H; by rewrite decide_True in H end.
    + eexists. split; [apply process_signal|done].
  - eexists. split; [|shelve]. eapply process_return.
    + unfold join, http_join. rewrite decide_False by (rewrite Hk; done). reflexivity.
    + reflexivity.
    Unshelve. done.
Qed.
End process.

(** ** A start that succeeds, and its end *)

Module StartupSample.
Import Example ServerSample.
#[local] Existing Instance uuid_ref.
#[local] Existing Instance ly_ref.

(** [--timeout] takes the length of its argument for a number. *)
#[local] Instance docopt_sample : Docopt := {|
  value := option (bool + string);
  no_value := None;
  is_set v := match v with None => false | _ => true end;
  asLong v := match v with Some (inr s) => Ok (Z.of_nat (String.length s)) | _ => Throw (ERuntime "Illegal cast") end;
  asBool v := match v with Some (inl b) => Ok b | _ => Throw (ERuntime "Illegal cast") end;
  docopt _ argv _ _ _ :=
    match argv with
    | ["--timeout"; s] => inl {[ "--timeout" := Some (inr s); "--syslog" := Some (inl false) ]}
    | [] => inl {[ "--syslog" := Some (inl false) ]}
    | _ => inr (-1)%Z
    end
|}.
Definition host : Host ly_ref := {|
  getenv v := if decide (v = "JOURNAL_STREAM") then Some "8:1234" else None;
  fstat _ := Some (8%N, 1234%N);
  setlocale _ := true;
  connect := Ok tt;
  sessionStart _ := Ok tt;
  nacm := Ok tt;
  onOperGet _ _ := Ok tt;
  performs A p := interp (env (Some Top) Top) p;
  listen_and_serve _ _ := None
|}.
Lemma host_laws : HostLaws host.
Proof. intros A p. apply interp_runs. Qed.
Definition started := main host (tt : @Context ly_ref) true ["--timeout"; "*****"] [].
Definition serves (r : M Started) (ms : Z) : bool :=
  match r with Ok (Serves timeout _ _) => bool_decide (timeout = ms) | _ => false end.
Example started_runs : serves started.2 5000 = true.
Proof. vm_compute. reflexivity. Qed.
Example started_log : hd_error started.1 = Some (SetDefaultLogger (JournaldSink syslog_levels)).
Proof. vm_compute. reflexivity. Qed.

Lemma main_starts_witness :
  ∃ t ev s, started = (t, Ok (Serves 5000 ev s)) ∧ ∃ sink optics startup, t = startActions sink optics startup.
Proof.
  pose proof (main_starts host (tt : @Context ly_ref) true ["--timeout"; "*****"] host_laws) as H.
  pose proof started_runs as Hr. unfold started in *. destruct (main _ _ _ _ []) as [t [[|ms ev s]|]]; try discriminate Hr.
  apply bool_decide_eq_true in Hr as ->. destruct H as (args & sink & optics & startup & _ & Ht & _).
  exists t, ev, s. split; [reflexivity|]. exists sink, optics, startup. exact Ht.
Defined.

Example overflowed : seconds_to_ms 9223372036854776 = (-9223372036854775616)%Z.
Proof. vm_compute. reflexivity. Qed.
Example journald_active : is_journald_active host = Ok true.
Proof. vm_compute. reflexivity. Qed.
Lemma is_journald_active_spec_witness : is_journald_active host = Ok (bool_decide (8 = 8 ∧ 1234 = 1234)%N).
Proof. apply (is_journald_active_spec host 8 1234 8 1234); vm_compute; reflexivity. Defined.

(** A subscription is established and a stream opened before the signal. *)
Definition serving : Server := mkServer Sample.established [initial None] 0 0 false.
Abbreviation sample_step :=
  (process_step (timestamp := string) (anydata := unit) Ok id subscribe_example "root" "/streams/").
Lemma serving_reachable : rtc sample_step process_start (mkProcess serving true None).
Proof.
  destruct Sample.est_Ok as [out H].
  apply (rtc_l _ _ (mkProcess (mkServer Sample.established [] 0 0 false) true None)).
  - apply (process_subs _ _ _ _ _ (mkServer empty_world [] 0 0 false)). eapply step_establish; [|exact H]. done.
  - apply rtc_once. apply (process_open _ _ _ _ _ (mkServer Sample.established [] 0 0 false) true None).
Qed.
Definition stopped : Process := mkProcess (stopServer serving) false None.
Lemma main_ends_witness :
  (∃ p', sample_step stopped p' ∧ status p' = Some (Ok 0%Z)) ∧
  server_ended (stopServer (mkServer (subs (stopServer serving)) (event_streams (stopServer serving)) 1 1 true)).
Proof.
  assert (rtc sample_step process_start stopped) as Hs by (eapply rtc_r; [apply serving_reachable|apply process_signal]).
  split.
  - exact (main_ends (timestamp := string) (anydata := unit) Ok id subscribe_example "root" "/streams/" stopped subscribe_example_fresh Hs).
  - apply (main_ends (timestamp := string) (anydata := unit) Ok id subscribe_example "root" "/streams/" (mkProcess (stopServer (mkServer (subs (stopServer serving)) (event_streams (stopServer serving)) 1 1 true)) false (Some (Ok 0%Z)))
             subscribe_example_fresh).
    eapply rtc_r; [exact Hs|]. eapply process_return; reflexivity.
Defined.
End StartupSample.
